(** * OTML: a shallow embedding of [otml.h] and the properties of its
    value codec, node tree, emitter and parser.

    Conventions of the embedding.
    - [std::string] is [string]; [int] and [std::size_t] are [Z] (the inputs
      considered are far below the 32-bit range, so no overflow is modelled).
    - [OTMLNodePtr] is an index into a heap of nodes; a pointer that may be
      null is an [option ptr].  A [shared_ptr] never dangles, so reading
      through a non-null pointer is total.
    - Exceptions and undefined behaviour are results of the [outcome] type:
      [Throw] for a C++ exception, [Undefined] for a null dereference or an
      out-of-range string access. *)

From Stdlib Require Import ZArith String Ascii List Bool Lia DecimalString.
From stdpp Require Import base list strings.
Import ListNotations.

Local Open Scope string_scope.
Local Open Scope Z_scope.

(** ** Strings *)

Module Str.

Definition nl : ascii := "010"%char.
Definition tab : ascii := "009"%char.
Definition space : ascii := " "%char.
Definition nul : ascii := "000"%char.

(** [std::isspace] in the "C" locale. *)
Definition isspace (c : ascii) : bool :=
  let n := nat_of_ascii c in
  (Nat.eqb n 32 || (Nat.leb 9 n && Nat.leb n 13))%bool.

Definition len (s : string) : Z := Z.of_nat (String.length s).

Fixpoint rev_acc (s acc : string) : string :=
  match s with
  | EmptyString => acc
  | String c r => rev_acc r (String c acc)
  end.

Definition rev (s : string) : string := rev_acc s EmptyString.

(** Erase from the beginning up to the first non-space character. *)
Fixpoint ltrim (s : string) : string :=
  match s with
  | EmptyString => EmptyString
  | String c r => if isspace c then ltrim r else s
  end.

(** Erase from after the last non-space character to the end: the source
    searches with reverse iterators. *)
Definition rtrim (s : string) : string := rev (ltrim (rev s)).

(** [otml_util::trim]. *)
Definition trim (s : string) : string := rtrim (ltrim s).

(** [s.substr(pos)] for [pos <= s.size()]. *)
Fixpoint drop (n : nat) (s : string) : string :=
  match n, s with
  | O, _ => s
  | S n', String _ r => drop n' r
  | S _, EmptyString => EmptyString
  end.

(** [s.substr(0, n)]. *)
Fixpoint take (n : nat) (s : string) : string :=
  match n, s with
  | O, _ => EmptyString
  | S n', String c r => String c (take n' r)
  | S _, EmptyString => EmptyString
  end.

(** [s.find_first_of(c)] and [s.find(c)] for a single character;
    [None] is [npos]. *)
Fixpoint find (c : ascii) (s : string) : option nat :=
  match s with
  | EmptyString => None
  | String d r =>
      if Ascii.eqb d c then Some O
      else match find c r with Some i => Some (S i) | None => None end
  end.

(** [s[i]]: defined for [0 <= i <= s.size()] (the position [size()] reads
    the terminating zero character), out of range otherwise. *)
Definition at_ (s : string) (i : Z) : option ascii :=
  if i <? 0 then None
  else if i =? len s then Some nul
  else String.get (Z.to_nat i) s.

(** [s.erase(i, 1)]. *)
Definition erase1 (s : string) (i : nat) : string :=
  take i s ++ drop (S i) s.

Fixpoint repeat (s : string) (n : nat) : string :=
  match n with
  | O => EmptyString
  | S n' => s ++ repeat s n'
  end.

(** Number of leading space characters. *)
Fixpoint leading_spaces (s : string) : nat :=
  match s with
  | String c r => if Ascii.eqb c space then S (leading_spaces r) else O
  | EmptyString => O
  end.

(** The pieces of a text between its newline characters: what successive
    [std::getline] calls return.  A text always has at least one piece. *)
Fixpoint lines (s : string) : list string :=
  match s with
  | EmptyString => [EmptyString]
  | String c r =>
      if Ascii.eqb c nl then EmptyString :: lines r
      else match lines r with
           | line :: rest => String c line :: rest
           | [] => [String c EmptyString]
           end
  end.

(** Rendering of an [int] by [operator<<]. *)
Definition of_Z (z : Z) : string := NilZero.string_of_int (Z.to_int z).

End Str.

#[global] Arguments Str.trim : simpl never.
#[global] Arguments Str.take : simpl never.
#[global] Arguments Str.drop : simpl never.
#[global] Arguments Str.of_Z : simpl never.

(** ** Outcomes of a computation *)

(** What a C++ exception object of this program holds: [OTMLException]
    carries its message [m_what]; [BadCast] carries nothing. *)
Inductive exn : Type :=
| OTMLException (m_what : string)
| BadCast.

(** Undefined behaviour the program can run into. *)
Inductive ub : Type :=
| NullDereference
| OutOfRange.

Inductive outcome (A : Type) : Type :=
| Ok (a : A)
| Throw (e : exn)
| Undefined (u : ub)
| OutOfFuel.

Arguments Ok {A} a.
Arguments Throw {A} e.
Arguments Undefined {A} u.
Arguments OutOfFuel {A}.

Definition bind {A B : Type} (k : A -> outcome B) (m : outcome A) : outcome B :=
  match m with
  | Ok a => k a
  | Throw e => Throw e
  | Undefined u => Undefined u
  | OutOfFuel => OutOfFuel
  end.

#[global] Instance outcome_bind : MBind outcome := @bind.
#[global] Instance outcome_ret : MRet outcome := @Ok.

(** Reduce the binds of [outcome] and nothing else. *)
Tactic Notation "outcome_simpl" :=
  cbn [mbind mret outcome_bind outcome_ret bind].
Tactic Notation "outcome_simpl" "in" hyp(H) :=
  cbn [mbind mret outcome_bind outcome_ret bind] in H.

(** ** Value codec ([otml_util::cast]) *)

Module otml_util.

(** [validNames[0]] and [validNames[1]]. *)
Definition validNames : list string * list string :=
  (["true"; "yes"; "on"; "1"], ["false"; "no"; "off"; "0"]).

(** The loop of [cast(const std::string&, bool&)] over [i = 0..3]. *)
Fixpoint cast_bool_loop (yes no : list string) (s : string) : option bool :=
  match yes, no with
  | y :: yes', n :: no' =>
      if String.eqb s y then Some true
      else if String.eqb s n then Some false
      else cast_bool_loop yes' no' s
  | _, _ => None
  end.

(** [cast(in, out)]: [Some out] when the source returns [true]. *)
Class Cast (T R : Type) := cast : T -> option R.

#[export] Instance cast_string_string : Cast string string :=
  fun s => Some s.

#[export] Instance cast_string_bool : Cast string bool :=
  fun s => cast_bool_loop (fst validNames) (snd validNames) s.

#[export] Instance cast_bool_string : Cast bool string :=
  fun b => Some (if b then "true" else "false").

(** The generic [cast<T>(const T&, std::string&)] at [T = int]. *)
#[export] Instance cast_int_string : Cast Z string :=
  fun z => Some (Str.of_Z z).

Definition safeCast {T R : Type} `{Cast T R} (t : T) : outcome R :=
  match cast t with
  | Some r => Ok r
  | None => Throw BadCast
  end.

End otml_util.
Import otml_util.


(** ** Exceptions ([OTMLException]) *)

(** [OTMLException(const OTMLNodePtr& node, const std::string& error)];
    [source] is [node->source()]. *)
Definition OTMLException_node (source error : string) : exn :=
  OTMLException
    ("OTML error"
     ++ (if String.eqb source "" then "" else " in '" ++ source ++ "'")
     ++ ": " ++ error).

(** [OTMLException(const OTMLDocumentPtr& doc, const std::string& error,
    int line = -1)]; [doc] is [None] for a null document, else its source. *)
Definition OTMLException_doc (doc : option string) (error : string) (line : Z) : exn :=
  OTMLException
    ("OTML error"
     ++ match doc with
        | Some source =>
            if String.eqb source "" then ""
            else " in '" ++ source ++ "'"
                 ++ (if 0 <=? line then " at line " ++ Str.of_Z line else "")
        | None => ""
        end
     ++ ": " ++ error).

(** ** Node tree ([OTMLNode]) *)

Abbreviation ptr := nat (only parsing).

Record OTMLNode : Type := mkNode {
  m_children : list ptr;
  m_parent : option ptr;
  m_tag : string;
  m_value : string;
  m_source : string;
  m_unique : bool;
  m_null : bool
}.

(** The protected constructor [OTMLNode()]. *)
Definition OTMLNode_new : OTMLNode :=
  {| m_children := []; m_parent := None; m_tag := ""; m_value := "";
     m_source := ""; m_unique := false; m_null := false |}.

#[global] Instance OTMLNode_inhabited : Inhabited OTMLNode := populate OTMLNode_new.

(** The heap of nodes.  Nodes are never freed in the model: a detached node
    stays readable, as it does in the source for whoever still owns it. *)
Abbreviation heap := (list OTMLNode) (only parsing).

Definition deref (h : heap) (p : ptr) : OTMLNode := h !!! p.
Definition update (h : heap) (p : ptr) (f : OTMLNode -> OTMLNode) : heap := alter f p h.
Definition alloc (h : heap) (n : OTMLNode) : heap * ptr := ((h ++ [n])%list, length h).

Module Node.

Definition setTag (tag : string) (n : OTMLNode) : OTMLNode :=
  {| m_children := m_children n; m_parent := m_parent n; m_tag := tag;
     m_value := m_value n; m_source := m_source n; m_unique := m_unique n;
     m_null := m_null n |}.
Definition setValue (value : string) (n : OTMLNode) : OTMLNode :=
  {| m_children := m_children n; m_parent := m_parent n; m_tag := m_tag n;
     m_value := value; m_source := m_source n; m_unique := m_unique n;
     m_null := m_null n |}.
Definition setNull (null : bool) (n : OTMLNode) : OTMLNode :=
  {| m_children := m_children n; m_parent := m_parent n; m_tag := m_tag n;
     m_value := m_value n; m_source := m_source n; m_unique := m_unique n;
     m_null := null |}.
Definition setUnique (unique : bool) (n : OTMLNode) : OTMLNode :=
  {| m_children := m_children n; m_parent := m_parent n; m_tag := m_tag n;
     m_value := m_value n; m_source := m_source n; m_unique := unique;
     m_null := m_null n |}.
Definition setParent (parent : option ptr) (n : OTMLNode) : OTMLNode :=
  {| m_children := m_children n; m_parent := parent; m_tag := m_tag n;
     m_value := m_value n; m_source := m_source n; m_unique := m_unique n;
     m_null := m_null n |}.
Definition setSource (source : string) (n : OTMLNode) : OTMLNode :=
  {| m_children := m_children n; m_parent := m_parent n; m_tag := m_tag n;
     m_value := m_value n; m_source := source; m_unique := m_unique n;
     m_null := m_null n |}.
(** Assignment to the vector [m_children]. *)
Definition setChildren (children : list ptr) (n : OTMLNode) : OTMLNode :=
  {| m_children := children; m_parent := m_parent n; m_tag := m_tag n;
     m_value := m_value n; m_source := m_source n; m_unique := m_unique n;
     m_null := m_null n |}.

Definition tag (h : heap) (self : ptr) : string := m_tag (deref h self).
Definition size (h : heap) (self : ptr) : Z := Z.of_nat (length (m_children (deref h self))).
Definition parent (h : heap) (self : ptr) : option ptr := m_parent (deref h self).
Definition source (h : heap) (self : ptr) : string := m_source (deref h self).
Definition isUnique (h : heap) (self : ptr) : bool := m_unique (deref h self).
Definition isNull (h : heap) (self : ptr) : bool := m_null (deref h self).
Definition hasTag (h : heap) (self : ptr) : bool := negb (String.eqb (tag h self) "").
Definition hasValue (h : heap) (self : ptr) : bool :=
  negb (String.eqb (m_value (deref h self)) "").

(** [create(tag, unique = false)]. *)
Definition create (h : heap) (tag : string) (unique : bool) : heap * ptr :=
  alloc h (setUnique unique (setTag tag OTMLNode_new)).

(** [create(tag, value)]. *)
Definition create_value (h : heap) (tag value : string) : heap * ptr :=
  alloc h (setUnique true (setValue value (setTag tag OTMLNode_new))).

(** The range-for of [get] and [at]: the first child with the tag that is
    not null. *)
Fixpoint get_loop (h : heap) (childTag : string) (children : list ptr) : option ptr :=
  match children with
  | [] => None
  | child :: rest =>
      if String.eqb (tag h child) childTag && negb (isNull h child)
      then Some child
      else get_loop h childTag rest
  end.

Definition get (h : heap) (self : ptr) (childTag : string) : option ptr :=
  get_loop h childTag (m_children (deref h self)).

Definition getIndex (h : heap) (self : ptr) (childIndex : Z) : option ptr :=
  if (childIndex <? size h self) && (0 <=? childIndex)
  then m_children (deref h self) !! Z.to_nat childIndex
  else None.

Definition at_ (h : heap) (self : ptr) (childTag : string) : outcome ptr :=
  match get_loop h childTag (m_children (deref h self)) with
  | Some res => Ok res
  | None =>
      Throw (OTMLException_node (source h self)
               ("child node with tag '" ++ childTag ++ "' not found"))
  end.

Definition atIndex (h : heap) (self : ptr) (childIndex : Z) : outcome ptr :=
  if (size h self <=? childIndex) || (childIndex <? 0)
  then Throw (OTMLException_node (source h self)
                ("child node with index '" ++ Str.of_Z childIndex ++ "' not found"))
  else match m_children (deref h self) !! Z.to_nat childIndex with
       | Some c => Ok c
       | None => Undefined OutOfRange
       end.

(** [std::find(m_children.begin(), m_children.end(), x)] as an index. *)
Fixpoint std_find (x : ptr) (l : list ptr) : option nat :=
  match l with
  | [] => None
  | y :: r =>
      if Nat.eqb y x then Some O
      else match std_find x r with Some i => Some (S i) | None => None end
  end.

Definition removeChild (h : heap) (self oldChild : ptr) : heap * bool :=
  match std_find oldChild (m_children (deref h self)) with
  | Some i =>
      let h1 := update h self (fun n => setChildren (delete i (m_children n)) n) in
      (update h1 oldChild (setParent None), true)
  | None => (h, false)
  end.

Definition replaceChild (h : heap) (self oldChild newChild : ptr) : heap * bool :=
  match std_find oldChild (m_children (deref h self)) with
  | Some i =>
      let h1 := update h oldChild (setParent None) in
      let h2 := update h1 newChild (setParent (Some self)) in
      (update h2 self
         (fun n => setChildren (take i (m_children n) ++ newChild :: drop (S i) (m_children n)) n),
       true)
  | None => (h, false)
  end.

(** The range-for of [addChild]: the first child that has the tag of
    [newChild] while one of the two is unique. *)
Fixpoint addChild_find (h : heap) (newChild : ptr) (children : list ptr) : option ptr :=
  match children with
  | [] => None
  | node :: rest =>
      if String.eqb (tag h node) (tag h newChild)
         && (isUnique h node || isUnique h newChild)
      then Some node
      else addChild_find h newChild rest
  end.

(** The [while] loop of [addChild] over the iterator [it]: every node other
    than [newChild] that has its tag loses its parent and is erased. *)
Fixpoint addChild_erase (h : heap) (newChild : ptr) (children : list ptr) : heap * list ptr :=
  match children with
  | [] => (h, [])
  | node :: rest =>
      if negb (Nat.eqb node newChild) && String.eqb (tag h node) (tag h newChild)
      then addChild_erase (update h node (setParent None)) newChild rest
      else let '(h', rest') := addChild_erase h newChild rest in (h', node :: rest')
  end.

Definition addChild (h : heap) (self newChild : ptr) : heap :=
  match (if hasTag h newChild
         then addChild_find h newChild (m_children (deref h self))
         else None) with
  | Some node =>
      let h1 := update h newChild (setUnique true) in
      let '(h2, _) := replaceChild h1 self node newChild in
      let '(h3, children) := addChild_erase h2 newChild (m_children (deref h2 self)) in
      update h3 self (setChildren children)
  | None =>
      let h1 := update h self (fun n => setChildren (m_children n ++ [newChild]) n) in
      update h1 newChild (setParent (Some self))
  end.

(** [clear()]. *)
Definition clear (h : heap) (self : ptr) : heap :=
  let h1 := foldl (fun h child => update h child (setParent None)) h (m_children (deref h self)) in
  update h1 self (setChildren []).

(** [children()]: the children that are not null. *)
Definition children (h : heap) (self : ptr) : list ptr :=
  List.filter (fun child => negb (isNull h child)) (m_children (deref h self)).

(** [value<T>()]. *)
Definition value {T : Type} `{Cast string T} (h : heap) (self : ptr) : outcome T :=
  match cast (m_value (deref h self)) with
  | Some ret => Ok ret
  | None => Throw (OTMLException_node (source h self) "failed to cast node value")
  end.

(** [valueAt<T>(childTag)]. *)
Definition valueAt {T : Type} `{Cast string T} (h : heap) (self : ptr) (childTag : string) : outcome T :=
  node ← at_ h self childTag; value h node.

(** [valueAtIndex<T>(childIndex)]. *)
Definition valueAtIndex {T : Type} `{Cast string T} (h : heap) (self : ptr) (childIndex : Z) : outcome T :=
  node ← atIndex h self childIndex; value h node.

(** [valueAt<T>(childTag, def)]. *)
Definition valueAt_def {T : Type} `{Cast string T}
    (h : heap) (self : ptr) (childTag : string) (def : T) : outcome T :=
  match get h self childTag with
  | Some node => if negb (isNull h node) then value h node else Ok def
  | None => Ok def
  end.

(** [valueAtIndex<T>(childIndex, def)]. *)
Definition valueAtIndex_def {T : Type} `{Cast string T}
    (h : heap) (self : ptr) (childIndex : Z) (def : T) : outcome T :=
  match getIndex h self childIndex with
  | Some node => value h node
  | None => Ok def
  end.

(** [write<T>(v)]. *)
Definition write {T : Type} `{Cast T string} (h : heap) (self : ptr) (v : T) : outcome heap :=
  s ← safeCast v; Ok (update h self (setValue s)).

(** [writeAt<T>(childTag, v)]. *)
Definition writeAt {T : Type} `{Cast T string}
    (h : heap) (self : ptr) (childTag : string) (v : T) : outcome heap :=
  let '(h1, child) := create h childTag false in
  h2 ← write h1 child v; Ok (addChild h2 self child).

(** [writeIn<T>(v)]. *)
Definition writeIn {T : Type} `{Cast T string} (h : heap) (self : ptr) (v : T) : outcome heap :=
  let '(h1, child) := create h "" false in
  h2 ← write h1 child v; Ok (addChild h2 self child).

(** [hasChildren()]: the loop counts the children that are not null. *)
Definition hasChildren (h : heap) (self : ptr) : bool :=
  let count :=
    foldl (fun count child => if negb (isNull h child) then count + 1 else count)
      0 (m_children (deref h self)) in
  0 <? count.

(** [hasChildAt(childTag)] and [hasChildAtIndex(childIndex)]. *)
Definition hasChildAt (h : heap) (self : ptr) (childTag : string) : bool :=
  match get h self childTag with Some _ => true | None => false end.
Definition hasChildAtIndex (h : heap) (self : ptr) (childIndex : Z) : bool :=
  match getIndex h self childIndex with Some _ => true | None => false end.

(** The range-for of [clone] and [merge],
    [target->addChild(child->clone())] for each child of the node that is
    read; [clone] is the recursive call. *)
Fixpoint clone_children (clone : heap -> ptr -> outcome (heap * ptr))
    (h : heap) (target : ptr) (children : list ptr) : outcome heap :=
  match children with
  | [] => Ok h
  | child :: rest =>
      '(h, c) ← clone h child;
      clone_children clone (addChild h target c) target rest
  end.

(** [clone()]; the recursion follows child pointers, so it is bounded by
    [fuel].  The loop runs over the children of [self], which no step of
    the loop changes: the nodes written are the new ones. *)
Fixpoint clone (fuel : nat) (h : heap) (self : ptr) : outcome (heap * ptr) :=
  match fuel with
  | O => OutOfFuel
  | S fuel' =>
      let '(h1, myClone) := alloc h OTMLNode_new in
      let h1 := update h1 myClone (setTag (m_tag (deref h1 self))) in
      let h1 := update h1 myClone (setValue (m_value (deref h1 self))) in
      let h1 := update h1 myClone (setUnique (m_unique (deref h1 self))) in
      let h1 := update h1 myClone (setNull (m_null (deref h1 self))) in
      let h1 := update h1 myClone (setSource (m_source (deref h1 self))) in
      h2 ← clone_children (clone fuel') h1 myClone (m_children (deref h1 self));
      Ok (h2, myClone)
  end.

(** [merge(node)].  When [node] is the node itself and has a child, the
    range-for runs over the vector that [addChild] changes and its
    iterators are invalidated: undefined behaviour, filed here with the
    accesses out of range. *)
Definition merge (fuel : nat) (h : heap) (self node : ptr) : outcome heap :=
  let children := m_children (deref h node) in
  h ← match children with
      | [] => Ok h
      | _ :: _ =>
          if Nat.eqb self node then Undefined OutOfRange
          else clone_children (clone fuel) h self children
      end;
  let h := update h self (setTag (tag h node)) in
  Ok (update h self (setSource (source h node))).

End Node.

(** [OTMLDocument::create()]. *)
Definition OTMLDocument_create (h : heap) : heap * ptr :=
  alloc h (Node.setTag "doc" OTMLNode_new).

(** ** Emitter ([OTMLEmitter]) *)

Module OTMLEmitter.

(** The two nested loops over [pos] that write a value with embedded
    newlines: [fresh] tells that the outer [for] is at its test (a new
    line of output starts if a character is left), otherwise the inner
    [while] is copying the current line. *)
Fixpoint emit_block (indent : string) (fresh : bool) (value : string) : string :=
  match value with
  | EmptyString => ""
  | String c rest =>
      (if fresh then String Str.nl indent else "")
      ++ (if Ascii.eqb c Str.nl then emit_block indent true rest
          else String c (emit_block indent false rest))
  end.

(** The choice among [|+], [|] and [|-]; the second test reads
    [value[value.length()-2]]. *)
Definition block_style (value : string) : outcome string :=
  match Str.at_ value (Str.len value - 1) with
  | None => Undefined OutOfRange
  | Some c1 =>
      if Ascii.eqb c1 Str.nl then
        match Str.at_ value (Str.len value - 2) with
        | None => Undefined OutOfRange
        | Some c2 => Ok (if Ascii.eqb c2 Str.nl then "|+" else "|")
        end
      else Ok "|-"
  end.

(** The part of [emitNode] under [if(currentDepth >= 0)]: the node's own
    line (and the lines of its block value). *)
Definition emit_own (h : heap) (node : ptr) (currentDepth : Z) : outcome string :=
  if 0 <=? currentDepth then
    let ss := Str.repeat "  " (Z.to_nat currentDepth) in
    let ss :=
      if Node.hasTag h node then
        ss ++ Node.tag h node
           ++ (if Node.hasValue h node || Node.isUnique h node || Node.isNull h node
               then ":" else "")
      else ss ++ "-" in
    if Node.isNull h node then Ok (ss ++ " ~")
    else if Node.hasValue h node then
      let ss := ss ++ " " in
      value ← Node.value (T := string) h node;
      match Str.find Str.nl value with
      | Some _ =>
          style ← block_style value;
          Ok (ss ++ style
                 ++ emit_block (Str.repeat "  " (Z.to_nat (currentDepth + 1))) true value)
      | None => Ok (ss ++ value)
      end
    else Ok ss
  else Ok "".

(** The [for] loop over the children at the end of [emitNode]; [emit] is
    the recursive call [emitNode(child, currentDepth+1)], [i] the loop
    index and [ss] the stream written so far. *)
Fixpoint emit_children (emit : ptr -> outcome string) (currentDepth : Z)
    (children : list ptr) (i : Z) (ss : string) : outcome string :=
  match children with
  | [] => Ok ss
  | child :: rest =>
      let ss := if (0 <=? currentDepth) || negb (i =? 0)
                then ss ++ String Str.nl "" else ss in
      sub ← emit child;
      emit_children emit currentDepth rest (i + 1) (ss ++ sub)
  end.

(** [emitNode(node, currentDepth)]; the recursion follows child pointers,
    so it is bounded by [fuel]. *)
Fixpoint emitNode (fuel : nat) (h : heap) (node : ptr) (currentDepth : Z) : outcome string :=
  match fuel with
  | O => OutOfFuel
  | S fuel' =>
      ss ← emit_own h node currentDepth;
      emit_children (fun child => emitNode fuel' h child (currentDepth + 1))
        currentDepth (m_children (deref h node)) 0 ss
  end.

End OTMLEmitter.

(** [OTMLNode::emit()] and [OTMLDocument::emit()]. *)
Definition OTMLNode_emit (fuel : nat) (h : heap) (self : ptr) : outcome string :=
  OTMLEmitter.emitNode fuel h self 0.
Definition OTMLDocument_emit (fuel : nat) (h : heap) (self : ptr) : outcome string :=
  OTMLEmitter.emitNode fuel h self (-1).

(** ** Input stream *)

(** A [std::istream] over a text: the pieces not yet read and the state
    bits.  A position ([tellg]) is the list of unread pieces. *)
Record istream : Type := mkIstream {
  unread : list string;
  eofbit : bool;
  failbit : bool
}.

Module Stream.

Definition good (s : istream) : bool := negb (eofbit s) && negb (failbit s).
Definition eof (s : istream) : bool := eofbit s.

(** A readable stream over [text]. *)
Definition open (text : string) : istream :=
  {| unread := Str.lines text; eofbit := false; failbit := false |}.

(** [std::getline(in, line)] into a fresh [line].  Reaching the end of the
    text sets [eofbit]; extracting no character at all sets [failbit] too. *)
Definition getline (s : istream) : string * istream :=
  if good s then
    match unread s with
    | line :: ((_ :: _) as rest) =>
        (line, {| unread := rest; eofbit := false; failbit := false |})
    | [line] =>
        (line, {| unread := []; eofbit := true; failbit := String.eqb line "" |})
    | [] => ("", {| unread := []; eofbit := true; failbit := true |})
    end
  else ("", {| unread := unread s; eofbit := eofbit s; failbit := true |}).

(** [tellg()]: fails (returns -1, here [None]) on a stream that is not good. *)
Definition tellg (s : istream) : option (list string) * istream :=
  if good s then (Some (unread s), s)
  else (None, {| unread := unread s; eofbit := eofbit s; failbit := true |}).

(** [seekg(pos, std::ios::beg)]: clears [eofbit] first. *)
Definition seekg (s : istream) (pos : option (list string)) : istream :=
  if failbit s then {| unread := unread s; eofbit := false; failbit := true |}
  else match pos with
       | Some rest => {| unread := rest; eofbit := false; failbit := false |}
       | None => {| unread := unread s; eofbit := false; failbit := true |}
       end.

End Stream.

(** ** Parser ([OTMLParser]) *)

Record OTMLParser : Type := mkParser {
  currentDepth : Z;
  currentLine : Z;
  doc : ptr;
  currentParent : option ptr;
  previousNode : option ptr;
  in_ : istream;
  mem : heap
}.

Module Parser.

Definition set_in (s : istream) (p : OTMLParser) : OTMLParser :=
  {| currentDepth := currentDepth p; currentLine := currentLine p; doc := doc p;
     currentParent := currentParent p; previousNode := previousNode p;
     in_ := s; mem := mem p |}.
Definition set_currentLine (n : Z) (p : OTMLParser) : OTMLParser :=
  {| currentDepth := currentDepth p; currentLine := n; doc := doc p;
     currentParent := currentParent p; previousNode := previousNode p;
     in_ := in_ p; mem := mem p |}.
Definition set_currentDepth (d : Z) (p : OTMLParser) : OTMLParser :=
  {| currentDepth := d; currentLine := currentLine p; doc := doc p;
     currentParent := currentParent p; previousNode := previousNode p;
     in_ := in_ p; mem := mem p |}.
Definition set_currentParent (q : option ptr) (p : OTMLParser) : OTMLParser :=
  {| currentDepth := currentDepth p; currentLine := currentLine p; doc := doc p;
     currentParent := q; previousNode := previousNode p;
     in_ := in_ p; mem := mem p |}.
Definition set_previousNode (q : option ptr) (p : OTMLParser) : OTMLParser :=
  {| currentDepth := currentDepth p; currentLine := currentLine p; doc := doc p;
     currentParent := currentParent p; previousNode := q;
     in_ := in_ p; mem := mem p |}.
Definition set_mem (h : heap) (p : OTMLParser) : OTMLParser :=
  {| currentDepth := currentDepth p; currentLine := currentLine p; doc := doc p;
     currentParent := currentParent p; previousNode := previousNode p;
     in_ := in_ p; mem := h |}.

(** The constructor [OTMLParser(doc, in)]. *)
Definition new (h : heap) (doc : ptr) (s : istream) : OTMLParser :=
  {| currentDepth := 0; currentLine := 0; doc := doc;
     currentParent := Some doc; previousNode := None; in_ := s; mem := h |}.

Definition getNextLine (p : OTMLParser) : string * OTMLParser :=
  let p := set_currentLine (currentLine p + 1) p in
  let '(line, s) := Stream.getline (in_ p) in
  (line, set_in s p).

Definition tabs_error (p : OTMLParser) : exn :=
  OTMLException_doc (Some (Node.source (mem p) (doc p)))
    "indentation with tabs are not allowed" (currentLine p).
Definition spaces_error (p : OTMLParser) : exn :=
  OTMLException_doc (Some (Node.source (mem p) (doc p)))
    "must indent every 2 spaces" (currentLine p).
Definition depth_error (p : OTMLParser) : exn :=
  OTMLException_doc (Some (Node.source (mem p) (doc p)))
    "invalid indentation depth, are you indenting correctly?" (currentLine p).

Definition getLineDepth (p : OTMLParser) (line : string) (multilining : bool) : outcome Z :=
  let spaces := Z.of_nat (Str.leading_spaces line) in
  let depth := spaces / 2 in
  if negb multilining || (depth <=? currentDepth p) then
    match Str.at_ line spaces with
    | None => Undefined OutOfRange
    | Some c =>
        if Ascii.eqb c Str.tab then Throw (tabs_error p)
        else if negb (spaces mod 2 =? 0) then Throw (spaces_error p)
        else Ok depth
    end
  else Ok depth.

(** The [for] loop of [parseLine] that climbs [n] parents. *)
Fixpoint ascend (n : nat) (h : heap) (currentParent : option ptr) : outcome (option ptr) :=
  match n with
  | O => Ok currentParent
  | S n' =>
      match currentParent with
      | None => Undefined NullDereference
      | Some q => ascend n' h (Node.parent h q)
      end
  end.

(** The loop that strips trailing newlines in [parseNode]; [lastPos] is
    the value of the variable before [--lastPos]. *)
Fixpoint strip_loop (lastPos : nat) (multiLineData : string) : outcome string :=
  match lastPos with
  | O => Undefined OutOfRange
  | S i =>
      match Str.at_ multiLineData (Z.of_nat i) with
      | None => Undefined OutOfRange
      | Some c =>
          if Ascii.eqb c Str.nl then strip_loop i (Str.erase1 multiLineData i)
          else Ok multiLineData
      end
  end.

(** The trailing-newline policy applied after the block is collected. *)
Definition block_policy (value multiLineData : string) : outcome string :=
  if String.eqb value "|" || String.eqb value "|-" then
    stripped ← strip_loop (String.length multiLineData) multiLineData;
    Ok (if String.eqb value "|" then stripped ++ String Str.nl "" else stripped)
  else Ok multiLineData.

(** The [do ... while(!in.eof())] loop of [parseNode] that collects the
    lines of a block scalar. *)
Fixpoint block_loop (fuel : nat) (p : OTMLParser) (multiLineData : string)
    : outcome (string * OTMLParser) :=
  match fuel with
  | O => OutOfFuel
  | S fuel' =>
      let '(lastPos, s) := Stream.tellg (in_ p) in
      let '(line, p) := getNextLine (set_in s p) in
      depth ← getLineDepth p line true;
      if currentDepth p <? depth then
        let multiLineData :=
          multiLineData
          ++ Str.drop (Z.to_nat ((currentDepth p + 1) * 2)) line
          ++ String Str.nl "" in
        if Stream.eof (in_ p) then Ok (multiLineData, p)
        else block_loop fuel' p multiLineData
      else if negb (String.eqb (Str.trim line) "") then
        Ok (multiLineData,
            set_currentLine (currentLine p - 1) (set_in (Stream.seekg (in_ p) lastPos) p))
      else
        let multiLineData := multiLineData ++ String Str.nl "" in
        if Stream.eof (in_ p) then Ok (multiLineData, p)
        else block_loop fuel' p multiLineData
  end.

(** The tag, value and [dotsPos != npos] that [parseNode] reads from the
    trimmed line. *)
Definition split_data (data : string) : string * string * bool :=
  let dotsPos := Str.find ":"%char data in
  let by_colon :=
    match dotsPos with
    | Some i =>
        (Str.take i data,
         if Z.of_nat i + 1 <? Str.len data then Str.drop (S i) data else "")
    | None => (data, "")
    end in
  let '(tag, value) :=
    match data with
    | String c rest => if Ascii.eqb c "-" then ("", Str.trim rest) else by_colon
    | EmptyString => by_colon
    end in
  (Str.trim tag, Str.trim value, match dotsPos with Some _ => true | None => false end).

Definition is_block_header (value : string) : bool :=
  String.eqb value "|" || String.eqb value "|-" || String.eqb value "|+".

(** The block-scalar part of [parseNode]: the value that replaces a
    header [|], [|-] or [|+]. *)
Definition read_value (fuel : nat) (p : OTMLParser) (value : string)
    : outcome (string * OTMLParser) :=
  if is_block_header value then
    '(multiLineData, p) ← block_loop fuel p "";
    multiLineData ← block_policy value multiLineData;
    Ok (multiLineData, p)
  else Ok (value, p).

(** The creation of the node at the end of [parseNode]; [line] is the
    rendering of [nodeLine]. *)
Definition build_node (h : heap) (doc : ptr) (tag value : string) (colon : bool)
    (line : string) : heap * ptr :=
  let '(h, node) := Node.create h tag false in
  let h := update h node (Node.setUnique colon) in
  let h := update h node (Node.setTag tag) in
  let h := update h node (Node.setSource (Node.source h doc ++ ":" ++ line)) in
  let h := if String.eqb value "~" then update h node (Node.setNull true)
           else update h node (Node.setValue value) in
  (h, node).

Definition parseNode (fuel : nat) (p : OTMLParser) (data : string) : outcome OTMLParser :=
  let '(tag, value, colon) := split_data data in
  let nodeLine := currentLine p in
  '(value, p) ← read_value fuel p value;
  line ← safeCast nodeLine;
  let '(h, node) := build_node (mem p) (doc p) tag value colon line in
  match currentParent p with
  | None => Undefined NullDereference
  | Some parent =>
      Ok (set_previousNode (Some node) (set_mem (Node.addChild h parent node) p))
  end.

Definition parseLine (fuel : nat) (p : OTMLParser) (line : string) : outcome OTMLParser :=
  depth ← getLineDepth p line false;
  if depth =? -1 then Ok p
  else
    let line := Str.trim line in
    if String.eqb line "" then Ok p
    else if String.eqb (Str.take 2 line) "//" then Ok p
    else
      p ← (if depth =? currentDepth p + 1 then
             Ok (set_currentParent (previousNode p) p)
           else if depth <? currentDepth p then
             q ← ascend (Z.to_nat (currentDepth p - depth)) (mem p) (currentParent p);
             Ok (set_currentParent q p)
           else if negb (depth =? currentDepth p) then Throw (depth_error p)
           else Ok p);
      parseNode fuel (set_currentDepth depth p) line.

(** The [while(!in.eof())] loop of [parse]. *)
Fixpoint parse_loop (fuel : nat) (p : OTMLParser) : outcome OTMLParser :=
  match fuel with
  | O => OutOfFuel
  | S fuel' =>
      if Stream.eof (in_ p) then Ok p
      else
        let '(line, p) := getNextLine p in
        p ← parseLine (S (length (unread (in_ p)))) p line;
        parse_loop fuel' p
  end.

Definition parse (p : OTMLParser) : outcome OTMLParser :=
  if negb (Stream.good (in_ p)) then
    Throw (OTMLException_doc (Some (Node.source (mem p) (doc p)))
             "cannot read from input stream" (-1))
  else parse_loop (S (length (unread (in_ p)))) p.

End Parser.

(** [OTMLDocument::parse(std::istream& in, const std::string& source)]:
    the final heap and the document. *)
Definition OTMLDocument_parse (h : heap) (s : istream) (source : string) : outcome (heap * ptr) :=
  let '(h, doc) := alloc h (Node.setSource source OTMLNode_new) in
  p ← Parser.parse (Parser.new h doc s);
  Ok (mem p, doc).

(** * Properties *)

(** ** Strings *)

Lemma append_assoc (a b c : string) : (a ++ b) ++ c = a ++ (b ++ c).
Proof.
  induction a as [|x a IH]; [reflexivity|].
  change (String x ((a ++ b) ++ c) = String x (a ++ (b ++ c))). f_equal. exact IH.
Qed.

Lemma append_nil_r (a : string) : a ++ "" = a.
Proof.
  induction a as [|x a IH]; [reflexivity|].
  change (String x (a ++ "") = String x a). f_equal. exact IH.
Qed.

Lemma append_cons (x : ascii) (a b : string) : String x a ++ b = String x (a ++ b).
Proof. reflexivity. Qed.

Lemma length_append (a b : string) :
  String.length (a ++ b) = (String.length a + String.length b)%nat.
Proof.
  induction a as [|x a IH]; [reflexivity|].
  rewrite append_cons. simpl. f_equal. exact IH.
Qed.

Lemma lines_nonempty (s : string) : Str.lines s <> [].
Proof.
  induction s as [|c r IH]; [discriminate|].
  cbn [Str.lines]. destruct (Ascii.eqb c Str.nl); [discriminate|].
  destruct (Str.lines r); [contradiction|discriminate].
Qed.

(** A prefix without newline extends the first piece. *)
Lemma lines_app (a b : string) :
  Str.find Str.nl a = None ->
  Str.lines (a ++ b) =
    match Str.lines b with
    | line :: rest => (a ++ line) :: rest
    | [] => [a]
    end.
Proof.
  induction a as [|c a IH]; intros Ha.
  - change ("" ++ b) with b. pose proof (lines_nonempty b) as Hb.
    destruct (Str.lines b); [contradiction|reflexivity].
  - cbn [Str.find] in Ha. destruct (Ascii.eqb c Str.nl) eqn:Hc; [discriminate|].
    destruct (Str.find Str.nl a) eqn:Hf; [discriminate|].
    rewrite append_cons. cbn [Str.lines]. rewrite Hc, (IH eq_refl).
    destruct (Str.lines b); reflexivity.
Qed.

(** ** Heap reads and writes *)

Lemma deref_update_eq (h : heap) (p : ptr) (f : OTMLNode -> OTMLNode) :
  (p < length h)%nat -> deref (update h p f) p = f (deref h p).
Proof.
  intros Hp. unfold deref, update.
  apply list_lookup_total_alter_eq. exact Hp.
Qed.

Lemma deref_update_ne (h : heap) (p q : ptr) (f : OTMLNode -> OTMLNode) :
  p <> q -> deref (update h p f) q = deref h q.
Proof.
  intros Hne. unfold deref, update.
  apply list_lookup_total_alter_ne. exact Hne.
Qed.

Lemma length_update (h : heap) (p : ptr) (f : OTMLNode -> OTMLNode) :
  length (update h p f) = length h.
Proof. unfold update. apply length_alter. Qed.

(** A write that leaves a field alone, read through any pointer. *)
Lemma deref_update_field {A : Type} (proj : OTMLNode -> A)
    (h : heap) (p q : ptr) (f : OTMLNode -> OTMLNode) :
  (forall n, proj (f n) = proj n) ->
  proj (deref (update h p f) q) = proj (deref h q).
Proof.
  intros Hf. destruct (decide (p = q)) as [->|Hne].
  - destruct (decide (q < length h)%nat) as [Hlt|Hge].
    + rewrite deref_update_eq by exact Hlt. apply Hf.
    + unfold deref, update. rewrite !list_lookup_total_alt.
      rewrite list_lookup_alter_eq.
      rewrite (lookup_ge_None_2 h q) by lia. reflexivity.
  - rewrite deref_update_ne by exact Hne. reflexivity.
Qed.

Lemma update_ext (h : heap) (p : ptr) (f g : OTMLNode -> OTMLNode) :
  f (deref h p) = g (deref h p) -> update h p f = update h p g.
Proof.
  intros Hfg. unfold update. apply list_alter_ext; [|reflexivity].
  intros x Hx. unfold deref in Hfg.
  rewrite (list_lookup_total_correct h p x Hx) in Hfg. exact Hfg.
Qed.

(** ** C6: the boolean codec *)

Lemma cast_string_bool_table (s : string) :
  cast (T := string) (R := bool) s =
    if bool_decide (s ∈ ["true"; "yes"; "on"; "1"]) then Some true
    else if bool_decide (s ∈ ["false"; "no"; "off"; "0"]) then Some false
    else None.
Proof.
  unfold cast, cast_string_bool, validNames. simpl.
  repeat match goal with
         | |- context [String.eqb s ?lit] =>
             destruct (String.eqb_spec s lit) as [->|?]; [reflexivity|]
         end.
  rewrite !bool_decide_eq_false_2; [reflexivity| |];
    rewrite !elem_of_cons, elem_of_nil; tauto.
Qed.

(** C6. String-to-boolean conversion succeeds exactly on the literal table
    ("true", "yes", "on", "1" give true; "false", "no", "off", "0" give
    false; every other token fails, and [value<bool>()] then raises the
    cast error of the node); boolean-to-string renders "true" or "false",
    and [write(b)] stores that rendering, "true" for [write(true)]. *)
Theorem bool_codec (h : heap) (self : ptr) (s : string) (b : bool)
    (Hself : (self < length h)%nat) :
  (cast (R := bool) s = Some true <-> s ∈ ["true"; "yes"; "on"; "1"])
  /\ (cast (R := bool) s = Some false <-> s ∈ ["false"; "no"; "off"; "0"])
  /\ (cast (R := bool) s = None <->
        s ∉ ["true"; "yes"; "on"; "1"; "false"; "no"; "off"; "0"])
  /\ Node.value (T := bool) h self =
       match cast (R := bool) (m_value (deref h self)) with
       | Some v => Ok v
       | None =>
           Throw (OTMLException_node (Node.source h self) "failed to cast node value")
       end
  /\ cast (R := string) b = Some (if b then "true" else "false")
  /\ exists h', Node.write h self b = Ok h'
       /\ m_value (deref h' self) = (if b then "true" else "false").
Proof.
  split_and!.
  - rewrite cast_string_bool_table. split.
    + repeat case_bool_decide; congruence.
    + intros Hs. rewrite bool_decide_eq_true_2; done.
  - rewrite cast_string_bool_table. split.
    + repeat case_bool_decide; congruence.
    + intros Hs.
      rewrite bool_decide_eq_false_2, bool_decide_eq_true_2; [done|done|].
      rewrite !elem_of_cons, elem_of_nil in *. intuition (subst; discriminate).
  - rewrite cast_string_bool_table. split.
    + repeat case_bool_decide; try congruence.
      intros _. rewrite !elem_of_cons, elem_of_nil in *. tauto.
    + intros Hs.
      rewrite !bool_decide_eq_false_2; [done| |];
        rewrite !elem_of_cons, elem_of_nil in *; tauto.
  - reflexivity.
  - destruct b; reflexivity.
  - exists (update h self (Node.setValue (if b then "true" else "false"))). split.
    + destruct b; reflexivity.
    + rewrite deref_update_eq by exact Hself. reflexivity.
Qed.

(** A node whose value text is "maybe": the cast fails and [value<bool>()]
    raises; [write(true)] on it stores "true". *)
Lemma bool_codec_witness :
  let h := [Node.setSource "doc:1" (Node.setValue "maybe" OTMLNode_new)] in
  cast (R := bool) "maybe" = None
  /\ Node.value (T := bool) h 0%nat =
       Throw (OTMLException "OTML error in 'doc:1': failed to cast node value")
  /\ exists h', Node.write h 0%nat true = Ok h' /\ m_value (deref h' 0%nat) = "true".
Proof.
  intros h.
  destruct (bool_codec h 0%nat "maybe" true) as (_ & _ & Hnone & Hvalue & _ & Hwrite).
  - simpl. lia.
  - split; [|split].
    + apply Hnone. vm_compute. intros Hin.
      repeat (apply elem_of_cons in Hin as [Hin|Hin]; [discriminate Hin|]).
      apply elem_of_nil in Hin. exact Hin.
    + rewrite Hvalue. reflexivity.
    + exact Hwrite.
Defined.

(** ** C7: the default-valued accessor *)

Lemma get_loop_none (h : heap) (childTag : string) (children : list ptr) :
  (forall c, c ∈ children -> Node.tag h c = childTag -> Node.isNull h c = true) ->
  Node.get_loop h childTag children = None.
Proof.
  induction children as [|c rest IH]; intros Hall; simpl.
  - reflexivity.
  - destruct (String.eqb_spec (Node.tag h c) childTag) as [Heq|Hne]; simpl.
    + rewrite (Hall c) by (try exact Heq; left). simpl.
      apply IH. intros x Hx. apply Hall. right. exact Hx.
    + apply IH. intros x Hx. apply Hall. right. exact Hx.
Qed.

Lemma get_loop_first (h : heap) (childTag : string) (pre post : list ptr) (c : ptr) :
  (forall x, x ∈ pre -> Node.tag h x = childTag -> Node.isNull h x = true) ->
  Node.tag h c = childTag -> Node.isNull h c = false ->
  Node.get_loop h childTag (pre ++ c :: post) = Some c.
Proof.
  intros Hpre Htag Hnull.
  induction pre as [|x pre IH]; simpl.
  - rewrite Htag, String.eqb_refl, Hnull. reflexivity.
  - destruct (String.eqb_spec (Node.tag h x) childTag) as [Heq|Hne]; simpl.
    + rewrite (Hpre x) by (try exact Heq; left). simpl.
      apply IH. intros y Hy. apply Hpre. right. exact Hy.
    + apply IH. intros y Hy. apply Hpre. right. exact Hy.
Qed.

(** C7. [valueAt(tag, def)] returns [def] when no child has the tag or
    every child with the tag is null; otherwise it returns the value of the
    first non-null child with the tag, cast to the requested type, and a
    cast failure there raises instead of giving the default. *)
Theorem valueAt_default {T : Type} `{Cast string T}
    (h : heap) (self : ptr) (childTag : string) (def : T) :
  ((forall c, c ∈ m_children (deref h self) ->
              Node.tag h c = childTag -> Node.isNull h c = true) ->
   Node.valueAt_def h self childTag def = Ok def)
  /\ (forall pre c post,
        m_children (deref h self) = (pre ++ c :: post)%list ->
        (forall x, x ∈ pre -> Node.tag h x = childTag -> Node.isNull h x = true) ->
        Node.tag h c = childTag -> Node.isNull h c = false ->
        Node.valueAt_def h self childTag def =
          match cast (m_value (deref h c)) with
          | Some v => Ok v
          | None =>
              Throw (OTMLException_node (Node.source h c) "failed to cast node value")
          end).
Proof.
  split.
  - intros Hall. unfold Node.valueAt_def, Node.get.
    rewrite get_loop_none by exact Hall. reflexivity.
  - intros pre c post Hcs Hpre Htag Hnull.
    unfold Node.valueAt_def, Node.get.
    rewrite Hcs, (get_loop_first h childTag pre post c Hpre Htag Hnull).
    rewrite Hnull. reflexivity.
Qed.

(** A node with a null child "nullTag", a child "flag" of value "maybe" and
    a child "name" of value "otml". *)
Definition accessor_heap : heap :=
  [ Node.setChildren [1; 2; 3]%nat OTMLNode_new;
    Node.setNull true (Node.setTag "nullTag" OTMLNode_new);
    Node.setSource "doc:2" (Node.setValue "maybe" (Node.setTag "flag" OTMLNode_new));
    Node.setValue "otml" (Node.setTag "name" OTMLNode_new) ].

Lemma valueAt_default_witness :
  Node.valueAt_def accessor_heap 0%nat "missingTag" "fallback" = Ok "fallback"
  /\ Node.valueAt_def accessor_heap 0%nat "nullTag" "fallback" = Ok "fallback"
  /\ Node.valueAt_def accessor_heap 0%nat "name" "fallback" = Ok "otml"
  /\ Node.valueAt_def accessor_heap 0%nat "flag" true =
       Throw (OTMLException "OTML error in 'doc:2': failed to cast node value").
Proof.
  assert (Hnull : forall t, t <> "flag" -> t <> "name" ->
            forall c, c ∈ m_children (deref accessor_heap 0%nat) ->
                      Node.tag accessor_heap c = t -> Node.isNull accessor_heap c = true).
  { intros t Hf Hn c Hc Ht. simpl in Hc.
    repeat (apply elem_of_cons in Hc as [->|Hc]); try reflexivity.
    - exfalso. apply Hf. symmetry. exact Ht.
    - exfalso. apply Hn. symmetry. exact Ht.
    - apply elem_of_nil in Hc. destruct Hc. }
  split_and!.
  - apply (valueAt_default accessor_heap 0%nat "missingTag" "fallback").
    apply Hnull; discriminate.
  - apply (valueAt_default accessor_heap 0%nat "nullTag" "fallback").
    apply Hnull; discriminate.
  - rewrite (proj2 (valueAt_default accessor_heap 0%nat "name" "fallback")
               [1; 2]%nat 3%nat []); try reflexivity.
    intros x Hx Ht.
    repeat (apply elem_of_cons in Hx as [->|Hx]); try reflexivity; try discriminate Ht.
    apply elem_of_nil in Hx. destruct Hx.
  - rewrite (proj2 (valueAt_default accessor_heap 0%nat "flag" true)
               [1]%nat 2%nat [3]%nat); try reflexivity.
    intros x Hx Ht.
    repeat (apply elem_of_cons in Hx as [->|Hx]); try reflexivity; try discriminate Ht.
    apply elem_of_nil in Hx. destruct Hx.
Defined.

(** ** C2: [addChild] *)

(** Heaps that differ in parent references only. *)
Definition parent_only (h h' : heap) : Prop :=
  length h' = length h
  /\ forall p, Node.setParent None (deref h' p) = Node.setParent None (deref h p).

Lemma parent_only_refl (h : heap) : parent_only h h.
Proof. split; reflexivity. Qed.

Lemma parent_only_trans (h1 h2 h3 : heap) :
  parent_only h1 h2 -> parent_only h2 h3 -> parent_only h1 h3.
Proof.
  intros [Hl1 H1] [Hl2 H2]. split; [congruence|].
  intros p. rewrite H2. apply H1.
Qed.

Lemma parent_only_update (h : heap) (p : ptr) (q : option ptr) :
  parent_only h (update h p (Node.setParent q)).
Proof.
  split; [apply length_update|].
  intros r. apply (deref_update_field (Node.setParent None)). reflexivity.
Qed.

Lemma parent_only_tag (h h' : heap) (p : ptr) :
  parent_only h h' -> Node.tag h' p = Node.tag h p.
Proof.
  intros [_ Hp]. unfold Node.tag.
  change (m_tag (Node.setParent None (deref h' p)) = m_tag (Node.setParent None (deref h p))).
  rewrite Hp. reflexivity.
Qed.

(** The siblings [addChild] keeps when it collapses on [newChild]. *)
Definition kept (h : heap) (newChild : ptr) (node : ptr) : bool :=
  Nat.eqb node newChild || negb (String.eqb (Node.tag h node) (Node.tag h newChild)).

Lemma addChild_erase_spec (newChild : ptr) (children : list ptr) :
  forall h,
    snd (Node.addChild_erase h newChild children) = List.filter (kept h newChild) children
    /\ parent_only h (fst (Node.addChild_erase h newChild children))
    /\ deref (fst (Node.addChild_erase h newChild children)) newChild = deref h newChild.
Proof.
  induction children as [|node rest IH]; intros h; simpl.
  - split; [reflexivity|]. split; [apply parent_only_refl|reflexivity].
  - unfold kept at 1.
    destruct (Nat.eqb_spec node newChild) as [Heq|Hne]; simpl.
    + destruct (IH h) as (Hc & Hp & Hd).
      destruct (Node.addChild_erase h newChild rest) as [h' rest']. simpl in *.
      split; [congruence|]. split; assumption.
    + destruct (String.eqb_spec (Node.tag h node) (Node.tag h newChild)) as [Ht|Ht]; simpl.
      * destruct (IH (update h node (Node.setParent None))) as (Hc & Hp & Hd).
        split; [|split].
        -- rewrite Hc. apply List.filter_ext. intros x. unfold kept.
           rewrite !(parent_only_tag h _ _ (parent_only_update h node None)). reflexivity.
        -- eapply parent_only_trans; [apply parent_only_update|exact Hp].
        -- rewrite Hd. apply deref_update_ne. exact Hne.
      * destruct (IH h) as (Hc & Hp & Hd).
        destruct (Node.addChild_erase h newChild rest) as [h' rest']. simpl in *.
        split; [congruence|]. split; assumption.
Qed.

(** The test of the range-for of [addChild]. *)
Definition collides (h : heap) (newChild node : ptr) : bool :=
  String.eqb (Node.tag h node) (Node.tag h newChild)
  && (Node.isUnique h node || Node.isUnique h newChild).

Lemma addChild_find_first (h : heap) (newChild node : ptr) (pre post : list ptr) :
  (forall x, x ∈ pre -> collides h newChild x = false) ->
  collides h newChild node = true ->
  Node.addChild_find h newChild (pre ++ node :: post) = Some node.
Proof.
  intros Hpre Hnode. induction pre as [|x pre IH]; simpl.
  - unfold collides in Hnode. rewrite Hnode. reflexivity.
  - pose proof (Hpre x ltac:(left)) as Hx. unfold collides in Hx. rewrite Hx.
    apply IH. intros y Hy. apply Hpre. right. exact Hy.
Qed.

Lemma addChild_find_none (h : heap) (newChild : ptr) (children : list ptr) :
  (forall x, x ∈ children -> collides h newChild x = false) ->
  Node.addChild_find h newChild children = None.
Proof.
  induction children as [|x rest IH]; intros Hall; simpl.
  - reflexivity.
  - pose proof (Hall x ltac:(left)) as Hx. unfold collides in Hx. rewrite Hx.
    apply IH. intros y Hy. apply Hall. right. exact Hy.
Qed.

Lemma std_find_first (x : ptr) (pre post : list ptr) :
  x ∉ pre -> Node.std_find x (pre ++ x :: post) = Some (length pre).
Proof.
  induction pre as [|y pre IH]; intros Hx; simpl.
  - rewrite Nat.eqb_refl. reflexivity.
  - destruct (Nat.eqb_spec y x) as [->|Hne].
    + exfalso. apply Hx. left.
    + rewrite IH; [reflexivity|]. intros Hin. apply Hx. right. exact Hin.
Qed.

Lemma kept_ext (h h' : heap) (newChild : ptr) :
  (forall p, Node.tag h' p = Node.tag h p) ->
  forall l, List.filter (kept h' newChild) l = List.filter (kept h newChild) l.
Proof.
  intros Htag l. apply List.filter_ext. intros x. unfold kept.
  rewrite !Htag. reflexivity.
Qed.

Lemma filter_kept_fresh (h : heap) (newChild : ptr) (l : list ptr) :
  newChild ∉ l ->
  List.filter (fun c => String.eqb (Node.tag h c) (Node.tag h newChild))
    (List.filter (kept h newChild) l) = [].
Proof.
  induction l as [|x l IH]; intros Hfresh; simpl.
  - reflexivity.
  - assert (Hx : x <> newChild) by (intros ->; apply Hfresh; left).
    assert (Hl : newChild ∉ l) by (intros Hin; apply Hfresh; right; exact Hin).
    unfold kept at 1. destruct (Nat.eqb_spec x newChild) as [?|_]; [contradiction|].
    simpl. destruct (String.eqb (Node.tag h x) (Node.tag h newChild)) eqn:Ht; simpl.
    + apply IH. exact Hl.
    + rewrite Ht. apply IH. exact Hl.
Qed.

Lemma filter_kept_other_tags (h : heap) (newChild : ptr) (l : list ptr) :
  (forall x, x ∈ l -> Node.tag h x <> Node.tag h newChild) ->
  List.filter (kept h newChild) l = l.
Proof.
  induction l as [|x l IH]; intros Hl; simpl.
  - reflexivity.
  - unfold kept at 1.
    destruct (String.eqb_spec (Node.tag h x) (Node.tag h newChild)) as [Heq|_].
    + exfalso. apply (Hl x); [left|exact Heq].
    + rewrite orb_true_r. f_equal. apply IH. intros y Hy. apply Hl. right. exact Hy.
Qed.

Lemma drop_after (x : ptr) (pre post : list ptr) :
  drop (S (length pre)) (pre ++ x :: post) = post.
Proof. induction pre as [|y pre IH]; simpl; [reflexivity|exact IH]. Qed.

(** What [addChild] computes when the range-for stops at [node]. *)
Lemma addChild_collapse_eq (h : heap) (self newChild node : ptr) (pre post : list ptr) :
  Node.hasTag h newChild = true ->
  m_children (deref h self) = (pre ++ node :: post)%list ->
  (forall x, x ∈ pre -> collides h newChild x = false) ->
  collides h newChild node = true ->
  (self < length h)%nat ->
  let h1 := update h newChild (Node.setUnique true) in
  let h2 := update (update (update h1 node (Node.setParent None))
                      newChild (Node.setParent (Some self)))
              self (Node.setChildren (pre ++ newChild :: post)) in
  Node.addChild h self newChild =
    update (fst (Node.addChild_erase h2 newChild (pre ++ newChild :: post)))
      self (Node.setChildren (List.filter (kept h newChild) (pre ++ newChild :: post))).
Proof.
  intros Htag Hcs Hpre Hnode Hself h1 h2.
  assert (Hnotin : node ∉ pre).
  { intros Hin. rewrite (Hpre node Hin) in Hnode. discriminate. }
  unfold Node.addChild. rewrite Htag, Hcs.
  rewrite (addChild_find_first h newChild node pre post Hpre Hnode).
  fold h1. unfold Node.replaceChild.
  assert (Hcs1 : m_children (deref h1 self) = (pre ++ node :: post)%list).
  { unfold h1. rewrite (deref_update_field m_children) by reflexivity. exact Hcs. }
  rewrite Hcs1, (std_find_first node pre post Hnotin).
  set (h1' := update (update h1 node (Node.setParent None)) newChild
                (Node.setParent (Some self))).
  assert (Hcs1' : m_children (deref h1' self) = (pre ++ node :: post)%list).
  { unfold h1'. rewrite !(deref_update_field m_children) by reflexivity. exact Hcs1. }
  rewrite (update_ext h1' self _ (Node.setChildren (pre ++ newChild :: post))).
  2:{ rewrite Hcs1'. rewrite take_app_length, drop_after. reflexivity. }
  change (update h1' self (Node.setChildren (pre ++ newChild :: post))) with h2.
  assert (Hcs2 : m_children (deref h2 self) = (pre ++ newChild :: post)%list).
  { unfold h2. rewrite deref_update_eq; [reflexivity|].
    unfold h1. rewrite !length_update. exact Hself. }
  rewrite Hcs2.
  destruct (addChild_erase_spec newChild (pre ++ newChild :: post) h2) as (Hc & _ & _).
  destruct (Node.addChild_erase h2 newChild (pre ++ newChild :: post)) as [h3 children].
  simpl in *. rewrite Hc. f_equal. f_equal. apply kept_ext.
  intros p. unfold Node.tag, h2, h1.
  rewrite !(deref_update_field m_tag) by reflexivity. reflexivity.
Qed.

(** What [addChild] computes when the range-for finds no child to replace. *)
Lemma addChild_append_eq (h : heap) (self newChild : ptr) :
  Node.hasTag h newChild = false
  \/ (forall x, x ∈ m_children (deref h self) -> collides h newChild x = false) ->
  Node.addChild h self newChild =
    update (update h self (fun n => Node.setChildren (m_children n ++ [newChild]) n))
      newChild (Node.setParent (Some self)).
Proof.
  intros Hcase. unfold Node.addChild.
  destruct Hcase as [->|Hall]; [reflexivity|].
  rewrite (addChild_find_none h newChild _ Hall).
  destruct (Node.hasTag h newChild); reflexivity.
Qed.

(** C2 (amended). [addChild] on a tagged [newChild]: when a child shares
    the tag while it or [newChild] is unique, [newChild] becomes unique,
    takes the place of the first such child, and every other child with the
    tag is erased; when [newChild] was not a child already, exactly one
    child with the tag remains, holding the value of [newChild].  It stands
    after the surviving children that preceded the first match: at the
    position of that match when no earlier child shares the tag (always so
    when [newChild] was unique on entry), and earlier by the number of
    erased predecessors otherwise.  In every other case [newChild] is
    appended at the end.  Its parent reference is set either way. *)
Theorem addChild_collapse_or_append (h : heap) (self newChild : ptr)
    (Hself : (self < length h)%nat) (Hnew : (newChild < length h)%nat) :
  let children := m_children (deref h self) in
  let h' := Node.addChild h self newChild in
  (forall pre node post,
      Node.hasTag h newChild = true ->
      children = (pre ++ node :: post)%list ->
      (forall x, x ∈ pre -> collides h newChild x = false) ->
      collides h newChild node = true ->
      Node.isUnique h' newChild = true
      /\ m_children (deref h' self) =
           (List.filter (kept h newChild) pre
              ++ newChild :: List.filter (kept h newChild) post)%list
      /\ Node.parent h' newChild = Some self
      /\ m_value (deref h' newChild) = m_value (deref h newChild)
      /\ (forall p, Node.tag h' p = Node.tag h p)
      /\ (newChild ∉ children ->
          List.filter (fun c => String.eqb (Node.tag h' c) (Node.tag h' newChild))
            (m_children (deref h' self)) = [newChild])
      /\ ((forall x, x ∈ pre -> Node.tag h x <> Node.tag h newChild) ->
          m_children (deref h' self) !! length pre = Some newChild)
      /\ (Node.isUnique h newChild = true ->
          forall x, x ∈ pre -> Node.tag h x <> Node.tag h newChild))
  /\ (Node.hasTag h newChild = false
      \/ (forall x, x ∈ children -> collides h newChild x = false) ->
      m_children (deref h' self) = (children ++ [newChild])%list
      /\ Node.parent h' newChild = Some self).
Proof.
  intros children h'. split.
  - intros pre node post Htag Hcs Hpre Hnode.
    pose proof (addChild_collapse_eq h self newChild node pre post
                  Htag Hcs Hpre Hnode Hself) as Heq.
    cbv zeta in Heq. fold h' in Heq.
    set (h1 := update h newChild (Node.setUnique true)) in Heq.
    set (h2 := update (update (update h1 node (Node.setParent None))
                         newChild (Node.setParent (Some self)))
                 self (Node.setChildren (pre ++ newChild :: post))) in Heq.
    destruct (addChild_erase_spec newChild (pre ++ newChild :: post) h2)
      as (_ & [Hlen Hpo] & Hd).
    set (h3 := fst (Node.addChild_erase h2 newChild (pre ++ newChild :: post))) in *.
    assert (Hlen2 : length h2 = length h).
    { unfold h2, h1. rewrite !length_update. reflexivity. }
    assert (Hkept : kept h newChild newChild = true).
    { unfold kept. rewrite Nat.eqb_refl. reflexivity. }
    assert (Hchildren : m_children (deref h' self) =
              (List.filter (kept h newChild) pre
                 ++ newChild :: List.filter (kept h newChild) post)%list).
    { rewrite Heq, deref_update_eq by lia. simpl.
      rewrite List.filter_app. simpl. rewrite Hkept. reflexivity. }
    assert (Htags : forall p, Node.tag h' p = Node.tag h p).
    { intros p. unfold Node.tag. rewrite Heq.
      rewrite (deref_update_field m_tag) by reflexivity.
      change (m_tag (deref h3 p)) with (m_tag (Node.setParent None (deref h3 p))).
      rewrite Hpo. simpl. unfold h2, h1.
      rewrite !(deref_update_field m_tag) by reflexivity. reflexivity. }
    split_and!.
    + unfold Node.isUnique. rewrite Heq.
      rewrite (deref_update_field m_unique) by reflexivity. rewrite Hd.
      unfold h2. rewrite !(deref_update_field m_unique) by reflexivity.
      unfold h1. rewrite deref_update_eq by exact Hnew. reflexivity.
    + exact Hchildren.
    + unfold Node.parent. rewrite Heq.
      rewrite (deref_update_field m_parent) by reflexivity. rewrite Hd.
      unfold h2. rewrite (deref_update_field m_parent) by reflexivity.
      rewrite deref_update_eq; [reflexivity|].
      unfold h1. rewrite !length_update. exact Hnew.
    + rewrite Heq. rewrite (deref_update_field m_value) by reflexivity. rewrite Hd.
      unfold h2, h1. rewrite !(deref_update_field m_value) by reflexivity. reflexivity.
    + exact Htags.
    + intros Hfresh. rewrite Hchildren.
      rewrite (List.filter_ext _ (fun c => String.eqb (Node.tag h c) (Node.tag h newChild)))
        by (intros c; rewrite !Htags; reflexivity).
      rewrite List.filter_app. simpl. rewrite String.eqb_refl.
      rewrite Hcs in Hfresh.
      rewrite !filter_kept_fresh; [reflexivity| |].
      * intros Hin. apply Hfresh. apply elem_of_app. right. right. exact Hin.
      * intros Hin. apply Hfresh. apply elem_of_app. left. exact Hin.
    + intros Hother. rewrite Hchildren.
      rewrite (filter_kept_other_tags h newChild pre Hother).
      rewrite lookup_app_r by lia. rewrite Nat.sub_diag. reflexivity.
    + intros Huniq x Hx Heqtag. pose proof (Hpre x Hx) as Hc.
      unfold collides in Hc. rewrite Heqtag, String.eqb_refl, Huniq, orb_true_r in Hc.
      discriminate.
  - intros Hcase. unfold h'. rewrite (addChild_append_eq h self newChild Hcase). split.
    + rewrite (deref_update_field m_children) by reflexivity.
      rewrite deref_update_eq by exact Hself. reflexivity.
    + unfold Node.parent. rewrite deref_update_eq; [reflexivity|].
      rewrite length_update. exact Hnew.
Qed.

(** The children [a] (not unique), [b], [a] (unique, value "old") of node 0,
    built with [create], [addChild] and [replaceChild]. *)
Definition siblings_heap : heap :=
  let '(h, p) := Node.create [] "p" false in
  let '(h, a1) := Node.create h "a" false in
  let h := Node.addChild h p a1 in
  let '(h, b) := Node.create h "b" false in
  let h := Node.addChild h p b in
  let '(h, c) := Node.create h "c" false in
  let h := Node.addChild h p c in
  let '(h, a2) := Node.create_value h "a" "old" in
  fst (Node.replaceChild h p c a2).

(** The same heap with a fresh node 5, [a] of value "new", as
    [writeAt("a", "new")] creates it before it calls [addChild]. *)
Definition collapse_heap : heap :=
  let '(h, new) := Node.create siblings_heap "a" false in
  update h new (Node.setValue "new").

(** C2, as stated, fails: the first child that matches is at position 2,
    and after [addChild] the new node is at position 1 (position 2 is
    empty), because the earlier child with the tag was erased. *)
Lemma addChild_position_counterexample :
  m_children (deref collapse_heap 0%nat) = [1; 2; 4]%nat
  /\ Node.tag collapse_heap 5%nat = "a"
  /\ Node.isUnique collapse_heap 5%nat = false
  /\ Node.addChild_find collapse_heap 5%nat [1; 2; 4]%nat = Some 4%nat
  /\ Node.std_find 4%nat [1; 2; 4]%nat = Some 2%nat
  /\ Node.writeAt siblings_heap 0%nat "a" "new" = Ok (Node.addChild collapse_heap 0%nat 5%nat)
  /\ m_children (deref (Node.addChild collapse_heap 0%nat 5%nat) 0%nat) = [2; 5]%nat
  /\ m_children (deref (Node.addChild collapse_heap 0%nat 5%nat) 0%nat) !! 2%nat
     <> Some 5%nat.
Proof. vm_compute. split_and!; try reflexivity. discriminate. Qed.

(** The two siblings [a: 1] and [a: 2]: adding the second (node 2) to the
    document (node 0) leaves it alone at position 0. *)
Lemma addChild_collapse_or_append_witness :
  let h := [ Node.setChildren [1%nat] OTMLNode_new;
             Node.setParent (Some 0%nat)
               (Node.setUnique true (Node.setValue "1" (Node.setTag "a" OTMLNode_new)));
             Node.setUnique true (Node.setValue "2" (Node.setTag "a" OTMLNode_new));
             Node.setTag "b" OTMLNode_new ] in
  let h' := Node.addChild h 0%nat 2%nat in
  m_children (deref h' 0%nat) = [2%nat]
  /\ m_children (deref h' 0%nat) !! 0%nat = Some 2%nat
  /\ m_value (deref h' 2%nat) = "2"
  /\ Node.parent h' 2%nat = Some 0%nat
  /\ m_children (deref (Node.addChild h' 0%nat 3%nat) 0%nat) = [2; 3]%nat.
Proof.
  intros h h'.
  assert (H0 : (0 < length h)%nat) by (simpl; lia).
  assert (H2 : (2 < length h)%nat) by (simpl; lia).
  destruct (addChild_collapse_or_append h 0%nat 2%nat H0 H2) as [Hcollapse _].
  destruct (Hcollapse [] 1%nat []) as (_ & Hc & Hp & Hv & _ & _ & Hpos & _);
    try reflexivity.
  { intros x Hx. apply elem_of_nil in Hx. destruct Hx. }
  assert (H0' : (0 < length h')%nat) by (vm_compute; lia).
  assert (H3' : (3 < length h')%nat) by (vm_compute; lia).
  destruct (addChild_collapse_or_append h' 0%nat 3%nat H0' H3') as [_ Happend].
  destruct Happend as [Ha _].
  { right. intros x Hx. change (x ∈ [2%nat]) in Hx.
    apply list_elem_of_singleton in Hx. subst x. reflexivity. }
  split_and!.
  - exact Hc.
  - apply Hpos. intros x Hx. apply elem_of_nil in Hx. destruct Hx.
  - exact Hv.
  - exact Hp.
  - rewrite Ha. reflexivity.
Defined.

(** ** C10: descending before any node exists *)

Lemma parseNode_null_parent (fuel : nat) (p : OTMLParser) (data : string) :
  currentParent p = None ->
  Parser.is_block_header (snd (fst (Parser.split_data data))) = false ->
  Parser.parseNode fuel p data = Undefined NullDereference.
Proof.
  intros Hparent Hblock. unfold Parser.parseNode.
  destruct (Parser.split_data data) as [[tag value] colon]. simpl in Hblock.
  unfold Parser.read_value. rewrite Hblock. outcome_simpl.
  unfold safeCast. simpl. rewrite Hparent. reflexivity.
Qed.

(** C10. A line indented one level deeper than the current depth, met
    while no node has been created yet ([previousNode] is null), takes the
    descend branch, makes [currentParent] null, and the attachment of the
    new node dereferences it: the result is a null dereference, not a
    parse error. *)
Theorem descend_before_any_node (fuel : nat) (p : OTMLParser) (line : string)
    (Hprev : previousNode p = None)
    (Hdepth : Parser.getLineDepth p line false = Ok (currentDepth p + 1))
    (Hblank : Str.trim line <> "")
    (Hcomment : Str.take 2 (Str.trim line) <> "//")
    (Hblock : Parser.is_block_header (snd (fst (Parser.split_data (Str.trim line)))) = false) :
  Parser.parseLine fuel p line = Undefined NullDereference
  /\ forall e, Parser.parseLine fuel p line <> Throw e.
Proof.
  assert (Hres : Parser.parseLine fuel p line = Undefined NullDereference).
  { unfold Parser.parseLine. rewrite Hdepth. outcome_simpl.
    destruct (Z.eqb_spec (currentDepth p + 1) (-1)) as [Hneg|_].
    - (* the depth is not -1 *)
      unfold Parser.getLineDepth in Hdepth. simpl in Hdepth.
      destruct (Str.at_ line _) as [c|]; [|discriminate].
      destruct (Ascii.eqb c Str.tab); [discriminate|].
      destruct (negb _); [discriminate|].
      injection Hdepth as Hdepth.
      pose proof (Z.div_pos (Z.of_nat (Str.leading_spaces line)) 2) as Hpos. lia.
    - destruct (String.eqb_spec (Str.trim line) "") as [?|_]; [contradiction|].
      destruct (String.eqb_spec (Str.take 2 (Str.trim line)) "//") as [?|_]; [contradiction|].
      rewrite Z.eqb_refl. outcome_simpl.
      apply parseNode_null_parent; [rewrite Hprev; reflexivity|exact Hblock]. }
  split; [exact Hres|]. intros e. rewrite Hres. discriminate.
Qed.

(** The single line "  x" given to a fresh parser. *)
Lemma descend_before_any_node_witness :
  let h := [Node.setSource "doc" OTMLNode_new] in
  let p := snd (Parser.getNextLine (Parser.new h 0%nat (Stream.open "  x"))) in
  fst (Parser.getNextLine (Parser.new h 0%nat (Stream.open "  x"))) = "  x"
  /\ Parser.parseLine 1 p "  x" = Undefined NullDereference
  /\ OTMLDocument_parse [] (Stream.open "  x") "doc" = Undefined NullDereference.
Proof.
  intros h p. split; [reflexivity|]. split.
  - apply (descend_before_any_node 1 p "  x"); try reflexivity; vm_compute; discriminate.
  - reflexivity.
Defined.

(** ** C9: the stripping loop reads before the start of the text *)

Definition newlines (k : nat) : string := Str.repeat (String Str.nl "") k.

Lemma newlines_snoc (k : nat) : newlines (S k) = newlines k ++ String Str.nl "".
Proof.
  induction k as [|k IH]; [reflexivity|].
  change (String Str.nl (newlines (S k))
          = String Str.nl (newlines k ++ String Str.nl "")).
  f_equal. exact IH.
Qed.

Lemma length_newlines (k : nat) : String.length (newlines k) = k.
Proof. induction k as [|k IH]; simpl; [reflexivity|]. f_equal. exact IH. Qed.

Lemma get_newlines (k i : nat) : (i < k)%nat -> String.get i (newlines k) = Some Str.nl.
Proof.
  revert i. induction k as [|k IH]; intros i Hi; [lia|].
  destruct i as [|i]; simpl; [reflexivity|]. apply IH. lia.
Qed.

Lemma erase1_newlines (k : nat) : Str.erase1 (newlines (S k)) k = newlines k.
Proof.
  unfold Str.erase1. induction k as [|k IH]; [reflexivity|].
  change (String Str.nl (Str.take k (newlines (S k)) ++ Str.drop (S k) (newlines (S k)))
          = String Str.nl (newlines k)).
  f_equal. exact IH.
Qed.

Lemma strip_loop_newlines (k : nat) :
  Parser.strip_loop k (newlines k) = Undefined OutOfRange.
Proof.
  induction k as [|k IH]; [reflexivity|].
  cbn [Parser.strip_loop]. unfold Str.at_.
  destruct (Z.ltb_spec (Z.of_nat k) 0) as [?|_]; [lia|].
  unfold Str.len. rewrite length_newlines.
  destruct (Z.eqb_spec (Z.of_nat k) (Z.of_nat (S k))) as [?|_]; [lia|].
  rewrite Nat2Z.id, get_newlines by lia.
  rewrite Ascii.eqb_refl, erase1_newlines. exact IH.
Qed.

Lemma block_policy_newlines (k : nat) :
  Parser.block_policy "|" (newlines k) = Undefined OutOfRange
  /\ Parser.block_policy "|-" (newlines k) = Undefined OutOfRange
  /\ Parser.block_policy "|+" (newlines k) = Ok (newlines k).
Proof.
  unfold Parser.block_policy. simpl.
  rewrite length_newlines, strip_loop_newlines. auto.
Qed.

Lemma lines_newlines (k : nat) : Str.lines (newlines k) = List.repeat "" (S k).
Proof.
  induction k as [|k IH]; [reflexivity|].
  change (Str.lines (newlines (S k))) with ("" :: Str.lines (newlines k)).
  rewrite IH. reflexivity.
Qed.

Lemma getLineDepth_blank (p : OTMLParser) (multilining : bool) :
  Parser.getLineDepth p "" multilining = Ok 0.
Proof.
  unfold Parser.getLineDepth. simpl.
  destruct (negb multilining || _); reflexivity.
Qed.

(** The block loop over a stream that holds nothing but [S k] empty
    pieces: it collects [S k] newlines. *)
Lemma block_loop_blank (k : nat) :
  forall (fuel : nat) (p : OTMLParser) (acc : string),
    (k < fuel)%nat ->
    in_ p = {| unread := List.repeat "" (S k); eofbit := false; failbit := false |} ->
    0 <= currentDepth p ->
    exists p', Parser.block_loop fuel p acc = Ok (acc ++ newlines (S k), p').
Proof.
  induction k as [|k IH]; intros fuel p acc Hfuel Hin Hd;
    (destruct fuel as [|fuel]; [lia|]).
  - cbn [Parser.block_loop]. rewrite Hin.
    unfold Stream.tellg, Parser.getNextLine. simpl.
    rewrite getLineDepth_blank. outcome_simpl.
    destruct (Z.ltb_spec (currentDepth p) 0) as [?|_]; [lia|].
    simpl. eexists. reflexivity.
  - cbn [Parser.block_loop]. rewrite Hin.
    unfold Stream.tellg, Parser.getNextLine. simpl.
    rewrite getLineDepth_blank. outcome_simpl.
    destruct (Z.ltb_spec (currentDepth p) 0) as [?|_]; [lia|].
    simpl.
    match goal with
    | |- exists p', Parser.block_loop fuel ?q ?a = _ =>
        destruct (IH fuel q a) as [p' Hp']; [lia|reflexivity|exact Hd|]
    end.
    exists p'. rewrite Hp'. f_equal. f_equal.
    rewrite append_assoc. reflexivity.
Qed.

(** The block loop entered at the end of the stream: one failed read, one
    newline. *)
Lemma block_loop_at_eof (fuel : nat) (p : OTMLParser) (acc : string) (rest : list string) :
  in_ p = {| unread := rest; eofbit := true; failbit := false |} ->
  0 <= currentDepth p ->
  exists p', Parser.block_loop (S fuel) p acc = Ok (acc ++ newlines 1, p').
Proof.
  intros Hin Hd. cbn [Parser.block_loop]. rewrite Hin.
  unfold Stream.tellg, Parser.getNextLine. simpl.
  rewrite getLineDepth_blank. outcome_simpl.
  destruct (Z.ltb_spec (currentDepth p) 0) as [?|_]; [lia|].
  simpl. eexists. reflexivity.
Qed.

Lemma parseNode_only_newlines (fuel k : nat) (p : OTMLParser) (style : string) :
  style = "|" \/ style = "|-" ->
  0 <= currentDepth p ->
  (k < fuel)%nat ->
  in_ p = {| unread := List.repeat "" k; eofbit := Nat.eqb k 0; failbit := false |} ->
  Parser.parseNode fuel p ("a: " ++ style) = Undefined OutOfRange.
Proof.
  intros Hstyle Hd Hfuel Hin.
  assert (Hloop : exists n p', Parser.block_loop fuel p "" = Ok (newlines n, p')).
  { destruct k as [|k].
    - destruct fuel as [|fuel]; [lia|].
      destruct (block_loop_at_eof fuel p "" [] Hin Hd) as [p' Hp']. eauto.
    - destruct (block_loop_blank k fuel p "" ltac:(lia) Hin Hd) as [p' Hp']. eauto. }
  destruct Hloop as (n & p' & Hloop).
  unfold Parser.parseNode.
  destruct Hstyle as [-> | ->].
  - change (Parser.split_data ("a: " ++ "|")) with ("a", "|", true).
    cbv iota beta. unfold Parser.read_value.
    change (Parser.is_block_header "|") with true. cbv iota.
    rewrite Hloop. outcome_simpl.
    rewrite (proj1 (block_policy_newlines n)). reflexivity.
  - change (Parser.split_data ("a: " ++ "|-")) with ("a", "|-", true).
    cbv iota beta. unfold Parser.read_value.
    change (Parser.is_block_header "|-") with true. cbv iota.
    rewrite Hloop. outcome_simpl.
    rewrite (proj1 (proj2 (block_policy_newlines n))). reflexivity.
Qed.

Lemma lines_header_newlines (style : string) (k : nat) :
  style = "|" \/ style = "|-" ->
  Str.lines ("a: " ++ style ++ newlines k) = ("a: " ++ style) :: List.repeat "" k.
Proof.
  intros [-> | ->].
  - change ("a: " ++ "|" ++ newlines k) with ("a: |" ++ newlines k).
    rewrite lines_app by reflexivity. rewrite lines_newlines. reflexivity.
  - change ("a: " ++ "|-" ++ newlines k) with ("a: |-" ++ newlines k).
    rewrite lines_app by reflexivity. rewrite lines_newlines. reflexivity.
Qed.

Lemma parse_only_newlines (style : string) (k : nat) (h : heap) (source : string) :
  style = "|" \/ style = "|-" ->
  OTMLDocument_parse h (Stream.open ("a: " ++ style ++ newlines k)) source
  = Undefined OutOfRange.
Proof.
  intros Hstyle.
  unfold OTMLDocument_parse, alloc, Stream.open.
  rewrite (lines_header_newlines style k Hstyle).
  unfold Parser.parse, Parser.new. cbn [in_ unread Stream.good eofbit failbit negb andb].
  cbn [Parser.parse_loop in_ Stream.eof eofbit]. unfold Parser.getNextLine.
  cbn [Parser.set_currentLine in_ currentLine currentDepth doc currentParent previousNode mem].
  set (s := Stream.getline _).
  assert (Hs : s = ("a: " ++ style,
                    {| unread := List.repeat "" k; eofbit := Nat.eqb k 0; failbit := false |})).
  { unfold s, Stream.getline. cbn [Stream.good eofbit failbit negb andb unread].
    destruct k as [|k]; [|reflexivity]. simpl.
    destruct Hstyle as [-> | ->]; reflexivity. }
  rewrite Hs. cbv iota beta.
  cbn [Parser.set_in in_ currentLine currentDepth doc currentParent previousNode mem unread].
  rewrite repeat_length.
  set (p := Parser.set_in _ _).
  assert (Hline : Parser.parseLine (S k) p ("a: " ++ style) = Undefined OutOfRange).
  { assert (Hp : Parser.parseLine (S k) p ("a: " ++ style)
                 = Parser.parseNode (S k) (Parser.set_currentDepth 0 p) ("a: " ++ style)).
    { destruct Hstyle as [-> | ->]; reflexivity. }
    rewrite Hp. apply (parseNode_only_newlines (S k) k); try assumption.
    - simpl. lia.
    - lia.
    - reflexivity. }
  rewrite Hline. reflexivity.
Qed.

(** C9. After the line [a: |] (or [a: |-]) followed by nothing but blank
    lines or the end of the stream, the collected block text holds newline
    characters only; the loop that strips trailing newlines then erases all
    of them, decrements its index below zero and reads the text at
    position -1, out of range: the parse runs into undefined behaviour. *)
Theorem strip_loop_out_of_range (k : nat) (h : heap) (source : string) :
  OTMLDocument_parse h (Stream.open ("a: |" ++ newlines k)) source = Undefined OutOfRange
  /\ OTMLDocument_parse h (Stream.open ("a: |-" ++ newlines k)) source = Undefined OutOfRange
  /\ Parser.strip_loop (String.length (newlines k)) (newlines k) = Undefined OutOfRange
  /\ Parser.block_policy "|" (newlines k) = Undefined OutOfRange
  /\ Parser.block_policy "|-" (newlines k) = Undefined OutOfRange
  /\ Str.at_ "" (-1) = None.
Proof.
  split_and!.
  - apply (parse_only_newlines "|"). left. reflexivity.
  - apply (parse_only_newlines "|-"). right. reflexivity.
  - rewrite length_newlines. apply strip_loop_newlines.
  - apply block_policy_newlines.
  - apply block_policy_newlines.
  - reflexivity.
Qed.

(** ** C4: depth transitions *)

(** One step up: the parent of a node, nothing above a null pointer. *)
Definition parent_step (h : heap) (q : option ptr) : option ptr :=
  match q with
  | Some n => Node.parent h n
  | None => None
  end.

Lemma iter_parent_step_shift (h : heap) (n : nat) (q : option ptr) :
  Nat.iter n (parent_step h) (parent_step h q) = parent_step h (Nat.iter n (parent_step h) q).
Proof. induction n as [|n IH]; simpl; [reflexivity|]. rewrite IH. reflexivity. Qed.

Lemma iter_parent_step_none (h : heap) (n : nat) :
  Nat.iter n (parent_step h) None = None.
Proof. induction n as [|n IH]; simpl; [reflexivity|]. rewrite IH. reflexivity. Qed.

(** The loop climbs exactly [n] parent references; it fails when one of the
    first [n - 1] parents is null. *)
Lemma ascend_iter (h : heap) (n : nat) (q : option ptr) :
  Parser.ascend (S n) h q =
    match Nat.iter n (parent_step h) q with
    | Some a => Ok (Node.parent h a)
    | None => Undefined NullDereference
    end.
Proof.
  revert q. induction n as [|n IH]; intros q.
  - destruct q; reflexivity.
  - destruct q as [a|].
    + change (Parser.ascend (S (S n)) h (Some a))
        with (Parser.ascend (S n) h (Node.parent h a)).
      rewrite IH. change (Node.parent h a) with (parent_step h (Some a)) at 1.
      rewrite iter_parent_step_shift. reflexivity.
    + rewrite iter_parent_step_none. reflexivity.
Qed.

Lemma block_loop_currentDepth (fuel : nat) :
  forall p acc value p',
    Parser.block_loop fuel p acc = Ok (value, p') -> currentDepth p' = currentDepth p.
Proof.
  induction fuel as [|fuel IH]; intros p acc value p' Hloop; [discriminate|].
  cbn [Parser.block_loop] in Hloop.
  destruct (Stream.tellg (in_ p)) as [lastPos s].
  unfold Parser.getNextLine in Hloop.
  cbn [Parser.set_in Parser.set_currentLine in_ currentLine currentDepth doc
       currentParent previousNode mem] in Hloop.
  destruct (Stream.getline s) as [line s'].
  match type of Hloop with
  | context [Parser.getLineDepth ?q line true] => set (p1 := q) in Hloop
  end.
  destruct (Parser.getLineDepth p1 line true) as [depth| | |]; try discriminate.
  outcome_simpl in Hloop.
  assert (H1 : currentDepth p1 = currentDepth p) by reflexivity.
  destruct (currentDepth p1 <? depth).
  - destruct (Stream.eof (in_ p1)).
    + injection Hloop as _ <-. exact H1.
    + apply IH in Hloop. congruence.
  - destruct (negb _).
    + injection Hloop as _ <-. exact H1.
    + destruct (Stream.eof (in_ p1)).
      * injection Hloop as _ <-. exact H1.
      * apply IH in Hloop. congruence.
Qed.

Lemma parseNode_currentDepth (fuel : nat) (p p' : OTMLParser) (data : string) :
  Parser.parseNode fuel p data = Ok p' -> currentDepth p' = currentDepth p.
Proof.
  unfold Parser.parseNode.
  destruct (Parser.split_data data) as [[tag value] colon].
  unfold Parser.read_value.
  destruct (Parser.is_block_header value).
  - destruct (Parser.block_loop fuel p "") as [[m q]| | |] eqn:Hloop;
      outcome_simpl; try discriminate.
    apply block_loop_currentDepth in Hloop.
    destruct (Parser.block_policy value m) as [m'| | |]; outcome_simpl; try discriminate.
    unfold safeCast. simpl.
    destruct (currentParent q); [|discriminate].
    intros [= <-]. exact Hloop.
  - outcome_simpl. unfold safeCast. simpl.
    destruct (currentParent p); [|discriminate].
    intros [= <-]. reflexivity.
Qed.

(** The text of the exception of a document: the source and the line are
    written when the source label is not empty, and neither of them when
    it is empty. *)
Lemma OTMLException_doc_text (source message : string) (line : Z) :
  (source <> "" -> 0 <= line ->
   OTMLException_doc (Some source) message line
   = OTMLException ("OTML error in '" ++ source ++ "' at line " ++ Str.of_Z line
                    ++ ": " ++ message))
  /\ (source = "" ->
      OTMLException_doc (Some source) message line
      = OTMLException ("OTML error: " ++ message)).
Proof.
  unfold OTMLException_doc. split.
  - intros Hsource Hline.
    destruct (String.eqb_spec source "") as [?|_]; [contradiction|].
    destruct (Z.leb_spec 0 line) as [_|?]; [|lia].
    f_equal. change ("OTML error in '" ++ source ++ "' at line " ++ Str.of_Z line
                     ++ ": " ++ message)
      with ("OTML error" ++ " in '" ++ source ++ "'" ++ " at line " ++ Str.of_Z line
            ++ ": " ++ message).
    rewrite !append_assoc. reflexivity.
  - intros ->. reflexivity.
Qed.

(** C4. For a line that is neither blank nor a comment, of depth [d],
    read at current depth [c]: if [d = c + 1] the current parent becomes the
    previous node; if [d < c] the parser climbs exactly [c - d] parent
    references; if [d = c] the parent is unchanged; otherwise ([d > c + 1])
    the exception of the document is raised, whose text cites the source
    of the document and the current line number when the source label is
    not empty, and neither of them when it is empty; the node is then
    parsed with [currentDepth] set to [d], and that is the depth of the
    parser afterwards. *)
Theorem depth_transition (fuel : nat) (p : OTMLParser) (line : string) (d : Z)
    (Hdepth : Parser.getLineDepth p line false = Ok d)
    (Hblank : Str.trim line <> "")
    (Hcomment : Str.take 2 (Str.trim line) <> "//") :
  let c := currentDepth p in
  let data := Str.trim line in
  let source := Node.source (mem p) (doc p) in
  (d = c + 1 ->
   Parser.parseLine fuel p line =
     Parser.parseNode fuel
       (Parser.set_currentDepth d (Parser.set_currentParent (previousNode p) p)) data)
  /\ (d < c ->
      Parser.parseLine fuel p line =
        match Nat.iter (Z.to_nat (c - d) - 1) (parent_step (mem p)) (currentParent p) with
        | Some a =>
            Parser.parseNode fuel
              (Parser.set_currentDepth d
                 (Parser.set_currentParent (Node.parent (mem p) a) p)) data
        | None => Undefined NullDereference
        end)
  /\ (d = c ->
      Parser.parseLine fuel p line = Parser.parseNode fuel (Parser.set_currentDepth d p) data)
  /\ (c + 1 < d ->
      Parser.parseLine fuel p line =
        Throw (OTMLException_doc (Some source)
                 "invalid indentation depth, are you indenting correctly?"
                 (currentLine p)))
  /\ (c + 1 < d -> source <> "" -> 0 <= currentLine p ->
      Parser.parseLine fuel p line =
        Throw (OTMLException
                 ("OTML error in '" ++ source ++ "' at line " ++ Str.of_Z (currentLine p)
                  ++ ": invalid indentation depth, are you indenting correctly?")))
  /\ (c + 1 < d -> source = "" ->
      Parser.parseLine fuel p line =
        Throw (OTMLException
                 "OTML error: invalid indentation depth, are you indenting correctly?"))
  /\ (forall p', Parser.parseLine fuel p line = Ok p' -> currentDepth p' = d)
  /\ (d = c + 1 \/ d < c \/ d = c \/ c + 1 < d).
Proof.
  intros c data source.
  assert (Hd : 0 <= d).
  { unfold Parser.getLineDepth in Hdepth. simpl in Hdepth.
    destruct (Str.at_ line _) as [ch|]; [|discriminate].
    destruct (Ascii.eqb ch Str.tab); [discriminate|].
    destruct (negb _); [discriminate|].
    injection Hdepth as <-. apply Z.div_pos; lia. }
  assert (Hline : Parser.parseLine fuel p line =
            (if d =? c + 1 then Ok (Parser.set_currentParent (previousNode p) p)
             else if d <? c then
               Parser.ascend (Z.to_nat (c - d)) (mem p) (currentParent p)
               ≫= λ q, Ok (Parser.set_currentParent q p)
             else if negb (d =? c) then Throw (Parser.depth_error p)
             else Ok p)
            ≫= λ q, Parser.parseNode fuel (Parser.set_currentDepth d q) data).
  { unfold Parser.parseLine. rewrite Hdepth. outcome_simpl.
    destruct (Z.eqb_spec d (-1)) as [?|_]; [lia|].
    destruct (String.eqb_spec (Str.trim line) "") as [?|_]; [contradiction|].
    destruct (String.eqb_spec (Str.take 2 (Str.trim line)) "//") as [?|_]; [contradiction|].
    reflexivity. }
  assert (Hjump : c + 1 < d ->
            Parser.parseLine fuel p line =
              Throw (OTMLException_doc (Some source)
                       "invalid indentation depth, are you indenting correctly?"
                       (currentLine p))).
  { intros Hgt. rewrite Hline.
    destruct (Z.eqb_spec d (c + 1)) as [?|_]; [lia|].
    destruct (Z.ltb_spec d c) as [?|_]; [lia|].
    destruct (Z.eqb_spec d c) as [?|_]; [lia|reflexivity]. }
  split_and!.
  - intros Heq. rewrite Hline.
    destruct (Z.eqb_spec d (c + 1)) as [_|?]; [reflexivity|lia].
  - intros Hlt. rewrite Hline.
    destruct (Z.eqb_spec d (c + 1)) as [?|_]; [lia|].
    destruct (Z.ltb_spec d c) as [_|?]; [|lia].
    destruct (Z.to_nat (c - d)) as [|n] eqn:Hn; [lia|].
    rewrite ascend_iter. simpl. rewrite Nat.sub_0_r.
    destruct (Nat.iter n (parent_step (mem p)) (currentParent p)); reflexivity.
  - intros Heq. rewrite Hline.
    destruct (Z.eqb_spec d (c + 1)) as [?|_]; [lia|].
    destruct (Z.ltb_spec d c) as [?|_]; [lia|].
    destruct (Z.eqb_spec d c) as [_|?]; [reflexivity|lia].
  - intros Hgt. exact (Hjump Hgt).
  - intros Hgt Hsource Hpos. rewrite (Hjump Hgt). f_equal.
    apply (proj1 (OTMLException_doc_text source _ (currentLine p)) Hsource Hpos).
  - intros Hgt Hsource. rewrite (Hjump Hgt). f_equal.
    apply (proj2 (OTMLException_doc_text source _ (currentLine p)) Hsource).
  - intros p' Hok. rewrite Hline in Hok.
    match type of Hok with
    | (?m ≫= _) = _ => destruct m as [q| | |]
    end; outcome_simpl in Hok; try discriminate.
    apply parseNode_currentDepth in Hok. exact Hok.
  - lia.
Qed.

(** The parser after it has read [text] from a document of source "doc",
    with the line counter advanced for the next line. *)
Definition parser_after (text : string) : OTMLParser :=
  let p0 := Parser.new [Node.setSource "doc" OTMLNode_new] 0%nat (Stream.open text) in
  match Parser.parse p0 with
  | Ok p => Parser.set_currentLine (currentLine p + 1) p
  | _ => p0
  end.

Lemma depth_transition_witness :
  let NL := String Str.nl "" in
  (* descend: the parent becomes the node of line 1 *)
  Parser.parseLine 1 (parser_after "a") "  b"
    = Parser.parseNode 1
        (Parser.set_currentDepth 1 (Parser.set_currentParent (Some 1%nat) (parser_after "a")))
        "b"
  (* ascend two levels, from the node of line 2 back to the document *)
  /\ Parser.parseLine 1 (parser_after ("a" ++ NL ++ "  b" ++ NL ++ "    c")) "d"
     = Parser.parseNode 1
         (Parser.set_currentDepth 0
            (Parser.set_currentParent (Some 0%nat)
               (parser_after ("a" ++ NL ++ "  b" ++ NL ++ "    c"))))
         "d"
  (* a jump of two levels *)
  /\ Parser.parseLine 1 (parser_after "a") "    c"
     = Throw (OTMLException
         "OTML error in 'doc' at line 2: invalid indentation depth, are you indenting correctly?").
Proof.
  intros NL. split_and!.
  - apply (depth_transition 1 (parser_after "a") "  b" 1);
      vm_compute; first [reflexivity | discriminate].
  - pose proof (depth_transition 1
                  (parser_after ("a" ++ NL ++ "  b" ++ NL ++ "    c")) "d" 0
                  ltac:(vm_compute; reflexivity) ltac:(vm_compute; discriminate)
                  ltac:(vm_compute; discriminate)) as (_ & Hup & _).
    rewrite Hup by (vm_compute; reflexivity). vm_compute. reflexivity.
  - pose proof (depth_transition 1 (parser_after "a") "    c" 2
                  ltac:(vm_compute; reflexivity) ltac:(vm_compute; discriminate)
                  ltac:(vm_compute; discriminate)) as (_ & _ & _ & _ & Hjump & _).
    rewrite Hjump; [vm_compute; reflexivity|vm_compute; reflexivity
                   |vm_compute; discriminate|vm_compute; discriminate].
Defined.

(** C4, as stated, fails for a document whose source label is empty: the
    exception for a jump of two levels cites neither the source nor the
    line, so the jump on line 2 and the jump on line 3 raise the same
    exception. *)
Lemma depth_transition_counterexample :
  OTMLDocument_parse [] (Stream.open ("a" ++ String Str.nl "    c")) ""
  = Throw (OTMLException
             "OTML error: invalid indentation depth, are you indenting correctly?")
  /\ OTMLDocument_parse [] (Stream.open ("a" ++ String Str.nl ("b" ++ String Str.nl "    c"))) ""
     = Throw (OTMLException
                "OTML error: invalid indentation depth, are you indenting correctly?")
  /\ OTMLDocument_parse [] (Stream.open ("a" ++ String Str.nl "    c")) "doc"
     = Throw (OTMLException
                "OTML error in 'doc' at line 2: invalid indentation depth, are you indenting correctly?").
Proof. vm_compute. split_and!; reflexivity. Qed.

(** ** C5: indentation validation *)

(** The leading whitespace of a line, in the words of the specification:
    its longest prefix of space and tab characters. *)
Fixpoint leading_whitespace (line : string) : string :=
  match line with
  | String c rest =>
      if Ascii.eqb c Str.space || Ascii.eqb c Str.tab
      then String c (leading_whitespace rest)
      else ""
  | EmptyString => ""
  end.

Definition contains_tab (s : string) : bool :=
  match Str.find Str.tab s with
  | Some _ => true
  | None => false
  end.

Lemma leading_spaces_le (line : string) :
  (Str.leading_spaces line <= String.length line)%nat.
Proof.
  induction line as [|c rest IH]; simpl; [lia|].
  destruct (Ascii.eqb c Str.space); lia.
Qed.

Lemma get_none_ge (s : string) (n : nat) :
  String.get n s = None <-> (String.length s <= n)%nat.
Proof.
  revert n. induction s as [|c s IH]; intros n; simpl.
  - split; [lia|reflexivity].
  - destruct n as [|n]; [split; [discriminate|lia]|].
    rewrite IH. lia.
Qed.

(** The character that [line[spaces]] reads after the leading spaces. *)
Lemma at_leading_spaces (line : string) :
  Str.at_ line (Z.of_nat (Str.leading_spaces line)) =
    Some (match String.get (Str.leading_spaces line) line with
          | Some c => c
          | None => Str.nul
          end).
Proof.
  unfold Str.at_, Str.len.
  destruct (Z.ltb_spec (Z.of_nat (Str.leading_spaces line)) 0) as [?|_]; [lia|].
  rewrite Nat2Z.id. pose proof (leading_spaces_le line) as Hle.
  destruct (Z.eqb_spec (Z.of_nat (Str.leading_spaces line))
              (Z.of_nat (String.length line))) as [Heq|Hne].
  - rewrite (proj2 (get_none_ge line (Str.leading_spaces line))) by lia. reflexivity.
  - destruct (String.get (Str.leading_spaces line) line) eqn:Hget; [reflexivity|].
    apply get_none_ge in Hget. lia.
Qed.

Lemma get_leading_spaces_not_space (line : string) :
  String.get (Str.leading_spaces line) line <> Some Str.space.
Proof.
  induction line as [|c rest IH]; simpl; [discriminate|].
  destruct (Ascii.eqb_spec c Str.space) as [->|Hsp]; [exact IH|].
  simpl. intros [= ->]. contradiction.
Qed.

(** The leading whitespace contains a tab exactly when the character after
    the leading spaces is a tab, which is what [getLineDepth] tests. *)
Lemma contains_tab_after_spaces (line : string) :
  contains_tab (leading_whitespace line) = true
  <-> String.get (Str.leading_spaces line) line = Some Str.tab.
Proof.
  unfold contains_tab.
  induction line as [|c rest IH]; simpl.
  - split; discriminate.
  - destruct (Ascii.eqb_spec c Str.space) as [->|Hsp]; simpl.
    + change (Ascii.eqb Str.space Str.tab) with false. cbv iota.
      destruct (Str.find Str.tab (leading_whitespace rest)); [|exact IH].
      split; [intros _|reflexivity]. apply IH. reflexivity.
    + destruct (Ascii.eqb_spec c Str.tab) as [->|Htab]; simpl.
      * split; reflexivity.
      * split; [discriminate|]. intros [= ->]. contradiction.
Qed.

(** C5. Where the checks apply (outside a block scalar, or in one on a
    line whose depth does not exceed the current depth), a tab in the
    leading whitespace, or else an odd number of leading spaces, makes
    [getLineDepth] raise the exception of the document; its text carries
    the source of the document and the current line number when the
    source label is not empty, and neither of them when it is empty; a
    block line deeper than the current depth is exempt from both checks.
    [parseLine], the block loop and the main loop let the exception
    through, the loops after advancing the line counter by one for the
    line they read. *)
Theorem indentation_validation (fuel : nat) (p : OTMLParser) (line : string)
    (multilining : bool) :
  let spaces := Z.of_nat (Str.leading_spaces line) in
  let depth := spaces / 2 in
  let checked := negb multilining || (depth <=? currentDepth p) in
  let source := Node.source (mem p) (doc p) in
  let tabs :=
    OTMLException_doc (Some source) "indentation with tabs are not allowed" (currentLine p) in
  let odd := OTMLException_doc (Some source) "must indent every 2 spaces" (currentLine p) in
  (checked = true -> contains_tab (leading_whitespace line) = true ->
   Parser.getLineDepth p line multilining = Throw tabs)
  /\ (checked = true -> contains_tab (leading_whitespace line) = false ->
      spaces mod 2 <> 0 ->
      Parser.getLineDepth p line multilining = Throw odd)
  /\ (checked = true -> contains_tab (leading_whitespace line) = false ->
      spaces mod 2 = 0 ->
      Parser.getLineDepth p line multilining = Ok depth)
  /\ (checked = false -> Parser.getLineDepth p line multilining = Ok depth)
  /\ (forall e, Parser.getLineDepth p line false = Throw e ->
                Parser.parseLine fuel p line = Throw e)
  /\ (forall e q, Stream.eof (in_ q) = false ->
                  Parser.getNextLine q = (line, p) ->
                  Parser.getLineDepth p line false = Throw e ->
                  currentLine p = currentLine q + 1
                  /\ Parser.parse_loop (S fuel) q = Throw e)
  /\ (forall e q acc,
         Parser.getNextLine (Parser.set_in (snd (Stream.tellg (in_ q))) q) = (line, p) ->
         Parser.getLineDepth p line true = Throw e ->
         currentLine p = currentLine q + 1
         /\ Parser.block_loop (S fuel) q acc = Throw e)
  /\ (source <> "" -> 0 <= currentLine p ->
      tabs = OTMLException
               ("OTML error in '" ++ source ++ "' at line " ++ Str.of_Z (currentLine p)
                ++ ": indentation with tabs are not allowed")
      /\ odd = OTMLException
                 ("OTML error in '" ++ source ++ "' at line " ++ Str.of_Z (currentLine p)
                  ++ ": must indent every 2 spaces"))
  /\ (source = "" ->
      tabs = OTMLException "OTML error: indentation with tabs are not allowed"
      /\ odd = OTMLException "OTML error: must indent every 2 spaces").
Proof.
  intros spaces depth checked source tabs odd.
  assert (Htab : contains_tab (leading_whitespace line) = true ->
                 Str.at_ line spaces = Some Str.tab).
  { intros H. unfold spaces. rewrite at_leading_spaces.
    apply contains_tab_after_spaces in H. rewrite H. reflexivity. }
  assert (Hnotab : contains_tab (leading_whitespace line) = false ->
                   exists c, Str.at_ line spaces = Some c /\ Ascii.eqb c Str.tab = false).
  { intros H. unfold spaces. rewrite at_leading_spaces. eexists. split; [reflexivity|].
    destruct (String.get (Str.leading_spaces line) line) as [c|] eqn:Hget; [|reflexivity].
    destruct (Ascii.eqb_spec c Str.tab) as [->|_]; [|reflexivity].
    apply contains_tab_after_spaces in Hget. congruence. }
  assert (Hline : forall q, Parser.getNextLine q = (line, p) ->
                            currentLine p = currentLine q + 1).
  { intros q Hq. unfold Parser.getNextLine in Hq.
    destruct (Stream.getline _) as [l s]. injection Hq as _ <-. reflexivity. }
  split_and!.
  - intros Hc Ht. unfold Parser.getLineDepth. fold spaces depth checked.
    rewrite Hc, (Htab Ht), Ascii.eqb_refl. reflexivity.
  - intros Hc Ht Hodd. unfold Parser.getLineDepth. fold spaces depth checked.
    destruct (Hnotab Ht) as (c & -> & ->). rewrite Hc.
    destruct (Z.eqb_spec (spaces mod 2) 0) as [?|_]; [contradiction|]. reflexivity.
  - intros Hc Ht Heven. unfold Parser.getLineDepth. fold spaces depth checked.
    destruct (Hnotab Ht) as (c & -> & ->). rewrite Hc, Heven. reflexivity.
  - intros Hc. unfold Parser.getLineDepth. fold spaces depth checked.
    rewrite Hc. reflexivity.
  - intros e He. unfold Parser.parseLine. rewrite He. reflexivity.
  - intros e q Heof Hq He. split; [apply Hline; exact Hq|].
    cbn [Parser.parse_loop]. rewrite Heof, Hq.
    unfold Parser.parseLine. rewrite He. reflexivity.
  - intros e q acc Hq He. split.
    + rewrite (Hline _ Hq). reflexivity.
    + cbn [Parser.block_loop].
      destruct (Stream.tellg (in_ q)) as [lastPos s]. simpl in Hq.
      rewrite Hq, He. reflexivity.
  - intros Hsource Hpos. split;
      apply (proj1 (OTMLException_doc_text source _ (currentLine p)) Hsource Hpos).
  - intros Hsource. split;
      apply (proj2 (OTMLException_doc_text source _ (currentLine p)) Hsource).
Qed.

Lemma indentation_validation_witness :
  let h := [Node.setSource "doc" OTMLNode_new] in
  let q := Parser.new h 0%nat (Stream.open "   b") in
  let p := snd (Parser.getNextLine q) in
  (* three leading spaces on line 1 *)
  Parser.parse_loop 1 q
    = Throw (OTMLException "OTML error in 'doc' at line 1: must indent every 2 spaces")
  (* a tab after one space *)
  /\ Parser.getLineDepth p (String " " (String Str.tab "b")) false
     = Throw (OTMLException "OTML error in 'doc' at line 1: indentation with tabs are not allowed")
  (* inside a block scalar, deeper than the current depth: exempt *)
  /\ Parser.getLineDepth p (String " " (String " " (String " " (String Str.tab "b")))) true
     = Ok 1.
Proof.
  intros h q p. split_and!.
  - pose proof (indentation_validation 0 p "   b" false)
      as (_ & Hodd & _ & _ & _ & Hloop & _ & Htext & _).
    apply (Hloop _ q); [reflexivity|reflexivity|].
    rewrite Hodd; [|reflexivity|reflexivity|vm_compute; discriminate].
    rewrite (proj2 (Htext ltac:(vm_compute; discriminate)
                          ltac:(vm_compute; discriminate))).
    reflexivity.
  - pose proof (indentation_validation 0 p (String " " (String Str.tab "b")) false)
      as (Htab & _ & _ & _ & _ & _ & _ & Htext & _).
    rewrite Htab; [|reflexivity|reflexivity].
    rewrite (proj1 (Htext ltac:(vm_compute; discriminate)
                          ltac:(vm_compute; discriminate))).
    reflexivity.
  - pose proof (indentation_validation 0 p
                  (String " " (String " " (String " " (String Str.tab "b")))) true)
      as (_ & _ & _ & Hexempt & _).
    rewrite Hexempt; reflexivity.
Defined.

(** C5, as stated, fails for a document whose source label is empty: the
    exception carries no line number, so three leading spaces on line 1
    and on line 3 raise the same exception, and so does a tab. *)
Lemma indentation_validation_counterexample :
  OTMLDocument_parse [] (Stream.open "   b") ""
  = Throw (OTMLException "OTML error: must indent every 2 spaces")
  /\ OTMLDocument_parse [] (Stream.open ("a" ++ String Str.nl ("a" ++ String Str.nl "   b"))) ""
     = Throw (OTMLException "OTML error: must indent every 2 spaces")
  /\ OTMLDocument_parse [] (Stream.open ("a" ++ String Str.nl (String Str.tab "b"))) ""
     = Throw (OTMLException "OTML error: indentation with tabs are not allowed")
  /\ OTMLDocument_parse [] (Stream.open ("a" ++ String Str.nl ("a" ++ String Str.nl "   b"))) "doc"
     = Throw (OTMLException "OTML error in 'doc' at line 3: must indent every 2 spaces").
Proof. vm_compute. split_and!; reflexivity. Qed.

(** ** C8: the emitter and the children of a node *)

(** The blocks of the children joined by newlines; [first] tells whether a
    newline also precedes the first block. *)
Fixpoint join_blocks (first : bool) (blocks : list string) : string :=
  match blocks with
  | [] => ""
  | block :: rest =>
      (if first then String Str.nl "" else "") ++ block ++ join_blocks true rest
  end.

(** The subtree below a node is at most [n] levels deep. *)
Inductive bounded (h : heap) : nat -> ptr -> Prop :=
| bounded_node (n : nat) (node : ptr) :
    (forall child, child ∈ m_children (deref h node) -> bounded h n child) ->
    bounded h (S n) node.

Lemma emit_children_join (emit : ptr -> outcome string) (currentDepth : Z)
    (children : list ptr) :
  forall (i : Z) (ss : string),
    0 <= i ->
    OTMLEmitter.emit_children emit currentDepth children i ss =
      blocks ← mapM emit children;
      Ok (ss ++ join_blocks ((0 <=? currentDepth) || negb (i =? 0)) blocks).
Proof.
  induction children as [|child rest IH]; intros i ss Hi.
  - simpl. rewrite append_nil_r. reflexivity.
  - cbn [OTMLEmitter.emit_children mapM]. 
    destruct (emit child) as [sub| | |]; outcome_simpl; try reflexivity.
    rewrite IH by lia.
    destruct (mapM emit rest) as [blocks| | |]; outcome_simpl; try reflexivity.
    destruct (Z.eqb_spec (i + 1) 0) as [?|_]; [lia|].
    rewrite orb_true_r. cbn [join_blocks negb].
    destruct ((0 <=? currentDepth) || negb (i =? 0));
      rewrite !append_assoc; reflexivity.
Qed.

Lemma emit_own_fuel (h : heap) (node : ptr) (currentDepth : Z) :
  OTMLEmitter.emit_own h node currentDepth <> OutOfFuel.
Proof.
  unfold OTMLEmitter.emit_own, Node.value, OTMLEmitter.block_style.
  destruct (0 <=? currentDepth); [|discriminate].
  destruct (Node.isNull h node); [discriminate|].
  destruct (Node.hasValue h node); [|discriminate].
  simpl. destruct (Str.find Str.nl _); [|discriminate].
  destruct (Str.at_ _ _) as [c1|]; [|discriminate].
  destruct (Ascii.eqb c1 Str.nl); [|discriminate].
  destruct (Str.at_ _ _) as [c2|]; discriminate.
Qed.

Lemma mapM_fuel {A B : Type} (f : A -> outcome B) (l : list A) :
  (forall x, x ∈ l -> f x <> OutOfFuel) -> mapM f l <> OutOfFuel.
Proof.
  induction l as [|x l IH]; intros Hl; [discriminate|].
  cbn [mapM]. pose proof (Hl x ltac:(left)) as Hx.
  destruct (f x) as [y| | |]; outcome_simpl; try discriminate; [|contradiction].
  assert (Hrest : mapM f l <> OutOfFuel).
  { apply IH. intros z Hz. apply Hl. right. exact Hz. }
  destruct (mapM f l); outcome_simpl; try discriminate. contradiction.
Qed.

Lemma emitNode_unfold (fuel : nat) (h : heap) (node : ptr) (currentDepth : Z) :
  OTMLEmitter.emitNode (S fuel) h node currentDepth =
    own ← OTMLEmitter.emit_own h node currentDepth;
    blocks ← mapM (fun child => OTMLEmitter.emitNode fuel h child (currentDepth + 1))
               (m_children (deref h node));
    Ok (own ++ join_blocks (0 <=? currentDepth) blocks).
Proof.
  cbn [OTMLEmitter.emitNode].
  destruct (OTMLEmitter.emit_own h node currentDepth) as [own| | |];
    outcome_simpl; try reflexivity.
  rewrite emit_children_join by lia. simpl. rewrite orb_false_r. reflexivity.
Qed.

Lemma emitNode_fuel (h : heap) (n : nat) (node : ptr) :
  bounded h n node ->
  forall currentDepth, OTMLEmitter.emitNode n h node currentDepth <> OutOfFuel.
Proof.
  induction 1 as [n node Hchildren IH]. intros currentDepth.
  rewrite emitNode_unfold.
  pose proof (emit_own_fuel h node currentDepth) as Hown.
  destruct (OTMLEmitter.emit_own h node currentDepth) as [own| | |];
    outcome_simpl; try discriminate; [|contradiction].
  pose proof (mapM_fuel (fun child => OTMLEmitter.emitNode n h child (currentDepth + 1))
                (m_children (deref h node))
                (fun child Hc => IH child Hc (currentDepth + 1))) as Hsub.
  destruct (mapM _ _); outcome_simpl; try discriminate. contradiction.
Qed.

(** C8 (amended). After the node's own line the emitter emits every
    child, null or not, at [depth + 1]; a null child yields its own line,
    ending in [ ~].  The blocks are separated by newline characters: one
    before each child block below a node that has a line, and one between
    the child blocks of the document root, with none after the last. *)
Theorem emit_every_child (fuel : nat) (h : heap) (node : ptr) (currentDepth : Z)
    (Hbounded : bounded h (S fuel) node) :
  OTMLEmitter.emitNode (S fuel) h node currentDepth =
    (own ← OTMLEmitter.emit_own h node currentDepth;
     blocks ← mapM (fun child => OTMLEmitter.emitNode fuel h child (currentDepth + 1))
                (m_children (deref h node));
     Ok (own ++ join_blocks (0 <=? currentDepth) blocks))
  /\ OTMLEmitter.emitNode (S fuel) h node currentDepth <> OutOfFuel
  /\ (currentDepth < 0 -> OTMLEmitter.emit_own h node currentDepth = Ok "")
  /\ (forall child d,
         child ∈ m_children (deref h node) -> Node.isNull h child = true -> 0 <= d ->
         OTMLEmitter.emit_own h child d =
           Ok ((Str.repeat "  " (Z.to_nat d)
                ++ (if Node.hasTag h child then Node.tag h child ++ ":" else "-"))
               ++ " ~")).
Proof.
  split_and!.
  - apply emitNode_unfold.
  - apply emitNode_fuel. exact Hbounded.
  - intros Hneg. unfold OTMLEmitter.emit_own.
    destruct (Z.leb_spec 0 currentDepth) as [?|_]; [lia|reflexivity].
  - intros child d _ Hnull Hd. unfold OTMLEmitter.emit_own.
    destruct (Z.leb_spec 0 d) as [_|?]; [|lia].
    rewrite Hnull, orb_true_r.
    destruct (Node.hasTag h child); [|reflexivity].
    rewrite !append_assoc. reflexivity.
Qed.

(** A document (node 0) with the children [a: 1], the null [b] and [c]
    (which has a null child [d]), built with the public operations. *)
Definition null_child_heap : heap :=
  let '(h, doc) := OTMLDocument_create [] in
  let '(h, a) := Node.create_value h "a" "1" in
  let h := Node.addChild h doc a in
  let '(h, b) := Node.create h "b" false in
  let h := update h b (Node.setNull true) in
  let h := Node.addChild h doc b in
  let '(h, c) := Node.create h "c" false in
  let h := Node.addChild h doc c in
  let '(h, d) := Node.create h "d" false in
  let h := update h d (Node.setNull true) in
  Node.addChild h c d.

(** C8, as stated, fails: the null children [b] and [d] produce the lines
    [b: ~] and [  d: ~]. *)
Lemma emit_null_child_counterexample :
  Node.isNull null_child_heap 2%nat = true
  /\ Node.isNull null_child_heap 4%nat = true
  /\ OTMLEmitter.emitNode 1 null_child_heap 2%nat 0 = Ok "b: ~"
  /\ OTMLEmitter.emitNode 1 null_child_heap 2%nat 0 <> Ok ""
  /\ OTMLDocument_emit 3 null_child_heap 0%nat
     = Ok ("a: 1" ++ String Str.nl "b: ~" ++ String Str.nl "c" ++ String Str.nl "  d: ~").
Proof. vm_compute. split_and!; try reflexivity. discriminate. Qed.

Ltac elem_cases H :=
  repeat (apply elem_of_cons in H as [->|H]);
  try (apply elem_of_nil in H; destruct H).

Lemma null_child_heap_bounded : bounded null_child_heap 3 0%nat.
Proof.
  constructor. intros c1 H1. vm_compute in H1. elem_cases H1;
    constructor; intros c2 H2; vm_compute in H2; elem_cases H2;
    constructor; intros c3 H3; vm_compute in H3; elem_cases H3.
Qed.

Lemma emit_every_child_witness :
  OTMLDocument_emit 3 null_child_heap 0%nat
  = Ok ("a: 1" ++ String Str.nl "b: ~" ++ String Str.nl "c" ++ String Str.nl "  d: ~")
  /\ OTMLDocument_emit 3 null_child_heap 0%nat <> OutOfFuel.
Proof.
  pose proof (emit_every_child 2 null_child_heap 0%nat (-1) null_child_heap_bounded)
    as (Heq & Hfuel & _).
  split; [|exact Hfuel].
  unfold OTMLDocument_emit. rewrite Heq. vm_compute. reflexivity.
Defined.

(** ** C1: emitting a tree and parsing it back *)

(** *** Trees *)

(** The content of a node and of the nodes below it. *)
#[warnings="-register-all"]
Inductive tree : Type :=
| Tree (tag value : string) (unique null : bool) (children : list tree).

Definition t_tag (t : tree) : string := let 'Tree tag _ _ _ _ := t in tag.
Definition t_value (t : tree) : string := let 'Tree _ value _ _ _ := t in value.
Definition t_unique (t : tree) : bool := let 'Tree _ _ unique _ _ := t in unique.
Definition t_null (t : tree) : bool := let 'Tree _ _ _ null _ := t in null.
Definition t_children (t : tree) : list tree := let 'Tree _ _ _ _ children := t in children.

Fixpoint height (t : tree) : nat :=
  match t with
  | Tree _ _ _ _ children => S (list_max (List.map height children))
  end.

Lemma tree_induction (P : tree -> Prop) :
  (forall tag value unique null children,
      Forall P children -> P (Tree tag value unique null children)) ->
  forall t, P t.
Proof.
  intros Hnode. fix IH 1. intros [tag value unique null children].
  apply Hnode. induction children as [|c cs IHcs]; constructor.
  - apply IH.
  - exact IHcs.
Qed.

(** The heap at [p] holds the tree [t], in nodes at [lo] or above. *)
Fixpoint repr (h : heap) (lo : nat) (t : tree) (p : ptr) {struct t} : Prop :=
  match t with
  | Tree tag value unique null children =>
      (lo <= p < length h)%nat
      /\ m_tag (deref h p) = tag
      /\ m_value (deref h p) = value
      /\ m_unique (deref h p) = unique
      /\ m_null (deref h p) = null
      /\ (fix all (ts : list tree) (ps : list ptr) {struct ts} : Prop :=
            match ts, ps with
            | [], [] => True
            | t' :: ts', p' :: ps' => repr h lo t' p' /\ all ts' ps'
            | _, _ => False
            end) children (m_children (deref h p))
  end.

Lemma repr_unfold (h : heap) (lo : nat) (t : tree) (p : ptr) :
  repr h lo t p <->
    (lo <= p < length h)%nat
    /\ m_tag (deref h p) = t_tag t
    /\ m_value (deref h p) = t_value t
    /\ m_unique (deref h p) = t_unique t
    /\ m_null (deref h p) = t_null t
    /\ Forall2 (repr h lo) (t_children t) (m_children (deref h p)).
Proof.
  destruct t as [tag value unique null children]. cbn [repr t_tag t_value t_unique t_null t_children].
  assert (Hall : forall ts ps,
             (fix all (ts : list tree) (ps : list ptr) {struct ts} : Prop :=
                match ts, ps with
                | [], [] => True
                | t' :: ts', p' :: ps' => repr h lo t' p' /\ all ts' ps'
                | _, _ => False
                end) ts ps <-> Forall2 (repr h lo) ts ps).
  { induction ts as [|t' ts' IH]; intros [|p' ps'].
    - split; [constructor|trivial].
    - split; [intros []|intros H; inversion H].
    - split; [intros []|intros H; inversion H].
    - split.
      + intros [H1 H2]. constructor; [exact H1|]. apply IH. exact H2.
      + intros H. inversion H; subst. split; [assumption|]. apply IH. assumption. }
  rewrite Hall. tauto.
Qed.

(** *** The lines of an emitted tree *)

Definition contains (c : ascii) (s : string) : bool :=
  match Str.find c s with
  | Some _ => true
  | None => false
  end.

Definition has_value (t : tree) : bool := negb (String.eqb (t_value t) "").

(** Whether the emitter writes a colon after the tag. *)
Definition colon (t : tree) : bool := has_value t || t_unique t || t_null t.

(** The tag part of a node's line. *)
Definition head (t : tree) : string :=
  if String.eqb (t_tag t) "" then "-"
  else t_tag t ++ (if colon t then ":" else "").

(** The block style the emitter chooses for a value, from its last two
    characters. *)
Definition style (value : string) : string :=
  let n := String.length value in
  match String.get (n - 1) value with
  | Some c1 =>
      if Ascii.eqb c1 Str.nl then
        match String.get (n - 2) value with
        | Some c2 => if Ascii.eqb c2 Str.nl then "|+" else "|"
        | None => "|"
        end
      else "|-"
  | None => "|-"
  end.

Fixpoint drop_last_empty (pieces : list string) : list string :=
  match pieces with
  | [] => []
  | [piece] => if String.eqb piece "" then [] else [piece]
  | piece :: rest => piece :: drop_last_empty rest
  end.

(** The lines of a block value: its pieces, without the empty piece that
    follows a final newline. *)
Definition block_pieces (value : string) : list string :=
  drop_last_empty (Str.lines value).

Definition indent (d : nat) : string := Str.repeat "  " d.

(** A node's line without its indentation. *)
Definition header (t : tree) : string :=
  if t_null t then head t ++ " ~"
  else if has_value t then
    head t ++ " " ++ (if contains Str.nl (t_value t) then style (t_value t) else t_value t)
  else head t.

(** The lines of a block value under a node at depth [d]. *)
Definition block_lines (d : nat) (pieces : list string) : list string :=
  List.map (fun piece => indent (S d) ++ piece) pieces.

(** The lines the emitter writes for the node itself at depth [d]. *)
Definition own_lines (d : nat) (t : tree) : list string :=
  (indent d ++ header t)
  :: (if negb (t_null t) && contains Str.nl (t_value t)
      then block_lines d (block_pieces (t_value t))
      else []).

(** The lines of a node and of the nodes below it, in document order. *)
Fixpoint tree_lines (d : nat) (t : tree) : list string :=
  own_lines d t
  ++ match t with
     | Tree _ _ _ _ children => List.concat (List.map (tree_lines (S d)) children)
     end.

Definition forest_lines (d : nat) (ts : list tree) : list string :=
  List.concat (List.map (tree_lines d) ts).

Fixpoint join_lines (ls : list string) : string :=
  match ls with
  | [] => ""
  | [l] => l
  | l :: rest => l ++ String Str.nl (join_lines rest)
  end.

Lemma tree_lines_unfold (d : nat) (t : tree) :
  tree_lines d t = (own_lines d t ++ forest_lines (S d) (t_children t))%list.
Proof. destruct t; reflexivity. Qed.

Lemma join_lines_cons (l : string) (ls : list string) :
  ls <> [] -> join_lines (l :: ls) = l ++ String Str.nl (join_lines ls).
Proof. destruct ls; [contradiction|reflexivity]. Qed.

Lemma join_lines_app (l1 l2 : list string) :
  l1 <> [] -> l2 <> [] ->
  join_lines (l1 ++ l2) = join_lines l1 ++ String Str.nl (join_lines l2).
Proof.
  intros H1 H2. induction l1 as [|l l1 IH]; [contradiction|].
  destruct l1 as [|l' l1].
  - simpl. destruct l2; [contradiction|reflexivity].
  - change ((l :: l' :: l1) ++ l2)%list with (l :: ((l' :: l1) ++ l2))%list.
    rewrite join_lines_cons by discriminate.
    rewrite IH by discriminate.
    rewrite (join_lines_cons l (l' :: l1)) by discriminate.
    rewrite append_assoc. reflexivity.
Qed.

Lemma tree_lines_nonempty (d : nat) (t : tree) : tree_lines d t <> [].
Proof. rewrite tree_lines_unfold. discriminate. Qed.

(** The blocks of the children, joined as [emitNode] joins them, are the
    lines of all the blocks joined. *)
Lemma join_blocks_lines (first : bool) (blocks : list (list string)) :
  Forall (fun b => b <> []) blocks ->
  join_blocks first (List.map join_lines blocks) =
    match List.concat blocks with
    | [] => ""
    | _ => (if first then String Str.nl "" else "") ++ join_lines (List.concat blocks)
    end.
Proof.
  intros Hne. revert first. induction Hne as [|b blocks Hb Hne IH]; intros first.
  - reflexivity.
  - cbn [List.map join_blocks List.concat]. rewrite IH.
    destruct b as [|l b]; [contradiction|].
    change ((l :: b) ++ List.concat blocks)%list with (l :: (b ++ List.concat blocks))%list.
    cbv iota.
    destruct (List.concat blocks) as [|l' rest] eqn:Hc.
    + rewrite app_nil_r, append_nil_r. reflexivity.
    + rewrite app_comm_cons, join_lines_app by discriminate.
      change (String Str.nl "" ++ join_lines (l' :: rest))
        with (String Str.nl (join_lines (l' :: rest))).
      rewrite <- !append_assoc. reflexivity.
Qed.

(** *** The emitter writes these lines *)

(** What [emit_block] appends for the pieces of a block value. *)
Fixpoint render (ind : string) (pieces : list string) : string :=
  match pieces with
  | [] => ""
  | piece :: rest => String Str.nl (ind ++ piece ++ render ind rest)
  end.

Lemma drop_last_empty_cons (piece : string) (rest : list string) :
  rest <> [] -> drop_last_empty (piece :: rest) = piece :: drop_last_empty rest.
Proof. destruct rest; [contradiction|reflexivity]. Qed.

Lemma emit_block_lines (ind : string) (value : string) :
  OTMLEmitter.emit_block ind true value = render ind (block_pieces value)
  /\ OTMLEmitter.emit_block ind false value =
       match Str.lines value with
       | first :: rest => first ++ render ind (drop_last_empty rest)
       | [] => ""
       end.
Proof.
  unfold block_pieces. induction value as [|c r [IHt IHf]]; [split; reflexivity|].
  pose proof (lines_nonempty r) as Hne.
  cbn [OTMLEmitter.emit_block Str.lines].
  destruct (Ascii.eqb c Str.nl).
  - rewrite drop_last_empty_cons by exact Hne. rewrite IHt. split; reflexivity.
  - rewrite IHf. destruct (Str.lines r) as [|first rest]; [contradiction|].
    split; [|reflexivity].
    destruct rest as [|second rest].
    + cbn [drop_last_empty render String.eqb].
      rewrite !append_cons, !append_nil_r. reflexivity.
    + rewrite (drop_last_empty_cons (String c first)) by discriminate.
      cbn [render]. rewrite !append_cons. reflexivity.
Qed.

Lemma join_lines_render (first ind : string) (pieces : list string) :
  join_lines (first :: List.map (fun piece => ind ++ piece) pieces) =
    first ++ render ind pieces.
Proof.
  revert first. induction pieces as [|piece rest IH]; intros first.
  - simpl. rewrite append_nil_r. reflexivity.
  - cbn [List.map]. rewrite join_lines_cons by discriminate. rewrite IH.
    cbn [render]. rewrite append_assoc. reflexivity.
Qed.

Lemma get_some_lt (s : string) (n : nat) :
  (n < String.length s)%nat -> exists c, String.get n s = Some c.
Proof.
  intros Hn. destruct (String.get n s) as [c|] eqn:Hget; [eauto|].
  apply get_none_ge in Hget. lia.
Qed.

Lemma at_in_range (s : string) (i : Z) :
  0 <= i < Str.len s -> Str.at_ s i = String.get (Z.to_nat i) s.
Proof.
  intros Hi. unfold Str.at_.
  destruct (Z.ltb_spec i 0) as [?|_]; [lia|].
  destruct (Z.eqb_spec i (Str.len s)) as [?|_]; [lia|]. reflexivity.
Qed.

Lemma block_style_ok (value : string) :
  (2 <= String.length value)%nat ->
  OTMLEmitter.block_style value = Ok (style value).
Proof.
  intros Hlen. unfold OTMLEmitter.block_style, style.
  rewrite !at_in_range by (unfold Str.len; lia). unfold Str.len.
  replace (Z.to_nat (Z.of_nat (String.length value) - 1))
    with (String.length value - 1)%nat by lia.
  replace (Z.to_nat (Z.of_nat (String.length value) - 2))
    with (String.length value - 2)%nat by lia.
  destruct (get_some_lt value (String.length value - 1) ltac:(lia)) as [c1 ->].
  destruct (get_some_lt value (String.length value - 2) ltac:(lia)) as [c2 ->].
  destruct (Ascii.eqb c1 Str.nl); reflexivity.
Qed.

Lemma contains_length (c : ascii) (s : string) :
  contains c s = true -> (1 <= String.length s)%nat.
Proof. destruct s; [discriminate|simpl; lia]. Qed.

Lemma length_one_newline (s : string) :
  contains Str.nl s = true -> String.length s = 1%nat -> s = String Str.nl "".
Proof.
  destruct s as [|c [|c' s]]; try discriminate. unfold contains. simpl.
  destruct (Ascii.eqb_spec c Str.nl) as [->|_]; [reflexivity|discriminate].
Qed.

(** The emitter can write the value: it is not the lone newline, for which
    the choice of the block style reads before the start of the value. *)
Definition emittable (value : string) : Prop := value <> String Str.nl "".

Lemma emit_own_lines (h : heap) (lo d : nat) (t : tree) (p : ptr) :
  repr h lo t p ->
  emittable (t_value t) ->
  OTMLEmitter.emit_own h p (Z.of_nat d) = Ok (join_lines (own_lines d t)).
Proof.
  intros Hrepr Hsafe. apply repr_unfold in Hrepr.
  destruct Hrepr as (_ & Htag & Hvalue & Hunique & Hnull & _).
  unfold OTMLEmitter.emit_own, own_lines, header, head, colon, has_value.
  unfold Node.hasTag, Node.hasValue, Node.isUnique, Node.isNull, Node.tag, Node.value.
  rewrite Htag, Hvalue, Hunique, Hnull.
  destruct (Z.leb_spec 0 (Z.of_nat d)) as [_|?]; [|lia].
  rewrite Nat2Z.id. fold (indent d).
  set (hd := if String.eqb (t_tag t) "" then "-"
             else t_tag t ++ (if negb (String.eqb (t_value t) "") || t_unique t || t_null t
                              then ":" else "")).
  assert (Hhd : (if negb (String.eqb (t_tag t) "")
                 then indent d ++ t_tag t
                      ++ (if negb (String.eqb (t_value t) "") || t_unique t || t_null t
                          then ":" else "")
                 else indent d ++ "-") = indent d ++ hd).
  { unfold hd. destruct (String.eqb (t_tag t) ""); reflexivity. }
  rewrite Hhd.
  destruct (t_null t).
  - cbn [negb andb join_lines]. rewrite !append_assoc. reflexivity.
  - cbn [negb andb]. destruct (String.eqb (t_value t) "") eqn:Hv.
    + cbn [negb]. apply String.eqb_eq in Hv. rewrite Hv. reflexivity.
    + cbn [negb cast cast_string_string]. outcome_simpl.
      unfold contains. destruct (Str.find Str.nl (t_value t)) eqn:Hfind.
      * assert (Hc : contains Str.nl (t_value t) = true) by (unfold contains; rewrite Hfind; reflexivity).
        assert (Hlen : (2 <= String.length (t_value t))%nat).
        { pose proof (contains_length _ _ Hc).
          destruct (decide (String.length (t_value t) = 1%nat)) as [H1|H1]; [|lia].
          exfalso. apply Hsafe. apply length_one_newline; assumption. }
        rewrite (block_style_ok _ Hlen). outcome_simpl.
        rewrite (proj1 (emit_block_lines _ _)).
        replace (Z.to_nat (Z.of_nat d + 1)) with (S d) by lia. fold (indent (S d)).
        unfold block_lines. rewrite join_lines_render. rewrite !append_assoc. reflexivity.
      * cbn [join_lines]. rewrite !append_assoc. reflexivity.
Qed.

Lemma mapM_ok {A B C : Type} (f : A -> outcome B) (g : C -> B) (xs : list A) (ys : list C) :
  Forall2 (fun y x => f x = Ok (g y)) ys xs -> mapM f xs = Ok (List.map g ys).
Proof.
  induction 1 as [|y x ys xs Hx _ IH]; [reflexivity|].
  cbn [mapM List.map]. rewrite Hx. outcome_simpl. rewrite IH. reflexivity.
Qed.

(** Every value in the tree can be written by the emitter. *)
Fixpoint emittable_tree (t : tree) : Prop :=
  match t with
  | Tree _ value _ _ children =>
      emittable value
      /\ (fix all (ts : list tree) : Prop :=
            match ts with
            | [] => True
            | t' :: ts' => emittable_tree t' /\ all ts'
            end) children
  end.

Lemma emittable_tree_unfold (t : tree) :
  emittable_tree t <-> emittable (t_value t) /\ Forall emittable_tree (t_children t).
Proof.
  destruct t as [tag value unique null children]. cbn [emittable_tree t_value t_children].
  assert (Hall : forall ts,
             (fix all (ts : list tree) : Prop :=
                match ts with
                | [] => True
                | t' :: ts' => emittable_tree t' /\ all ts'
                end) ts <-> Forall emittable_tree ts).
  { induction ts as [|t' ts' IH].
    - split; [constructor|trivial].
    - split.
      + intros [H1 H2]. constructor; [exact H1|]. apply IH. exact H2.
      + intros H. inversion H; subst. split; [assumption|]. apply IH. assumption. }
  rewrite Hall. reflexivity.
Qed.

Lemma height_children (t c : tree) :
  c ∈ t_children t -> (S (height c) <= height t)%nat.
Proof.
  destruct t as [tag value unique null children]. cbn [t_children height].
  intros Hc. apply le_n_S.
  assert (Hall : Forall (fun k => (k <= list_max (List.map height children))%nat)
                   (List.map height children)).
  { apply list_max_le. lia. }
  rewrite List.Forall_forall in Hall. apply Hall.
  apply List.in_map. apply list_elem_of_In. exact Hc.
Qed.

Lemma Forall2_Forall_impl {A B : Type} (P : A -> Prop) (R S : A -> B -> Prop)
    (xs : list A) (ys : list B) :
  Forall2 R xs ys -> Forall P xs -> (forall x y, x ∈ xs -> P x -> R x y -> S x y) ->
  Forall2 S xs ys.
Proof.
  induction 1 as [|x y xs ys Hxy _ IH]; intros HP Himp; constructor.
  - inversion HP; subst. apply Himp; [left|assumption|assumption].
  - inversion HP; subst. apply IH; [assumption|].
    intros x' y' Hx'. apply Himp. right. exact Hx'.
Qed.

(** A. The emitter writes the lines of a tree held in the heap. *)
Lemma emitNode_tree_lines (t : tree) :
  forall (h : heap) (lo : nat) (p : ptr) (d fuel : nat),
    repr h lo t p -> emittable_tree t -> (height t <= fuel)%nat ->
    OTMLEmitter.emitNode fuel h p (Z.of_nat d) = Ok (join_lines (tree_lines d t)).
Proof.
  induction t as [tag value unique null children IH] using tree_induction.
  intros h lo p d fuel Hrepr Hsafe Hfuel.
  set (t := Tree tag value unique null children) in *.
  destruct fuel as [|fuel]; [simpl in Hfuel; lia|].
  rewrite emitNode_unfold.
  apply emittable_tree_unfold in Hsafe. destruct Hsafe as [Hvalue Hchildren].
  rewrite (emit_own_lines h lo d t p Hrepr Hvalue). outcome_simpl.
  apply repr_unfold in Hrepr. destruct Hrepr as (_ & _ & _ & _ & _ & Hcs).
  cbn [t_children] in Hcs, Hchildren.
  rewrite (mapM_ok _ (fun c => join_lines (tree_lines (S d) c)) _ children).
  - outcome_simpl. f_equal. rewrite tree_lines_unfold. cbn [t_children].
    destruct (Z.leb_spec 0 (Z.of_nat d)) as [_|?]; [|lia].
    rewrite <- (List.map_map (tree_lines (S d)) join_lines).
    rewrite join_blocks_lines.
    + unfold forest_lines. destruct (List.concat _) as [|l ls] eqn:Hc.
      * rewrite app_nil_r, append_nil_r. reflexivity.
      * rewrite join_lines_app; [reflexivity|discriminate|discriminate].
    + apply List.Forall_forall. intros b Hb. apply List.in_map_iff in Hb.
      destruct Hb as (c & <- & _). apply tree_lines_nonempty.
  - assert (Hh : forall c, c ∈ children -> (height c <= fuel)%nat).
    { intros c Hc. pose proof (height_children t c Hc). lia. }
    apply (Forall2_Forall_impl
             (fun c => emittable_tree c /\ forall (h : heap) (lo : nat) (p : ptr) (d fuel : nat),
                  repr h lo c p -> emittable_tree c -> (height c <= fuel)%nat ->
                  OTMLEmitter.emitNode fuel h p (Z.of_nat d) = Ok (join_lines (tree_lines d c)))
             (repr h lo)); [exact Hcs| |].
    + clear - IH Hchildren. induction IH; inversion Hchildren; subst; constructor; auto.
    + intros c q Hc [Hsafe Hc'] Hq.
      replace (Z.of_nat d + 1) with (Z.of_nat (S d)) by lia.
      eapply Hc'; [exact Hq|exact Hsafe|]. apply Hh. exact Hc.
Qed.

(** The document: the blocks of the children of the root, joined. *)
Lemma emit_document_lines (h : heap) (lo : nat) (root : ptr) (ts : list tree) (fuel : nat) :
  Forall2 (repr h lo) ts (m_children (deref h root)) ->
  Forall emittable_tree ts ->
  (forall t, t ∈ ts -> (height t <= fuel)%nat) ->
  OTMLDocument_emit (S fuel) h root = Ok (join_lines (forest_lines 0 ts)).
Proof.
  intros Hcs Hsafe Hfuel. unfold OTMLDocument_emit. rewrite emitNode_unfold.
  assert (Hown : OTMLEmitter.emit_own h root (-1) = Ok "") by reflexivity.
  rewrite Hown. outcome_simpl.
  rewrite (mapM_ok _ (fun c => join_lines (tree_lines 0 c)) _ ts).
  - outcome_simpl. f_equal. change (0 <=? -1) with false.
    rewrite <- (List.map_map (tree_lines 0) join_lines).
    rewrite join_blocks_lines.
    + unfold forest_lines. destruct (List.concat _); reflexivity.
    + apply List.Forall_forall. intros b Hb. apply List.in_map_iff in Hb.
      destruct Hb as (c & <- & _). apply tree_lines_nonempty.
  - apply (Forall2_Forall_impl emittable_tree (repr h lo)); [exact Hcs|exact Hsafe|].
    intros c q Hc Hsafe' Hq. change (-1 + 1) with (Z.of_nat 0).
    eapply emitNode_tree_lines; [exact Hq|exact Hsafe'|]. apply Hfuel. exact Hc.
Qed.

(** *** Strings: reversal, trimming, searching *)

Lemma rev_acc_app (s acc : string) : Str.rev_acc s acc = Str.rev s ++ acc.
Proof.
  unfold Str.rev. revert acc. induction s as [|c s IH]; intros acc; [reflexivity|].
  cbn [Str.rev_acc]. rewrite IH, (IH (String c "")), append_assoc. reflexivity.
Qed.

Lemma rev_cons (c : ascii) (s : string) : Str.rev (String c s) = Str.rev s ++ String c "".
Proof. unfold Str.rev at 1. cbn [Str.rev_acc]. apply rev_acc_app. Qed.

Lemma rev_append (a b : string) : Str.rev (a ++ b) = Str.rev b ++ Str.rev a.
Proof.
  induction a as [|c a IH].
  - change ("" ++ b) with b. rewrite append_nil_r. reflexivity.
  - rewrite append_cons, !rev_cons, IH, append_assoc. reflexivity.
Qed.

Lemma rev_involutive (s : string) : Str.rev (Str.rev s) = s.
Proof.
  induction s as [|c s IH]; [reflexivity|].
  rewrite rev_cons, rev_append, IH. reflexivity.
Qed.

Lemma length_rev (s : string) : String.length (Str.rev s) = String.length s.
Proof.
  induction s as [|c s IH]; [reflexivity|].
  rewrite rev_cons, length_append, IH. simpl. lia.
Qed.

(** The string begins with a character that is not white space. *)
Definition starts_ok (s : string) : bool :=
  match s with
  | String c _ => negb (Str.isspace c)
  | EmptyString => false
  end.

(** The string ends with a character that is not white space. *)
Definition ends_ok (s : string) : bool := starts_ok (Str.rev s).

Lemma ltrim_fixed (s : string) : starts_ok s = true -> Str.ltrim s = s.
Proof.
  destruct s as [|c s]; [discriminate|]. simpl. intros Hc.
  destruct (Str.isspace c); [discriminate|reflexivity].
Qed.

Lemma rtrim_fixed (s : string) : ends_ok s = true -> Str.rtrim s = s.
Proof.
  intros Hs. unfold Str.rtrim. rewrite ltrim_fixed by exact Hs. apply rev_involutive.
Qed.

Lemma trim_fixed (s : string) : starts_ok s = true -> ends_ok s = true -> Str.trim s = s.
Proof.
  intros H1 H2. unfold Str.trim. rewrite ltrim_fixed by exact H1. apply rtrim_fixed. exact H2.
Qed.

Lemma starts_ok_append (a b : string) : a <> "" -> starts_ok (a ++ b) = starts_ok a.
Proof. destruct a; [contradiction|reflexivity]. Qed.

Lemma ends_ok_append (a b : string) : b <> "" -> ends_ok (a ++ b) = ends_ok b.
Proof.
  intros Hb. unfold ends_ok. rewrite rev_append. apply starts_ok_append.
  intros Hr. apply Hb. rewrite <- (rev_involutive b), Hr. reflexivity.
Qed.

Lemma length_ltrim (s : string) : (String.length (Str.ltrim s) <= String.length s)%nat.
Proof.
  induction s as [|c s IH]; simpl; [lia|].
  destruct (Str.isspace c); simpl; lia.
Qed.

(** A non-empty string that trimming leaves unchanged neither begins nor
    ends with white space. *)
Lemma trimmed_ends (s : string) :
  Str.trim s = s -> s <> "" -> starts_ok s = true /\ ends_ok s = true.
Proof.
  intros Htrim Hne.
  assert (Hlen : forall x, (String.length (Str.rtrim x) <= String.length x)%nat).
  { intros x. unfold Str.rtrim. rewrite length_rev.
    pose proof (length_ltrim (Str.rev x)). rewrite length_rev in H. exact H. }
  assert (Hstart : starts_ok s = true).
  { destruct s as [|c s]; [contradiction|]. simpl.
    destruct (Str.isspace c) eqn:Hc; [|reflexivity]. exfalso.
    unfold Str.trim in Htrim. simpl in Htrim. rewrite Hc in Htrim.
    pose proof (Hlen (Str.ltrim s)) as H1. pose proof (length_ltrim s) as H2.
    rewrite Htrim in H1. simpl in H1. lia. }
  split; [exact Hstart|].
  unfold Str.trim in Htrim. rewrite ltrim_fixed in Htrim by exact Hstart.
  unfold Str.rtrim in Htrim. unfold ends_ok.
  assert (Hrev : Str.ltrim (Str.rev s) = Str.rev s).
  { rewrite <- (rev_involutive (Str.ltrim (Str.rev s))), Htrim. reflexivity. }
  destruct (Str.rev s) as [|c r] eqn:Hr.
  - exfalso. apply Hne. rewrite <- (rev_involutive s), Hr. reflexivity.
  - simpl. simpl in Hrev. destruct (Str.isspace c); [|reflexivity]. exfalso.
    pose proof (length_ltrim r) as H1. rewrite Hrev in H1. simpl in H1. lia.
Qed.

Lemma find_append (c : ascii) (a b : string) :
  Str.find c (a ++ b) =
    match Str.find c a with
    | Some i => Some i
    | None => match Str.find c b with
              | Some i => Some (String.length a + i)%nat
              | None => None
              end
    end.
Proof.
  induction a as [|x a IH].
  - change ("" ++ b) with b. simpl. destruct (Str.find c b); reflexivity.
  - rewrite append_cons. cbn [Str.find]. destruct (Ascii.eqb x c); [reflexivity|].
    rewrite IH. destruct (Str.find c a); [reflexivity|].
    destruct (Str.find c b); reflexivity.
Qed.

Lemma contains_append (c : ascii) (a b : string) :
  contains c (a ++ b) = contains c a || contains c b.
Proof.
  unfold contains. rewrite find_append.
  destruct (Str.find c a); [reflexivity|]. destruct (Str.find c b); reflexivity.
Qed.

Lemma take_append (a b : string) : Str.take (String.length a) (a ++ b) = a.
Proof.
  induction a as [|x a IH]; [destruct b; reflexivity|].
  change (String x (Str.take (String.length a) (a ++ b)) = String x a).
  rewrite IH. reflexivity.
Qed.

Lemma drop_append (a b : string) : Str.drop (String.length a) (a ++ b) = b.
Proof.
  induction a as [|x a IH]; [destruct b; reflexivity|]. exact IH.
Qed.

Lemma drop_append_cons (a : string) (c : ascii) (b : string) :
  Str.drop (S (String.length a)) (a ++ String c b) = b.
Proof.
  induction a as [|x a IH]; [destruct b; reflexivity|]. exact IH.
Qed.

Lemma length_indent (d : nat) : String.length (indent d) = (2 * d)%nat.
Proof.
  unfold indent. induction d as [|d IH]; [reflexivity|].
  cbn [Str.repeat]. rewrite length_append, IH. simpl. lia.
Qed.

Lemma indent_S (d : nat) : indent (S d) = String " " (String " " (indent d)).
Proof. reflexivity. Qed.

Lemma contains_indent (c : ascii) (d : nat) :
  Ascii.eqb " " c = false -> contains c (indent d) = false.
Proof.
  intros Hc. unfold contains. induction d as [|d IH]; [reflexivity|].
  rewrite indent_S. cbn [Str.find]. rewrite Hc.
  destruct (Str.find c (indent d)); [discriminate|reflexivity].
Qed.

Lemma leading_spaces_indent (d : nat) (s : string) :
  Str.leading_spaces (indent d ++ s) = (2 * d + Str.leading_spaces s)%nat.
Proof.
  induction d as [|d IH]; [reflexivity|].
  rewrite indent_S, !append_cons. cbn [Str.leading_spaces].
  change (Ascii.eqb " " Str.space) with true. cbv iota. rewrite IH. lia.
Qed.

Lemma ltrim_indent (d : nat) (s : string) : Str.ltrim (indent d ++ s) = Str.ltrim s.
Proof.
  induction d as [|d IH]; [reflexivity|].
  rewrite indent_S, !append_cons. cbn [Str.ltrim].
  change (Str.isspace " ") with true. cbv iota. exact IH.
Qed.

Lemma trim_indent (d : nat) (s : string) :
  starts_ok s = true -> ends_ok s = true -> Str.trim (indent d ++ s) = s.
Proof.
  intros H1 H2. unfold Str.trim. rewrite ltrim_indent.
  rewrite ltrim_fixed by exact H1. apply rtrim_fixed. exact H2.
Qed.

Lemma starts_ok_not_space (s : string) :
  starts_ok s = true -> Str.leading_spaces s = 0%nat.
Proof.
  destruct s as [|c s]; [discriminate|]. simpl.
  destruct (Ascii.eqb_spec c Str.space) as [->|_]; [discriminate|reflexivity].
Qed.

Lemma get_append_length (a : string) (c : ascii) (b : string) :
  String.get (String.length a) (a ++ String c b) = Some c.
Proof.
  induction a as [|x a IH]; [reflexivity|].
  rewrite append_cons. simpl. exact IH.
Qed.

(** The depth of an emitted line. *)
Lemma getLineDepth_indent (p : OTMLParser) (d : nat) (s : string) (multilining : bool) :
  starts_ok s = true ->
  Parser.getLineDepth p (indent d ++ s) multilining = Ok (Z.of_nat d).
Proof.
  intros Hs. unfold Parser.getLineDepth.
  rewrite leading_spaces_indent, (starts_ok_not_space s Hs), Nat.add_0_r.
  replace (Z.of_nat (2 * d) / 2) with (Z.of_nat d)
    by (rewrite Nat2Z.inj_mul, Z.mul_comm, Z.div_mul; lia).
  replace (Z.of_nat (2 * d) mod 2) with 0
    by (rewrite Nat2Z.inj_mul, Z.mul_comm, Z.mod_mul; lia).
  destruct s as [|c s]; [discriminate|].
  rewrite at_in_range
    by (unfold Str.len; rewrite length_append, length_indent; simpl; lia).
  rewrite Nat2Z.id, <- length_indent, get_append_length.
  simpl in Hs. destruct (Ascii.eqb_spec c Str.tab) as [->|_]; [discriminate|].
  destruct (negb multilining || _); reflexivity.
Qed.

Lemma lines_no_newline (s : string) : contains Str.nl s = false -> Str.lines s = [s].
Proof.
  intros Hs. rewrite <- (append_nil_r s) at 1. rewrite lines_app; [|].
  - simpl. rewrite append_nil_r. reflexivity.
  - unfold contains in Hs. destruct (Str.find Str.nl s); [discriminate|reflexivity].
Qed.

(** B. The pieces of the joined lines are the lines. *)
Lemma lines_join_lines (ls : list string) :
  ls <> [] -> Forall (fun l => contains Str.nl l = false) ls ->
  Str.lines (join_lines ls) = ls.
Proof.
  intros Hne Hall. induction Hall as [|l ls Hl Hall IH]; [contradiction|].
  destruct ls as [|l' ls].
  - apply lines_no_newline. exact Hl.
  - rewrite join_lines_cons by discriminate. rewrite lines_app.
    + cbn [Str.lines]. rewrite Ascii.eqb_refl, IH by discriminate.
      rewrite append_nil_r. reflexivity.
    + unfold contains in Hl. destruct (Str.find Str.nl l); [discriminate|reflexivity].
Qed.

(** *** Trees that survive the round trip *)

Definition first_is (c : ascii) (s : string) : bool :=
  match s with
  | String x _ => Ascii.eqb x c
  | EmptyString => false
  end.

(** A tag the parser reads back: empty, or trimmed, free of colons and
    newlines, and starting neither with a dash nor with a comment mark. *)
Definition tag_ok (tag : string) : bool :=
  String.eqb tag ""
  || (String.eqb (Str.trim tag) tag
      && negb (contains ":" tag)
      && negb (contains Str.nl tag)
      && negb (first_is "-" tag)
      && negb (String.eqb (Str.take 2 tag) "//")).

(** A value on the node's line: trimmed, neither the null marker nor a
    block header. *)
Definition line_value_ok (value : string) : bool :=
  String.eqb (Str.trim value) value
  && negb (String.eqb value "~")
  && negb (Parser.is_block_header value).

Definition node_ok (t : tree) : bool :=
  tag_ok (t_tag t)
  && (if t_null t then String.eqb (t_value t) ""
      else if contains Str.nl (t_value t) then
        negb (String.eqb (t_value t) (String Str.nl ""))
        && match t_children t with [] => true | _ => false end
      else line_value_ok (t_value t)).

(** What the parser reads on the node's line: the value text and whether a
    colon is present. *)
Definition parsed_value (t : tree) : string :=
  if t_null t then "~"
  else if contains Str.nl (t_value t) then style (t_value t)
  else t_value t.

Definition parsed_unique (t : tree) : bool := contains ":" (header t).

Lemma trim_empty : Str.trim "" = "".
Proof. reflexivity. Qed.

Lemma trim_space_cons (s : string) :
  starts_ok s = true -> ends_ok s = true -> Str.trim (String " " s) = s.
Proof.
  intros H1 H2. unfold Str.trim. cbn [Str.ltrim]. change (Str.isspace " ") with true. cbv iota.
  rewrite ltrim_fixed by exact H1. apply rtrim_fixed. exact H2.
Qed.

Lemma style_cases (value : string) :
  style value = "|+" \/ style value = "|" \/ style value = "|-".
Proof.
  unfold style. destruct (String.get _ value) as [c1|]; [|auto].
  destruct (Ascii.eqb c1 Str.nl); [|auto].
  destruct (String.get _ value) as [c2|]; [|auto].
  destruct (Ascii.eqb c2 Str.nl); auto.
Qed.

Lemma style_facts (value : string) :
  starts_ok (style value) = true /\ ends_ok (style value) = true
  /\ contains Str.nl (style value) = false /\ contains ":" (style value) = false
  /\ Parser.is_block_header (style value) = true
  /\ String.eqb (style value) "~" = false /\ style value <> "".
Proof.
  destruct (style_cases value) as [-> | [-> | ->]]; repeat split; discriminate.
Qed.

(** The parts of the suffix of a line after the tag part. *)
Definition suffix (t : tree) : string :=
  if t_null t then " ~"
  else if has_value t then String " " (parsed_value t)
  else "".

Lemma header_suffix (t : tree) : header t = head t ++ suffix t.
Proof.
  unfold header, suffix, parsed_value.
  destruct (t_null t); [reflexivity|].
  destruct (has_value t); [reflexivity|]. rewrite append_nil_r. reflexivity.
Qed.

Lemma value_ok_facts (t : tree) :
  node_ok t = true -> t_null t = false -> has_value t = true ->
  starts_ok (parsed_value t) = true /\ ends_ok (parsed_value t) = true
  /\ contains Str.nl (parsed_value t) = false.
Proof.
  unfold node_ok, parsed_value, has_value. intros Hok Hnull Hv. rewrite Hnull in *.
  apply andb_true_iff in Hok as [_ Hok].
  destruct (contains Str.nl (t_value t)) eqn:Hnl.
  - pose proof (style_facts (t_value t)). tauto.
  - unfold line_value_ok in Hok.
    apply andb_true_iff in Hok as [Hok _]. apply andb_true_iff in Hok as [Htrim _].
    apply String.eqb_eq in Htrim.
    destruct (trimmed_ends _ Htrim) as [H1 H2].
    + intros He. rewrite He in Hv. discriminate.
    + auto.
Qed.

Lemma suffix_facts (t : tree) :
  node_ok t = true ->
  contains Str.nl (suffix t) = false
  /\ Str.trim (suffix t) = parsed_value t
  /\ Str.trim (parsed_value t) = parsed_value t
  /\ (suffix t <> "" -> ends_ok (suffix t) = true).
Proof.
  intros Hok. unfold suffix. destruct (t_null t) eqn:Hnull.
  - unfold parsed_value. rewrite Hnull. repeat split.
  - destruct (has_value t) eqn:Hv.
    + destruct (value_ok_facts t Hok Hnull Hv) as (H1 & H2 & H3).
      split_and!.
      * change (String " " (parsed_value t)) with (" " ++ parsed_value t).
        rewrite contains_append, H3. reflexivity.
      * apply trim_space_cons; assumption.
      * apply trim_fixed; assumption.
      * intros _. change (String " " (parsed_value t)) with (" " ++ parsed_value t).
        rewrite ends_ok_append; [exact H2|].
        intros He. rewrite He in H1. discriminate.
    + unfold has_value in Hv. apply negb_false_iff, String.eqb_eq in Hv.
      unfold parsed_value. rewrite Hnull, Hv. repeat split. intros H. contradiction.
Qed.

Lemma take_cons (n : nat) (c : ascii) (s : string) :
  Str.take (S n) (String c s) = String c (Str.take n s).
Proof. reflexivity. Qed.

Lemma split_data_dash (sfx : string) :
  Parser.split_data (String "-" sfx) = ("", Str.trim (Str.trim sfx), contains ":" sfx).
Proof. unfold Parser.split_data, contains. cbn [Str.find Ascii.eqb Bool.eqb].
  destruct (Str.find ":" sfx); reflexivity.
Qed.

Lemma split_data_plain (tag : string) :
  first_is "-" tag = false -> contains ":" tag = false ->
  Parser.split_data tag = (Str.trim tag, "", false).
Proof.
  intros Hdash Hcolon. unfold Parser.split_data, contains in *.
  destruct (Str.find ":" tag); [discriminate|].
  destruct tag as [|c tag]; [reflexivity|].
  simpl in Hdash. rewrite Hdash. reflexivity.
Qed.

Lemma split_data_colon (tag sfx : string) :
  tag <> "" -> first_is "-" tag = false -> contains ":" tag = false ->
  Parser.split_data (tag ++ String ":" sfx) = (Str.trim tag, Str.trim sfx, true).
Proof.
  intros Hne Hdash Hcolon. unfold Parser.split_data.
  assert (Hfind : Str.find ":" (tag ++ String ":" sfx) = Some (String.length tag)).
  { rewrite find_append. unfold contains in Hcolon.
    destruct (Str.find ":" tag); [discriminate|].
    cbn [Str.find]. rewrite Ascii.eqb_refl, Nat.add_0_r. reflexivity. }
  rewrite Hfind, take_append, drop_append_cons.
  destruct tag as [|c tag]; [contradiction|].
  rewrite append_cons. simpl in Hdash. rewrite Hdash.
  rewrite <- append_cons.
  unfold Str.len. rewrite length_append. cbn [String.length].
  destruct sfx as [|x sfx].
  - destruct (_ <? _); reflexivity.
  - match goal with
    | |- context [?a <? ?b] => destruct (Z.ltb_spec a b) as [_|Hge]
    end; [reflexivity|].
    cbn [String.length] in Hge. lia.
Qed.

Lemma tag_ok_facts (tag : string) :
  tag_ok tag = true -> tag <> "" ->
  starts_ok tag = true /\ ends_ok tag = true /\ Str.trim tag = tag
  /\ contains ":" tag = false /\ contains Str.nl tag = false
  /\ first_is "-" tag = false /\ String.eqb (Str.take 2 tag) "//" = false.
Proof.
  unfold tag_ok. intros Hok Hne.
  destruct (String.eqb_spec tag "") as [?|_]; [contradiction|].
  cbn [orb] in Hok. repeat (apply andb_true_iff in Hok as [Hok ?]).
  apply String.eqb_eq in Hok. destruct (trimmed_ends tag Hok Hne) as [Hs He].
  repeat match goal with H : negb _ = true |- _ => apply negb_true_iff in H end.
  split_and!; assumption.
Qed.

Lemma ends_ok_suffix (a sfx : string) :
  ends_ok a = true -> (sfx <> "" -> ends_ok sfx = true) -> ends_ok (a ++ sfx) = true.
Proof.
  intros Ha Hs. destruct sfx as [|c sfx].
  - rewrite append_nil_r. exact Ha.
  - rewrite ends_ok_append by discriminate. apply Hs. discriminate.
Qed.

Lemma take2_append (tag tail : string) :
  tag <> "" -> String.eqb (Str.take 2 tag) "//" = false -> first_is "/" tail = false ->
  String.eqb (Str.take 2 (tag ++ tail)) "//" = false.
Proof.
  intros Hne Htag Htail. destruct tag as [|c1 [|c2 tag]]; [contradiction| |].
  - rewrite append_cons. change ("" ++ tail) with tail.
    destruct tail as [|x tail]; [exact Htag|].
    change (Str.take 2 (String c1 (String x tail))) with (String c1 (String x "")).
    simpl in Htail. cbn [String.eqb]. rewrite Htail.
    destruct (Ascii.eqb c1 "/"); reflexivity.
  - exact Htag.
Qed.

(** The line of a well-formed node, as the parser takes it apart. *)
Lemma header_facts (t : tree) :
  node_ok t = true ->
  starts_ok (header t) = true /\ ends_ok (header t) = true
  /\ String.eqb (Str.take 2 (header t)) "//" = false
  /\ contains Str.nl (header t) = false
  /\ Parser.split_data (header t) = (t_tag t, parsed_value t, parsed_unique t).
Proof.
  intros Hok. destruct (suffix_facts t Hok) as (Hsnl & Hstrim & Hvtrim & Hsend).
  unfold parsed_unique. rewrite header_suffix. unfold head.
  destruct (String.eqb_spec (t_tag t) "") as [Htag|Htag].
  - change ("-" ++ suffix t) with (String "-" (suffix t)).
    split_and!; try reflexivity.
    + change (String "-" (suffix t)) with ("-" ++ suffix t).
      apply ends_ok_suffix; [reflexivity|exact Hsend].
    + change (String "-" (suffix t)) with ("-" ++ suffix t).
      rewrite contains_append, Hsnl. reflexivity.
    + rewrite split_data_dash, Hstrim, Hvtrim, Htag.
      change (String "-" (suffix t)) with ("-" ++ suffix t).
      rewrite contains_append. reflexivity.
  - assert (Htok : tag_ok (t_tag t) = true).
    { unfold node_ok in Hok. apply andb_true_iff in Hok as [Hok _]. exact Hok. }
    destruct (tag_ok_facts _ Htok Htag) as (T1 & T2 & T3 & T4 & T5 & T6 & T7).
    destruct (colon t) eqn:Hcolon.
    + rewrite append_assoc. change (":" ++ suffix t) with (String ":" (suffix t)).
      split_and!.
      * rewrite starts_ok_append by exact Htag. exact T1.
      * apply ends_ok_suffix with (a := t_tag t ++ ":") (sfx := suffix t) in Hsend.
        -- rewrite append_assoc in Hsend. exact Hsend.
        -- rewrite ends_ok_append by discriminate. reflexivity.
      * apply take2_append; [exact Htag|exact T7|reflexivity].
      * rewrite contains_append, T5. change (String ":" (suffix t)) with (":" ++ suffix t).
        rewrite contains_append, Hsnl. reflexivity.
      * rewrite split_data_colon by assumption. rewrite T3, Hstrim.
        rewrite contains_append. cbn [contains Str.find Ascii.eqb Bool.eqb].
        rewrite orb_true_r. reflexivity.
    + assert (Hsfx : suffix t = "" /\ parsed_value t = "").
      { unfold colon in Hcolon. apply orb_false_iff in Hcolon as [Hcolon Hnull].
        apply orb_false_iff in Hcolon as [Hv _].
        unfold suffix, parsed_value. rewrite Hnull, Hv.
        unfold has_value in Hv. apply negb_false_iff, String.eqb_eq in Hv.
        rewrite Hv. split; reflexivity. }
      destruct Hsfx as [Hsfx Hpv]. rewrite Hsfx, Hpv, !append_nil_r.
      split_and!; try assumption.
      rewrite split_data_plain by assumption. rewrite T3, T4. reflexivity.
Qed.

(** *** The heap while the parser adds nodes *)

Lemma deref_app_l (h : heap) (x : OTMLNode) (q : ptr) :
  (q < length h)%nat -> deref (h ++ [x]) q = deref h q.
Proof. intros Hq. unfold deref. apply lookup_total_app_l. exact Hq. Qed.

Lemma deref_app_last (h : heap) (x : OTMLNode) : deref (h ++ [x]) (length h) = x.
Proof.
  unfold deref. rewrite lookup_total_app_r by lia. rewrite Nat.sub_diag. reflexivity.
Qed.

Lemma update_app_last (h : heap) (x : OTMLNode) (f : OTMLNode -> OTMLNode) :
  update (h ++ [x]) (length h) f = (h ++ [f x])%list.
Proof.
  unfold update. rewrite <- (Nat.add_0_r (length h)).
  rewrite (alter_app_r f h [x] 0). reflexivity.
Qed.

(** The node that [parseNode] creates for a tag, a value text and a colon
    flag; [source] is its source label. *)
Definition parsed_node (tag value : string) (colon : bool) (source : string) : OTMLNode :=
  {| m_children := []; m_parent := None; m_tag := tag;
     m_value := if String.eqb value "~" then "" else value;
     m_source := source; m_unique := colon; m_null := String.eqb value "~" |}.

Lemma build_node_eq (h : heap) (doc : ptr) (tag value : string) (colon : bool)
    (line : string) :
  exists source,
    Parser.build_node h doc tag value colon line =
      ((h ++ [parsed_node tag value colon source])%list, length h).
Proof.
  unfold Parser.build_node, Node.create, alloc.
  rewrite !update_app_last.
  match goal with
  | |- context [Node.setSource ?s] => exists s
  end.
  destruct (String.eqb value "~") eqn:Hv;
    unfold parsed_node; rewrite Hv; reflexivity.
Qed.

(** [h'] is [h] with the new node [n] appended under [P]. *)
Definition attached (h h' : heap) (P n : ptr) (node : OTMLNode) : Prop :=
  n = length h
  /\ length h' = S (length h)
  /\ (forall q, (q < length h)%nat -> q <> P -> deref h' q = deref h q)
  /\ deref h' P = Node.setChildren (m_children (deref h P) ++ [n]) (deref h P)
  /\ deref h' n = Node.setParent (Some P) node.

Definition clash (k k' : string * bool) : bool :=
  negb (String.eqb (fst k') "") && String.eqb (fst k) (fst k') && (snd k || snd k').

Lemma addChild_attached (h : heap) (P : ptr) (node : OTMLNode) :
  (P < length h)%nat ->
  (forall x, x ∈ m_children (deref h P) ->
     (x < length h)%nat
     /\ clash (Node.tag h x, Node.isUnique h x) (m_tag node, m_unique node) = false) ->
  attached h (Node.addChild (h ++ [node]) P (length h)) P (length h) node.
Proof.
  intros HP Hchildren. set (n := length h). set (h1 := (h ++ [node])%list).
  assert (Hlen1 : length h1 = S n) by (unfold h1; rewrite length_app; simpl; lia).
  assert (Hnode : deref h1 n = node) by apply deref_app_last.
  assert (HderefP : deref h1 P = deref h P) by (apply deref_app_l; exact HP).
  rewrite addChild_append_eq.
  - split_and!.
    + reflexivity.
    + rewrite !length_update. exact Hlen1.
    + intros q Hq Hne. rewrite deref_update_ne by (unfold n; lia).
      rewrite deref_update_ne by (intros ->; contradiction).
      apply deref_app_l. exact Hq.
    + rewrite deref_update_ne by (unfold n; lia).
      rewrite deref_update_eq by lia. rewrite HderefP. reflexivity.
    + rewrite deref_update_eq by (rewrite length_update; lia).
      rewrite deref_update_ne by (unfold n; lia). rewrite Hnode. reflexivity.
  - destruct (Node.hasTag h1 n) eqn:Htag; [right|left; reflexivity].
    intros x Hx. rewrite HderefP in Hx. destruct (Hchildren x Hx) as [Hlt Hclash].
    unfold collides, clash in *. unfold Node.hasTag, Node.tag, Node.isUnique in *.
    rewrite Hnode in *. fold h1 in Hlen1. unfold h1 at 1 2.
    rewrite (deref_app_l h node x Hlt).
    cbn [fst snd] in Hclash. rewrite Htag in Hclash. exact Hclash.
Qed.

(** *** The parser on emitted lines *)

(** The stream in front of the lines [ls], the earlier lines having been
    read: good while a line is left, at its end afterwards. *)
Definition stream_at (ls : list string) : istream :=
  {| unread := ls; eofbit := match ls with [] => true | _ => false end; failbit := false |}.

Lemma getline_stream_at (l : string) (ls : list string) :
  l <> "" -> Stream.getline (stream_at (l :: ls)) = (l, stream_at ls).
Proof.
  intros Hl. unfold Stream.getline, stream_at. simpl.
  destruct ls as [|l' ls]; [|reflexivity].
  destruct (String.eqb_spec l "") as [?|_]; [contradiction|reflexivity].
Qed.

(** Each node of the list is valid and has the next one as its parent. *)
Fixpoint chain (h : heap) (l : list ptr) : Prop :=
  match l with
  | [] => True
  | x :: rest =>
      (x < length h)%nat
      /\ match rest with
         | [] => True
         | y :: _ => Node.parent h x = Some y
         end
      /\ chain h rest
  end.

Lemma chain_app_r (h : heap) (l1 l2 : list ptr) : chain h (l1 ++ l2) -> chain h l2.
Proof.
  induction l1 as [|x l1 IH]; [trivial|]. intros (_ & _ & H). apply IH. exact H.
Qed.

(** Old nodes keep their parent reference. *)
Definition keeps_parents (h h' : heap) : Prop :=
  (length h <= length h')%nat
  /\ forall q, (q < length h)%nat -> m_parent (deref h' q) = m_parent (deref h q).

Lemma chain_keeps (h h' : heap) (l : list ptr) :
  keeps_parents h h' -> chain h l -> chain h' l.
Proof.
  intros [Hlen Hpar]. induction l as [|x rest IH]; [trivial|].
  intros (Hx & Hnext & Hrest). split; [lia|]. split; [|apply IH; exact Hrest].
  destruct rest as [|y rest]; [trivial|].
  unfold Node.parent in *. rewrite Hpar by exact Hx. exact Hnext.
Qed.

(** The climb of [parseLine] along a chain ends at the node that follows
    the climbed part. *)
Lemma ascend_chain (h : heap) (pre : list ptr) (P : ptr) (anc : list ptr) :
  chain h (pre ++ P :: anc) ->
  Parser.ascend (length pre) h (Some (List.hd P pre)) = Ok (Some P).
Proof.
  induction pre as [|x pre IH]; intros Hchain; [reflexivity|].
  cbn [length Parser.ascend List.hd].
  destruct Hchain as (_ & Hnext & Hchain).
  assert (Hpar : Node.parent h x = Some (List.hd P pre)).
  { destruct pre; exact Hnext. }
  rewrite Hpar. apply IH. exact Hchain.
Qed.

(** A line at depth [d] will be attached under [P], whose ancestors are
    [anc]: either the parser is one level above and [P] is the previous
    node, or it is at depth [d] or deeper, below [P] by the nodes [pre]. *)
Definition enter (p : OTMLParser) (d : nat) (P : ptr) (anc : list ptr) : Prop :=
  (currentDepth p + 1 = Z.of_nat d
   /\ previousNode p = Some P
   /\ currentParent p = List.head anc
   /\ chain (mem p) (P :: anc))
  \/ (exists pre,
        currentDepth p = Z.of_nat (d + length pre)
        /\ currentParent p = Some (List.hd P pre)
        /\ chain (mem p) (pre ++ P :: anc)).

(** The parser has just attached a node under [P] at depth [d]. *)
Definition below (p : OTMLParser) (d : nat) (P : ptr) (anc : list ptr) : Prop :=
  exists pre,
    currentDepth p = Z.of_nat (d + length pre)
    /\ currentParent p = Some (List.hd P pre)
    /\ chain (mem p) (pre ++ P :: anc).

Lemma below_enter (p : OTMLParser) (d : nat) (P : ptr) (anc : list ptr) :
  below p d P anc -> enter p d P anc.
Proof. intros H. right. exact H. Qed.

Lemma enter_chain (p : OTMLParser) (d : nat) (P : ptr) (anc : list ptr) :
  enter p d P anc -> chain (mem p) (P :: anc).
Proof.
  intros [(_ & _ & _ & H)|(pre & _ & _ & H)]; [exact H|].
  apply chain_app_r in H. exact H.
Qed.

(** The depth transition of [parseLine] on such a line. *)
Lemma enter_transition (p : OTMLParser) (d : nat) (P : ptr) (anc : list ptr) :
  enter p d P anc ->
  (if Z.of_nat d =? currentDepth p + 1 then
     Ok (Parser.set_currentParent (previousNode p) p)
   else if Z.of_nat d <? currentDepth p then
     Parser.ascend (Z.to_nat (currentDepth p - Z.of_nat d)) (mem p) (currentParent p)
     ≫= λ q, Ok (Parser.set_currentParent q p)
   else if negb (Z.of_nat d =? currentDepth p) then Throw (Parser.depth_error p)
   else Ok p)
  = Ok (Parser.set_currentParent (Some P) p).
Proof.
  intros [(Hd & Hprev & _ & _)|(pre & Hd & Hpar & Hchain)].
  - destruct (Z.eqb_spec (Z.of_nat d) (currentDepth p + 1)) as [_|?]; [|lia].
    rewrite Hprev. reflexivity.
  - destruct (Z.eqb_spec (Z.of_nat d) (currentDepth p + 1)) as [?|_]; [lia|].
    destruct pre as [|x pre].
    + simpl in Hd, Hpar. rewrite Nat.add_0_r in Hd.
      destruct (Z.ltb_spec (Z.of_nat d) (currentDepth p)) as [?|_]; [lia|].
      destruct (Z.eqb_spec (Z.of_nat d) (currentDepth p)) as [_|?]; [|lia].
      cbn [negb]. destruct p; simpl in *. subst. reflexivity.
    + destruct (Z.ltb_spec (Z.of_nat d) (currentDepth p)) as [_|?].
      2:{ rewrite Hd in *. cbn [length] in *. lia. }
      replace (Z.to_nat (currentDepth p - Z.of_nat d)) with (length (x :: pre))
        by (rewrite Hd; cbn [length]; lia).
      rewrite Hpar, (ascend_chain (mem p) (x :: pre) P anc Hchain). reflexivity.
Qed.

(** *** Block values *)

(** The text the block loop collects from the lines of a block. *)
Fixpoint accumulate (pieces : list string) : string :=
  match pieces with
  | [] => ""
  | piece :: rest => piece ++ String Str.nl (accumulate rest)
  end.

Lemma accumulate_lines (v : string) : accumulate (Str.lines v) = v ++ String Str.nl "".
Proof.
  induction v as [|c r IH]; [reflexivity|].
  pose proof (lines_nonempty r) as Hne. cbn [Str.lines].
  destruct (Ascii.eqb_spec c Str.nl) as [->|_].
  - cbn [accumulate]. rewrite IH. reflexivity.
  - destruct (Str.lines r) as [|l0 ls]; [contradiction|].
    cbn [accumulate] in *. rewrite !append_cons, IH. reflexivity.
Qed.

Lemma lines_snoc_newline (u : string) :
  Str.lines (u ++ String Str.nl "") = (Str.lines u ++ [""])%list.
Proof.
  induction u as [|c u IH]; [reflexivity|].
  rewrite append_cons. cbn [Str.lines]. rewrite IH.
  destruct (Ascii.eqb c Str.nl); [reflexivity|].
  pose proof (lines_nonempty u) as Hne.
  destruct (Str.lines u); [contradiction|reflexivity].
Qed.

Lemma drop_last_empty_snoc (l : list string) : drop_last_empty (l ++ [""]) = l.
Proof.
  induction l as [|x l IH]; [reflexivity|].
  change ((x :: l) ++ [""])%list with (x :: (l ++ [""]))%list.
  rewrite drop_last_empty_cons; [rewrite IH; reflexivity|].
  destruct l; discriminate.
Qed.

Lemma drop_last_empty_keep (l : list string) (x : string) :
  x <> "" -> drop_last_empty (l ++ [x]) = (l ++ [x])%list.
Proof.
  intros Hx. induction l as [|y l IH].
  - simpl. destruct (String.eqb_spec x "") as [?|_]; [contradiction|reflexivity].
  - change ((y :: l) ++ [x])%list with (y :: (l ++ [x]))%list.
    rewrite drop_last_empty_cons; [rewrite IH; reflexivity|].
    destruct l; discriminate.
Qed.

Lemma lines_snoc_char (u : string) (c : ascii) :
  Ascii.eqb c Str.nl = false ->
  exists l x, Str.lines (u ++ String c "") = (l ++ [x])%list /\ x <> "".
Proof.
  intros Hc. induction u as [|a u (l & x & IH & Hx)].
  - exists [], (String c ""). change ("" ++ String c "") with (String c "").
    cbn [Str.lines]. rewrite Hc. split; [reflexivity|discriminate].
  - rewrite append_cons. cbn [Str.lines]. rewrite IH.
    destruct (Ascii.eqb a Str.nl).
    + exists ("" :: l), x. split; [reflexivity|exact Hx].
    + destruct l as [|y l].
      * exists [], (String a x). split; [reflexivity|discriminate].
      * exists (String a y :: l), x. split; [reflexivity|exact Hx].
Qed.

Lemma string_snoc (s : string) : s = "" \/ exists u c, s = u ++ String c "".
Proof.
  induction s as [|a s IH]; [left; reflexivity|]. right.
  destruct IH as [->|(u & c & ->)].
  - exists "", a. reflexivity.
  - exists (String a u), c. reflexivity.
Qed.

Lemma strip_loop_trailing (w : string) (c : ascii) (k : nat) :
  Ascii.eqb c Str.nl = false ->
  Parser.strip_loop (String.length ((w ++ String c "") ++ newlines k))
    ((w ++ String c "") ++ newlines k)
  = Ok (w ++ String c "").
Proof.
  intros Hc. induction k as [|k IH].
  - change (newlines 0) with "". rewrite append_nil_r, length_append.
    cbn [String.length]. rewrite Nat.add_1_r. cbn [Parser.strip_loop].
    rewrite at_in_range by (unfold Str.len; rewrite length_append; simpl; lia).
    rewrite Nat2Z.id, get_append_length, Hc. reflexivity.
  - rewrite newlines_snoc, <- append_assoc.
    set (m := (w ++ String c "") ++ newlines k) in *.
    rewrite length_append. cbn [String.length]. rewrite Nat.add_1_r.
    cbn [Parser.strip_loop].
    rewrite at_in_range by (unfold Str.len; rewrite length_append; simpl; lia).
    rewrite Nat2Z.id, get_append_length, Ascii.eqb_refl.
    unfold Str.erase1. rewrite take_append, drop_append_cons, append_nil_r. exact IH.
Qed.

(** The policy gives back the value whose lines were collected. *)
Lemma block_policy_round (v : string) :
  contains Str.nl v = true -> v <> String Str.nl "" ->
  Parser.block_policy (style v) (accumulate (block_pieces v)) = Ok v.
Proof.
  intros Hnl Hne. unfold block_pieces.
  destruct (string_snoc v) as [->|(u & c & ->)]; [discriminate|].
  assert (Hget1 : String.get (String.length (u ++ String c "") - 1) (u ++ String c "") = Some c).
  { rewrite length_append. cbn [String.length].
    replace (String.length u + 1 - 1)%nat with (String.length u) by lia.
    apply get_append_length. }
  destruct (Ascii.eqb c Str.nl) eqn:Hc.
  - apply Ascii.eqb_eq in Hc. subst c.
    rewrite lines_snoc_newline, drop_last_empty_snoc, accumulate_lines.
    destruct (string_snoc u) as [->|(u' & c2 & ->)]; [contradiction Hne; reflexivity|].
    assert (Hget2 : String.get (String.length ((u' ++ String c2 "") ++ String Str.nl "") - 2)
                      ((u' ++ String c2 "") ++ String Str.nl "") = Some c2).
    { rewrite !length_append. cbn [String.length].
      replace (String.length u' + 1 + 1 - 2)%nat with (String.length u') by lia.
      rewrite append_assoc. apply get_append_length. }
    unfold style. rewrite Hget1, Ascii.eqb_refl, Hget2.
    destruct (Ascii.eqb c2 Str.nl) eqn:Hc2.
    + reflexivity.
    + unfold Parser.block_policy. cbn [String.eqb Ascii.eqb Bool.eqb orb].
      change (String Str.nl "") with (newlines 1).
      rewrite strip_loop_trailing by exact Hc2. reflexivity.
  - destruct (lines_snoc_char u c Hc) as (l & x & Hl & Hx).
    rewrite Hl, drop_last_empty_keep by exact Hx. rewrite <- Hl, accumulate_lines.
    unfold style. rewrite Hget1, Hc.
    unfold Parser.block_policy. cbn [String.eqb Ascii.eqb Bool.eqb orb].
    change (String Str.nl "") with (newlines 1).
    rewrite strip_loop_trailing by exact Hc. reflexivity.
Qed.

(** What follows a node at depth [d] in an emitted text: nothing, or the
    line of a node at depth [d] or above. *)
Definition next_ok (d : nat) (rest : list string) : Prop :=
  match rest with
  | [] => True
  | line :: _ =>
      exists d' body,
        line = indent d' ++ body /\ (d' <= d)%nat
        /\ starts_ok body = true /\ ends_ok body = true
  end.

Lemma starts_ok_nonempty (s : string) : starts_ok s = true -> s <> "".
Proof. destruct s; [discriminate|discriminate]. Qed.

Lemma indent_append_nonempty (d : nat) (s : string) : s <> "" -> indent d ++ s <> "".
Proof.
  intros Hs He. apply (f_equal String.length) in He.
  rewrite length_append in He. destruct s; [contradiction|]. simpl in He. lia.
Qed.

Lemma getLineDepth_block_line (p : OTMLParser) (d : nat) (piece : string) :
  currentDepth p = Z.of_nat d ->
  exists depth,
    Parser.getLineDepth p (indent (S d) ++ piece) true = Ok depth
    /\ currentDepth p < depth.
Proof.
  intros Hd. unfold Parser.getLineDepth. rewrite leading_spaces_indent.
  set (spaces := Z.of_nat (2 * S d + Str.leading_spaces piece)).
  assert (Hdepth : Z.of_nat d < spaces / 2).
  { apply Z.lt_le_trans with (Z.of_nat (S d)); [lia|].
    apply Z.div_le_lower_bound; unfold spaces; lia. }
  exists (spaces / 2). rewrite Hd.
  destruct (Z.leb_spec (spaces / 2) (Z.of_nat d)) as [?|_]; [lia|].
  split; [reflexivity|exact Hdepth].
Qed.

Lemma block_loop_pieces (pieces : list string) :
  forall (acc : string) (fuel : nat) (p : OTMLParser) (rest : list string) (d : nat),
    currentDepth p = Z.of_nat d ->
    in_ p = stream_at (block_lines d pieces ++ rest) ->
    (pieces <> [] \/ rest <> []) ->
    next_ok d rest ->
    (length pieces < fuel)%nat ->
    exists line,
      Parser.block_loop fuel p acc
      = Ok (acc ++ accumulate pieces,
            Parser.set_currentLine line (Parser.set_in (stream_at rest) p)).
Proof.
  induction pieces as [|piece pieces IH]; intros acc fuel p rest d Hd Hin Hne Hnext Hfuel;
    (destruct fuel as [|fuel]; [lia|]).
  - (* the line that ends the block *)
    destruct Hne as [?|Hne]; [contradiction|].
    destruct rest as [|next rest]; [contradiction|].
    destruct Hnext as (d' & body & -> & Hd' & Hs & He).
    cbn [block_lines List.map app] in Hin.
    cbn [Parser.block_loop]. rewrite Hin.
    change (Stream.tellg (stream_at ((indent d' ++ body) :: rest)))
      with (Some ((indent d' ++ body) :: rest), stream_at ((indent d' ++ body) :: rest)).
    cbv iota beta. unfold Parser.getNextLine.
    cbn [Parser.set_in Parser.set_currentLine in_ currentLine].
    rewrite getline_stream_at
      by (apply indent_append_nonempty, starts_ok_nonempty; exact Hs).
    cbv iota beta. rewrite getLineDepth_indent by exact Hs. outcome_simpl.
    cbn [Parser.set_in Parser.set_currentLine currentDepth in_ currentLine].
    rewrite Hd. destruct (Z.ltb_spec (Z.of_nat d) (Z.of_nat d')) as [?|_]; [lia|].
    rewrite trim_indent by assumption.
    destruct (String.eqb_spec body "") as [Hb|_].
    { exfalso. revert Hb. apply starts_ok_nonempty. exact Hs. }
    cbn [negb accumulate]. rewrite append_nil_r.
    eexists. reflexivity.
  - (* a line of the block *)
    cbn [block_lines List.map app] in Hin. fold (block_lines d pieces) in Hin.
    cbn [Parser.block_loop]. rewrite Hin.
    match goal with
    | |- context [Stream.tellg (stream_at (?l :: ?ls))] =>
        change (Stream.tellg (stream_at (l :: ls))) with (Some (l :: ls), stream_at (l :: ls))
    end.
    cbv iota beta. unfold Parser.getNextLine.
    cbn [Parser.set_in Parser.set_currentLine in_ currentLine].
    rewrite getline_stream_at.
    2:{ intros He. apply (f_equal String.length) in He.
        rewrite length_append, length_indent in He. simpl in He. lia. }
    cbv iota beta.
    match goal with
    | |- context [Parser.getLineDepth ?q _ true] => set (p1 := q)
    end.
    destruct (getLineDepth_block_line p1 d piece Hd) as (depth & Hdepth & Hlt).
    rewrite Hdepth. outcome_simpl.
    destruct (Z.ltb_spec (currentDepth p1) depth) as [_|?]; [|lia].
    change (currentDepth p1) with (currentDepth p). rewrite Hd.
    replace (Z.to_nat ((Z.of_nat d + 1) * 2)) with (String.length (indent (S d)))
      by (rewrite length_indent; lia).
    rewrite drop_append.
    change (Stream.eof (in_ p1))
      with (match (block_lines d pieces ++ rest)%list with
            | [] => true | _ => false end).
    destruct (block_lines d pieces ++ rest)%list as [|l ls] eqn:Hrest.
    + (* the end of the stream *)
      apply app_eq_nil in Hrest as [Hp ->]. apply map_eq_nil in Hp. subst pieces.
      cbn [accumulate]. eexists. reflexivity.
    + destruct (IH (acc ++ piece ++ String Str.nl "") fuel p1 rest d) as [line Hloop].
      * exact Hd.
      * unfold p1. cbn [Parser.set_in in_]. rewrite Hrest. reflexivity.
      * destruct pieces as [|x pieces]; [right|left; discriminate].
        simpl in Hrest. rewrite Hrest. discriminate.
      * exact Hnext.
      * cbn [length] in Hfuel. lia.
      * rewrite Hloop. cbn [accumulate]. exists line. f_equal. f_equal.
        rewrite !append_assoc. reflexivity.
Qed.

Lemma lines_with_newline (v : string) :
  contains Str.nl v = true -> exists x y l, Str.lines v = x :: y :: l.
Proof.
  unfold contains. induction v as [|c v IH]; [discriminate|].
  pose proof (lines_nonempty v) as Hne.
  cbn [Str.find Str.lines]. destruct (Ascii.eqb c Str.nl).
  - intros _. destruct (Str.lines v) as [|y l]; [contradiction|]. eauto.
  - destruct (Str.find Str.nl v); [|discriminate]. intros _.
    destruct (IH eq_refl) as (x & y & l & ->). eauto.
Qed.

Lemma block_pieces_nonempty (v : string) :
  contains Str.nl v = true -> block_pieces v <> [].
Proof.
  intros Hv. unfold block_pieces.
  destruct (lines_with_newline v Hv) as (x & y & l & ->).
  rewrite drop_last_empty_cons; discriminate.
Qed.

(** The lines of a node after its first. *)
Definition more_lines (d : nat) (t : tree) : list string :=
  if negb (t_null t) && contains Str.nl (t_value t)
  then block_lines d (block_pieces (t_value t))
  else [].

Lemma own_lines_unfold (d : nat) (t : tree) :
  own_lines d t = (indent d ++ header t) :: more_lines d t.
Proof. reflexivity. Qed.

Lemma parser_eta (p : OTMLParser) (s : istream) :
  in_ p = s -> Parser.set_currentLine (currentLine p) (Parser.set_in s p) = p.
Proof. intros <-. destruct p. reflexivity. Qed.

Lemma read_value_own (fuel : nat) (p : OTMLParser) (t : tree) (d : nat) (rest : list string) :
  node_ok t = true ->
  currentDepth p = Z.of_nat d ->
  in_ p = stream_at (more_lines d t ++ rest) ->
  (more_lines d t <> [] -> next_ok d rest) ->
  (length (more_lines d t) < fuel)%nat ->
  exists line,
    Parser.read_value fuel p (parsed_value t)
    = Ok (if t_null t then "~" else t_value t,
          Parser.set_currentLine line (Parser.set_in (stream_at rest) p)).
Proof.
  intros Hok Hd Hin Hnext Hfuel.
  unfold Parser.read_value, parsed_value, more_lines in *.
  unfold node_ok in Hok. apply andb_true_iff in Hok as [_ Hok].
  destruct (t_null t).
  - exists (currentLine p). rewrite parser_eta by exact Hin. reflexivity.
  - cbn [negb andb] in *. destruct (contains Str.nl (t_value t)) eqn:Hnl.
    + apply andb_true_iff in Hok as [Hne _].
      apply negb_true_iff, String.eqb_neq in Hne.
      rewrite (proj1 (proj2 (proj2 (proj2 (proj2 (style_facts (t_value t))))))).
      pose proof (block_pieces_nonempty _ Hnl) as Hpieces.
      assert (Hnext' : next_ok d rest).
      { apply Hnext. unfold block_lines. intros Hm. apply map_eq_nil in Hm. contradiction. }
      destruct (block_loop_pieces (block_pieces (t_value t)) "" fuel p rest d)
        as [line Hloop]; try assumption.
      * left. exact Hpieces.
      * unfold block_lines in Hfuel. rewrite length_map in Hfuel. exact Hfuel.
      * rewrite Hloop. outcome_simpl. change ("" ++ accumulate (block_pieces (t_value t)))
          with (accumulate (block_pieces (t_value t))).
        rewrite (block_policy_round _ Hnl Hne). outcome_simpl. exists line. reflexivity.
    + unfold line_value_ok in Hok. apply andb_true_iff in Hok as [_ Hblock].
      apply negb_true_iff in Hblock. rewrite Hblock.
      exists (currentLine p). rewrite parser_eta by exact Hin. reflexivity.
Qed.

(** The node the parser creates for [t] under [P]. *)
Definition fresh_node (t : tree) (P : ptr) (source : string) : OTMLNode :=
  {| m_children := []; m_parent := Some P; m_tag := t_tag t; m_value := t_value t;
     m_source := source; m_unique := parsed_unique t; m_null := t_null t |}.

Lemma parsed_node_fresh (t : tree) (P : ptr) (source : string) :
  node_ok t = true ->
  Node.setParent (Some P)
    (parsed_node (t_tag t) (if t_null t then "~" else t_value t) (parsed_unique t) source)
  = fresh_node t P source.
Proof.
  intros Hok. unfold node_ok in Hok. apply andb_true_iff in Hok as [_ Hok].
  unfold parsed_node, fresh_node, Node.setParent. cbn [m_children m_parent m_tag m_value
    m_source m_unique m_null].
  destruct (t_null t).
  - apply String.eqb_eq in Hok. rewrite Hok. reflexivity.
  - assert (Hv : String.eqb (t_value t) "~" = false).
    { destruct (contains Str.nl (t_value t)) eqn:Hnl.
      - apply String.eqb_neq. intros He. rewrite He in Hnl. discriminate.
      - unfold line_value_ok in Hok. apply andb_true_iff in Hok as [Hok _].
        apply andb_true_iff in Hok as [_ Hok]. apply negb_true_iff in Hok. exact Hok. }
    rewrite Hv. reflexivity.
Qed.

(** One node: the main loop reads its lines and attaches it under [P]. *)
Lemma parse_node (t : tree) (d : nat) (p : OTMLParser) (P : ptr) (anc : list ptr)
    (rest : list string) (fuel : nat) :
  node_ok t = true ->
  in_ p = stream_at (own_lines d t ++ rest) ->
  (more_lines d t <> [] -> next_ok d rest) ->
  enter p d P anc ->
  (forall x, x ∈ m_children (deref (mem p) P) ->
     (x < length (mem p))%nat
     /\ clash (Node.tag (mem p) x, Node.isUnique (mem p) x) (t_tag t, parsed_unique t) = false) ->
  (length (own_lines d t ++ rest) < fuel)%nat ->
  exists fuel' p' source,
    Parser.parse_loop fuel p = Parser.parse_loop fuel' p'
    /\ (length rest < fuel')%nat
    /\ in_ p' = stream_at rest
    /\ currentDepth p' = Z.of_nat d
    /\ currentParent p' = Some P
    /\ previousNode p' = Some (length (mem p))
    /\ doc p' = doc p
    /\ attached (mem p) (mem p') P (length (mem p)) (fresh_node t P source).
Proof.
  intros Hok Hin Hnext Henter Hclash Hfuel.
  destruct (header_facts t Hok) as (Hs & He & Hcomment & Hnl & Hsplit).
  pose proof (enter_chain p d P anc Henter) as (HP & _ & _).
  rewrite own_lines_unfold in Hin, Hfuel. cbn [app length] in Hin, Hfuel.
  destruct fuel as [|fuel]; [lia|].
  cbn [Parser.parse_loop]. rewrite Hin.
  change (Stream.eof (stream_at ((indent d ++ header t) :: more_lines d t ++ rest)))
    with false. cbv iota.
  unfold Parser.getNextLine. cbn [Parser.set_currentLine in_].
  rewrite Hin, getline_stream_at
    by (apply indent_append_nonempty, starts_ok_nonempty; exact Hs).
  cbv iota beta.
  set (p1 := Parser.set_in _ _).
  set (fuel1 := S (length (unread (in_ p1)))).
  assert (Hfuel1 : (length (more_lines d t) < fuel1)%nat).
  { unfold fuel1, p1. cbn [Parser.set_in in_ stream_at unread].
    rewrite length_app. lia. }
  (* parseLine *)
  unfold Parser.parseLine. rewrite getLineDepth_indent by exact Hs. outcome_simpl.
  destruct (Z.eqb_spec (Z.of_nat d) (-1)) as [?|_]; [lia|].
  rewrite trim_indent by assumption.
  destruct (String.eqb_spec (header t) "") as [Hempty|_].
  { exfalso. revert Hempty. apply starts_ok_nonempty. exact Hs. }
  rewrite Hcomment.
  assert (Henter1 : enter p1 d P anc) by exact Henter.
  rewrite (enter_transition p1 d P anc Henter1). outcome_simpl.
  set (p2 := Parser.set_currentDepth _ _).
  (* parseNode *)
  unfold Parser.parseNode. rewrite Hsplit.
  destruct (read_value_own fuel1 p2 t d rest Hok) as [line Hread];
    [reflexivity|reflexivity|exact Hnext|exact Hfuel1|].
  rewrite Hread. outcome_simpl. unfold safeCast, cast, cast_int_string. cbv iota beta.
  set (p3 := Parser.set_currentLine line _). outcome_simpl.
  destruct (build_node_eq (mem p3) (doc p3) (t_tag t)
              (if t_null t then "~" else t_value t) (parsed_unique t)
              (Str.of_Z (currentLine p2))) as [source Hbuild].
  rewrite Hbuild. cbv iota beta.
  change (currentParent p3) with (Some P). cbv iota beta.
  eexists fuel, _, source. split; [reflexivity|].
  split; [rewrite length_app in Hfuel; lia|].
  cbn [Parser.set_previousNode Parser.set_mem in_ currentDepth currentParent previousNode
       doc mem].
  split_and!; try reflexivity.
  change (mem p3) with (mem p).
  rewrite <- (parsed_node_fresh t P source Hok).
  pose proof (addChild_attached (mem p) P
                (parsed_node (t_tag t) (if t_null t then "~" else t_value t)
                   (parsed_unique t) source) HP) as Hatt.
  destruct Hatt as (A1 & A2 & A3 & A4 & A5).
  { intros x Hx. apply Hclash. exact Hx. }
  split_and!; assumption.
Qed.

(** *** Whole trees *)

Definition key (t : tree) : string * bool := (t_tag t, parsed_unique t).

(** No node of [ks] collapses on a node of [seen] or on an earlier node
    of [ks] when the parser adds them in this order. *)
Fixpoint keys_ok (seen ks : list (string * bool)) : bool :=
  match ks with
  | [] => true
  | k :: rest =>
      forallb (fun k0 => negb (clash k0 k)) seen && keys_ok (seen ++ [k]) rest
  end.

(** The trees the round trip preserves: every node is readable and no
    node collapses on a sibling when it is parsed. *)
Fixpoint wf (t : tree) : bool :=
  match t with
  | Tree _ _ _ _ children =>
      node_ok t && keys_ok [] (List.map key children) && forallb wf children
  end.

Definition wf_forest (ts : list tree) : bool :=
  keys_ok [] (List.map key ts) && forallb wf ts.

Lemma wf_unfold (t : tree) :
  wf t = node_ok t && wf_forest (t_children t).
Proof.
  destruct t as [tag value unique null children].
  unfold wf_forest. cbn [t_children]. rewrite andb_assoc. reflexivity.
Qed.

(** The tree the parser builds for [t]: the same but for the unique flags,
    which record the colons of the emitted lines. *)
Fixpoint parsed (t : tree) : tree :=
  match t with
  | Tree tag value _ null children =>
      Tree tag value (parsed_unique t) null (List.map parsed children)
  end.

Lemma parsed_fields (t : tree) :
  t_tag (parsed t) = t_tag t /\ t_value (parsed t) = t_value t
  /\ t_unique (parsed t) = parsed_unique t /\ t_null (parsed t) = t_null t
  /\ t_children (parsed t) = List.map parsed (t_children t).
Proof. destruct t. repeat split. Qed.

(** [h'] is [h] with the trees [ts] added as the children [ns] of [P]. *)
Definition grown (h h' : heap) (P : ptr) (ns : list ptr) (ts : list tree) : Prop :=
  (length h <= length h')%nat
  /\ (forall q, (q < length h)%nat -> q <> P -> deref h' q = deref h q)
  /\ deref h' P = Node.setChildren (m_children (deref h P) ++ ns) (deref h P)
  /\ Forall2 (repr h' (length h)) (List.map parsed ts) ns.

Lemma repr_frame (t : tree) :
  forall (h h' : heap) (lo : nat) (p : ptr),
    repr h lo t p ->
    (length h <= length h')%nat ->
    (forall q, (lo <= q < length h)%nat -> deref h' q = deref h q) ->
    repr h' lo t p.
Proof.
  induction t as [tag value unique null children IH] using tree_induction.
  intros h h' lo p Hrepr Hlen Hsame.
  apply repr_unfold in Hrepr. destruct Hrepr as (Hp & Htag & Hvalue & Hunique & Hnull & Hcs).
  apply repr_unfold. rewrite (Hsame p Hp).
  split_and!; try assumption; [lia|lia|].
  cbn [t_children] in *.
  eapply (Forall2_Forall_impl _ (repr h lo)); [exact Hcs|exact IH|].
  intros c q _ Hc Hq. eapply Hc; eassumption.
Qed.

Lemma repr_lower (t : tree) :
  forall (h : heap) (lo lo' : nat) (p : ptr),
    repr h lo t p -> (lo' <= lo)%nat -> repr h lo' t p.
Proof.
  induction t as [tag value unique null children IH] using tree_induction.
  intros h lo lo' p Hrepr Hlo.
  apply repr_unfold in Hrepr. destruct Hrepr as (Hp & Htag & Hvalue & Hunique & Hnull & Hcs).
  apply repr_unfold. split_and!; try assumption; [lia|lia|].
  cbn [t_children] in *.
  eapply (Forall2_Forall_impl _ (repr h lo)); [exact Hcs|exact IH|].
  intros c q _ Hc Hq. eapply Hc; eassumption.
Qed.

Lemma setChildren_same (n : OTMLNode) : Node.setChildren (m_children n) n = n.
Proof. destruct n. reflexivity. Qed.

Lemma grown_nil (h : heap) (P : ptr) : grown h h P [] [].
Proof.
  split_and!; [lia|reflexivity| |constructor].
  rewrite app_nil_r, setChildren_same. reflexivity.
Qed.

Lemma grown_app (h h1 h2 : heap) (P : ptr) (ns1 ns2 : list ptr) (ts1 ts2 : list tree) :
  (P < length h)%nat ->
  grown h h1 P ns1 ts1 -> grown h1 h2 P ns2 ts2 ->
  grown h h2 P (ns1 ++ ns2) (ts1 ++ ts2).
Proof.
  intros HP (L1 & F1 & C1 & R1) (L2 & F2 & C2 & R2). split_and!.
  - lia.
  - intros q Hq Hne. rewrite F2 by (try lia; exact Hne). apply F1; assumption.
  - rewrite C2, C1. cbn [Node.setChildren m_children m_parent m_tag m_value m_source
      m_unique m_null]. rewrite app_assoc. reflexivity.
  - rewrite List.map_app. apply Forall2_app.
    + eapply Forall2_impl; [exact R1|]. intros t n Hrepr. cbv beta in Hrepr.
      eapply repr_frame; [exact Hrepr|exact L2|].
      intros q Hq. apply F2; lia.
    + eapply Forall2_impl; [exact R2|]. intros t n Hrepr.
      eapply repr_lower; [exact Hrepr|exact L1].
Qed.

Lemma grown_node (h h1 h2 : heap) (P n : ptr) (ns : list ptr) (t : tree) (source : string) :
  (P < length h)%nat ->
  attached h h1 P n (fresh_node t P source) ->
  grown h1 h2 n ns (t_children t) ->
  grown h h2 P [n] [t]
  /\ Node.parent h2 n = Some P.
Proof.
  intros HP (-> & L1 & F1 & C1 & N1) (L2 & F2 & C2 & R2).
  assert (Hn : deref h2 (length h) =
               Node.setChildren ns (fresh_node t P source)).
  { rewrite C2, N1. reflexivity. }
  split.
  - split_and!.
    + lia.
    + intros q Hq Hne. rewrite F2 by lia. apply F1; assumption.
    + rewrite F2 by lia. exact C1.
    + constructor; [|constructor]. apply repr_unfold.
      destruct (parsed_fields t) as (E1 & E2 & E3 & E4 & E5).
      rewrite Hn, E1, E2, E3, E4, E5.
      split_and!; try reflexivity; try lia.
      cbn [Node.setChildren m_children].
      eapply Forall2_impl; [exact R2|]. intros c q Hrepr.
      eapply repr_lower; [exact Hrepr|lia].
  - unfold Node.parent. rewrite Hn. reflexivity.
Qed.

Lemma grown_keeps_parents (h h' : heap) (P : ptr) (ns : list ptr) (ts : list tree) :
  grown h h' P ns ts -> keeps_parents h h'.
Proof.
  intros (L & F & C & _). split; [exact L|]. intros q Hq.
  destruct (decide (q = P)) as [->|Hne].
  - rewrite C. reflexivity.
  - rewrite F by assumption. reflexivity.
Qed.

Lemma attached_keeps_parents (h h' : heap) (P n : ptr) (node : OTMLNode) :
  attached h h' P n node -> keeps_parents h h'.
Proof.
  intros (_ & L & F & C & _). split; [lia|]. intros q Hq.
  destruct (decide (q = P)) as [->|Hne].
  - rewrite C. reflexivity.
  - rewrite F by assumption. reflexivity.
Qed.

(** The children of [P] have the keys [seen], in order. *)
Definition sibs (h : heap) (P : ptr) (seen : list (string * bool)) : Prop :=
  Forall2 (fun x k => (x < length h)%nat /\ (Node.tag h x, Node.isUnique h x) = k)
    (m_children (deref h P)) seen.

Lemma sibs_clash (h : heap) (P : ptr) (seen : list (string * bool)) (k : string * bool) :
  sibs h P seen ->
  forallb (fun k0 => negb (clash k0 k)) seen = true ->
  forall x, x ∈ m_children (deref h P) ->
    (x < length h)%nat /\ clash (Node.tag h x, Node.isUnique h x) k = false.
Proof.
  unfold sibs. intros Hsibs Hall x Hx.
  induction Hsibs as [|y k0 ys ks [Hy Hk] _ IH]; [inversion Hx|].
  cbn [forallb] in Hall. apply andb_true_iff in Hall as [Hk0 Hall].
  apply elem_of_cons in Hx as [->|Hx].
  - split; [exact Hy|]. rewrite Hk. apply negb_true_iff. exact Hk0.
  - apply IH; assumption.
Qed.

Lemma sibs_grown (h h' : heap) (P : ptr) (ns : list ptr) (ts : list tree)
    (seen : list (string * bool)) :
  sibs h P seen -> grown h h' P ns ts -> sibs h' P (seen ++ List.map key ts).
Proof.
  unfold sibs. intros Hsibs (L & F & C & R). rewrite C. cbn [Node.setChildren m_children].
  apply Forall2_app.
  - eapply Forall2_impl; [exact Hsibs|]. intros x k [Hx Hk]. split; [lia|].
    rewrite <- Hk. unfold Node.tag, Node.isUnique.
    destruct (decide (x = P)) as [->|Hne].
    + rewrite C. reflexivity.
    + rewrite F by assumption. reflexivity.
  - clear - R. revert ns R. induction ts as [|t ts IH]; intros ns R;
      inversion R as [|t' n ts' ns' Hn Hrest]; subst; constructor.
    + apply repr_unfold in Hn. destruct Hn as (Hlt & Htag & _ & Huniq & _).
      destruct (parsed_fields t) as (E1 & _ & E3 & _).
      split; [lia|]. unfold Node.tag, Node.isUnique, key.
      rewrite Htag, Huniq, E1, E3. reflexivity.
    + apply IH. exact Hrest.
Qed.

Lemma next_ok_mono (d : nat) (rest : list string) : next_ok d rest -> next_ok (S d) rest.
Proof.
  destruct rest as [|line rest]; [trivial|].
  intros (d' & body & H1 & H2 & H3). exists d', body. split; [exact H1|]. split; [lia|exact H3].
Qed.

Lemma next_ok_tree (d : nat) (t : tree) (rest : list string) :
  node_ok t = true -> next_ok d (tree_lines d t ++ rest).
Proof.
  intros Hok. rewrite tree_lines_unfold, own_lines_unfold. cbn [app next_ok].
  destruct (header_facts t Hok) as (Hs & He & _).
  exists d, (header t). split; [reflexivity|]. split; [lia|]. split; assumption.
Qed.

Lemma enter_up (p : OTMLParser) (d : nat) (n P : ptr) (anc : list ptr) :
  enter p (S d) n (P :: anc) -> below p d P anc.
Proof.
  intros [(Hd & _ & Hpar & Hchain)|(pre & Hd & Hpar & Hchain)].
  - exists []. split; [cbn [length]; lia|]. split; [exact Hpar|].
    destruct Hchain as (_ & _ & Hchain). exact Hchain.
  - exists (pre ++ [n])%list. split; [rewrite length_app; cbn [length]; lia|].
    split.
    + rewrite Hpar. f_equal. destruct pre; reflexivity.
    + rewrite <- app_assoc. exact Hchain.
Qed.

(** The statement of the main induction, for one tree. *)
Definition parses (t : tree) : Prop :=
  forall (d : nat) (p : OTMLParser) (P : ptr) (anc : list ptr) (rest : list string)
         (fuel : nat),
    in_ p = stream_at (tree_lines d t ++ rest) ->
    next_ok d rest ->
    enter p d P anc ->
    (forall x, x ∈ m_children (deref (mem p) P) ->
       (x < length (mem p))%nat
       /\ clash (Node.tag (mem p) x, Node.isUnique (mem p) x) (key t) = false) ->
    (length (tree_lines d t ++ rest) < fuel)%nat ->
    exists fuel' p',
      Parser.parse_loop fuel p = Parser.parse_loop fuel' p'
      /\ (length rest < fuel')%nat
      /\ in_ p' = stream_at rest
      /\ below p' d P anc
      /\ doc p' = doc p
      /\ grown (mem p) (mem p') P [length (mem p)] [t].

Lemma parse_forest (ts : list tree) :
  Forall (fun t => wf t = true /\ parses t) ts ->
  forall (seen : list (string * bool)) (d : nat) (p : OTMLParser) (P : ptr)
         (anc : list ptr) (rest : list string) (fuel : nat),
    in_ p = stream_at (forest_lines d ts ++ rest) ->
    next_ok d rest ->
    enter p d P anc ->
    sibs (mem p) P seen ->
    keys_ok seen (List.map key ts) = true ->
    (length (forest_lines d ts ++ rest) < fuel)%nat ->
    exists fuel' p' ns,
      Parser.parse_loop fuel p = Parser.parse_loop fuel' p'
      /\ (length rest < fuel')%nat
      /\ in_ p' = stream_at rest
      /\ enter p' d P anc
      /\ doc p' = doc p
      /\ grown (mem p) (mem p') P ns ts.
Proof.
  induction 1 as [|t ts [Hwf Ht] Hts IH];
    intros seen d p P anc rest fuel Hin Hnext Henter Hsibs Hkeys Hfuel.
  - exists fuel, p, []. cbn [forest_lines List.map List.concat app] in *.
    split_and!; try assumption; try reflexivity. apply grown_nil.
  - pose proof (enter_chain p d P anc Henter) as (HP & _ & _).
    cbn [List.map keys_ok] in Hkeys. apply andb_true_iff in Hkeys as [Hclash Hkeys].
    unfold forest_lines in Hin, Hfuel. cbn [List.map List.concat] in Hin, Hfuel.
    fold (forest_lines d ts) in Hin, Hfuel. rewrite <- app_assoc in Hin, Hfuel.
    assert (Hnext1 : next_ok d (forest_lines d ts ++ rest)).
    { destruct ts as [|t' ts']; [exact Hnext|].
      inversion Hts as [|? ? [Hwf' _] _]; subst.
      unfold forest_lines. cbn [List.map List.concat]. rewrite <- app_assoc.
      apply next_ok_tree. rewrite wf_unfold in Hwf'.
      apply andb_true_iff in Hwf' as [Hok _]. exact Hok. }
    destruct (Ht d p P anc (forest_lines d ts ++ rest)%list fuel Hin Hnext1 Henter
                (sibs_clash (mem p) P seen (key t) Hsibs Hclash) Hfuel)
      as (fuel1 & p1 & Hloop1 & Hfuel1 & Hin1 & Hbelow1 & Hdoc1 & Hgrown1).
    destruct (IH (seen ++ [key t])%list d p1 P anc rest fuel1 Hin1 Hnext
                (below_enter _ _ _ _ Hbelow1)
                (sibs_grown _ _ _ _ _ _ Hsibs Hgrown1) Hkeys Hfuel1)
      as (fuel2 & p2 & ns & Hloop2 & Hfuel2 & Hin2 & Henter2 & Hdoc2 & Hgrown2).
    exists fuel2, p2, (length (mem p) :: ns).
    split_and!; try assumption.
    + rewrite Hloop1. exact Hloop2.
    + congruence.
    + apply (grown_app (mem p) (mem p1) (mem p2) P [length (mem p)] ns [t] ts HP Hgrown1 Hgrown2).
Qed.

Lemma more_lines_children (d : nat) (t : tree) :
  node_ok t = true -> more_lines d t <> [] -> t_children t = [].
Proof.
  unfold node_ok, more_lines. intros Hok Hmore.
  apply andb_true_iff in Hok as [_ Hok].
  destruct (t_null t); [contradiction|]. cbn [negb andb] in Hmore.
  destruct (contains Str.nl (t_value t)); [|contradiction].
  apply andb_true_iff in Hok as [_ Hok].
  destruct (t_children t); [reflexivity|discriminate].
Qed.

Lemma parse_tree (t : tree) : wf t = true -> parses t.
Proof.
  induction t as [tag value unique null children IH] using tree_induction.
  set (t := Tree tag value unique null children).
  intros Hwf d p P anc rest fuel Hin Hnext Henter Hclash Hfuel.
  rewrite wf_unfold in Hwf. apply andb_true_iff in Hwf as [Hok Hforest].
  unfold wf_forest in Hforest. apply andb_true_iff in Hforest as [Hkeys Hwfs].
  change (t_children t) with children in Hkeys, Hwfs.
  pose proof (enter_chain p d P anc Henter) as Hchain.
  pose proof Hchain as (HP & _ & _).
  rewrite tree_lines_unfold in Hin, Hfuel. rewrite <- app_assoc in Hin, Hfuel.
  change (t_children t) with children in Hin, Hfuel.
  (* the node itself *)
  destruct (parse_node t d p P anc (forest_lines (S d) children ++ rest)%list fuel Hok Hin)
    as (fuel1 & p1 & source & Hloop1 & Hfuel1 & Hin1 & Hd1 & Hpar1 & Hprev1 & Hdoc1 & Hatt);
    try assumption.
  { intros Hmore. pose proof (more_lines_children d t Hok Hmore) as Hnone.
    change (t_children t) with children in Hnone. rewrite Hnone. exact Hnext. }
  set (n := length (mem p)) in *.
  pose proof (attached_keeps_parents _ _ _ _ _ Hatt) as Hkeeps.
  pose proof Hatt as (_ & Hlen1 & _ & _ & Hn1).
  (* its children *)
  assert (Henter1 : enter p1 (S d) n (P :: anc)).
  { left. split_and!.
    - lia.
    - exact Hprev1.
    - exact Hpar1.
    - split; [lia|]. split.
      + unfold Node.parent. rewrite Hn1. reflexivity.
      + eapply chain_keeps; eassumption. }
  assert (Hsibs1 : sibs (mem p1) n []).
  { unfold sibs. rewrite Hn1. constructor. }
  assert (Hparses : Forall (fun c => wf c = true /\ parses c) children).
  { clear - IH Hwfs. induction IH as [|c cs Hc _ IHcs]; constructor.
    - cbn [forallb] in Hwfs. apply andb_true_iff in Hwfs as [Hwf _].
      split; [exact Hwf|]. apply Hc. exact Hwf.
    - apply IHcs. cbn [forallb] in Hwfs. apply andb_true_iff in Hwfs as [_ Hwfs].
      exact Hwfs. }
  destruct (parse_forest children Hparses [] (S d) p1 n (P :: anc) rest fuel1
              Hin1 (next_ok_mono d rest Hnext) Henter1 Hsibs1 Hkeys Hfuel1)
    as (fuel2 & p2 & ns & Hloop2 & Hfuel2 & Hin2 & Henter2 & Hdoc2 & Hgrown2).
  exists fuel2, p2. split_and!.
  - rewrite Hloop1. exact Hloop2.
  - exact Hfuel2.
  - exact Hin2.
  - eapply enter_up. exact Henter2.
  - congruence.
  - eapply grown_node; eassumption.
Qed.

(** *** The round trip *)

(** The tree without its unique flags: tags, values, null flags and the
    order and number of the children at every node. *)
Fixpoint shape (t : tree) : tree :=
  match t with
  | Tree tag value _ null children => Tree tag value false null (List.map shape children)
  end.

Lemma shape_parsed (t : tree) : shape (parsed t) = shape t.
Proof.
  induction t as [tag value unique null children IH] using tree_induction.
  cbn [parsed shape]. f_equal. rewrite List.map_map.
  induction IH as [|c cs Hc _ IHcs]; [reflexivity|].
  cbn [List.map]. rewrite Hc, IHcs. reflexivity.
Qed.

Lemma wf_emittable (t : tree) : wf t = true -> emittable_tree t.
Proof.
  induction t as [tag value unique null children IH] using tree_induction.
  set (t := Tree tag value unique null children).
  intros Hwf. rewrite wf_unfold in Hwf. apply andb_true_iff in Hwf as [Hok Hforest].
  unfold wf_forest in Hforest. apply andb_true_iff in Hforest as [_ Hwfs].
  apply emittable_tree_unfold. split.
  - unfold emittable. intros Hv. unfold node_ok in Hok.
    apply andb_true_iff in Hok as [_ Hok]. rewrite Hv in Hok.
    destruct (t_null t); [discriminate|].
    change (contains Str.nl (String Str.nl "")) with true in Hok. cbv iota in Hok.
    apply andb_true_iff in Hok as [Hok _]. discriminate.
  - change (t_children t) with children in *.
    clear - IH Hwfs. induction IH as [|c cs Hc _ IHcs]; constructor.
    + apply Hc. cbn [forallb] in Hwfs. apply andb_true_iff in Hwfs as [Hwf _]. exact Hwf.
    + apply IHcs. cbn [forallb] in Hwfs. apply andb_true_iff in Hwfs as [_ Hwfs]. exact Hwfs.
Qed.

Lemma lines_pieces_no_newline (v : string) :
  Forall (fun l => contains Str.nl l = false) (Str.lines v).
Proof.
  induction v as [|c v IH]; [repeat constructor|].
  cbn [Str.lines]. destruct (Ascii.eqb c Str.nl) eqn:Hc.
  - constructor; [reflexivity|exact IH].
  - destruct (Str.lines v) as [|l ls]; [repeat constructor|].
    + unfold contains. cbn [Str.find]. rewrite Hc. reflexivity.
    + inversion IH; subst. constructor; [|assumption].
      unfold contains in *. cbn [Str.find]. rewrite Hc.
      destruct (Str.find Str.nl l); [discriminate|reflexivity].
Qed.

Lemma Forall_drop_last_empty (P : string -> Prop) (l : list string) :
  Forall P l -> Forall P (drop_last_empty l).
Proof.
  induction 1 as [|x l Hx Hl IH]; [constructor|].
  destruct l as [|y l].
  - cbn [drop_last_empty]. destruct (String.eqb x ""); repeat constructor. exact Hx.
  - rewrite drop_last_empty_cons by discriminate. constructor; assumption.
Qed.

Lemma own_lines_no_newline (d : nat) (t : tree) :
  node_ok t = true -> Forall (fun l => contains Str.nl l = false) (own_lines d t).
Proof.
  intros Hok. destruct (header_facts t Hok) as (_ & _ & _ & Hnl & _).
  rewrite own_lines_unfold. constructor.
  - rewrite contains_append, Hnl, contains_indent by reflexivity. reflexivity.
  - unfold more_lines. destruct (negb (t_null t) && contains Str.nl (t_value t));
      [|constructor].
    unfold block_lines, block_pieces. apply List.Forall_map.
    eapply Forall_impl; [apply Forall_drop_last_empty, lines_pieces_no_newline|].
    intros piece Hpiece. cbv beta in *.
    rewrite contains_append, Hpiece, contains_indent by reflexivity. reflexivity.
Qed.

Lemma tree_lines_no_newline (t : tree) :
  wf t = true -> forall d, Forall (fun l => contains Str.nl l = false) (tree_lines d t).
Proof.
  induction t as [tag value unique null children IH] using tree_induction.
  set (t := Tree tag value unique null children).
  intros Hwf d. rewrite wf_unfold in Hwf. apply andb_true_iff in Hwf as [Hok Hforest].
  unfold wf_forest in Hforest. apply andb_true_iff in Hforest as [_ Hwfs].
  rewrite tree_lines_unfold. apply Forall_app. split.
  - apply own_lines_no_newline. exact Hok.
  - change (t_children t) with children in *. unfold forest_lines.
    clear - IH Hwfs. induction IH as [|c cs Hc _ IHcs]; [constructor|].
    cbn [List.map List.concat]. cbn [forallb] in Hwfs.
    apply andb_true_iff in Hwfs as [Hwf Hwfs]. apply Forall_app. split.
    + apply Hc. exact Hwf.
    + apply IHcs. exact Hwfs.
Qed.

Lemma forest_lines_no_newline (ts : list tree) (d : nat) :
  forallb wf ts = true -> Forall (fun l => contains Str.nl l = false) (forest_lines d ts).
Proof.
  unfold forest_lines. induction ts as [|t ts IH]; intros Hwfs; [constructor|].
  cbn [List.map List.concat]. cbn [forallb] in Hwfs.
  apply andb_true_iff in Hwfs as [Hwf Hwfs]. apply Forall_app. split.
  - apply tree_lines_no_newline. exact Hwf.
  - apply IH. exact Hwfs.
Qed.

(** The main loop on a stream at its end. *)
Lemma parse_loop_done (fuel : nat) (p : OTMLParser) :
  in_ p = stream_at [] -> Parser.parse_loop (S fuel) p = Ok p.
Proof. intros Hin. cbn [Parser.parse_loop]. rewrite Hin. reflexivity. Qed.

(** The least fuel the emitter needs for a forest. *)
Definition forest_height (ts : list tree) : nat := list_max (List.map height ts).

Lemma forest_height_le (ts : list tree) (t : tree) :
  t ∈ ts -> (height t <= forest_height ts)%nat.
Proof.
  intros Ht. unfold forest_height.
  assert (Hall : Forall (fun k => (k <= list_max (List.map height ts))%nat)
                   (List.map height ts)).
  { apply list_max_le. lia. }
  rewrite List.Forall_forall in Hall. apply Hall.
  apply List.in_map. apply list_elem_of_In. exact Ht.
Qed.

Lemma forallb_wf_parses (ts : list tree) :
  forallb wf ts = true -> Forall (fun t => wf t = true /\ parses t) ts.
Proof.
  induction ts as [|t ts IH]; intros Hwfs; [constructor|].
  cbn [forallb] in Hwfs. apply andb_true_iff in Hwfs as [Hwf Hwfs].
  constructor; [|apply IH; exact Hwfs]. split; [exact Hwf|]. apply parse_tree. exact Hwf.
Qed.

(** The parser on the emitted text of a well-formed forest. *)
Lemma parse_document (ts : list tree) (h0 : heap) (source : string) :
  wf_forest ts = true ->
  exists h',
    OTMLDocument_parse h0 (Stream.open (join_lines (forest_lines 0 ts))) source
    = Ok (h', length h0)
    /\ Forall2 (repr h' 0) (List.map parsed ts) (m_children (deref h' (length h0))).
Proof.
  intros Hwf. unfold wf_forest in Hwf. apply andb_true_iff in Hwf as [Hkeys Hwfs].
  unfold OTMLDocument_parse, alloc.
  set (docnode := Node.setSource source OTMLNode_new).
  set (h1 := (h0 ++ [docnode])%list).
  assert (Hlen1 : length h1 = S (length h0)) by (unfold h1; rewrite length_app; simpl; lia).
  assert (Hdoc1 : deref h1 (length h0) = docnode) by apply deref_app_last.
  destruct (forest_lines 0 ts) as [|l ls] eqn:Hlines.
  - (* the empty document *)
    destruct ts as [|t ts].
    2:{ exfalso. unfold forest_lines in Hlines. cbn [List.map List.concat] in Hlines.
        apply app_eq_nil in Hlines as [Hl _]. revert Hl. apply tree_lines_nonempty. }
    exists h1. split; [reflexivity|]. rewrite Hdoc1. constructor.
  - set (p0 := Parser.new h1 (length h0) (Stream.open (join_lines (l :: ls)))).
    assert (Hin0 : in_ p0 = stream_at (forest_lines 0 ts ++ [])).
    { unfold p0, Parser.new, Stream.open. cbn [in_].
      rewrite app_nil_r, Hlines. rewrite lines_join_lines; [reflexivity|discriminate|].
      rewrite <- Hlines. apply forest_lines_no_newline. exact Hwfs. }
    assert (Hgood : Stream.good (in_ p0) = true).
    { rewrite Hin0, app_nil_r, Hlines. reflexivity. }
    unfold Parser.parse. fold p0. rewrite Hgood. cbn [negb].
    destruct (parse_forest ts (forallb_wf_parses ts Hwfs) [] 0%nat p0 (length h0) [] []
                (S (length (unread (in_ p0)))) Hin0 I)
      as (fuel' & p' & ns & Hloop & Hfuel' & Hin' & _ & Hdoc' & Hgrown).
    + right. exists []. split; [reflexivity|]. split; [reflexivity|].
      cbn [app chain]. split; [|split; trivial]. unfold p0. cbn [Parser.new mem]. lia.
    + unfold sibs, p0. cbn [Parser.new mem]. rewrite Hdoc1. constructor.
    + exact Hkeys.
    + rewrite Hin0. cbn [stream_at unread]. lia.
    + rewrite Hloop. destruct fuel' as [|fuel']; [cbn [length] in Hfuel'; lia|].
      rewrite (parse_loop_done fuel' p' Hin'). outcome_simpl.
      exists (mem p'). split; [reflexivity|].
      destruct Hgrown as (_ & _ & Hchildren & Hrepr).
      unfold p0 in Hchildren, Hrepr. cbn [Parser.new mem] in Hchildren, Hrepr.
      rewrite Hchildren, Hdoc1. cbn [Node.setChildren m_children docnode Node.setSource
        OTMLNode_new app].
      eapply Forall2_impl; [exact Hrepr|]. intros t n Ht.
      eapply repr_lower; [exact Ht|lia].
Qed.

(** C1 (amended). For every well-formed forest held below a root node,
    the emitter writes a text, and the parser builds from that text a
    document whose children hold the same trees, tag for tag, value for
    value, null flag for null flag, in the same order and number at every
    node. *)
Theorem round_trip (h : heap) (root : ptr) (ts : list tree) (h0 : heap) (source : string)
    (Hrepr : Forall2 (repr h 0) ts (m_children (deref h root)))
    (Hwf : wf_forest ts = true) :
  exists text h' doc ts',
    OTMLDocument_emit (S (forest_height ts)) h root = Ok text
    /\ OTMLDocument_parse h0 (Stream.open text) source = Ok (h', doc)
    /\ Forall2 (repr h' 0) ts' (m_children (deref h' doc))
    /\ List.map shape ts' = List.map shape ts.
Proof.
  destruct (parse_document ts h0 source Hwf) as (h' & Hparse & Hchildren).
  exists (join_lines (forest_lines 0 ts)), h', (length h0), (List.map parsed ts).
  split_and!.
  - apply (emit_document_lines h 0 root ts); [exact Hrepr| |].
    + unfold wf_forest in Hwf. apply andb_true_iff in Hwf as [_ Hwfs].
      clear - Hwfs. induction ts as [|t ts IH]; constructor.
      * apply wf_emittable. cbn [forallb] in Hwfs.
        apply andb_true_iff in Hwfs as [Hwf _]. exact Hwf.
      * apply IH. cbn [forallb] in Hwfs. apply andb_true_iff in Hwfs as [_ Hwfs]. exact Hwfs.
    + intros t Ht. apply forest_height_le. exact Ht.
  - exact Hparse.
  - exact Hchildren.
  - rewrite List.map_map. apply List.map_ext. intros t. apply shape_parsed.
Qed.

(** A document built with [create] and [writeAt]: two children [a], of
    values "1" and "2", neither of them unique. *)
Definition twins_heap : heap :=
  let '(h, doc) := OTMLDocument_create [] in
  match Node.writeAt h doc "a" "1" with
  | Ok h =>
      match Node.writeAt h doc "a" "2" with
      | Ok h => h
      | _ => []
      end
  | _ => []
  end.

(** C1, as stated, fails: the emitted text of the two children is
    [a: 1] and [a: 2]; both lines carry a colon, so the parser makes both
    nodes unique and the second replaces the first: one child is left. *)
Lemma round_trip_counterexample :
  m_children (deref twins_heap 0%nat) = [1; 2]%nat
  /\ m_value (deref twins_heap 1%nat) = "1"
  /\ OTMLDocument_emit 2 twins_heap 0%nat = Ok ("a: 1" ++ String Str.nl "a: 2")
  /\ match OTMLDocument_parse [] (Stream.open ("a: 1" ++ String Str.nl "a: 2")) "doc" with
     | Ok (h', doc) =>
         List.map (fun c => (Node.tag h' c, m_value (deref h' c))) (m_children (deref h' doc))
         = [("a", "2")]
     | _ => False
     end.
Proof. vm_compute. split_and!; reflexivity. Qed.

(** A document with a plain tag that has children, a unique value, a
    block value, a null node and two list entries. *)
Definition sample_forest : list tree :=
  [ Tree "TopPanel" "" false false
      [ Tree "id" "topMenu" true false [];
        Tree "onClick" ("if online then" ++ String Str.nl "  show()" ++ String Str.nl "end"
                        ++ String Str.nl "")
          true false [];
        Tree "focusable" "" true true [];
        Tree "items" "" true false
          [ Tree "" "x" false false []; Tree "" "y: z" false false [] ] ] ].

Definition sample_heap : heap :=
  [ Node.setChildren [1%nat] (Node.setTag "doc" OTMLNode_new);
    mkNode [2; 3; 4; 5]%nat (Some 0%nat) "TopPanel" "" "" false false;
    mkNode [] (Some 1%nat) "id" "topMenu" "" true false;
    mkNode [] (Some 1%nat) "onClick"
      ("if online then" ++ String Str.nl "  show()" ++ String Str.nl "end" ++ String Str.nl "")
      "" true false;
    mkNode [] (Some 1%nat) "focusable" "" "" true true;
    mkNode [6; 7]%nat (Some 1%nat) "items" "" "" true false;
    mkNode [] (Some 5%nat) "" "x" "" false false;
    mkNode [] (Some 5%nat) "" "y: z" "" false false ].

Lemma round_trip_witness :
  exists text h' doc ts',
    OTMLDocument_emit (S (forest_height sample_forest)) sample_heap 0%nat = Ok text
    /\ OTMLDocument_parse [] (Stream.open text) "doc" = Ok (h', doc)
    /\ Forall2 (repr h' 0) ts' (m_children (deref h' doc))
    /\ List.map shape ts' = List.map shape sample_forest.
Proof.
  apply (round_trip sample_heap 0%nat sample_forest [] "doc").
  - cbv. repeat constructor.
  - vm_compute. reflexivity.
Defined.

(** ** C3: block scalars *)

Lemma getNextLine_good (p : OTMLParser) (line : string) (rest : list string) :
  Stream.good (in_ p) = true ->
  unread (in_ p) = line :: rest ->
  Parser.getNextLine p
  = (line,
     Parser.set_in
       {| unread := rest;
          eofbit := match rest with [] => true | _ => false end;
          failbit := match rest with [] => String.eqb line "" | _ => false end |}
       (Parser.set_currentLine (currentLine p + 1) p)).
Proof.
  intros Hgood Hline. unfold Parser.getNextLine, Stream.getline.
  cbn [Parser.set_currentLine in_]. rewrite Hgood, Hline.
  destruct rest; reflexivity.
Qed.

Lemma rewind_good (p : OTMLParser) (line : string) (rest : list string) (s : istream) :
  Stream.good (in_ p) = true ->
  unread (in_ p) = line :: rest ->
  failbit s = false ->
  Parser.set_currentLine (currentLine p + 1 - 1)
    (Parser.set_in (Stream.seekg s (Some (line :: rest)))
       (Parser.set_in s (Parser.set_currentLine (currentLine p + 1) p)))
  = p.
Proof.
  intros Hgood Hline Hs. destruct p as [cd cl d cp pn [u e f] m].
  unfold Stream.good in Hgood. cbn [in_ unread eofbit failbit] in Hgood, Hline.
  apply andb_true_iff in Hgood as [He Hf].
  apply negb_true_iff in He, Hf. subst u e f.
  unfold Stream.seekg. rewrite Hs.
  unfold Parser.set_currentLine, Parser.set_in. cbn.
  f_equal. lia.
Qed.

Lemma set_in_same (p : OTMLParser) : Parser.set_in (in_ p) p = p.
Proof. destruct p. reflexivity. Qed.

Lemma block_loop_step (fuel : nat) (p : OTMLParser) (multiLineData line : string)
    (rest : list string) (depth : Z) :
  Stream.good (in_ p) = true ->
  unread (in_ p) = line :: rest ->
  Parser.getLineDepth (snd (Parser.getNextLine p)) line true = Ok depth ->
  let next := snd (Parser.getNextLine p) in
  let continue data :=
    if Stream.eof (in_ next) then Ok (data, next) else Parser.block_loop fuel next data in
  Parser.block_loop (S fuel) p multiLineData =
    if currentDepth p <? depth then
      continue (multiLineData
                ++ Str.drop (Z.to_nat ((currentDepth p + 1) * 2)) line ++ String Str.nl "")
    else if String.eqb (Str.trim line) "" then continue (multiLineData ++ String Str.nl "")
    else Ok (multiLineData, p).
Proof.
  intros Hgood Hline Hdepth next continue.
  cbn [Parser.block_loop]. unfold Stream.tellg. rewrite Hgood, set_in_same.
  subst continue next. revert Hdepth.
  rewrite (getNextLine_good p line rest Hgood Hline). cbn [snd].
  intros Hdepth. rewrite Hdepth. outcome_simpl.
  cbn [Parser.set_in Parser.set_currentLine currentDepth in_ currentLine].
  destruct (currentDepth p <? depth); [reflexivity|].
  destruct (String.eqb_spec (Str.trim line) "") as [Hblank|Hfull]; cbn [negb]; [reflexivity|].
  rewrite Hline. f_equal. f_equal.
  apply (rewind_good p line rest _ Hgood Hline).
  destruct rest; [|reflexivity]. cbn [failbit].
  apply String.eqb_neq. intros ->. apply Hfull. reflexivity.
Qed.

(** The value of the first child of the document parsed from [text]. *)
Definition first_value (text : string) : outcome string :=
  '(h, doc) ← OTMLDocument_parse [] (Stream.open text) "doc";
  match m_children (deref h doc) with
  | child :: _ => Ok (m_value (deref h child))
  | [] => Ok ""
  end.

(** The text emitted for a document whose only child is [t] with the
    given value. *)
Definition emit_value (value : string) : outcome string :=
  let '(h, doc) := OTMLDocument_create [] in
  h ← Node.writeAt h doc "t" value;
  OTMLDocument_emit 2 h doc.

(** C3. One turn of the collecting loop on a readable stream whose next
    line has depth [depth]: a deeper line is added without its first
    [(currentDepth + 1) * 2] characters and with a newline; a blank line
    that is not deeper adds a newline; any other line ends the loop and
    leaves the parser as it was before the line was read (stream rewound,
    line counter restored); the loop also ends when the stream does.
    On a collected text that ends, before its trailing newlines, with
    another character, [|] leaves one trailing newline, [|-] none and [|+]
    all of them; the lines [a] and [b] under a header give "a\nb\n" with
    [|], "a\nb" with [|-] and, the text ending in a newline, "a\nb\n\n"
    with [|+], and these three values are emitted with these styles and
    read back unchanged.  But when the header is followed by a line that
    is not deeper, or by the end of the stream, the collected text is
    empty or holds newlines only, and the policy of [|] and [|-] reads the
    text at position -1. *)
Theorem block_scalar (fuel : nat) (p : OTMLParser) (multiLineData line : string)
    (rest : list string) (depth : Z) (w : string) (c : ascii) (k : nat)
    (h : heap) (source : string)
    (Hgood : Stream.good (in_ p) = true)
    (Hline : unread (in_ p) = line :: rest)
    (Hdepth : Parser.getLineDepth (snd (Parser.getNextLine p)) line true = Ok depth)
    (Hc : Ascii.eqb c Str.nl = false) :
  let NL := String Str.nl "" in
  let next := snd (Parser.getNextLine p) in
  let continue data :=
    if Stream.eof (in_ next) then Ok (data, next) else Parser.block_loop fuel next data in
  let body := w ++ String c "" in
  (* the loop *)
  Parser.block_loop (S fuel) p multiLineData
  = (if currentDepth p <? depth then
       continue (multiLineData
                 ++ Str.drop (Z.to_nat ((currentDepth p + 1) * 2)) line ++ NL)
     else if String.eqb (Str.trim line) "" then continue (multiLineData ++ NL)
     else Ok (multiLineData, p))
  /\ currentLine next = currentLine p + 1
  /\ unread (in_ next) = rest
  /\ Stream.eof (in_ next) = match rest with [] => true | _ => false end
  (* the policy *)
  /\ Parser.block_policy "|" (body ++ newlines k) = Ok (body ++ NL)
  /\ Parser.block_policy "|-" (body ++ newlines k) = Ok body
  /\ Parser.block_policy "|+" (body ++ newlines k) = Ok (body ++ newlines k)
  (* the examples, as texts and as values emitted and read back *)
  /\ first_value ("t: |" ++ NL ++ "  a" ++ NL ++ "  b" ++ NL) = Ok ("a" ++ NL ++ "b" ++ NL)
  /\ first_value ("t: |-" ++ NL ++ "  a" ++ NL ++ "  b" ++ NL) = Ok ("a" ++ NL ++ "b")
  /\ first_value ("t: |+" ++ NL ++ "  a" ++ NL ++ "  b" ++ NL) = Ok ("a" ++ NL ++ "b" ++ NL ++ NL)
  /\ emit_value ("a" ++ NL ++ "b" ++ NL) = Ok ("t: |" ++ NL ++ "  a" ++ NL ++ "  b")
  /\ emit_value ("a" ++ NL ++ "b") = Ok ("t: |-" ++ NL ++ "  a" ++ NL ++ "  b")
  /\ emit_value ("a" ++ NL ++ "b" ++ NL ++ NL)
     = Ok ("t: |+" ++ NL ++ "  a" ++ NL ++ "  b" ++ NL ++ "  ")
  /\ (text ← emit_value ("a" ++ NL ++ "b" ++ NL); first_value text) = Ok ("a" ++ NL ++ "b" ++ NL)
  /\ (text ← emit_value ("a" ++ NL ++ "b"); first_value text) = Ok ("a" ++ NL ++ "b")
  /\ (text ← emit_value ("a" ++ NL ++ "b" ++ NL ++ NL); first_value text)
     = Ok ("a" ++ NL ++ "b" ++ NL ++ NL)
  (* no character other than newline collected *)
  /\ Parser.block_policy "|" "" = Undefined OutOfRange
  /\ Parser.block_policy "|-" "" = Undefined OutOfRange
  /\ Parser.block_policy "|" (newlines k) = Undefined OutOfRange
  /\ Parser.block_policy "|-" (newlines k) = Undefined OutOfRange
  /\ OTMLDocument_parse h (Stream.open ("a: |" ++ NL ++ "b: 1")) source = Undefined OutOfRange
  /\ OTMLDocument_parse h (Stream.open "a: |") source = Undefined OutOfRange
  /\ OTMLDocument_parse h (Stream.open ("a: |-" ++ NL ++ NL)) source = Undefined OutOfRange.
Proof.
  intros NL next continue body.
  pose proof (getNextLine_good p line rest Hgood Hline) as Hnext.
  split_and!; try (vm_compute; reflexivity).
  - apply (block_loop_step fuel p multiLineData line rest depth Hgood Hline Hdepth).
  - subst next. rewrite Hnext. reflexivity.
  - subst next. rewrite Hnext. reflexivity.
  - subst next. rewrite Hnext. destruct rest; reflexivity.
  - unfold Parser.block_policy. cbn [String.eqb Ascii.eqb Bool.eqb orb].
    subst body. rewrite (strip_loop_trailing w c k Hc). reflexivity.
  - unfold Parser.block_policy. cbn [String.eqb Ascii.eqb Bool.eqb orb].
    subst body. rewrite (strip_loop_trailing w c k Hc). reflexivity.
  - apply block_policy_newlines.
  - apply block_policy_newlines.
Qed.

Lemma block_scalar_witness :
  let NL := String Str.nl "" in
  let p := Parser.new [Node.setSource "doc" OTMLNode_new] 0%nat
             (Stream.open ("  x" ++ NL ++ "b")) in
  Parser.block_loop 2 p "" = Ok ("x" ++ NL, snd (Parser.getNextLine p))
  /\ Parser.block_policy "|" ("x" ++ NL ++ NL ++ NL) = Ok ("x" ++ NL).
Proof.
  intros NL p.
  pose proof (block_scalar 1 p "" "  x" ["b"] 1 "" "x" 3 [] "doc"
                ltac:(vm_compute; reflexivity) ltac:(vm_compute; reflexivity)
                ltac:(vm_compute; reflexivity) ltac:(vm_compute; reflexivity))
    as (Hloop & _ & _ & _ & Hpolicy & _).
  split.
  - rewrite Hloop. vm_compute. reflexivity.
  - exact Hpolicy.
Defined.

(** * Further properties of the code *)

(** ** [otml_util::trim] *)

(** Every character of the string is white space. *)
Fixpoint all_space (s : string) : bool :=
  match s with
  | EmptyString => true
  | String c r => Str.isspace c && all_space r
  end.

Lemma all_space_append (a b : string) :
  all_space (a ++ b) = all_space a && all_space b.
Proof.
  induction a as [|c a IH]; [reflexivity|].
  rewrite append_cons. cbn [all_space]. rewrite IH, andb_assoc. reflexivity.
Qed.

Lemma all_space_rev (s : string) : all_space (Str.rev s) = all_space s.
Proof.
  induction s as [|c s IH]; [reflexivity|].
  rewrite rev_cons, all_space_append, IH. cbn [all_space].
  rewrite andb_true_r. apply andb_comm.
Qed.

Lemma ltrim_split (s : string) :
  exists l, s = l ++ Str.ltrim s /\ all_space l = true
            /\ (Str.ltrim s = "" \/ starts_ok (Str.ltrim s) = true).
Proof.
  induction s as [|c s (l & Hs & Hl & Hends)].
  - exists "". split_and!; [reflexivity|reflexivity|left; reflexivity].
  - cbn [Str.ltrim]. destruct (Str.isspace c) eqn:Hc.
    + exists (String c l). split_and!.
      * rewrite append_cons. f_equal. exact Hs.
      * cbn [all_space]. rewrite Hc, Hl. reflexivity.
      * exact Hends.
    + exists "". split_and!; [reflexivity|reflexivity|right].
      cbn [starts_ok]. rewrite Hc. reflexivity.
Qed.

Lemma rtrim_split (s : string) :
  exists r, s = Str.rtrim s ++ r /\ all_space r = true
            /\ (Str.rtrim s = "" \/ ends_ok (Str.rtrim s) = true).
Proof.
  destruct (ltrim_split (Str.rev s)) as (l & Hs & Hl & Hends).
  exists (Str.rev l). unfold Str.rtrim, ends_ok. split_and!.
  - rewrite <- rev_append, <- Hs, rev_involutive. reflexivity.
  - rewrite all_space_rev. exact Hl.
  - rewrite rev_involutive. destruct Hends as [->|Hends]; [left; reflexivity|right; exact Hends].
Qed.

Lemma all_space_ltrim (s : string) : all_space s = true -> Str.ltrim s = "".
Proof.
  induction s as [|c s IH]; [reflexivity|].
  cbn [all_space Str.ltrim]. intros H. apply andb_true_iff in H as [-> Hs]. apply IH. exact Hs.
Qed.

Lemma trim_idempotent (s : string) : Str.trim (Str.trim s) = Str.trim s.
Proof.
  destruct (ltrim_split s) as (_ & _ & _ & Hstart).
  destruct (rtrim_split (Str.ltrim s)) as (r & Hu & _ & Hend).
  fold (Str.trim s) in Hu, Hend.
  destruct Hend as [->|Hend]; [reflexivity|].
  destruct (Str.trim s) as [|c t] eqn:Ht; [reflexivity|].
  apply trim_fixed; [|exact Hend].
  destruct Hstart as [Hempty|Hstart]; [rewrite Hempty in Hu; discriminate|].
  rewrite Hu in Hstart. exact Hstart.
Qed.

(** X1. [trim] removes the white space at both ends and nothing else: the
    string is its trimmed part between two runs of white space, the
    trimmed part is empty or begins and ends with a character that is not
    white space; trimming twice changes nothing more, and the result is
    empty exactly for a string of white space. *)
Theorem trim_spec (s : string) :
  (exists l r, s = l ++ Str.trim s ++ r /\ all_space l = true /\ all_space r = true)
  /\ (Str.trim s = "" \/ (starts_ok (Str.trim s) = true /\ ends_ok (Str.trim s) = true))
  /\ Str.trim (Str.trim s) = Str.trim s
  /\ (Str.trim s = "" <-> all_space s = true).
Proof.
  destruct (ltrim_split s) as (l & Hs & Hl & Hstart).
  destruct (rtrim_split (Str.ltrim s)) as (r & Hu & Hr & Hend).
  fold (Str.trim s) in Hu, Hend.
  assert (Hends : Str.trim s = ""
                  \/ (starts_ok (Str.trim s) = true /\ ends_ok (Str.trim s) = true)).
  { destruct Hend as [?|Hend]; [left; assumption|].
    destruct (Str.trim s) as [|c t] eqn:Ht; [left; reflexivity|right].
    split; [|exact Hend].
    destruct Hstart as [Hempty|Hstart]; [rewrite Hempty in Hu; discriminate|].
    rewrite Hu in Hstart. exact Hstart. }
  split_and!.
  - exists l, r. split_and!; [|exact Hl|exact Hr]. rewrite <- Hu. exact Hs.
  - exact Hends.
  - destruct Hends as [->|[H1 H2]]; [reflexivity|]. apply trim_fixed; assumption.
  - split.
    + intros Ht. rewrite Hs, Hu, Ht, !all_space_append, Hl, Hr. reflexivity.
    + intros Hall. unfold Str.trim. rewrite (all_space_ltrim s Hall). reflexivity.
Qed.

(** ** Writing and reading a value *)

(** X2. What [write] stores is read back by [value]: a boolean comes back as
    the same boolean (and reads as the text [true] or [false]), a string
    as the same string.  [write] touches the value only: a null node stays
    null, and the node has a value afterwards unless the text is empty. *)
Theorem write_value_round_trip (h : heap) (self : ptr) (b : bool) (s : string)
    (Hself : (self < length h)%nat) :
  (exists h',
      Node.write h self b = Ok h'
      /\ Node.value (T := bool) h' self = Ok b
      /\ Node.value (T := string) h' self = Ok (if b then "true" else "false"))
  /\ (exists h',
        Node.write h self s = Ok h'
        /\ Node.value (T := string) h' self = Ok s
        /\ Node.hasValue h' self = negb (String.eqb s "")
        /\ Node.isNull h' self = Node.isNull h self
        /\ Node.tag h' self = Node.tag h self
        /\ m_children (deref h' self) = m_children (deref h self)
        /\ (forall q, q <> self -> deref h' q = deref h q)).
Proof.
  split.
  - exists (update h self (Node.setValue (if b then "true" else "false"))).
    split_and!; [reflexivity| |].
    + unfold Node.value. rewrite deref_update_eq by exact Hself.
      destruct b; reflexivity.
    + unfold Node.value. rewrite deref_update_eq by exact Hself. reflexivity.
  - exists (update h self (Node.setValue s)).
    unfold Node.value, Node.hasValue, Node.isNull, Node.tag.
    rewrite !deref_update_eq by exact Hself.
    split_and!; try reflexivity.
    intros q Hq. apply deref_update_ne. congruence.
Qed.

Lemma write_value_round_trip_witness :
  exists h',
    Node.write (fst (Node.create [] "enabled" false)) 0%nat true = Ok h'
    /\ Node.value (T := bool) h' 0%nat = Ok true
    /\ Node.value (T := string) h' 0%nat = Ok "true".
Proof.
  destruct (write_value_round_trip (fst (Node.create [] "enabled" false)) 0%nat true ""
              ltac:(vm_compute; lia)) as [Hbool _].
  exact Hbool.
Defined.

(** ** Children by index *)

(** X3. [atIndex], [getIndex] and [hasChildAtIndex] agree on the bounds: for
    an index inside [0, size) they give the child at that place, null or
    not; outside, [atIndex] throws, [getIndex] gives the null pointer and
    [hasChildAtIndex] is false.  The vector is never read out of range.
    [valueAtIndex] with a default gives the default only outside the
    bounds: a null child inside them is read like any other. *)
Theorem index_bounds {T : Type} `{Cast string T}
    (h : heap) (self : ptr) (childIndex : Z) (def : T) :
  (0 <= childIndex < Node.size h self ->
     exists child,
       m_children (deref h self) !! Z.to_nat childIndex = Some child
       /\ Node.atIndex h self childIndex = Ok child
       /\ Node.getIndex h self childIndex = Some child
       /\ Node.hasChildAtIndex h self childIndex = true
       /\ Node.valueAtIndex_def h self childIndex def = Node.value h child
       /\ Node.valueAtIndex (T := T) h self childIndex = Node.value h child)
  /\ (childIndex < 0 \/ Node.size h self <= childIndex ->
        Node.atIndex h self childIndex
        = Throw (OTMLException_node (Node.source h self)
                   ("child node with index '" ++ Str.of_Z childIndex ++ "' not found"))
        /\ Node.getIndex h self childIndex = None
        /\ Node.hasChildAtIndex h self childIndex = false
        /\ Node.valueAtIndex_def h self childIndex def = Ok def
        /\ Node.valueAtIndex (T := T) h self childIndex
           = Throw (OTMLException_node (Node.source h self)
                      ("child node with index '" ++ Str.of_Z childIndex ++ "' not found")))
  /\ Node.atIndex h self childIndex <> Undefined OutOfRange.
Proof.
  assert (Hin : 0 <= childIndex < Node.size h self ->
                exists child, m_children (deref h self) !! Z.to_nat childIndex = Some child).
  { intros Hi. apply lookup_lt_is_Some_2. unfold Node.size in Hi. lia. }
  split_and!.
  - intros Hi. destruct (Hin Hi) as [child Hchild]. exists child.
    unfold Node.valueAtIndex_def, Node.valueAtIndex, Node.hasChildAtIndex,
      Node.getIndex, Node.atIndex.
    destruct (Z.ltb_spec childIndex (Node.size h self)) as [_|?]; [|lia].
    destruct (Z.leb_spec 0 childIndex) as [_|?]; [|lia].
    destruct (Z.leb_spec (Node.size h self) childIndex) as [?|_]; [lia|].
    destruct (Z.ltb_spec childIndex 0) as [?|_]; [lia|].
    cbn [andb orb]. rewrite Hchild. split_and!; reflexivity.
  - intros Hi.
    unfold Node.valueAtIndex_def, Node.valueAtIndex, Node.hasChildAtIndex,
      Node.getIndex, Node.atIndex.
    destruct Hi as [Hi|Hi].
    + destruct (Z.ltb_spec childIndex 0) as [_|?]; [|lia].
      destruct (Z.leb_spec 0 childIndex) as [?|_]; [lia|].
      rewrite andb_false_r, orb_true_r. split_and!; reflexivity.
    + destruct (Z.leb_spec (Node.size h self) childIndex) as [_|?]; [|lia].
      destruct (Z.ltb_spec childIndex (Node.size h self)) as [?|_]; [lia|].
      cbn [andb orb]. split_and!; reflexivity.
  - unfold Node.atIndex.
    destruct (Z.leb_spec (Node.size h self) childIndex) as [?|Hlt]; [discriminate|].
    destruct (Z.ltb_spec childIndex 0) as [?|Hge]; [discriminate|].
    cbn [orb]. destruct (Hin ltac:(lia)) as [child ->]. discriminate.
Qed.

Lemma index_bounds_witness :
  Node.valueAtIndex_def null_child_heap 0%nat 1 "fallback" = Ok ""
  /\ Node.valueAt_def null_child_heap 0%nat "b" "fallback" = Ok "fallback"
  /\ Node.valueAtIndex_def null_child_heap 0%nat 3 "fallback" = Ok "fallback".
Proof.
  split_and!.
  - destruct (proj1 (index_bounds null_child_heap 0%nat 1 "fallback")
                ltac:(vm_compute; split; [discriminate|reflexivity]))
      as (child & Hchild & _ & _ & _ & Hvalue & _).
    rewrite Hvalue. vm_compute in Hchild. injection Hchild as <-. vm_compute. reflexivity.
  - vm_compute. reflexivity.
  - apply (proj1 (proj2 (index_bounds null_child_heap 0%nat 3 "fallback"))).
    right. vm_compute. discriminate.
Defined.

(** ** Children that are not null *)

Lemma hasChildren_count (h : heap) (l : list ptr) (count : Z) :
  foldl (fun count child => if negb (Node.isNull h child) then count + 1 else count) count l
  = count + Z.of_nat (length (List.filter (fun child => negb (Node.isNull h child)) l)).
Proof.
  revert count. induction l as [|c l IH]; intros count; cbn [foldl List.filter].
  - cbn [length]. lia.
  - rewrite IH. destruct (negb (Node.isNull h c)); cbn [length]; lia.
Qed.

Lemma get_loop_some (h : heap) (childTag : string) (children : list ptr) (c : ptr) :
  Node.get_loop h childTag children = Some c ->
  c ∈ children /\ Node.tag h c = childTag /\ Node.isNull h c = false.
Proof.
  induction children as [|x rest IH]; cbn [Node.get_loop]; [discriminate|].
  destruct (String.eqb_spec (Node.tag h x) childTag) as [Htag|_]; cbn [andb].
  - destruct (Node.isNull h x) eqn:Hnull; cbn [negb].
    + intros Hc. destruct (IH Hc) as (Hin & Hrest). split; [right; exact Hin|exact Hrest].
    + intros [= <-]. split_and!; [left|exact Htag|exact Hnull].
  - intros Hc. destruct (IH Hc) as (Hin & Hrest). split; [right; exact Hin|exact Hrest].
Qed.

(** X4. [hasChildren], [children], [hasChildAt], [get] and [at] all leave the
    null children out, while [size] counts them: [hasChildren] tells
    whether [children()] is non-empty, which has at most [size] nodes, all
    of them children that are not null; [hasChildAt] tells whether one of
    them has the tag, and then [at] returns a node instead of throwing. *)
Theorem null_children_hidden (h : heap) (self : ptr) (childTag : string) :
  Node.hasChildren h self
  = match Node.children h self with [] => false | _ :: _ => true end
  /\ Z.of_nat (length (Node.children h self)) <= Node.size h self
  /\ (forall c, c ∈ Node.children h self
                <-> c ∈ m_children (deref h self) /\ Node.isNull h c = false)
  /\ (Node.hasChildAt h self childTag = true
      <-> exists c, c ∈ Node.children h self /\ Node.tag h c = childTag)
  /\ (Node.hasChildAt h self childTag = true
      <-> exists c, Node.at_ h self childTag = Ok c)
  /\ (Node.hasChildAt h self childTag = false
      <-> Node.at_ h self childTag
          = Throw (OTMLException_node (Node.source h self)
                     ("child node with tag '" ++ childTag ++ "' not found"))).
Proof.
  assert (Hin : forall c, c ∈ Node.children h self
                          <-> c ∈ m_children (deref h self) /\ Node.isNull h c = false).
  { intros c. unfold Node.children. rewrite list_elem_of_In, List.filter_In.
    rewrite <- list_elem_of_In, negb_true_iff. reflexivity. }
  split_and!.
  - unfold Node.hasChildren. rewrite hasChildren_count. fold (Node.children h self).
    destruct (Node.children h self); cbn [length]; [reflexivity|].
    apply Z.ltb_lt. lia.
  - unfold Node.children, Node.size.
    pose proof (List.filter_length_le (fun child => negb (Node.isNull h child))
                  (m_children (deref h self))). lia.
  - exact Hin.
  - unfold Node.hasChildAt, Node.get. split.
    + destruct (Node.get_loop h childTag (m_children (deref h self))) as [c|] eqn:Hget;
        [|discriminate].
      intros _. apply get_loop_some in Hget as (Hc & Htag & Hnull).
      exists c. split; [apply Hin; split; assumption|exact Htag].
    + intros (c & Hc & Htag). apply Hin in Hc as [Hc Hnull].
      destruct (Node.get_loop h childTag (m_children (deref h self))) eqn:Hget; [reflexivity|].
      exfalso. apply list_elem_of_split in Hc as (pre & post & Hsplit).
      revert Hget. rewrite Hsplit. clear Hsplit.
      induction pre as [|x pre IH]; cbn [app Node.get_loop].
      * rewrite Htag, String.eqb_refl, Hnull. discriminate.
      * destruct (String.eqb (Node.tag h x) childTag && negb (Node.isNull h x));
          [discriminate|exact IH].
  - unfold Node.hasChildAt, Node.get, Node.at_.
    destruct (Node.get_loop h childTag (m_children (deref h self))) as [c|].
    + split; [intros _; exists c; reflexivity|reflexivity].
    + split; [discriminate|intros [c Hc]; discriminate].
  - unfold Node.hasChildAt, Node.get, Node.at_.
    destruct (Node.get_loop h childTag (m_children (deref h self))) as [c|].
    + split; discriminate.
    + split; reflexivity.
Qed.

(** ** Removing, replacing and clearing children *)

Lemma heap_ext (h h' : heap) :
  length h' = length h -> (forall q, (q < length h)%nat -> deref h' q = deref h q) -> h' = h.
Proof.
  intros Hlen Hsame. apply list_eq. intros q.
  destruct (decide (q < length h)%nat) as [Hq|Hq].
  - destruct (lookup_lt_is_Some_2 h q Hq) as [x Hx].
    destruct (lookup_lt_is_Some_2 h' q ltac:(lia)) as [x' Hx'].
    pose proof (Hsame q Hq) as Heq. unfold deref in Heq.
    rewrite (list_lookup_total_correct _ _ _ Hx), (list_lookup_total_correct _ _ _ Hx') in Heq.
    congruence.
  - rewrite !lookup_ge_None_2 by lia. reflexivity.
Qed.

Lemma node_ext (n n' : OTMLNode) :
  m_children n' = m_children n -> m_parent n' = m_parent n ->
  Node.setParent None (Node.setChildren [] n') = Node.setParent None (Node.setChildren [] n) ->
  n' = n.
Proof.
  destruct n as [cs p t v s u z], n' as [cs' p' t' v' s' u' z'].
  unfold Node.setParent, Node.setChildren.
  cbn [m_children m_parent m_tag m_value m_source m_unique m_null].
  intros -> -> [= -> -> -> -> ->]. reflexivity.
Qed.

Lemma std_find_none (x : ptr) (l : list ptr) : x ∉ l -> Node.std_find x l = None.
Proof.
  induction l as [|y l IH]; intros Hx; cbn [Node.std_find]; [reflexivity|].
  destruct (Nat.eqb_spec y x) as [->|_]; [exfalso; apply Hx; left|].
  rewrite IH; [reflexivity|]. intros Hin. apply Hx. right. exact Hin.
Qed.

Lemma delete_middle (x : ptr) (pre post : list ptr) :
  delete (length pre) (pre ++ x :: post)%list = (pre ++ post)%list.
Proof. induction pre as [|y pre IH]; [reflexivity|]. cbn. f_equal. exact IH. Qed.

(** The children and the parent of every node after [removeChild] has
    found [oldChild] behind [pre]; everything else is as before. *)
Lemma removeChild_found (h : heap) (self oldChild : ptr) (pre post : list ptr) :
  (self < length h)%nat -> (oldChild < length h)%nat ->
  m_children (deref h self) = (pre ++ oldChild :: post)%list ->
  oldChild ∉ pre ->
  exists h',
    Node.removeChild h self oldChild = (h', true)
    /\ length h' = length h
    /\ (forall q, m_children (deref h' q)
                  = if decide (q = self) then (pre ++ post)%list else m_children (deref h q))
    /\ (forall q, m_parent (deref h' q)
                  = if decide (q = oldChild) then None else m_parent (deref h q))
    /\ (forall q, Node.setParent None (Node.setChildren [] (deref h' q))
                  = Node.setParent None (Node.setChildren [] (deref h q))).
Proof.
  intros Hself Hold Hcs Hpre. unfold Node.removeChild.
  rewrite Hcs, (std_find_first oldChild pre post Hpre).
  eexists. split; [reflexivity|]. split_and!.
  - rewrite !length_update. reflexivity.
  - intros q. rewrite (deref_update_field m_children) by reflexivity.
    destruct (decide (q = self)) as [->|Hq].
    + rewrite deref_update_eq by exact Hself. cbn [Node.setChildren m_children].
      rewrite Hcs. apply delete_middle.
    + rewrite deref_update_ne by congruence. reflexivity.
  - intros q. destruct (decide (q = oldChild)) as [->|Hq].
    + rewrite deref_update_eq by (rewrite length_update; exact Hold). reflexivity.
    + rewrite deref_update_ne by congruence.
      rewrite (deref_update_field m_parent) by reflexivity. reflexivity.
  - intros q.
    rewrite (deref_update_field (fun n => Node.setParent None (Node.setChildren [] n)))
      by reflexivity.
    rewrite (deref_update_field (fun n => Node.setParent None (Node.setChildren [] n)))
      by reflexivity.
    reflexivity.
Qed.

(** X5. [removeChild] takes out the first occurrence of [oldChild] and clears
    its parent reference, returning true; when the node is not a child it
    returns false and changes nothing.  No other node is touched, and no
    field but the child list and that parent reference. *)
Theorem removeChild_spec (h : heap) (self oldChild : ptr)
    (Hself : (self < length h)%nat) (Hold : (oldChild < length h)%nat) :
  (oldChild ∉ m_children (deref h self) -> Node.removeChild h self oldChild = (h, false))
  /\ (forall pre post,
        m_children (deref h self) = (pre ++ oldChild :: post)%list ->
        oldChild ∉ pre ->
        exists h',
          Node.removeChild h self oldChild = (h', true)
          /\ m_children (deref h' self) = (pre ++ post)%list
          /\ Node.size h' self = Node.size h self - 1
          /\ Node.parent h' oldChild = None
          /\ (forall q, q <> self -> q <> oldChild -> deref h' q = deref h q)
          /\ (forall q, Node.setParent None (Node.setChildren [] (deref h' q))
                        = Node.setParent None (Node.setChildren [] (deref h q)))).
Proof.
  split.
  - intros Hnot. unfold Node.removeChild. rewrite (std_find_none _ _ Hnot). reflexivity.
  - intros pre post Hcs Hpre.
    destruct (removeChild_found h self oldChild pre post Hself Hold Hcs Hpre)
      as (h' & Heq & Hlen & Hchildren & Hparent & Hrest).
    exists h'. split_and!.
    + exact Heq.
    + rewrite Hchildren. destruct (decide (self = self)); [reflexivity|contradiction].
    + unfold Node.size. rewrite Hchildren, Hcs.
      destruct (decide (self = self)); [|contradiction].
      rewrite !length_app. cbn [length]. lia.
    + unfold Node.parent. rewrite Hparent.
      destruct (decide (oldChild = oldChild)); [reflexivity|contradiction].
    + intros q Hq1 Hq2.
      pose proof (Hchildren q) as Hc. pose proof (Hparent q) as Hp. pose proof (Hrest q) as Hr.
      destruct (decide (q = self)); [contradiction|].
      destruct (decide (q = oldChild)); [contradiction|].
      apply node_ext; assumption.
    + exact Hrest.
Qed.

Lemma removeChild_spec_witness :
  exists h',
    Node.removeChild null_child_heap 0%nat 2%nat = (h', true)
    /\ m_children (deref h' 0%nat) = [1; 3]%nat
    /\ Node.parent h' 2%nat = None.
Proof.
  destruct (proj2 (removeChild_spec null_child_heap 0%nat 2%nat
                     ltac:(vm_compute; lia) ltac:(vm_compute; lia))
              [1%nat] [3%nat] ltac:(vm_compute; reflexivity)
              ltac:(intros Hin; apply list_elem_of_singleton in Hin; discriminate))
    as (h' & Heq & Hchildren & _ & Hparent & _).
  exists h'. split_and!; assumption.
Defined.

(** The children and the parent of every node after [replaceChild] has
    found [oldChild] behind [pre]. *)
Lemma replaceChild_found (h : heap) (self oldChild newChild : ptr) (pre post : list ptr) :
  (self < length h)%nat -> (oldChild < length h)%nat -> (newChild < length h)%nat ->
  m_children (deref h self) = (pre ++ oldChild :: post)%list ->
  oldChild ∉ pre ->
  exists h',
    Node.replaceChild h self oldChild newChild = (h', true)
    /\ length h' = length h
    /\ (forall q, m_children (deref h' q)
                  = if decide (q = self) then (pre ++ newChild :: post)%list
                    else m_children (deref h q))
    /\ (forall q, m_parent (deref h' q)
                  = if decide (q = newChild) then Some self
                    else if decide (q = oldChild) then None
                    else m_parent (deref h q))
    /\ (forall q, Node.setParent None (Node.setChildren [] (deref h' q))
                  = Node.setParent None (Node.setChildren [] (deref h q))).
Proof.
  intros Hself Hold Hnew Hcs Hpre. unfold Node.replaceChild.
  rewrite Hcs, (std_find_first oldChild pre post Hpre).
  eexists. split; [reflexivity|]. split_and!.
  - rewrite !length_update. reflexivity.
  - intros q. destruct (decide (q = self)) as [->|Hq].
    + rewrite deref_update_eq by (rewrite !length_update; exact Hself).
      cbn [Node.setChildren m_children].
      rewrite !(deref_update_field m_children) by reflexivity.
      rewrite Hcs, take_app_length, drop_after. reflexivity.
    + rewrite deref_update_ne by congruence.
      rewrite !(deref_update_field m_children) by reflexivity. reflexivity.
  - intros q. rewrite (deref_update_field m_parent) by reflexivity.
    destruct (decide (q = newChild)) as [->|Hq1].
    + rewrite deref_update_eq by (rewrite length_update; exact Hnew). reflexivity.
    + rewrite deref_update_ne by congruence.
      destruct (decide (q = oldChild)) as [->|Hq2].
      * rewrite deref_update_eq by exact Hold. reflexivity.
      * rewrite deref_update_ne by congruence. reflexivity.
  - intros q.
    rewrite !(deref_update_field (fun n => Node.setParent None (Node.setChildren [] n)))
      by reflexivity.
    reflexivity.
Qed.

(** X6. [replaceChild] puts [newChild] in the place of the first occurrence
    of [oldChild], so the number and the order of the other children are
    kept; [oldChild] loses its parent reference and [newChild] gets the
    node as parent.  When [oldChild] is not a child, the call returns
    false and changes nothing. *)
Theorem replaceChild_spec (h : heap) (self oldChild newChild : ptr)
    (Hself : (self < length h)%nat) (Hold : (oldChild < length h)%nat)
    (Hnew : (newChild < length h)%nat) :
  (oldChild ∉ m_children (deref h self) ->
     Node.replaceChild h self oldChild newChild = (h, false))
  /\ (forall pre post,
        m_children (deref h self) = (pre ++ oldChild :: post)%list ->
        oldChild ∉ pre ->
        exists h',
          Node.replaceChild h self oldChild newChild = (h', true)
          /\ m_children (deref h' self) = (pre ++ newChild :: post)%list
          /\ Node.getIndex h' self (Z.of_nat (length pre)) = Some newChild
          /\ Node.size h' self = Node.size h self
          /\ Node.parent h' newChild = Some self
          /\ (oldChild <> newChild -> Node.parent h' oldChild = None)
          /\ (forall q, q <> self -> q <> oldChild -> q <> newChild -> deref h' q = deref h q)
          /\ (forall q, Node.setParent None (Node.setChildren [] (deref h' q))
                        = Node.setParent None (Node.setChildren [] (deref h q)))).
Proof.
  split.
  - intros Hnot. unfold Node.replaceChild. rewrite (std_find_none _ _ Hnot). reflexivity.
  - intros pre post Hcs Hpre.
    destruct (replaceChild_found h self oldChild newChild pre post Hself Hold Hnew Hcs Hpre)
      as (h' & Heq & Hlen & Hchildren & Hparent & Hrest).
    assert (Hcs' : m_children (deref h' self) = (pre ++ newChild :: post)%list).
    { rewrite Hchildren. destruct (decide (self = self)); [reflexivity|contradiction]. }
    assert (Hsize : Node.size h' self = Node.size h self).
    { unfold Node.size. rewrite Hcs', Hcs, !length_app. reflexivity. }
    exists h'. split_and!.
    + exact Heq.
    + exact Hcs'.
    + unfold Node.getIndex. rewrite Hsize. unfold Node.size. rewrite Hcs, length_app.
      cbn [length].
      destruct (Z.ltb_spec (Z.of_nat (length pre)) (Z.of_nat (length pre + S (length post))))
        as [_|?]; [|lia].
      destruct (Z.leb_spec 0 (Z.of_nat (length pre))) as [_|?]; [|lia].
      cbn [andb]. rewrite Hcs', Nat2Z.id, lookup_app_r by lia.
      rewrite Nat.sub_diag. reflexivity.
    + exact Hsize.
    + unfold Node.parent. rewrite Hparent.
      destruct (decide (newChild = newChild)); [reflexivity|contradiction].
    + intros Hne. unfold Node.parent. rewrite Hparent.
      destruct (decide (oldChild = newChild)); [contradiction|].
      destruct (decide (oldChild = oldChild)); [reflexivity|contradiction].
    + intros q Hq1 Hq2 Hq3.
      pose proof (Hchildren q) as Hc. pose proof (Hparent q) as Hp.
      destruct (decide (q = self)); [contradiction|].
      destruct (decide (q = newChild)); [contradiction|].
      destruct (decide (q = oldChild)); [contradiction|].
      apply node_ext; [assumption|assumption|apply Hrest].
    + exact Hrest.
Qed.

Lemma replaceChild_spec_witness :
  exists h',
    Node.replaceChild null_child_heap 0%nat 2%nat 4%nat = (h', true)
    /\ m_children (deref h' 0%nat) = [1; 4; 3]%nat
    /\ Node.parent h' 4%nat = Some 0%nat
    /\ Node.parent h' 2%nat = None.
Proof.
  destruct (proj2 (replaceChild_spec null_child_heap 0%nat 2%nat 4%nat
                     ltac:(vm_compute; lia) ltac:(vm_compute; lia) ltac:(vm_compute; lia))
              [1%nat] [3%nat] ltac:(vm_compute; reflexivity)
              ltac:(intros Hin; apply list_elem_of_singleton in Hin; discriminate))
    as (h' & Heq & Hchildren & _ & _ & Hnew & Hold & _).
  exists h'. split_and!; [assumption|assumption|assumption|apply Hold; discriminate].
Defined.

(** The loop of [clear] over the children. *)
Lemma clear_loop (l : list ptr) :
  forall h : heap,
    (forall c, c ∈ l -> (c < length h)%nat) ->
    let h' := foldl (fun h child => update h child (Node.setParent None)) h l in
    length h' = length h
    /\ (forall q, m_parent (deref h' q)
                  = if decide (q ∈ l) then None else m_parent (deref h q))
    /\ (forall q, Node.setParent None (deref h' q) = Node.setParent None (deref h q)).
Proof.
  induction l as [|c l IH]; intros h Hvalid; cbn [foldl].
  - split_and!; [reflexivity| |reflexivity].
    intros q. destruct (decide (q ∈ [])) as [Hin|_]; [inversion Hin|reflexivity].
  - destruct (IH (update h c (Node.setParent None))) as (Hlen & Hparent & Hrest).
    { intros x Hx. rewrite length_update. apply Hvalid. right. exact Hx. }
    cbv zeta in Hlen, Hparent, Hrest. cbv zeta. split_and!.
    + rewrite Hlen. apply length_update.
    + intros q. rewrite Hparent.
      destruct (decide (q ∈ l)) as [Hin|Hnot].
      * destruct (decide (q ∈ c :: l)) as [_|Hno]; [reflexivity|].
        exfalso. apply Hno. right. exact Hin.
      * destruct (decide (q = c)) as [->|Hq].
        -- rewrite deref_update_eq by (apply Hvalid; left).
           destruct (decide (c ∈ c :: l)) as [_|Hno]; [reflexivity|].
           exfalso. apply Hno. left.
        -- rewrite deref_update_ne by congruence.
           destruct (decide (q ∈ c :: l)) as [Hin|_]; [|reflexivity].
           apply elem_of_cons in Hin as [?|?]; contradiction.
    + intros q. rewrite Hrest.
      apply (deref_update_field (Node.setParent None)). reflexivity.
Qed.

Lemma clear_found (h : heap) (self : ptr) :
  (self < length h)%nat ->
  (forall c, c ∈ m_children (deref h self) -> (c < length h)%nat) ->
  let h' := Node.clear h self in
  length h' = length h
  /\ (forall q, m_children (deref h' q)
                = if decide (q = self) then [] else m_children (deref h q))
  /\ (forall q, m_parent (deref h' q)
                = if decide (q ∈ m_children (deref h self)) then None
                  else m_parent (deref h q))
  /\ (forall q, Node.setParent None (Node.setChildren [] (deref h' q))
                = Node.setParent None (Node.setChildren [] (deref h q))).
Proof.
  intros Hself Hvalid h'. unfold h', Node.clear.
  destruct (clear_loop (m_children (deref h self)) h Hvalid) as (Hlen & Hparent & Hrest).
  cbv zeta in Hlen, Hparent, Hrest.
  set (h1 := foldl _ h (m_children (deref h self))) in *.
  split_and!.
  - rewrite length_update. exact Hlen.
  - intros q. destruct (decide (q = self)) as [->|Hq].
    + rewrite deref_update_eq by lia. reflexivity.
    + rewrite deref_update_ne by congruence.
      change (m_children (Node.setParent None (deref h1 q)) = m_children (deref h q)).
      rewrite Hrest. reflexivity.
  - intros q. rewrite (deref_update_field m_parent) by reflexivity. apply Hparent.
  - intros q.
    rewrite (deref_update_field (fun n => Node.setParent None (Node.setChildren [] n)))
      by reflexivity.
    change (Node.setChildren [] (Node.setParent None (deref h1 q))
            = Node.setChildren [] (Node.setParent None (deref h q))).
    rewrite Hrest. reflexivity.
Qed.

(** X7. After [clear] the node has no children: its size is zero,
    [hasChildren] is false and no tag is found; every node that was a
    child has lost its parent reference, and nothing else has changed. *)
Theorem clear_spec (h : heap) (self : ptr) (childTag : string)
    (Hself : (self < length h)%nat)
    (Hvalid : forall c, c ∈ m_children (deref h self) -> (c < length h)%nat) :
  let h' := Node.clear h self in
  m_children (deref h' self) = []
  /\ Node.size h' self = 0
  /\ Node.hasChildren h' self = false
  /\ Node.get h' self childTag = None
  /\ (forall c, c ∈ m_children (deref h self) -> Node.parent h' c = None)
  /\ (forall q, q <> self -> q ∉ m_children (deref h self) -> deref h' q = deref h q)
  /\ (forall q, Node.setParent None (Node.setChildren [] (deref h' q))
                = Node.setParent None (Node.setChildren [] (deref h q))).
Proof.
  intros h'. destruct (clear_found h self Hself Hvalid) as (Hlen & Hchildren & Hparent & Hrest).
  fold h' in Hlen, Hchildren, Hparent, Hrest.
  assert (Hcs : m_children (deref h' self) = []).
  { rewrite Hchildren. destruct (decide (self = self)); [reflexivity|contradiction]. }
  split_and!.
  - exact Hcs.
  - unfold Node.size. rewrite Hcs. reflexivity.
  - unfold Node.hasChildren. rewrite Hcs. reflexivity.
  - unfold Node.get. rewrite Hcs. reflexivity.
  - intros c Hc. unfold Node.parent. rewrite Hparent.
    destruct (decide (c ∈ m_children (deref h self))); [reflexivity|contradiction].
  - intros q Hq Hnot. apply node_ext; [| |apply Hrest].
    + rewrite Hchildren. destruct (decide (q = self)); [contradiction|reflexivity].
    + rewrite Hparent. destruct (decide (q ∈ m_children (deref h self)));
        [contradiction|reflexivity].
  - exact Hrest.
Qed.

Lemma clear_spec_witness :
  m_children (deref (Node.clear null_child_heap 0%nat) 0%nat) = []
  /\ Node.parent (Node.clear null_child_heap 0%nat) 3%nat = None
  /\ m_children (deref (Node.clear null_child_heap 0%nat) 3%nat) = [4%nat].
Proof.
  destruct (clear_spec null_child_heap 0%nat "a" ltac:(vm_compute; lia))
    as (Hcs & _ & _ & _ & Hparent & _).
  { intros c Hc. vm_compute in Hc. elem_cases Hc; vm_compute; lia. }
  split_and!; [exact Hcs| |vm_compute; reflexivity].
  apply Hparent. vm_compute. apply list_elem_of_In. right. right. left. reflexivity.
Defined.

(** ** Parent references and child lists agree *)

(** Every child list is free of repetitions, and a node is in the child
    list of [p] exactly when its parent reference is [p]. *)
Definition linked (h : heap) : Prop :=
  (forall p, (p < length h)%nat -> NoDup (m_children (deref h p)))
  /\ (forall p c,
        ((p < length h)%nat /\ c ∈ m_children (deref h p))
        <-> ((c < length h)%nat /\ m_parent (deref h c) = Some p)).

Lemma linked_child (h : heap) (p c : ptr) :
  linked h -> (p < length h)%nat -> c ∈ m_children (deref h p) ->
  (c < length h)%nat /\ m_parent (deref h c) = Some p.
Proof. intros [_ H] Hp Hc. apply H. split; assumption. Qed.

Lemma linked_detached (h : heap) (p c : ptr) :
  linked h -> (p < length h)%nat -> m_parent (deref h c) = None ->
  c ∉ m_children (deref h p).
Proof.
  intros Hl Hp Hnone Hc. destruct (linked_child h p c Hl Hp Hc) as [_ Hpar]. congruence.
Qed.

(** A heap whose child lists and parent references are given node by
    node is linked as soon as the two descriptions agree. *)
Lemma linked_intro (h' : heap) (children : ptr -> list ptr) (parent : ptr -> option ptr) :
  (forall q, m_children (deref h' q) = children q) ->
  (forall q, m_parent (deref h' q) = parent q) ->
  (forall p, (p < length h')%nat -> NoDup (children p)) ->
  (forall p c, ((p < length h')%nat /\ c ∈ children p)
               <-> ((c < length h')%nat /\ parent c = Some p)) ->
  linked h'.
Proof.
  intros Hc Hp Hnodup Hiff. split.
  - intros p Hlt. rewrite Hc. apply Hnodup. exact Hlt.
  - intros p c. rewrite Hc, Hp. apply Hiff.
Qed.

Lemma addChild_find_cases (h : heap) (newChild : ptr) (l : list ptr) :
  (forall x, x ∈ l -> collides h newChild x = false)
  \/ (exists pre node post,
        l = (pre ++ node :: post)%list
        /\ (forall x, x ∈ pre -> collides h newChild x = false)
        /\ collides h newChild node = true).
Proof.
  induction l as [|x l IH].
  - left. intros x Hx. inversion Hx.
  - destruct (collides h newChild x) eqn:Hx.
    + right. exists [], x, l. split_and!; [reflexivity| |exact Hx].
      intros y Hy. inversion Hy.
    + destruct IH as [Hall|(pre & node & post & -> & Hpre & Hnode)].
      * left. intros y Hy. apply elem_of_cons in Hy as [->|Hy]; [exact Hx|apply Hall; exact Hy].
      * right. exists (x :: pre), node, post. split_and!; [reflexivity| |exact Hnode].
        intros y Hy. apply elem_of_cons in Hy as [->|Hy]; [exact Hx|apply Hpre; exact Hy].
Qed.

(** The parent references after the erasing loop of [addChild]. *)
Lemma addChild_erase_parent (newChild : ptr) (l : list ptr) :
  forall (h : heap) (q : ptr),
    (forall x, x ∈ l -> (x < length h)%nat) ->
    m_parent (deref (fst (Node.addChild_erase h newChild l)) q)
    = if decide (q ∈ l) then (if kept h newChild q then m_parent (deref h q) else None)
      else m_parent (deref h q).
Proof.
  induction l as [|node rest IH]; intros h q Hvalid; cbn [Node.addChild_erase].
  - destruct (decide (q ∈ [])) as [Hin|_]; [inversion Hin|reflexivity].
  - assert (Hrest : forall x, x ∈ rest -> (x < length h)%nat).
    { intros x Hx. apply Hvalid. right. exact Hx. }
    destruct (negb (node =? newChild)%nat && String.eqb (Node.tag h node) (Node.tag h newChild))
      eqn:Herase.
    + (* the node is erased *)
      assert (Hkept : kept h newChild node = false).
      { unfold kept. apply andb_true_iff in Herase as [H1 H2].
        apply negb_true_iff in H1. rewrite H1, H2. reflexivity. }
      set (h1 := update h node (Node.setParent None)).
      rewrite (IH h1 q) by (intros x Hx; unfold h1; rewrite length_update; apply Hrest; exact Hx).
      assert (Hk : kept h1 newChild q = kept h newChild q).
      { unfold kept, Node.tag, h1. rewrite !(deref_update_field m_tag) by reflexivity.
        reflexivity. }
      rewrite Hk.
      destruct (decide (q = node)) as [->|Hq].
      * rewrite Hkept. unfold h1. rewrite deref_update_eq by (apply Hvalid; left).
        cbn [Node.setParent m_parent].
        destruct (decide (node ∈ rest)), (decide (node ∈ node :: rest)) as [_|Hno];
          try reflexivity; exfalso; apply Hno; left.
      * unfold h1. rewrite deref_update_ne by congruence.
        destruct (decide (q ∈ rest)) as [Hin|Hnot], (decide (q ∈ node :: rest)) as [Hin'|Hnot'];
          try reflexivity.
        -- exfalso. apply Hnot'. right. exact Hin.
        -- exfalso. apply elem_of_cons in Hin' as [?|?]; contradiction.
    + (* the node stays *)
      assert (Hkept : kept h newChild node = true).
      { unfold kept. destruct (node =? newChild)%nat; [reflexivity|].
        cbn [negb andb] in Herase. rewrite Herase. reflexivity. }
      pose proof (IH h q Hrest) as Hq.
      destruct (Node.addChild_erase h newChild rest) as [h' rest']. cbn [fst] in *.
      rewrite Hq.
      destruct (decide (q ∈ rest)) as [Hin|Hnot], (decide (q ∈ node :: rest)) as [Hin'|Hnot'];
        try reflexivity.
      * exfalso. apply Hnot'. right. exact Hin.
      * apply elem_of_cons in Hin' as [->|?]; [|contradiction].
        rewrite Hkept. reflexivity.
Qed.

(** The children and the parent of every node after [addChild] has
    appended [newChild]. *)
Lemma addChild_appended (h : heap) (self newChild : ptr) :
  (self < length h)%nat -> (newChild < length h)%nat ->
  Node.hasTag h newChild = false
  \/ (forall x, x ∈ m_children (deref h self) -> collides h newChild x = false) ->
  let h' := Node.addChild h self newChild in
  length h' = length h
  /\ (forall q, m_children (deref h' q)
                = if decide (q = self) then (m_children (deref h self) ++ [newChild])%list
                  else m_children (deref h q))
  /\ (forall q, m_parent (deref h' q)
                = if decide (q = newChild) then Some self else m_parent (deref h q))
  /\ (forall q, Node.setParent None (Node.setChildren [] (deref h' q))
                = Node.setParent None (Node.setChildren [] (deref h q))).
Proof.
  intros Hself Hnew Hcase h'. unfold h'. rewrite (addChild_append_eq h self newChild Hcase).
  split_and!.
  - rewrite !length_update. reflexivity.
  - intros q. rewrite (deref_update_field m_children) by reflexivity.
    destruct (decide (q = self)) as [->|Hq].
    + rewrite deref_update_eq by exact Hself. reflexivity.
    + rewrite deref_update_ne by congruence. reflexivity.
  - intros q. destruct (decide (q = newChild)) as [->|Hq].
    + rewrite deref_update_eq by (rewrite length_update; exact Hnew). reflexivity.
    + rewrite deref_update_ne by congruence.
      rewrite (deref_update_field m_parent) by reflexivity. reflexivity.
  - intros q.
    rewrite !(deref_update_field (fun n => Node.setParent None (Node.setChildren [] n)))
      by reflexivity.
    reflexivity.
Qed.

(** The same after [addChild] has replaced [node] and erased the other
    children that have the tag. *)
Lemma addChild_collapsed (h : heap) (self newChild node : ptr) (pre post : list ptr) :
  (self < length h)%nat -> (newChild < length h)%nat ->
  (forall x, x ∈ m_children (deref h self) -> (x < length h)%nat) ->
  Node.hasTag h newChild = true ->
  m_children (deref h self) = (pre ++ node :: post)%list ->
  (forall x, x ∈ pre -> collides h newChild x = false) ->
  collides h newChild node = true ->
  let h' := Node.addChild h self newChild in
  length h' = length h
  /\ (forall q, m_children (deref h' q)
                = if decide (q = self)
                  then List.filter (kept h newChild) (pre ++ newChild :: post)
                  else m_children (deref h q))
  /\ (forall q, m_parent (deref h' q)
                = if decide (q = newChild) then Some self
                  else if decide (q ∈ m_children (deref h self)) then
                         (if kept h newChild q then m_parent (deref h q) else None)
                  else m_parent (deref h q))
  /\ (forall q, Node.setUnique false (Node.setParent None (Node.setChildren [] (deref h' q)))
                = Node.setUnique false (Node.setParent None (Node.setChildren [] (deref h q))))
  /\ (forall q, m_unique (deref h' q)
                = if decide (q = newChild) then true else m_unique (deref h q)).
Proof.
  intros Hself Hnew Hvalid Htag Hcs Hpre Hnode h'.
  pose proof (addChild_collapse_eq h self newChild node pre post Htag Hcs Hpre Hnode Hself)
    as Heq.
  cbv zeta in Heq. fold h' in Heq.
  set (h1 := update h newChild (Node.setUnique true)) in Heq.
  set (h2 := update (update (update h1 node (Node.setParent None))
                       newChild (Node.setParent (Some self)))
               self (Node.setChildren (pre ++ newChild :: post))) in Heq.
  assert (Hnodev : (node < length h)%nat).
  { apply Hvalid. rewrite Hcs. apply elem_of_app. right. left. }
  assert (Hlen2 : length h2 = length h).
  { unfold h2, h1. rewrite !length_update. reflexivity. }
  assert (Hvalid2 : forall x, x ∈ (pre ++ newChild :: post)%list -> (x < length h2)%nat).
  { intros x Hx. rewrite Hlen2. apply elem_of_app in Hx as [Hx|Hx].
    - apply Hvalid. rewrite Hcs. apply elem_of_app. left. exact Hx.
    - apply elem_of_cons in Hx as [->|Hx]; [exact Hnew|].
      apply Hvalid. rewrite Hcs. apply elem_of_app. right. right. exact Hx. }
  destruct (addChild_erase_spec newChild (pre ++ newChild :: post) h2)
    as (_ & [Hlen3 Hpo] & Hd).
  pose proof (fun q => addChild_erase_parent newChild (pre ++ newChild :: post) h2 q Hvalid2)
    as Hpar3.
  set (h3 := fst (Node.addChild_erase h2 newChild (pre ++ newChild :: post))) in *.
  assert (Hkept2 : forall q, kept h2 newChild q = kept h newChild q).
  { intros q. unfold kept, Node.tag, h2, h1.
    rewrite !(deref_update_field m_tag) by reflexivity. reflexivity. }
  assert (Hpar2 : forall q, m_parent (deref h2 q)
                            = if decide (q = newChild) then Some self
                              else if decide (q = node) then None
                              else m_parent (deref h q)).
  { intros q. unfold h2. rewrite (deref_update_field m_parent) by reflexivity.
    destruct (decide (q = newChild)) as [->|Hq1].
    - rewrite deref_update_eq; [reflexivity|]. unfold h1. rewrite !length_update. exact Hnew.
    - rewrite deref_update_ne by congruence.
      destruct (decide (q = node)) as [->|Hq2].
      + rewrite deref_update_eq; [reflexivity|]. unfold h1. rewrite length_update. exact Hnodev.
      + rewrite deref_update_ne by congruence. unfold h1.
        rewrite (deref_update_field m_parent) by reflexivity. reflexivity. }
  assert (Hknode : forall q, q <> newChild -> q = node -> kept h newChild q = false).
  { intros q Hq ->. unfold kept. destruct (Nat.eqb_spec node newChild); [contradiction|].
    unfold collides in Hnode. apply andb_true_iff in Hnode as [-> _]. reflexivity. }
  split_and!.
  - rewrite Heq, length_update, Hlen3. exact Hlen2.
  - intros q. rewrite Heq. destruct (decide (q = self)) as [->|Hq].
    + rewrite deref_update_eq by lia. reflexivity.
    + rewrite deref_update_ne by congruence.
      change (m_children (deref h3 q)) with (m_children (Node.setParent None (deref h3 q))).
      rewrite Hpo. cbn [Node.setParent m_children]. unfold h2.
      rewrite deref_update_ne by congruence. unfold h1.
      rewrite !(deref_update_field m_children) by reflexivity. reflexivity.
  - intros q. rewrite Heq, (deref_update_field m_parent) by reflexivity.
    rewrite Hpar3, Hkept2, Hpar2, Hcs.
    destruct (decide (q = newChild)) as [->|Hq1].
    + unfold kept. rewrite Nat.eqb_refl. cbn [orb].
      destruct (decide (newChild ∈ (pre ++ newChild :: post)%list)); reflexivity.
    + destruct (decide (q = node)) as [Hq2|Hq2].
      * rewrite (Hknode q Hq1 Hq2).
        destruct (decide (q ∈ (pre ++ newChild :: post)%list)),
                 (decide (q ∈ (pre ++ node :: post)%list)) as [_|Hno]; try reflexivity;
          exfalso; apply Hno; rewrite Hq2; apply elem_of_app; right; left.
      * destruct (decide (q ∈ (pre ++ newChild :: post)%list)) as [Hin|Hnot],
                 (decide (q ∈ (pre ++ node :: post)%list)) as [Hin'|Hnot']; try reflexivity.
        -- exfalso. apply Hnot'. apply elem_of_app in Hin as [Hin|Hin].
           ++ apply elem_of_app. left. exact Hin.
           ++ apply elem_of_cons in Hin as [?|Hin]; [contradiction|].
              apply elem_of_app. right. right. exact Hin.
        -- exfalso. apply Hnot. apply elem_of_app in Hin' as [Hin'|Hin'].
           ++ apply elem_of_app. left. exact Hin'.
           ++ apply elem_of_cons in Hin' as [?|Hin']; [contradiction|].
              apply elem_of_app. right. right. exact Hin'.
  - intros q. rewrite Heq.
    rewrite (deref_update_field
               (fun n => Node.setUnique false (Node.setParent None (Node.setChildren [] n))))
      by reflexivity.
    change (Node.setUnique false (Node.setChildren [] (Node.setParent None (deref h3 q)))
            = Node.setUnique false (Node.setParent None (Node.setChildren [] (deref h q)))).
    rewrite Hpo. unfold h2, h1.
    change (Node.setUnique false (Node.setChildren [] (Node.setParent None ?n)))
      with (Node.setUnique false (Node.setParent None (Node.setChildren [] n))).
    rewrite !(deref_update_field
                (fun n => Node.setUnique false (Node.setParent None (Node.setChildren [] n))))
      by reflexivity.
    reflexivity.
  - intros q. rewrite Heq, (deref_update_field m_unique) by reflexivity.
    change (m_unique (deref h3 q)) with (m_unique (Node.setParent None (deref h3 q))).
    rewrite Hpo. cbn [Node.setParent m_unique]. unfold h2.
    rewrite !(deref_update_field m_unique) by reflexivity. unfold h1.
    destruct (decide (q = newChild)) as [->|Hq].
    + rewrite deref_update_eq by exact Hnew. reflexivity.
    + rewrite deref_update_ne by congruence. reflexivity.
Qed.

Lemma linked_same (h h' : heap) :
  length h' = length h ->
  (forall q, m_children (deref h' q) = m_children (deref h q)) ->
  (forall q, m_parent (deref h' q) = m_parent (deref h q)) ->
  linked h -> linked h'.
Proof.
  intros Hlen Hc Hp [Hnodup Hiff]. split.
  - intros p Hlt. rewrite Hc. apply Hnodup. lia.
  - intros p c. rewrite Hc, Hp, Hlen. apply Hiff.
Qed.

Lemma linked_alloc (h : heap) (n : OTMLNode) :
  m_children n = [] -> m_parent n = None -> linked h -> linked (h ++ [n]).
Proof.
  intros Hcs Hpar [Hnodup Hiff].
  assert (Hd : forall q, deref (h ++ [n]) q = if decide (q < length h)%nat then deref h q
                                              else if decide (q = length h) then n
                                              else OTMLNode_new).
  { intros q. destruct (decide (q < length h)%nat) as [Hq|Hq].
    - apply deref_app_l. exact Hq.
    - destruct (decide (q = length h)) as [->|Hne]; [apply deref_app_last|].
      unfold deref. rewrite list_lookup_total_alt, lookup_ge_None_2; [reflexivity|].
      rewrite length_app. cbn [length]. lia. }
  assert (Hlen : length (h ++ [n]) = S (length h)) by (rewrite length_app; cbn [length]; lia).
  split.
  - intros p _. rewrite Hd.
    destruct (decide (p < length h)%nat) as [Hp|_]; [apply Hnodup; exact Hp|].
    destruct (decide (p = length h)); [rewrite Hcs|]; constructor.
  - intros p c. rewrite !Hd, Hlen. split.
    + intros [Hp Hc]. destruct (decide (p < length h)%nat) as [Hp'|_].
      * destruct (proj1 (Hiff p c) (conj Hp' Hc)) as [Hc' Hpar'].
        destruct (decide (c < length h)%nat); [|contradiction]. split; [lia|exact Hpar'].
      * destruct (decide (p = length h)); [rewrite Hcs in Hc|]; inversion Hc.
    + intros [Hc Hp]. destruct (decide (c < length h)%nat) as [Hc'|_].
      * destruct (proj2 (Hiff p c) (conj Hc' Hp)) as [Hp' Hin].
        destruct (decide (p < length h)%nat); [|contradiction]. split; [lia|exact Hin].
      * destruct (decide (c = length h)); [rewrite Hpar in Hp|]; discriminate.
Qed.

Lemma NoDup_swap_middle (x y : ptr) (pre post : list ptr) :
  NoDup (pre ++ x :: post) -> y ∉ (pre ++ x :: post)%list -> NoDup (pre ++ y :: post).
Proof.
  intros Hnd Hy. apply NoDup_app in Hnd as (Hpre & Hdisj & Hpost).
  apply NoDup_cons in Hpost as [Hx Hpost].
  apply NoDup_app. split_and!.
  - exact Hpre.
  - intros z Hz Hin. apply elem_of_cons in Hin as [->|Hin].
    + apply Hy. apply elem_of_app. left. exact Hz.
    + apply (Hdisj z Hz). right. exact Hin.
  - apply NoDup_cons. split; [|exact Hpost].
    intros Hin. apply Hy. apply elem_of_app. right. right. exact Hin.
Qed.

Lemma elem_of_middle (x y z : ptr) (pre post : list ptr) :
  z ∈ (pre ++ x :: post)%list -> z <> x -> z ∈ (pre ++ y :: post)%list.
Proof.
  intros Hz Hne. apply elem_of_app in Hz as [Hz|Hz].
  - apply elem_of_app. left. exact Hz.
  - apply elem_of_cons in Hz as [?|Hz]; [contradiction|].
    apply elem_of_app. right. right. exact Hz.
Qed.

Lemma elem_of_without (x z : ptr) (pre post : list ptr) :
  z ∈ (pre ++ x :: post)%list -> z <> x -> z ∈ (pre ++ post)%list.
Proof.
  intros Hz Hne. apply elem_of_app in Hz as [Hz|Hz].
  - apply elem_of_app. left. exact Hz.
  - apply elem_of_cons in Hz as [?|Hz]; [contradiction|].
    apply elem_of_app. right. exact Hz.
Qed.

Lemma elem_of_with (x z : ptr) (pre post : list ptr) :
  z ∈ (pre ++ post)%list -> z ∈ (pre ++ x :: post)%list.
Proof.
  intros Hz. apply elem_of_app in Hz as [Hz|Hz]; apply elem_of_app;
    [left|right; right]; exact Hz.
Qed.

Lemma linked_addChild (h : heap) (self newChild : ptr) :
  linked h -> (self < length h)%nat -> (newChild < length h)%nat ->
  m_parent (deref h newChild) = None ->
  linked (Node.addChild h self newChild).
Proof.
  intros Hl Hself Hnew Hdet. pose proof Hl as [Hnodup Hiff].
  assert (Hfresh : forall p, (p < length h)%nat -> newChild ∉ m_children (deref h p)).
  { intros p Hp. apply linked_detached; assumption. }
  assert (Hvalid : forall x, x ∈ m_children (deref h self) -> (x < length h)%nat).
  { intros x Hx. apply (linked_child h self x Hl Hself Hx). }
  assert (Hcases : Node.hasTag h newChild = false
                   \/ (forall x, x ∈ m_children (deref h self) -> collides h newChild x = false)
                   \/ (Node.hasTag h newChild = true
                       /\ exists pre node post,
                            m_children (deref h self) = (pre ++ node :: post)%list
                            /\ (forall x, x ∈ pre -> collides h newChild x = false)
                            /\ collides h newChild node = true)).
  { destruct (Node.hasTag h newChild); [|left; reflexivity]. right.
    destruct (addChild_find_cases h newChild (m_children (deref h self))) as [?|?];
      [left; assumption|right; split; [reflexivity|assumption]]. }
  assert (Happend : Node.hasTag h newChild = false
                    \/ (forall x, x ∈ m_children (deref h self) -> collides h newChild x = false)
                    -> linked (Node.addChild h self newChild)).
  { intros Hcase.
    destruct (addChild_appended h self newChild Hself Hnew Hcase) as (Hlen & Hc & Hp & _).
    eapply linked_intro; [exact Hc|exact Hp| |].
    - intros p Hlt. cbv beta. rewrite Hlen in Hlt. destruct (decide (p = self)) as [->|_].
      + apply NoDup_app. split_and!; [apply Hnodup; exact Hself| |apply NoDup_singleton].
        intros x Hx Hin. apply list_elem_of_singleton in Hin as ->.
        apply (Hfresh self Hself Hx).
      + apply Hnodup. exact Hlt.
    - intros p c. cbv beta. rewrite Hlen. split.
      + intros [Hlt Hin]. destruct (decide (p = self)) as [->|Hne].
        * apply elem_of_app in Hin as [Hin|Hin].
          -- destruct (linked_child h self c Hl Hself Hin) as [Hc' Hp'].
             split; [exact Hc'|]. destruct (decide (c = newChild)) as [->|_]; [reflexivity|].
             exact Hp'.
          -- apply list_elem_of_singleton in Hin as ->. split; [exact Hnew|].
             destruct (decide (newChild = newChild)); [reflexivity|contradiction].
        * destruct (linked_child h p c Hl Hlt Hin) as [Hc' Hp']. split; [exact Hc'|].
          destruct (decide (c = newChild)) as [->|_]; [congruence|exact Hp'].
      + intros [Hlt Hpar]. destruct (decide (c = newChild)) as [->|Hne].
        * injection Hpar as <-. split; [exact Hself|].
          destruct (decide (self = self)); [|contradiction].
          apply elem_of_app. right. left.
        * destruct (proj2 (Hiff p c) (conj Hlt Hpar)) as [Hp' Hin]. split; [exact Hp'|].
          destruct (decide (p = self)) as [->|_]; [|exact Hin].
          apply elem_of_app. left. exact Hin. }
  destruct Hcases as [Hcase|[Hcase|(Htag & pre & node & post & Hcs & Hpre & Hnode)]];
    [apply Happend; left; exact Hcase|apply Happend; right; exact Hcase|].
  destruct (addChild_collapsed h self newChild node pre post Hself Hnew Hvalid Htag Hcs
              Hpre Hnode) as (Hlen & Hc & Hp & _).
  assert (Hnew_cs : newChild ∉ (pre ++ node :: post)%list).
  { rewrite <- Hcs. apply Hfresh. exact Hself. }
  assert (Hnode_ne : node <> newChild).
  { intros ->. apply Hnew_cs. apply elem_of_app. right. left. }
  assert (Hknode : kept h newChild node = false).
  { unfold kept. destruct (Nat.eqb_spec node newChild); [contradiction|].
    unfold collides in Hnode. apply andb_true_iff in Hnode as [-> _]. reflexivity. }
  assert (Hnd : NoDup (pre ++ newChild :: post)).
  { apply (NoDup_swap_middle node); [|exact Hnew_cs]. rewrite <- Hcs. apply Hnodup. exact Hself. }
  eapply linked_intro; [exact Hc|exact Hp| |].
  - intros p Hlt. cbv beta. rewrite Hlen in Hlt. destruct (decide (p = self)) as [->|_].
    + apply NoDup_ListNoDup, List.NoDup_filter, NoDup_ListNoDup. exact Hnd.
    + apply Hnodup. exact Hlt.
  - intros p c. cbv beta. rewrite Hlen, Hcs. split.
    + intros [Hlt Hin]. destruct (decide (p = self)) as [->|Hne].
      * apply list_elem_of_In, List.filter_In in Hin as [Hin Hk].
        apply list_elem_of_In in Hin.
        destruct (decide (c = newChild)) as [->|Hcn]; [split; [exact Hnew|reflexivity]|].
        assert (Hin' : c ∈ (pre ++ node :: post)%list).
        { apply (elem_of_middle newChild); assumption. }
        rewrite <- Hcs in Hin'.
        destruct (linked_child h self c Hl Hself Hin') as [Hc' Hp']. split; [exact Hc'|].
        rewrite Hcs in Hin'.
        destruct (decide (c ∈ (pre ++ node :: post)%list)); [|contradiction].
        rewrite Hk. exact Hp'.
      * destruct (linked_child h p c Hl Hlt Hin) as [Hc' Hp']. split; [exact Hc'|].
        destruct (decide (c = newChild)) as [->|_]; [congruence|].
        destruct (decide (c ∈ (pre ++ node :: post)%list)) as [Hin'|_]; [|exact Hp'].
        rewrite <- Hcs in Hin'.
        destruct (linked_child h self c Hl Hself Hin') as [_ Hp'']. congruence.
    + intros [Hlt Hpar]. destruct (decide (c = newChild)) as [->|Hcn].
      * injection Hpar as <-. split; [exact Hself|].
        destruct (decide (self = self)); [|contradiction].
        apply list_elem_of_In, List.filter_In. split.
        -- apply list_elem_of_In, elem_of_app. right. left.
        -- unfold kept. rewrite Nat.eqb_refl. reflexivity.
      * destruct (decide (c ∈ (pre ++ node :: post)%list)) as [Hin|Hnot].
        -- destruct (kept h newChild c) eqn:Hk; [|discriminate].
           rewrite <- Hcs in Hin.
           destruct (linked_child h self c Hl Hself Hin) as [_ Hp''].
           assert (p = self) as -> by congruence. split; [exact Hself|].
           destruct (decide (self = self)); [|contradiction].
           apply list_elem_of_In, List.filter_In. split; [|exact Hk].
           apply list_elem_of_In. rewrite Hcs in Hin.
           apply (elem_of_middle node); [exact Hin|]. intros ->. congruence.
        -- destruct (proj2 (Hiff p c) (conj Hlt Hpar)) as [Hp' Hin]. split; [exact Hp'|].
           destruct (decide (p = self)) as [->|_]; [|exact Hin].
           exfalso. apply Hnot. rewrite <- Hcs. exact Hin.
Qed.

Lemma linked_removeChild (h : heap) (self oldChild : ptr) :
  linked h -> (self < length h)%nat -> linked (fst (Node.removeChild h self oldChild)).
Proof.
  intros Hl Hself. pose proof Hl as [Hnodup Hiff].
  destruct (decide (oldChild ∈ m_children (deref h self))) as [Hin|Hnot].
  2:{ unfold Node.removeChild. rewrite (std_find_none _ _ Hnot). exact Hl. }
  destruct (linked_child h self oldChild Hl Hself Hin) as [Hold Hpold].
  apply list_elem_of_split_l in Hin as (pre & post & Hcs & Hpre).
  destruct (removeChild_found h self oldChild pre post Hself Hold Hcs Hpre)
    as (h' & -> & Hlen & Hc & Hp & _). cbn [fst].
  assert (Hnd : NoDup (pre ++ oldChild :: post)) by (rewrite <- Hcs; apply Hnodup; exact Hself).
  assert (Hgone : oldChild ∉ (pre ++ post)%list).
  { apply NoDup_app in Hnd as (_ & Hdisj & Hpost). apply NoDup_cons in Hpost as [Hx _].
    intros Hin. apply elem_of_app in Hin as [Hin|Hin]; [contradiction|contradiction]. }
  eapply linked_intro; [exact Hc|exact Hp| |].
  - intros p Hlt. cbv beta. rewrite Hlen in Hlt. destruct (decide (p = self)) as [->|_].
    + apply NoDup_app in Hnd as (H1 & H2 & H3). apply NoDup_cons in H3 as [_ H3].
      apply NoDup_app. split_and!; [exact H1| |exact H3].
      intros x Hx Hin. apply (H2 x Hx). right. exact Hin.
    + apply Hnodup. exact Hlt.
  - intros p c. cbv beta. rewrite Hlen. split.
    + intros [Hlt Hin]. destruct (decide (p = self)) as [->|Hne].
      * assert (Hco : c <> oldChild) by (intros ->; contradiction).
        apply (elem_of_with oldChild) in Hin. rewrite <- Hcs in Hin.
        destruct (linked_child h self c Hl Hself Hin) as [Hc' Hp']. split; [exact Hc'|].
        destruct (decide (c = oldChild)); [contradiction|exact Hp'].
      * destruct (linked_child h p c Hl Hlt Hin) as [Hc' Hp']. split; [exact Hc'|].
        destruct (decide (c = oldChild)) as [->|_]; [congruence|exact Hp'].
    + intros [Hlt Hpar]. destruct (decide (c = oldChild)) as [->|Hco]; [discriminate|].
      destruct (proj2 (Hiff p c) (conj Hlt Hpar)) as [Hp' Hin]. split; [exact Hp'|].
      destruct (decide (p = self)) as [->|_]; [|exact Hin].
      rewrite Hcs in Hin. apply (elem_of_without oldChild); assumption.
Qed.

Lemma linked_replaceChild (h : heap) (self oldChild newChild : ptr) :
  linked h -> (self < length h)%nat -> (newChild < length h)%nat ->
  m_parent (deref h newChild) = None ->
  linked (fst (Node.replaceChild h self oldChild newChild)).
Proof.
  intros Hl Hself Hnew Hdet. pose proof Hl as [Hnodup Hiff].
  destruct (decide (oldChild ∈ m_children (deref h self))) as [Hin|Hnot].
  2:{ unfold Node.replaceChild. rewrite (std_find_none _ _ Hnot). exact Hl. }
  destruct (linked_child h self oldChild Hl Hself Hin) as [Hold Hpold].
  apply list_elem_of_split_l in Hin as (pre & post & Hcs & Hpre).
  destruct (replaceChild_found h self oldChild newChild pre post Hself Hold Hnew Hcs Hpre)
    as (h' & -> & Hlen & Hc & Hp & _). cbn [fst].
  assert (Hnew_cs : newChild ∉ (pre ++ oldChild :: post)%list).
  { rewrite <- Hcs. apply linked_detached; assumption. }
  assert (Hne : oldChild <> newChild).
  { intros ->. apply Hnew_cs. apply elem_of_app. right. left. }
  assert (Hnd : NoDup (pre ++ oldChild :: post)) by (rewrite <- Hcs; apply Hnodup; exact Hself).
  assert (Hnd' : NoDup (pre ++ newChild :: post)).
  { apply (NoDup_swap_middle oldChild); assumption. }
  assert (Hgone : oldChild ∉ (pre ++ newChild :: post)%list).
  { apply NoDup_app in Hnd as (_ & Hdisj & Hpost). apply NoDup_cons in Hpost as [Hx _].
    intros Hin. apply elem_of_app in Hin as [Hin|Hin]; [contradiction|].
    apply elem_of_cons in Hin as [?|?]; contradiction. }
  eapply linked_intro; [exact Hc|exact Hp| |].
  - intros p Hlt. cbv beta. rewrite Hlen in Hlt. destruct (decide (p = self)) as [->|_].
    + exact Hnd'.
    + apply Hnodup. exact Hlt.
  - intros p c. cbv beta. rewrite Hlen. split.
    + intros [Hlt Hin]. destruct (decide (p = self)) as [->|Hps].
      * destruct (decide (c = newChild)) as [->|Hcn]; [split; [exact Hnew|reflexivity]|].
        assert (Hco : c <> oldChild) by (intros ->; contradiction).
        apply (elem_of_middle newChild oldChild) in Hin; [|exact Hcn]. rewrite <- Hcs in Hin.
        destruct (linked_child h self c Hl Hself Hin) as [Hc' Hp']. split; [exact Hc'|].
        destruct (decide (c = oldChild)); [contradiction|exact Hp'].
      * destruct (linked_child h p c Hl Hlt Hin) as [Hc' Hp']. split; [exact Hc'|].
        destruct (decide (c = newChild)) as [->|_]; [congruence|].
        destruct (decide (c = oldChild)) as [->|_]; [congruence|exact Hp'].
    + intros [Hlt Hpar]. destruct (decide (c = newChild)) as [->|Hcn].
      * injection Hpar as <-. split; [exact Hself|].
        destruct (decide (self = self)); [|contradiction]. apply elem_of_app. right. left.
      * destruct (decide (c = oldChild)) as [->|Hco]; [discriminate|].
        destruct (proj2 (Hiff p c) (conj Hlt Hpar)) as [Hp' Hin]. split; [exact Hp'|].
        destruct (decide (p = self)) as [->|_]; [|exact Hin].
        rewrite Hcs in Hin. apply (elem_of_middle oldChild); assumption.
Qed.

Lemma linked_clear (h : heap) (self : ptr) :
  linked h -> (self < length h)%nat -> linked (Node.clear h self).
Proof.
  intros Hl Hself. pose proof Hl as [Hnodup Hiff].
  destruct (clear_found h self Hself) as (Hlen & Hc & Hp & _).
  { intros c Hc. apply (linked_child h self c Hl Hself Hc). }
  eapply linked_intro; [exact Hc|exact Hp| |].
  - intros p Hlt. cbv beta. rewrite Hlen in Hlt. destruct (decide (p = self)) as [->|_].
    + constructor.
    + apply Hnodup. exact Hlt.
  - intros p c. cbv beta. rewrite Hlen. split.
    + intros [Hlt Hin]. destruct (decide (p = self)) as [->|Hps]; [inversion Hin|].
      destruct (linked_child h p c Hl Hlt Hin) as [Hc' Hp']. split; [exact Hc'|].
      destruct (decide (c ∈ m_children (deref h self))) as [Hcs|_]; [|exact Hp'].
      destruct (linked_child h self c Hl Hself Hcs) as [_ Hp'']. congruence.
    + intros [Hlt Hpar].
      destruct (decide (c ∈ m_children (deref h self))) as [Hcs|Hnot]; [discriminate|].
      destruct (proj2 (Hiff p c) (conj Hlt Hpar)) as [Hp' Hin]. split; [exact Hp'|].
      destruct (decide (p = self)) as [->|_]; [contradiction|exact Hin].
Qed.

(** X8. The operations on the children keep parent references and child
    lists in agreement, as long as the node that is added or put in is not
    a child of some node already: after [addChild], [removeChild],
    [replaceChild] or [clear], and after the creation of a node, a node is
    in the child list of [p] exactly when its parent reference is [p], and
    no child list holds a node twice. *)
Theorem linked_preserved (h : heap) (self newChild oldChild : ptr) (tag : string)
    (unique : bool)
    (Hlinked : linked h)
    (Hself : (self < length h)%nat) (Hnew : (newChild < length h)%nat)
    (Hdetached : Node.parent h newChild = None) :
  linked (Node.addChild h self newChild)
  /\ linked (fst (Node.removeChild h self oldChild))
  /\ linked (fst (Node.replaceChild h self oldChild newChild))
  /\ linked (Node.clear h self)
  /\ linked (fst (Node.create h tag unique))
  /\ Node.parent (fst (Node.create h tag unique)) (snd (Node.create h tag unique)) = None.
Proof.
  split_and!.
  - apply linked_addChild; assumption.
  - apply linked_removeChild; assumption.
  - apply linked_replaceChild; assumption.
  - apply linked_clear; assumption.
  - unfold Node.create, alloc. cbn [fst]. apply linked_alloc; [reflexivity|reflexivity|exact Hlinked].
  - unfold Node.create, alloc, Node.parent. cbn [fst snd]. rewrite deref_app_last. reflexivity.
Qed.

Lemma linked_nil : linked [].
Proof.
  split.
  - intros p Hp. cbn [length] in Hp. lia.
  - intros p c. cbn [length]. split; intros [Hlt _]; lia.
Qed.

Lemma linked_preserved_witness :
  let h := fst (Node.create (fst (Node.create [] "panel" false)) "id" true) in
  linked (Node.addChild h 0%nat 1%nat)
  /\ m_children (deref (Node.addChild h 0%nat 1%nat) 0%nat) = [1%nat]
  /\ Node.parent (Node.addChild h 0%nat 1%nat) 1%nat = Some 0%nat.
Proof.
  intros h. split_and!; [|vm_compute; reflexivity|vm_compute; reflexivity].
  apply (linked_preserved h 0%nat 1%nat 1%nat "" false).
  - unfold h, Node.create, alloc. cbn [fst].
    apply linked_alloc; [reflexivity|reflexivity|].
    apply linked_alloc; [reflexivity|reflexivity|]. apply linked_nil.
  - vm_compute. lia.
  - vm_compute. lia.
  - vm_compute. reflexivity.
Defined.

(** X9. Adding a node that has no parent and then removing it gives back the
    heap as it was, when [addChild] appends (the node has no tag, or no
    child collides with it). *)
Theorem addChild_removeChild (h : heap) (self newChild : ptr)
    (Hself : (self < length h)%nat) (Hnew : (newChild < length h)%nat)
    (Hdetached : Node.parent h newChild = None)
    (Hfresh : newChild ∉ m_children (deref h self))
    (Happend : Node.hasTag h newChild = false
               \/ (forall x, x ∈ m_children (deref h self) -> collides h newChild x = false)) :
  Node.removeChild (Node.addChild h self newChild) self newChild = (h, true).
Proof.
  destruct (addChild_appended h self newChild Hself Hnew Happend) as (Hlen & Hc & Hp & Hr).
  set (h1 := Node.addChild h self newChild) in *.
  destruct (removeChild_found h1 self newChild (m_children (deref h self)) [])
    as (h2 & -> & Hlen2 & Hc2 & Hp2 & Hr2); try lia; [|exact Hfresh|].
  { rewrite Hc. destruct (decide (self = self)); [reflexivity|contradiction]. }
  f_equal. apply heap_ext; [lia|]. intros q _. apply node_ext.
  - rewrite Hc2, Hc. destruct (decide (q = self)) as [->|_]; [|reflexivity].
    apply app_nil_r.
  - rewrite Hp2, Hp. destruct (decide (q = newChild)) as [->|_]; [|reflexivity].
    symmetry. exact Hdetached.
  - rewrite Hr2. apply Hr.
Qed.

Lemma addChild_removeChild_witness :
  let h := fst (Node.create (fst (Node.create_value [] "panel" "x")) "" false) in
  Node.removeChild (Node.addChild h 0%nat 1%nat) 0%nat 1%nat = (h, true).
Proof.
  intros h. apply (addChild_removeChild h 0%nat 1%nat).
  - vm_compute. lia.
  - vm_compute. lia.
  - vm_compute. reflexivity.
  - vm_compute. intros Hin. inversion Hin.
  - left. vm_compute. reflexivity.
Defined.

(** ** Writing a child and reading it back *)

Lemma get_loop_ext (h h' : heap) (childTag : string) (l : list ptr) :
  (forall x, x ∈ l -> Node.tag h' x = Node.tag h x /\ Node.isNull h' x = Node.isNull h x) ->
  Node.get_loop h' childTag l = Node.get_loop h childTag l.
Proof.
  induction l as [|x l IH]; intros Hsame; cbn [Node.get_loop]; [reflexivity|].
  destruct (Hsame x ltac:(left)) as [-> ->].
  rewrite IH; [reflexivity|]. intros y Hy. apply Hsame. right. exact Hy.
Qed.

Lemma content_fields (n n' : OTMLNode) :
  Node.setUnique false (Node.setParent None (Node.setChildren [] n'))
  = Node.setUnique false (Node.setParent None (Node.setChildren [] n)) ->
  m_tag n' = m_tag n /\ m_value n' = m_value n /\ m_source n' = m_source n
  /\ m_null n' = m_null n.
Proof.
  destruct n as [cs p t v s u z], n' as [cs' p' t' v' s' u' z'].
  unfold Node.setUnique, Node.setParent, Node.setChildren.
  cbn [m_children m_parent m_tag m_value m_source m_unique m_null].
  intros [= -> -> -> ->]. split_and!; reflexivity.
Qed.

Lemma content_fields_unique (n n' : OTMLNode) :
  Node.setParent None (Node.setChildren [] n') = Node.setParent None (Node.setChildren [] n) ->
  Node.setUnique false (Node.setParent None (Node.setChildren [] n'))
  = Node.setUnique false (Node.setParent None (Node.setChildren [] n)).
Proof.
  intros Heq.
  change (Node.setUnique false (Node.setParent None (Node.setChildren [] n')))
    with (Node.setUnique false (Node.setParent None
            (Node.setChildren [] (Node.setParent None (Node.setChildren [] n'))))).
  rewrite Heq. reflexivity.
Qed.

(** What [addChild] does to a node that has just been allocated, in
    either of its branches: the new node is the first child with its tag
    that [get] can return unless an older child that is not null has the
    tag and [addChild] appends. *)
Lemma addChild_new_node (h : heap) (self : ptr) (n : OTMLNode) :
  (self < length h)%nat ->
  (forall x, x ∈ m_children (deref h self) -> (x < length h)%nat) ->
  let child := length h in
  let h' := Node.addChild (h ++ [n]) self child in
  length h' = S (length h)
  /\ (forall q, m_tag (deref h' q) = m_tag (deref (h ++ [n]) q)
                /\ m_value (deref h' q) = m_value (deref (h ++ [n]) q)
                /\ m_source (deref h' q) = m_source (deref (h ++ [n]) q)
                /\ m_null (deref h' q) = m_null (deref (h ++ [n]) q))
  /\ ((m_tag n = ""
       \/ (forall x, x ∈ m_children (deref h self) ->
             Node.tag h x = m_tag n -> Node.isUnique h x || m_unique n = false)) ->
      m_children (deref h' self) = (m_children (deref h self) ++ [child])%list)
  /\ (m_tag n <> "" ->
      (exists x, x ∈ m_children (deref h self)
                 /\ Node.tag h x = m_tag n /\ Node.isUnique h x || m_unique n = true) ->
      exists l1 l2,
        m_children (deref h' self) = (l1 ++ child :: l2)%list
        /\ forall x, x ∈ l1 -> Node.tag h' x <> m_tag n).
Proof.
  intros Hself Hvalid child.
  set (h2 := (h ++ [n])%list). intros h'.
  assert (Hlen2 : length h2 = S (length h)).
  { unfold h2. rewrite length_app. cbn [length]. lia. }
  assert (Hold : forall q, (q < length h)%nat -> deref h2 q = deref h q).
  { intros q Hq. apply deref_app_l. exact Hq. }
  assert (Hchild : deref h2 child = n) by apply deref_app_last.
  assert (Hcs2 : m_children (deref h2 self) = m_children (deref h self)).
  { rewrite Hold by exact Hself. reflexivity. }
  assert (Hvalid2 : forall x, x ∈ m_children (deref h2 self) -> (x < length h2)%nat).
  { intros x Hx. rewrite Hcs2 in Hx. pose proof (Hvalid x Hx). lia. }
  assert (Hcoll : forall x, x ∈ m_children (deref h self) ->
                    collides h2 child x
                    = String.eqb (Node.tag h x) (m_tag n) && (Node.isUnique h x || m_unique n)).
  { intros x Hx. unfold collides, Node.tag, Node.isUnique.
    rewrite Hchild, Hold by (apply Hvalid; exact Hx). reflexivity. }
  assert (Htag2 : Node.hasTag h2 child = negb (String.eqb (m_tag n) "")).
  { unfold Node.hasTag, Node.tag. rewrite Hchild. reflexivity. }
  assert (Hcase : (Node.hasTag h2 child = false
                   \/ (forall x, x ∈ m_children (deref h2 self) -> collides h2 child x = false))
                  \/ (Node.hasTag h2 child = true
                      /\ exists pre node post,
                           m_children (deref h2 self) = (pre ++ node :: post)%list
                           /\ (forall x, x ∈ pre -> collides h2 child x = false)
                           /\ collides h2 child node = true)).
  { destruct (Node.hasTag h2 child); [|left; left; reflexivity].
    destruct (addChild_find_cases h2 child (m_children (deref h2 self))) as [?|?];
      [left; right; assumption|right; split; [reflexivity|assumption]]. }
  destruct Hcase as [Happ|(Htag & pre & node & post & Hcs & Hpre & Hnode)].
  - (* appended *)
    destruct (addChild_appended h2 self child ltac:(lia) ltac:(unfold child; lia) Happ)
      as (Hlen & Hc & Hp & Hr).
    fold h' in Hlen, Hc, Hp, Hr. split_and!.
    + rewrite Hlen. exact Hlen2.
    + intros q. apply content_fields, content_fields_unique, Hr.
    + intros _. rewrite Hc, Hcs2. destruct (decide (self = self)); [reflexivity|contradiction].
    + intros Hne (x & Hx & Hxt & Hxu). exfalso. destruct Happ as [Hno|Hall].
      * rewrite Htag2 in Hno. apply negb_false_iff, String.eqb_eq in Hno. contradiction.
      * rewrite <- Hcs2 in Hx. pose proof (Hall x Hx) as Hco. rewrite Hcs2 in Hx.
        rewrite (Hcoll x Hx), Hxt, String.eqb_refl, Hxu in Hco. discriminate.
  - (* collapsed *)
    destruct (addChild_collapsed h2 self child node pre post ltac:(lia)
                ltac:(unfold child; lia) Hvalid2 Htag Hcs Hpre Hnode)
      as (Hlen & Hc & Hp & Hr & Hu).
    fold h' in Hlen, Hc, Hp, Hr, Hu.
    assert (Hfields : forall q, m_tag (deref h' q) = m_tag (deref h2 q)
                                /\ m_value (deref h' q) = m_value (deref h2 q)
                                /\ m_source (deref h' q) = m_source (deref h2 q)
                                /\ m_null (deref h' q) = m_null (deref h2 q)).
    { intros q. apply content_fields, Hr. }
    split_and!.
    + rewrite Hlen. exact Hlen2.
    + exact Hfields.
    + intros Hno. exfalso. rewrite Hcs2 in Hcs.
      assert (Hin : node ∈ m_children (deref h self)).
      { rewrite Hcs. apply elem_of_app. right. left. }
      rewrite (Hcoll node Hin) in Hnode. apply andb_true_iff in Hnode as [Ht Hun].
      apply String.eqb_eq in Ht. destruct Hno as [Hempty|Hall].
      * rewrite Htag2, Hempty in Htag. discriminate.
      * rewrite (Hall node Hin Ht) in Hun. discriminate.
    + intros _ _. rewrite Hc. destruct (decide (self = self)); [|contradiction].
      rewrite List.filter_app. cbn [List.filter]. unfold kept at 2. rewrite Nat.eqb_refl.
      cbn [orb]. eexists _, _. split; [reflexivity|].
      intros x Hx. apply list_elem_of_In, List.filter_In in Hx as [Hx Hk].
      apply list_elem_of_In in Hx.
      assert (Hxv : (x < length h)%nat).
      { apply Hvalid. rewrite <- Hcs2, Hcs. apply elem_of_app. left. exact Hx. }
      unfold kept in Hk. destruct (Nat.eqb_spec x child) as [Heq|_]; [unfold child in Heq; lia|].
      cbn [orb] in Hk. apply negb_true_iff, String.eqb_neq in Hk.
      unfold Node.tag in *. rewrite Hchild in Hk.
      destruct (Hfields x) as [-> _]. exact Hk.
Qed.

Lemma unique_dichotomy (h : heap) (childTag : string) (l : list ptr) :
  (forall x, x ∈ l -> Node.tag h x = childTag -> Node.isUnique h x = false)
  \/ (exists x, x ∈ l /\ Node.tag h x = childTag /\ Node.isUnique h x = true).
Proof.
  induction l as [|y l [Hall|(x & Hx & Ht & Hu)]].
  - left. intros x Hx. inversion Hx.
  - destruct (String.eqb_spec (Node.tag h y) childTag) as [Ht|Ht].
    + destruct (Node.isUnique h y) eqn:Hu.
      * right. exists y. split_and!; [left|exact Ht|exact Hu].
      * left. intros x Hx Hxt. apply elem_of_cons in Hx as [->|Hx]; [exact Hu|].
        apply Hall; assumption.
    + left. intros x Hx Hxt. apply elem_of_cons in Hx as [->|Hx]; [contradiction|].
      apply Hall; assumption.
  - right. exists x. split_and!; [right; exact Hx|exact Ht|exact Hu].
Qed.

Lemma writeAt_eq {T : Type} `{Cast T string}
    (h : heap) (self : ptr) (childTag : string) (v : T) (s : string) :
  cast v = Some s ->
  Node.writeAt h self childTag v
  = Ok (Node.addChild
          (h ++ [Node.setValue s (Node.setUnique false (Node.setTag childTag OTMLNode_new))])
          self (length h)).
Proof.
  intros Hs. unfold Node.writeAt, Node.create, alloc, Node.write, safeCast.
  rewrite Hs. outcome_simpl. rewrite update_app_last. reflexivity.
Qed.

(** X10. [writeAt] followed by [valueAt] for the same tag.  The value written
    is read back when [addChild] collapses (the tag is not empty and a
    child with the tag is unique), or when no child that is not null had
    the tag.  Otherwise the new node is appended behind an older child
    with the tag, and [valueAt] still reads the older child. *)
Theorem writeAt_valueAt {T : Type} `{Cast T string} `{Cast string T}
    (h : heap) (self : ptr) (childTag : string) (v : T) (s : string)
    (Hself : (self < length h)%nat)
    (Hvalid : forall x, x ∈ m_children (deref h self) -> (x < length h)%nat)
    (Hs : cast v = Some s) (Hback : cast s = Some v) :
  exists h',
    Node.writeAt h self childTag v = Ok h'
    /\ ((childTag <> ""
         /\ exists x, x ∈ m_children (deref h self)
                      /\ Node.tag h x = childTag /\ Node.isUnique h x = true)
        \/ (forall x, x ∈ m_children (deref h self) ->
              Node.tag h x = childTag -> Node.isNull h x = true) ->
        Node.valueAt (T := T) h' self childTag = Ok v)
    /\ (forall pre c post,
          m_children (deref h self) = (pre ++ c :: post)%list ->
          (forall x, x ∈ pre -> Node.tag h x = childTag -> Node.isNull h x = true) ->
          Node.tag h c = childTag -> Node.isNull h c = false ->
          childTag = ""
          \/ (forall x, x ∈ m_children (deref h self) ->
                Node.tag h x = childTag -> Node.isUnique h x = false) ->
          Node.valueAt (T := T) h' self childTag = Node.value h c
          /\ Node.size h' self = Node.size h self + 1).
Proof.
  set (n := Node.setValue s (Node.setUnique false (Node.setTag childTag OTMLNode_new))).
  exists (Node.addChild (h ++ [n]) self (length h)).
  split; [apply writeAt_eq; exact Hs|].
  destruct (addChild_new_node h self n Hself Hvalid) as (Hlen & Hfields & Happ & Hcol).
  cbv zeta in Hlen, Hfields, Happ, Hcol.
  set (h' := Node.addChild (h ++ [n]) self (length h)) in *.
  change (m_tag n) with childTag in Happ, Hcol.
  change (m_unique n) with false in Happ, Hcol.
  assert (Hold : forall q, (q < length h)%nat ->
             Node.tag h' q = Node.tag h q /\ Node.isNull h' q = Node.isNull h q
             /\ Node.value (T := T) h' q = Node.value h q).
  { intros q Hq. destruct (Hfields q) as (Ht & Hv & Hsrc & Hnull).
    unfold Node.tag, Node.isNull, Node.value, Node.source.
    rewrite Ht, Hv, Hsrc, Hnull, deref_app_l by exact Hq. split_and!; reflexivity. }
  assert (Hchild : Node.tag h' (length h) = childTag /\ Node.isNull h' (length h) = false
                   /\ Node.value (T := T) h' (length h) = Ok v).
  { destruct (Hfields (length h)) as (Ht & Hv & _ & Hnull).
    unfold Node.tag, Node.isNull, Node.value.
    rewrite Ht, Hv, Hnull, deref_app_last. cbn [n Node.setValue m_value]. rewrite Hback.
    split_and!; reflexivity. }
  destruct Hchild as (Hctag & Hcnull & Hcvalue).
  assert (Hfound : forall l1 l2,
             m_children (deref h' self) = (l1 ++ length h :: l2)%list ->
             (forall x, x ∈ l1 -> Node.tag h' x = childTag -> Node.isNull h' x = true) ->
             Node.valueAt (T := T) h' self childTag = Ok v).
  { intros l1 l2 Hcs Hl1. unfold Node.valueAt, Node.at_.
    rewrite Hcs, (get_loop_first h' childTag l1 l2 (length h) Hl1 Hctag Hcnull).
    outcome_simpl. exact Hcvalue. }
  split.
  - intros Hcase.
    destruct (unique_dichotomy h childTag (m_children (deref h self)))
      as [Hnone|(x & Hx & Hxt & Hxu)].
    + (* appended: no child with the tag is unique *)
      assert (Hnull : forall x, x ∈ m_children (deref h self) ->
                        Node.tag h x = childTag -> Node.isNull h x = true).
      { destruct Hcase as [(_ & x & Hx & Hxt & Hxu)|Hnull]; [|exact Hnull].
        rewrite (Hnone x Hx Hxt) in Hxu. discriminate. }
      apply (Hfound (m_children (deref h self)) []).
      * apply Happ. right. intros x Hx Hxt. rewrite orb_false_r. apply Hnone; assumption.
      * intros x Hx Hxt. destruct (Hold x (Hvalid x Hx)) as (Ht & Hn & _).
        rewrite Hn. apply Hnull; [exact Hx|]. rewrite <- Ht. exact Hxt.
    + destruct (String.eqb_spec childTag "") as [Hempty|Hne].
      * (* appended: the tag is empty *)
        assert (Hnull : forall x, x ∈ m_children (deref h self) ->
                          Node.tag h x = childTag -> Node.isNull h x = true).
        { destruct Hcase as [(Hne & _)|Hnull]; [contradiction|exact Hnull]. }
        apply (Hfound (m_children (deref h self)) []).
        -- apply Happ. left. exact Hempty.
        -- intros y Hy Hyt. destruct (Hold y (Hvalid y Hy)) as (Ht & Hn & _).
           rewrite Hn. apply Hnull; [exact Hy|]. rewrite <- Ht. exact Hyt.
      * (* collapsed *)
        destruct (Hcol Hne) as (l1 & l2 & Hcs & Hl1).
        { exists x. split_and!; [exact Hx|exact Hxt|]. rewrite Hxu. reflexivity. }
        apply (Hfound l1 l2 Hcs). intros y Hy Hyt. exfalso. apply (Hl1 y Hy Hyt).
  - intros pre c post Hcs Hpre Hct Hcn Hno.
    assert (Hcs' : m_children (deref h' self) = (m_children (deref h self) ++ [length h])%list).
    { apply Happ. destruct Hno as [?|Hall]; [left; assumption|right].
      intros x Hx Hxt. rewrite orb_false_r. apply Hall; assumption. }
    assert (Hcv : (c < length h)%nat).
    { apply Hvalid. rewrite Hcs. apply elem_of_app. right. left. }
    split.
    + unfold Node.valueAt, Node.at_. rewrite Hcs', Hcs, <- app_assoc.
      cbn [app]. destruct (Hold c Hcv) as (Ht & Hn & Hv).
      rewrite (get_loop_first h' childTag pre (post ++ [length h]) c).
      * outcome_simpl. exact Hv.
      * intros x Hx Hxt.
        assert (Hxv : (x < length h)%nat).
        { apply Hvalid. rewrite Hcs. apply elem_of_app. left. exact Hx. }
        destruct (Hold x Hxv) as (Ht' & Hn' & _). rewrite Hn'. apply Hpre; [exact Hx|].
        rewrite <- Ht'. exact Hxt.
      * rewrite Ht. exact Hct.
      * rewrite Hn. exact Hcn.
    + unfold Node.size. rewrite Hcs', length_app. cbn [length]. lia.
Qed.

Lemma writeAt_valueAt_witness :
  exists h',
    Node.writeAt null_child_heap 0%nat "b" true = Ok h'
    /\ Node.valueAt (T := bool) h' 0%nat "b" = Ok true.
Proof.
  destruct (writeAt_valueAt null_child_heap 0%nat "b" true "true")
    as (h' & Heq & Hread & _).
  - vm_compute. lia.
  - intros x Hx. vm_compute in Hx. elem_cases Hx; vm_compute; lia.
  - reflexivity.
  - reflexivity.
  - exists h'. split; [exact Heq|]. apply Hread. right.
    intros x Hx Hxt. vm_compute in Hx. elem_cases Hx; vm_compute in Hxt; try discriminate.
    vm_compute. reflexivity.
Defined.

(** ** The emitter and the value that is a lone newline *)

(** The line of a node is always written, except for a node that is not
    null and whose value is the lone newline: the choice of the block
    style then reads [value[value.length()-2]], before the start of the
    value. *)
Lemma emit_own_defined (h : heap) (node : ptr) (currentDepth : Z) :
  (0 <= currentDepth /\ Node.isNull h node = false
   /\ m_value (deref h node) = String Str.nl "" ->
   OTMLEmitter.emit_own h node currentDepth = Undefined OutOfRange)
  /\ (~ (0 <= currentDepth /\ Node.isNull h node = false
         /\ m_value (deref h node) = String Str.nl "") ->
      exists line, OTMLEmitter.emit_own h node currentDepth = Ok line).
Proof.
  unfold OTMLEmitter.emit_own, Node.hasValue, Node.value.
  change (cast (m_value (deref h node))) with (Some (m_value (deref h node))).
  split.
  - intros (Hd & Hnull & Hvalue).
    destruct (Z.leb_spec 0 currentDepth) as [_|?]; [|lia].
    rewrite Hnull, Hvalue. reflexivity.
  - intros Hsafe.
    destruct (Z.leb_spec 0 currentDepth) as [Hd|_]; [|eexists; reflexivity].
    destruct (Node.isNull h node) eqn:Hnull; [eexists; reflexivity|].
    destruct (String.eqb_spec (m_value (deref h node)) "") as [_|Hne]; cbn [negb];
      [eexists; reflexivity|].
    outcome_simpl.
    destruct (Str.find Str.nl (m_value (deref h node))) as [i|] eqn:Hfind;
      [|eexists; reflexivity].
    assert (Hcontains : contains Str.nl (m_value (deref h node)) = true).
    { unfold contains. rewrite Hfind. reflexivity. }
    destruct (decide (String.length (m_value (deref h node)) = 1%nat)) as [Hone|Hmore].
    + exfalso. apply Hsafe. split_and!; [exact Hd|reflexivity|].
      apply length_one_newline; assumption.
    + pose proof (contains_length _ _ Hcontains).
      rewrite block_style_ok by lia. outcome_simpl. eexists. reflexivity.
Qed.

(** A node of the tree is not null and has the lone newline as value. *)
Fixpoint lone_newline (t : tree) : bool :=
  match t with
  | Tree _ value _ null children =>
      (negb null && String.eqb value (String Str.nl "")) || existsb lone_newline children
  end.

Lemma lone_newline_unfold (t : tree) :
  lone_newline t
  = (negb (t_null t) && String.eqb (t_value t) (String Str.nl ""))
    || existsb lone_newline (t_children t).
Proof. destruct t. reflexivity. Qed.

Lemma emitNode_defined (t : tree) :
  forall (h : heap) (lo : nat) (p : ptr) (d : Z) (fuel : nat),
    repr h lo t p -> 0 <= d -> (height t <= fuel)%nat ->
    if lone_newline t then OTMLEmitter.emitNode fuel h p d = Undefined OutOfRange
    else exists text, OTMLEmitter.emitNode fuel h p d = Ok text.
Proof.
  induction t as [tag value unique null children IH] using tree_induction.
  intros h lo p d fuel Hrepr Hd Hfuel.
  set (t := Tree tag value unique null children) in *.
  destruct fuel as [|fuel]; [cbn [height t] in Hfuel; lia|].
  rewrite emitNode_unfold, lone_newline_unfold.
  apply repr_unfold in Hrepr. destruct Hrepr as (_ & _ & Hvalue & _ & Hnull & Hcs).
  destruct (emit_own_defined h p d) as [Hbad Hgood].
  unfold Node.isNull in Hbad, Hgood. rewrite Hvalue, Hnull in Hbad, Hgood.
  destruct (negb (t_null t) && String.eqb (t_value t) (String Str.nl "")) eqn:Hown.
  - apply andb_true_iff in Hown as [Hn Hv]. apply negb_true_iff in Hn.
    apply String.eqb_eq in Hv. cbn [orb]. rewrite Hbad by (split_and!; assumption).
    reflexivity.
  - destruct Hgood as [line ->].
    { intros (_ & Hn & Hv). rewrite Hn, Hv in Hown. discriminate. }
    outcome_simpl. cbn [orb].
    assert (Hmap : if existsb lone_newline (t_children t)
                   then mapM (fun child => OTMLEmitter.emitNode fuel h child (d + 1))
                          (m_children (deref h p)) = Undefined OutOfRange
                   else exists blocks,
                          mapM (fun child => OTMLEmitter.emitNode fuel h child (d + 1))
                            (m_children (deref h p)) = Ok blocks).
    { assert (Hheight : forall c, c ∈ t_children t -> (height c <= fuel)%nat).
      { intros c Hc. pose proof (height_children t c Hc). lia. }
      cbn [t_children t] in Hcs, Hheight |- *. clear Hfuel Hbad Hown Hvalue Hnull.
      induction Hcs as [|c q cs qs Hc _ IHcs]; [exists []; reflexivity|].
      inversion IH as [|? ? IHc IHrest]; subst.
      cbn [existsb mapM].
      pose proof (IHc h lo q (d + 1) fuel Hc ltac:(lia) (Hheight c ltac:(left))) as Hq.
      destruct (lone_newline c).
      - rewrite Hq. reflexivity.
      - destruct Hq as [text ->]. outcome_simpl. cbn [orb].
        specialize (IHcs IHrest (fun x Hx => Hheight x ltac:(right; exact Hx))).
        destruct (existsb lone_newline cs).
        + rewrite IHcs. reflexivity.
        + destruct IHcs as [blocks ->]. outcome_simpl. eexists. reflexivity. }
    destruct (existsb lone_newline (t_children t)).
    + rewrite Hmap. reflexivity.
    + destruct Hmap as [blocks ->]. outcome_simpl. eexists. reflexivity.
Qed.

(** X14. The emitter writes a tree unless one of its nodes is not null and has
    the lone newline as value; for such a tree it runs into the read
    before the start of that value.  The document's own value is not
    read.  The parser produces such a value for the header [a: |+] at the
    end of the text, so that text parses into a document that cannot be
    emitted. *)
Theorem emit_lone_newline (h : heap) (lo : nat) (t : tree) (ts : list tree) (p root : ptr)
    (d : Z) (fuel : nat)
    (Hrepr : repr h lo t p) (Hd : 0 <= d) (Hfuel : (height t <= fuel)%nat)
    (Hroot : Forall2 (repr h lo) ts (m_children (deref h root)))
    (Hfuels : forall c, c ∈ ts -> (height c <= fuel)%nat) :
  (if lone_newline t then OTMLEmitter.emitNode fuel h p d = Undefined OutOfRange
   else exists text, OTMLEmitter.emitNode fuel h p d = Ok text)
  /\ (if existsb lone_newline ts then OTMLDocument_emit (S fuel) h root = Undefined OutOfRange
      else exists text, OTMLDocument_emit (S fuel) h root = Ok text)
  /\ match OTMLDocument_parse [] (Stream.open "a: |+") "" with
     | Ok (h', doc) =>
         Node.valueAt (T := string) h' doc "a" = Ok (String Str.nl "")
         /\ OTMLDocument_emit 2 h' doc = Undefined OutOfRange
     | _ => False
     end.
Proof.
  split_and!.
  - apply (emitNode_defined t h lo p d fuel); assumption.
  - unfold OTMLDocument_emit. rewrite emitNode_unfold.
    change (OTMLEmitter.emit_own h root (-1)) with (Ok (A := string) ""). outcome_simpl.
    clear Hrepr Hfuel.
    induction Hroot as [|c q cs qs Hc _ IH].
    + exists "". reflexivity.
    + cbn [existsb mapM].
      pose proof (emitNode_defined c h lo q (-1 + 1) fuel Hc ltac:(lia)
                    (Hfuels c ltac:(left))) as Hq.
      destruct (lone_newline c).
      * rewrite Hq. reflexivity.
      * destruct Hq as [text ->]. outcome_simpl. cbn [orb].
        specialize (IH (fun x Hx => Hfuels x ltac:(right; exact Hx))).
        destruct (existsb lone_newline cs).
        -- destruct (mapM _ qs); try discriminate. injection IH as ->. reflexivity.
        -- destruct IH as [text' IH]. destruct (mapM _ qs); try discriminate.
           outcome_simpl. eexists. reflexivity.
  - vm_compute. split; reflexivity.
Qed.

Definition newline_heap : heap :=
  match Node.writeAt (fst (OTMLDocument_create [])) 0%nat "t" (String Str.nl "") with
  | Ok h => h
  | _ => []
  end.

Lemma emit_lone_newline_witness :
  OTMLEmitter.emitNode 1 newline_heap 1%nat 0 = Undefined OutOfRange
  /\ OTMLDocument_emit 2 newline_heap 0%nat = Undefined OutOfRange.
Proof.
  destruct (emit_lone_newline newline_heap 0 (Tree "t" (String Str.nl "") false false [])
              [Tree "t" (String Str.nl "") false false []] 1%nat 0%nat 0 1)
    as (Hnode & Hdoc & _).
  - cbv. repeat constructor.
  - lia.
  - vm_compute. lia.
  - cbv. repeat constructor.
  - intros c Hc. apply list_elem_of_singleton in Hc as ->. vm_compute. lia.
  - split; [exact Hnode|exact Hdoc].
Defined.

(** ** The parser terminates *)

(** The stream is at its end, or it is good and a piece is left to read:
    the states in which [parse] finds it before each line. *)
Definition ready (s : istream) : Prop :=
  eofbit s = true \/ (Stream.good s = true /\ unread s <> []).

(** What the collecting loop leaves alone. *)
Lemma block_loop_frame (fuel : nat) :
  forall p acc value p',
    Parser.block_loop fuel p acc = Ok (value, p') ->
    mem p' = mem p /\ doc p' = doc p /\ currentParent p' = currentParent p
    /\ previousNode p' = previousNode p /\ currentDepth p' = currentDepth p.
Proof.
  induction fuel as [|fuel IH]; intros p acc value p' Hloop; [discriminate|].
  cbn [Parser.block_loop] in Hloop.
  destruct (Stream.tellg (in_ p)) as [lastPos s].
  unfold Parser.getNextLine in Hloop.
  cbn [Parser.set_in Parser.set_currentLine in_ currentLine currentDepth doc
       currentParent previousNode mem] in Hloop.
  destruct (Stream.getline s) as [line s'].
  set (q := Parser.set_in s' _) in Hloop.
  assert (Hq : mem q = mem p /\ doc q = doc p /\ currentParent q = currentParent p
               /\ previousNode q = previousNode p /\ currentDepth q = currentDepth p)
    by (split_and!; reflexivity).
  destruct (Parser.getLineDepth q line true) as [depth| | |]; outcome_simpl in Hloop;
    try discriminate.
  assert (Hcont : forall data,
             (if Stream.eof (in_ q) then Ok (data, q) else Parser.block_loop fuel q data)
             = Ok (value, p') ->
             mem p' = mem p /\ doc p' = doc p /\ currentParent p' = currentParent p
             /\ previousNode p' = previousNode p /\ currentDepth p' = currentDepth p).
  { intros data Hdata. destruct (Stream.eof (in_ q)).
    - injection Hdata as _ <-. exact Hq.
    - destruct (IH q data value p' Hdata) as (H1 & H2 & H3 & H4 & H5).
      destruct Hq as (Q1 & Q2 & Q3 & Q4 & Q5). split_and!; congruence. }
  destruct (currentDepth q <? depth); [exact (Hcont _ Hloop)|].
  destruct (negb (String.eqb (Str.trim line) "")); [|exact (Hcont _ Hloop)].
  injection Hloop as _ <-. split_and!; reflexivity.
Qed.

Lemma ready_cases (s : istream) :
  ready s ->
  eofbit s = true
  \/ (Stream.good s = true /\ exists line rest, unread s = line :: rest).
Proof.
  intros [Heof|[Hgood Hne]]; [left; exact Heof|right].
  split; [exact Hgood|]. destruct (unread s) as [|line rest]; [contradiction|eauto].
Qed.

Lemma block_loop_terminates (fuel : nat) :
  forall p acc,
    ready (in_ p) -> (length (unread (in_ p)) < fuel)%nat ->
    match Parser.block_loop fuel p acc with
    | Ok (_, p') =>
        ready (in_ p') /\ (length (unread (in_ p')) <= length (unread (in_ p)))%nat
    | OutOfFuel => False
    | _ => True
    end.
Proof.
  induction fuel as [|fuel IH]; intros p acc Hready Hfuel; [lia|].
  destruct (ready_cases _ Hready) as [Heof|(Hgood & line & rest & Hline)].
  - (* at the end of the stream: the read fails and gives an empty line *)
    cbn [Parser.block_loop]. unfold Stream.tellg, Stream.good. rewrite Heof. cbn [negb andb].
    unfold Parser.getNextLine, Stream.getline, Stream.good.
    cbn [Parser.set_in Parser.set_currentLine in_ eofbit failbit unread].
    cbn [negb andb].
    rewrite getLineDepth_blank. outcome_simpl.
    cbn [Parser.set_in Parser.set_currentLine in_ currentDepth Stream.eof eofbit unread].
    change (Str.trim "") with "". cbn [String.eqb negb].
    destruct (currentDepth p <? 0); split; try (left; reflexivity); lia.
  - pose proof (getNextLine_good p line rest Hgood Hline) as Hnext.
    destruct (Parser.getLineDepth (snd (Parser.getNextLine p)) line true) as [depth| | |] eqn:Hd.
    + rewrite (block_loop_step fuel p acc line rest depth Hgood Hline Hd).
      rewrite Hnext. cbn [snd].
      set (q := Parser.set_in _ (Parser.set_currentLine (currentLine p + 1) p)).
      assert (Hcont : forall data,
                 match (if Stream.eof (in_ q) then Ok (data, q)
                        else Parser.block_loop fuel q data) with
                 | Ok (_, p') =>
                     ready (in_ p')
                     /\ (length (unread (in_ p')) <= length (unread (in_ p)))%nat
                 | OutOfFuel => False
                 | _ => True
                 end).
      { intros data. rewrite Hline. destruct rest as [|next rest].
        - cbn. split; [left; reflexivity|lia].
        - cbn [q Parser.set_in in_ Stream.eof eofbit].
          pose proof (IH q data) as Hq.
          cbn [q Parser.set_in in_ unread] in Hq.
          rewrite Hline in Hfuel. cbn [length] in Hfuel.
          specialize (Hq ltac:(right; split; [reflexivity|discriminate])
                         ltac:(cbn [length]; lia)).
          destruct (Parser.block_loop fuel _ data) as [[v p']| | |]; try exact Hq.
          destruct Hq as [Hr Hl]. split; [exact Hr|]. cbn [length] in *. lia. }
      destruct (currentDepth p <? depth); [apply Hcont|].
      destruct (String.eqb (Str.trim line) ""); [apply Hcont|].
      split; [exact Hready|lia].
    + cbn [Parser.block_loop]. unfold Stream.tellg. rewrite Hgood, set_in_same, Hnext.
      rewrite Hnext in Hd. cbn [snd] in Hd. rewrite Hd. exact I.
    + cbn [Parser.block_loop]. unfold Stream.tellg. rewrite Hgood, set_in_same, Hnext.
      rewrite Hnext in Hd. cbn [snd] in Hd. rewrite Hd. exact I.
    + exfalso. revert Hd. unfold Parser.getLineDepth.
      destruct (negb true || _); [|discriminate].
      destruct (Str.at_ line _); [|discriminate].
      destruct (Ascii.eqb _ _); [discriminate|].
      destruct (negb _); discriminate.
Qed.

Lemma parseNode_terminates (fuel : nat) (p : OTMLParser) (data : string) :
  ready (in_ p) -> (length (unread (in_ p)) < fuel)%nat ->
  match Parser.parseNode fuel p data with
  | Ok p' => ready (in_ p') /\ (length (unread (in_ p')) <= length (unread (in_ p)))%nat
  | OutOfFuel => False
  | _ => True
  end.
Proof.
  intros Hready Hfuel. unfold Parser.parseNode.
  destruct (Parser.split_data data) as [[tag value] colon].
  unfold Parser.read_value.
  assert (Hrest : forall (value : string) (q : OTMLParser),
             ready (in_ q) -> (length (unread (in_ q)) <= length (unread (in_ p)))%nat ->
             match (line ← safeCast (currentLine p);
                    let '(h, node) := Parser.build_node (mem q) (doc q) tag value colon line in
                    match currentParent q with
                    | Some parent =>
                        Ok (Parser.set_previousNode (Some node)
                              (Parser.set_mem (Node.addChild h parent node) q))
                    | None => Undefined NullDereference
                    end) with
             | Ok p' =>
                 ready (in_ p') /\ (length (unread (in_ p')) <= length (unread (in_ p)))%nat
             | OutOfFuel => False
             | _ => True
             end).
  { intros v q Hq Hlen. unfold safeCast. cbn [cast cast_int_string]. outcome_simpl.
    destruct (Parser.build_node _ _ _ _ _ _) as [h node].
    destruct (currentParent q); [|exact I]. split; assumption. }
  destruct (Parser.is_block_header value).
  - pose proof (block_loop_terminates fuel p "" Hready Hfuel) as Hloop.
    destruct (Parser.block_loop fuel p "") as [[m q]| | |]; outcome_simpl; try exact I;
      [|contradiction].
    destruct Hloop as [Hq Hlen].
    destruct (Parser.block_policy value m) as [v| | |] eqn:Hpolicy; outcome_simpl;
      try exact I.
    + apply Hrest; assumption.
    + exfalso. revert Hpolicy. unfold Parser.block_policy.
      destruct (_ || _); [|discriminate].
      assert (Hstrip : forall n s, Parser.strip_loop n s <> OutOfFuel).
      { induction n as [|n IHn]; intros s; cbn [Parser.strip_loop]; [discriminate|].
        destruct (Str.at_ s (Z.of_nat n)); [|discriminate].
        destruct (Ascii.eqb _ _); [apply IHn|discriminate]. }
      pose proof (Hstrip (String.length m) m).
      destruct (Parser.strip_loop _ m); outcome_simpl; try discriminate. contradiction.
  - outcome_simpl. apply Hrest; [exact Hready|lia].
Qed.

Lemma parseLine_terminates (fuel : nat) (p : OTMLParser) (line : string) :
  ready (in_ p) -> (length (unread (in_ p)) < fuel)%nat ->
  match Parser.parseLine fuel p line with
  | Ok p' => ready (in_ p') /\ (length (unread (in_ p')) <= length (unread (in_ p)))%nat
  | OutOfFuel => False
  | _ => True
  end.
Proof.
  intros Hready Hfuel. unfold Parser.parseLine.
  destruct (Parser.getLineDepth p line false) as [depth| | |] eqn:Hd; outcome_simpl;
    try exact I.
  2:{ revert Hd. unfold Parser.getLineDepth. cbn [negb orb].
      destruct (Str.at_ line _); [|discriminate].
      destruct (Ascii.eqb _ _); [discriminate|].
      destruct (negb _); discriminate. }
  destruct (depth =? -1); [split; [exact Hready|lia]|].
  destruct (String.eqb (Str.trim line) ""); [split; [exact Hready|lia]|].
  destruct (String.eqb (Str.take 2 (Str.trim line)) "//"); [split; [exact Hready|lia]|].
  assert (Hnode : forall q : option ptr,
             match Parser.parseNode fuel
                     (Parser.set_currentDepth depth (Parser.set_currentParent q p))
                     (Str.trim line) with
             | Ok p' =>
                 ready (in_ p') /\ (length (unread (in_ p')) <= length (unread (in_ p)))%nat
             | OutOfFuel => False
             | _ => True
             end).
  { intros q. apply (parseNode_terminates fuel
                       (Parser.set_currentDepth depth (Parser.set_currentParent q p)));
      assumption. }
  destruct (depth =? currentDepth p + 1); outcome_simpl; [apply Hnode|].
  destruct (depth <? currentDepth p).
  - assert (Hascend : forall n h q, Parser.ascend n h q <> OutOfFuel).
    { induction n as [|n IHn]; intros h q; cbn [Parser.ascend]; [discriminate|].
      destruct q; [apply IHn|discriminate]. }
    pose proof (Hascend (Z.to_nat (currentDepth p - depth)) (mem p) (currentParent p)).
    destruct (Parser.ascend _ _ _) as [q| | |]; outcome_simpl; try exact I; [|contradiction].
    apply Hnode.
  - destruct (negb (depth =? currentDepth p)); outcome_simpl; [exact I|].
    apply (parseNode_terminates fuel (Parser.set_currentDepth depth p)); assumption.
Qed.

Lemma parse_loop_terminates (fuel : nat) :
  forall p,
    ready (in_ p) -> (length (unread (in_ p)) < fuel)%nat ->
    Parser.parse_loop fuel p <> OutOfFuel.
Proof.
  induction fuel as [|fuel IH]; intros p Hready Hfuel; [lia|].
  cbn [Parser.parse_loop]. unfold Stream.eof.
  destruct (ready_cases _ Hready) as [->|(Hgood & line & rest & Hline)]; [discriminate|].
  assert (Heof : eofbit (in_ p) = false).
  { unfold Stream.good in Hgood. apply andb_true_iff in Hgood as [He _].
    apply negb_true_iff in He. exact He. }
  rewrite Heof, (getNextLine_good p line rest Hgood Hline).
  set (q := Parser.set_in _ (Parser.set_currentLine (currentLine p + 1) p)).
  assert (Hq : ready (in_ q)).
  { cbn [q Parser.set_in in_]. destruct rest; [left; reflexivity|].
    right. split; [reflexivity|discriminate]. }
  assert (Hlen : length (unread (in_ q)) = length rest) by reflexivity.
  pose proof (parseLine_terminates (S (length (unread (in_ q)))) q line Hq ltac:(lia)) as Hl.
  destruct (Parser.parseLine _ q line) as [p'| | |]; outcome_simpl; try discriminate;
    [|contradiction].
  destruct Hl as [Hr Hle]. apply IH; [exact Hr|].
  rewrite Hline in Hfuel. cbn [length] in Hfuel. lia.
Qed.

(** X16. The parser always comes to an end: for every text, [parse] returns a
    document, throws, or runs into undefined behaviour, and the fuel that
    the embedding gives to its loops (one more than the number of lines
    left) is never used up.  In particular the rewinding of the stream
    after a block never makes the parser read the same line for ever. *)
Theorem parse_terminates (h : heap) (text source : string) :
  OTMLDocument_parse h (Stream.open text) source <> OutOfFuel.
Proof.
  unfold OTMLDocument_parse, alloc, Parser.parse.
  cbn [Parser.new in_ Stream.open Stream.good eofbit failbit negb andb unread].
  pose proof (parse_loop_terminates (S (length (Str.lines text)))
                (Parser.new (h ++ [Node.setSource source OTMLNode_new]) (length h)
                   (Stream.open text))) as Hloop.
  cbn [Parser.new in_ Stream.open unread] in Hloop.
  specialize (Hloop ltac:(right; split; [reflexivity|apply lines_nonempty]) ltac:(lia)).
  destruct (Parser.parse_loop _ _); outcome_simpl; try discriminate. contradiction.
Qed.

(** ** Comments and blank lines *)

Lemma all_space_indent (d : nat) : all_space (indent d) = true.
Proof. induction d as [|d IH]; [reflexivity|]. rewrite indent_S. cbn [all_space]. exact IH. Qed.

Lemma trim_comment (text : string) :
  Str.take 2 (Str.trim ("//" ++ text)) = "//".
Proof.
  unfold Str.trim. rewrite ltrim_fixed by reflexivity.
  destruct (rtrim_split ("//" ++ text)) as (r & Hs & Hr & _).
  assert (Hslash : Str.isspace "/" = false) by reflexivity.
  destruct (Str.rtrim ("//" ++ text)) as [|a [|b u]].
  - change (String "/" (String "/" text) = r) in Hs. subst r.
    cbn [all_space] in Hr. rewrite Hslash in Hr. discriminate.
  - change (String "/" (String "/" text) = String a r) in Hs. injection Hs as _ <-.
    cbn [all_space] in Hr. rewrite Hslash in Hr. discriminate.
  - change (String "/" (String "/" text) = String a (String b (u ++ r))) in Hs.
    injection Hs as <- <- _. reflexivity.
Qed.

Lemma parseLine_comment (fuel : nat) (p : OTMLParser) (d : nat) (text : string) :
  Parser.parseLine fuel p (indent d ++ "//" ++ text) = Ok p.
Proof.
  unfold Parser.parseLine. rewrite getLineDepth_indent by reflexivity. outcome_simpl.
  destruct (Z.eqb_spec (Z.of_nat d) (-1)) as [?|_]; [lia|].
  unfold Str.trim at 1 2. rewrite ltrim_indent. fold (Str.trim ("//" ++ text)).
  rewrite trim_comment.
  destruct (String.eqb (Str.trim ("//" ++ text)) ""); reflexivity.
Qed.

Lemma parseLine_blank (fuel : nat) (p : OTMLParser) (d : nat) :
  Parser.parseLine fuel p (indent d) = Ok p.
Proof.
  unfold Parser.parseLine.
  assert (Hd : Parser.getLineDepth p (indent d) false = Ok (Z.of_nat d)).
  { assert (Hls : Str.leading_spaces (indent d) = (2 * d)%nat).
    { pose proof (leading_spaces_indent d "") as Hls. rewrite append_nil_r in Hls.
      cbn [Str.leading_spaces] in Hls. lia. }
    unfold Parser.getLineDepth. rewrite Hls.
    replace (Z.of_nat (2 * d) / 2) with (Z.of_nat d)
      by (rewrite Nat2Z.inj_mul, Z.mul_comm, Z.div_mul; lia).
    replace (Z.of_nat (2 * d) mod 2) with 0
      by (rewrite Nat2Z.inj_mul, Z.mul_comm, Z.mod_mul; lia).
    unfold Str.at_, Str.len. rewrite length_indent.
    destruct (Z.ltb_spec (Z.of_nat (2 * d)) 0) as [?|_]; [lia|].
    rewrite Z.eqb_refl. reflexivity. }
  rewrite Hd. outcome_simpl.
  destruct (Z.eqb_spec (Z.of_nat d) (-1)) as [?|_]; [lia|].
  unfold Str.trim. rewrite (all_space_ltrim _ (all_space_indent d)). reflexivity.
Qed.

(** A line the parser passes over: spaces in pairs, followed by nothing
    or by a comment. *)
Definition passed_over (line : string) : Prop :=
  exists d, line = indent d \/ exists text, line = indent d ++ "//" ++ text.

Lemma parse_loop_passed_over (ls : list string) :
  forall (fuel : nat) (p : OTMLParser),
    Forall passed_over ls -> ls <> [] ->
    in_ p = {| unread := ls; eofbit := false; failbit := false |} ->
    (length ls < fuel)%nat ->
    exists p',
      Parser.parse_loop fuel p = Ok p'
      /\ mem p' = mem p /\ currentLine p' = currentLine p + Z.of_nat (length ls).
Proof.
  induction ls as [|line rest IH]; intros fuel p Hall Hne Hin Hfuel; [contradiction|].
  destruct fuel as [|fuel]; [lia|].
  inversion Hall as [|? ? Hline Hrest]; subst.
  cbn [Parser.parse_loop]. rewrite Hin. cbn [Stream.eof eofbit].
  rewrite (getNextLine_good p line rest) by (rewrite Hin; reflexivity).
  set (q := Parser.set_in _ (Parser.set_currentLine (currentLine p + 1) p)).
  assert (Hskip : Parser.parseLine (S (length (unread (in_ q)))) q line = Ok q).
  { destruct Hline as [d [->|[text ->]]]; [apply parseLine_blank|apply parseLine_comment]. }
  rewrite Hskip. outcome_simpl.
  destruct rest as [|next rest].
  - exists q. destruct fuel as [|fuel]; [cbn [length] in Hfuel; lia|].
    cbn [Parser.parse_loop]. split_and!; [reflexivity|reflexivity|].
    cbn [q Parser.set_in Parser.set_currentLine currentLine length]. lia.
  - destruct (IH fuel q Hrest ltac:(discriminate) ltac:(reflexivity)
                ltac:(cbn [length] in *; lia)) as (p' & Hloop & Hmem & Hcount).
    exists p'. split_and!; [exact Hloop|exact Hmem|].
    rewrite Hcount. cbn [q Parser.set_in Parser.set_currentLine currentLine length]. lia.
Qed.

(** X17. Comment lines and blank lines leave the parser as it is, whatever
    their depth (the depth rule is not applied to them): a text made of
    such lines only, each indented by pairs of spaces, parses into a
    document without children. *)
Theorem comments_and_blank_lines (fuel : nat) (p : OTMLParser) (d : nat) (text : string)
    (h : heap) (source : string) (ls : list string)
    (Hlines : Forall passed_over ls) (Hne : ls <> [])
    (Hnl : Forall (fun l => contains Str.nl l = false) ls) :
  Parser.parseLine fuel p (indent d ++ "//" ++ text) = Ok p
  /\ Parser.parseLine fuel p (indent d) = Ok p
  /\ OTMLDocument_parse h (Stream.open (join_lines ls)) source
     = Ok ((h ++ [Node.setSource source OTMLNode_new])%list, length h).
Proof.
  split_and!; [apply parseLine_comment|apply parseLine_blank|].
  unfold OTMLDocument_parse, alloc, Parser.parse, Stream.open.
  rewrite (lines_join_lines ls Hne Hnl).
  cbn [Parser.new in_ Stream.good eofbit failbit negb andb unread].
  destruct (parse_loop_passed_over ls (S (length ls))
              (Parser.new (h ++ [Node.setSource source OTMLNode_new]) (length h)
                 {| unread := ls; eofbit := false; failbit := false |})
              Hlines Hne ltac:(reflexivity) ltac:(lia)) as (p' & -> & Hmem & _).
  outcome_simpl. rewrite Hmem. reflexivity.
Qed.

Lemma comments_and_blank_lines_witness :
  OTMLDocument_parse [] (Stream.open (join_lines ["// settings"; ""; "    // deep"])) "doc"
  = Ok ([Node.setSource "doc" OTMLNode_new], 0%nat).
Proof.
  apply (comments_and_blank_lines 0 (Parser.new [] 0%nat (Stream.open "")) 0 "" [] "doc"
           ["// settings"; ""; "    // deep"]).
  - repeat constructor.
    + exists 0%nat. right. exists " settings". reflexivity.
    + exists 0%nat. left. reflexivity.
    + exists 2%nat. right. exists " deep". reflexivity.
  - discriminate.
  - repeat constructor.
Defined.

(** ** The tree the parser builds *)

Lemma node_ext_unique (n n' : OTMLNode) :
  m_children n' = m_children n -> m_parent n' = m_parent n -> m_unique n' = m_unique n ->
  Node.setUnique false (Node.setParent None (Node.setChildren [] n'))
  = Node.setUnique false (Node.setParent None (Node.setChildren [] n)) ->
  n' = n.
Proof.
  destruct n as [cs p t v s u z], n' as [cs' p' t' v' s' u' z'].
  unfold Node.setUnique, Node.setParent, Node.setChildren.
  cbn [m_children m_parent m_tag m_value m_source m_unique m_null].
  intros -> -> -> [= -> -> -> ->]. reflexivity.
Qed.

Lemma addChild_cases (h : heap) (self newChild : ptr) :
  (Node.hasTag h newChild = false
   \/ (forall x, x ∈ m_children (deref h self) -> collides h newChild x = false))
  \/ (Node.hasTag h newChild = true
      /\ exists pre node post,
           m_children (deref h self) = (pre ++ node :: post)%list
           /\ (forall x, x ∈ pre -> collides h newChild x = false)
           /\ collides h newChild node = true).
Proof.
  destruct (Node.hasTag h newChild); [|left; left; reflexivity].
  destruct (addChild_find_cases h newChild (m_children (deref h self))) as [?|?];
    [left; right; assumption|right; split; [reflexivity|assumption]].
Qed.

(** [addChild] writes the node, the new child and, when it collapses,
    children of the node; every other node is left as it is.  Of the new
    child it changes the parent reference and the unique flag only. *)
Lemma addChild_frame (h : heap) (self newChild : ptr) :
  (self < length h)%nat -> (newChild < length h)%nat ->
  (forall x, x ∈ m_children (deref h self) -> (x < length h)%nat) ->
  length (Node.addChild h self newChild) = length h
  /\ (forall q, q <> self -> q <> newChild -> q ∉ m_children (deref h self) ->
                deref (Node.addChild h self newChild) q = deref h q)
  /\ (forall q, Node.setUnique false (Node.setParent None (Node.setChildren []
                  (deref (Node.addChild h self newChild) q)))
                = Node.setUnique false (Node.setParent None (Node.setChildren [] (deref h q))))
  /\ (forall q, q <> newChild ->
                m_unique (deref (Node.addChild h self newChild) q) = m_unique (deref h q))
  /\ (forall q, q <> newChild -> m_parent (deref h q) = None ->
                m_parent (deref (Node.addChild h self newChild) q) = None).
Proof.
  intros Hself Hnew Hvalid.
  destruct (addChild_cases h self newChild)
    as [Happ|(Htag & pre & node & post & Hcs & Hpre & Hnode)].
  - destruct (addChild_appended h self newChild Hself Hnew Happ) as (Hlen & Hc & Hp & Hr).
    split_and!.
    + exact Hlen.
    + intros q Hq1 Hq2 _. apply node_ext; [| |apply Hr].
      * rewrite Hc. destruct (decide (q = self)); [contradiction|reflexivity].
      * rewrite Hp. destruct (decide (q = newChild)); [contradiction|reflexivity].
    + intros q. apply content_fields_unique, Hr.
    + intros q _.
      change (m_unique (deref (Node.addChild h self newChild) q))
        with (m_unique (Node.setParent None (Node.setChildren []
                (deref (Node.addChild h self newChild) q)))).
      rewrite Hr. reflexivity.
    + intros q Hq Hnone. rewrite Hp. destruct (decide (q = newChild)); [contradiction|exact Hnone].
  - destruct (addChild_collapsed h self newChild node pre post Hself Hnew Hvalid Htag Hcs
                Hpre Hnode) as (Hlen & Hc & Hp & Hr & Hu).
    split_and!.
    + exact Hlen.
    + intros q Hq1 Hq2 Hq3. apply node_ext_unique; [| | |apply Hr].
      * rewrite Hc. destruct (decide (q = self)); [contradiction|reflexivity].
      * rewrite Hp. destruct (decide (q = newChild)); [contradiction|].
        destruct (decide (q ∈ m_children (deref h self))); [contradiction|reflexivity].
      * rewrite Hu. destruct (decide (q = newChild)); [contradiction|reflexivity].
    + exact Hr.
    + intros q Hq. rewrite Hu. destruct (decide (q = newChild)); [contradiction|reflexivity].
    + intros q Hq Hnone. rewrite Hp. destruct (decide (q = newChild)); [contradiction|].
      destruct (decide (q ∈ m_children (deref h self))); [|exact Hnone].
      destruct (kept h newChild q); [exact Hnone|reflexivity].
Qed.

(** The state of the parser while it reads a document allocated at
    [base] on top of the heap [h0]: the nodes of [h0] are untouched, the
    heap is linked, the document node keeps its fields, and the parser
    points into the part of the heap it has built. *)
Definition building (h0 : heap) (source : string) (p : OTMLParser) : Prop :=
  linked (mem p)
  /\ doc p = length h0
  /\ (length h0 < length (mem p))%nat
  /\ (forall q, (q < length h0)%nat -> deref (mem p) q = deref h0 q)
  /\ Node.setChildren [] (deref (mem p) (length h0)) = Node.setSource source OTMLNode_new
  /\ (forall c, currentParent p = Some c -> (length h0 <= c < length (mem p))%nat)
  /\ (forall c, previousNode p = Some c -> (length h0 <= c < length (mem p))%nat).

(** In a heap built on a linked heap, the nodes above [base] have their
    children and their parent above [base]. *)
Lemma built_above (h0 h : heap) (c : ptr) :
  linked h0 -> linked h -> (length h0 <= length h)%nat ->
  (forall q, (q < length h0)%nat -> deref h q = deref h0 q) ->
  (length h0 <= c < length h)%nat ->
  (forall x, x ∈ m_children (deref h c) -> (length h0 <= x < length h)%nat)
  /\ (forall P, m_parent (deref h c) = Some P -> (length h0 <= P < length h)%nat).
Proof.
  intros Hl0 Hl Hlen Hold Hc. split.
  - intros x Hx. destruct (linked_child h c x Hl ltac:(lia) Hx) as [Hxv Hxp].
    split; [|exact Hxv]. destruct (decide (x < length h0)%nat) as [Hlt|]; [|lia].
    exfalso. rewrite Hold in Hxp by exact Hlt.
    destruct Hl0 as [_ Hiff]. destruct (proj2 (Hiff c x) (conj Hlt Hxp)) as [Hcv _]. lia.
  - intros P HP. destruct Hl as [_ Hiff].
    destruct (proj2 (Hiff P c) (conj (proj2 Hc) HP)) as [HPv Hin].
    split; [|exact HPv]. destruct (decide (P < length h0)%nat) as [Hlt|]; [|lia].
    exfalso. rewrite Hold in Hin by exact Hlt.
    destruct (linked_child h0 P c Hl0 Hlt Hin) as [Hcv _]. lia.
Qed.

Lemma building_parseNode (h0 : heap) (source : string) (fuel : nat) (p p' : OTMLParser)
    (data : string) :
  linked h0 -> building h0 source p ->
  Parser.parseNode fuel p data = Ok p' -> building h0 source p'.
Proof.
  intros Hl0 (Hl & Hdoc & Hlen & Hold & Hroot & Hcur & Hprev) Hparse.
  unfold Parser.parseNode in Hparse.
  destruct (Parser.split_data data) as [[tag value] colon].
  destruct (Parser.read_value fuel p value) as [[v q]| | |] eqn:Hread; outcome_simpl in Hparse;
    try discriminate.
  assert (Hq : mem q = mem p /\ doc q = doc p /\ currentParent q = currentParent p).
  { unfold Parser.read_value in Hread. destruct (Parser.is_block_header value).
    - destruct (Parser.block_loop fuel p "") as [[m q']| | |] eqn:Hloop;
        outcome_simpl in Hread; try discriminate.
      destruct (Parser.block_policy value m); outcome_simpl in Hread; try discriminate.
      injection Hread as _ <-.
      destruct (block_loop_frame fuel p "" m q' Hloop) as (H1 & H2 & H3 & _).
      split_and!; assumption.
    - injection Hread as _ <-. split_and!; reflexivity. }
  destruct Hq as (Hmem & Hdocq & Hcurq).
  unfold safeCast in Hparse. cbn [cast cast_int_string] in Hparse. outcome_simpl in Hparse.
  destruct (build_node_eq (mem q) (doc q) tag v colon (Str.of_Z (currentLine p)))
    as [src Hbuild].
  rewrite Hbuild, Hcurq in Hparse. rewrite Hmem in Hparse.
  destruct (currentParent p) as [parent|] eqn:Hparent; [|discriminate].
  injection Hparse as <-.
  set (n := parsed_node tag v colon src) in *.
  set (h1 := (mem p ++ [n])%list) in *.
  destruct (Hcur parent eq_refl) as [Hpb Hpv].
  assert (Hlen1 : length h1 = S (length (mem p))).
  { unfold h1. rewrite length_app. cbn [length]. lia. }
  assert (Hl1 : linked h1) by (apply linked_alloc; [reflexivity|reflexivity|exact Hl]).
  assert (Hold1 : forall x, (x < length (mem p))%nat -> deref h1 x = deref (mem p) x).
  { intros x Hx. apply deref_app_l. exact Hx. }
  assert (Hnew : deref h1 (length (mem p)) = n) by apply deref_app_last.
  assert (Hchildren : forall x, x ∈ m_children (deref h1 parent) ->
                        (length h0 <= x < length (mem p))%nat).
  { intros x Hx. rewrite Hold1 in Hx by exact Hpv.
    apply (proj1 (built_above h0 (mem p) parent Hl0 Hl ltac:(lia) Hold ltac:(lia)) x Hx). }
  destruct (addChild_frame h1 parent (length (mem p)) ltac:(lia) ltac:(lia))
    as (Hlen' & Hframe & Hcontent & Hunique & Hnone).
  { intros x Hx. pose proof (Hchildren x Hx). lia. }
  set (h' := Node.addChild h1 parent (length (mem p))) in *.
  unfold building.
  cbn [Parser.set_previousNode Parser.set_mem mem doc currentParent previousNode].
  split_and!.
  - apply linked_addChild; [exact Hl1|lia|lia|]. rewrite Hnew. reflexivity.
  - congruence.
  - lia.
  - intros x Hx. rewrite Hframe.
    + rewrite Hold1 by lia. apply Hold. exact Hx.
    + lia.
    + lia.
    + intros Hin. pose proof (Hchildren x Hin). lia.
  - apply node_ext_unique.
    + reflexivity.
    + cbn [Node.setChildren Node.setSource m_parent OTMLNode_new].
      apply Hnone; [lia|]. rewrite Hold1 by lia.
      change (m_parent (Node.setChildren [] (deref (mem p) (length h0))) = None).
      rewrite Hroot. reflexivity.
    + cbn [Node.setChildren Node.setSource m_unique OTMLNode_new].
      rewrite Hunique by lia. rewrite Hold1 by lia.
      change (m_unique (Node.setChildren [] (deref (mem p) (length h0))) = false).
      rewrite Hroot. reflexivity.
    + change (Node.setUnique false (Node.setParent None (Node.setChildren []
                (Node.setChildren [] (deref h' (length h0))))))
        with (Node.setUnique false (Node.setParent None (Node.setChildren []
                (deref h' (length h0))))).
      rewrite Hcontent, Hold1 by lia.
      change (Node.setUnique false (Node.setParent None (Node.setChildren []
                (deref (mem p) (length h0)))))
        with (Node.setUnique false (Node.setParent None (Node.setChildren []
                (Node.setChildren [] (deref (mem p) (length h0)))))).
      rewrite Hroot. reflexivity.
  - intros c Hc. rewrite Hcurq in Hc. injection Hc as <-. lia.
  - intros c [= <-]. lia.
Qed.

Lemma building_ascend (h0 : heap) (h : heap) (n : nat) :
  linked h0 -> linked h -> (length h0 <= length h)%nat ->
  (forall q, (q < length h0)%nat -> deref h q = deref h0 q) ->
  forall (start result : option ptr),
    (forall c, start = Some c -> (length h0 <= c < length h)%nat) ->
    Parser.ascend n h start = Ok result ->
    forall c, result = Some c -> (length h0 <= c < length h)%nat.
Proof.
  intros Hl0 Hl Hlen Hold. induction n as [|n IH]; intros start result Hstart Hasc.
  - cbn [Parser.ascend] in Hasc. injection Hasc as <-. exact Hstart.
  - cbn [Parser.ascend] in Hasc. destruct start as [q|]; [|discriminate].
    apply (IH (Node.parent h q) result); [|exact Hasc].
    intros c Hc.
    apply (proj2 (built_above h0 h q Hl0 Hl Hlen Hold (Hstart q eq_refl)) c Hc).
Qed.

Lemma building_parseLine (h0 : heap) (source : string) (fuel : nat) (p p' : OTMLParser)
    (line : string) :
  linked h0 -> building h0 source p ->
  Parser.parseLine fuel p line = Ok p' -> building h0 source p'.
Proof.
  intros Hl0 Hb Hparse. unfold Parser.parseLine in Hparse.
  destruct (Parser.getLineDepth p line false) as [depth| | |]; outcome_simpl in Hparse;
    try discriminate.
  destruct (depth =? -1); [injection Hparse as <-; exact Hb|].
  destruct (String.eqb (Str.trim line) ""); [injection Hparse as <-; exact Hb|].
  destruct (String.eqb (Str.take 2 (Str.trim line)) "//"); [injection Hparse as <-; exact Hb|].
  pose proof Hb as (Hl & Hdoc & Hlen & Hold & Hroot & Hcur & Hprev).
  assert (Hset : forall q : option ptr,
             (forall c, q = Some c -> (length h0 <= c < length (mem p))%nat) ->
             building h0 source (Parser.set_currentDepth depth (Parser.set_currentParent q p))).
  { intros q Hq. unfold building.
    cbn [Parser.set_currentDepth Parser.set_currentParent mem doc currentParent previousNode].
    split_and!; assumption. }
  destruct (depth =? currentDepth p + 1); outcome_simpl in Hparse.
  - apply (building_parseNode h0 source fuel _ p' _ Hl0 (Hset _ Hprev) Hparse).
  - destruct (depth <? currentDepth p).
    + destruct (Parser.ascend _ (mem p) (currentParent p)) as [q| | |] eqn:Hasc;
        outcome_simpl in Hparse; try discriminate.
      apply (building_parseNode h0 source fuel _ p' _ Hl0 (Hset q ltac:(
        apply (building_ascend h0 (mem p) _ Hl0 Hl ltac:(lia) Hold _ _ Hcur Hasc))) Hparse).
    + destruct (negb (depth =? currentDepth p)); outcome_simpl in Hparse; [discriminate|].
      assert (Hsame : Parser.set_currentDepth depth p
                      = Parser.set_currentDepth depth
                          (Parser.set_currentParent (currentParent p) p))
        by (destruct p; reflexivity).
      rewrite Hsame in Hparse.
      apply (building_parseNode h0 source fuel _ p' _ Hl0 (Hset _ Hcur) Hparse).
Qed.

Lemma building_parse_loop (h0 : heap) (source : string) (fuel : nat) :
  linked h0 ->
  forall p p', building h0 source p -> Parser.parse_loop fuel p = Ok p' ->
               building h0 source p'.
Proof.
  intros Hl0. induction fuel as [|fuel IH]; intros p p' Hb Hloop; [discriminate|].
  cbn [Parser.parse_loop] in Hloop.
  destruct (Stream.eof (in_ p)); [injection Hloop as <-; exact Hb|].
  unfold Parser.getNextLine in Hloop.
  destruct (Stream.getline _) as [line s].
  set (q := Parser.set_in s _) in Hloop.
  assert (Hq : building h0 source q) by exact Hb.
  destruct (Parser.parseLine _ q line) as [q'| | |] eqn:Hline; outcome_simpl in Hloop;
    try discriminate.
  apply (IH q' p'); [|exact Hloop].
  apply (building_parseLine h0 source _ q q' line Hl0 Hq Hline).
Qed.

(** X19. The tree the parser returns.  The document is a new node on top of
    the given heap, whose nodes are left untouched; in the new heap every
    node is in the child list of exactly the node its parent reference
    names, and no child list holds a node twice.  The document keeps the
    source it was given and has no parent, no value and an empty tag: the
    parser never gives it the tag [doc] that [OTMLDocument::create] sets. *)
Theorem parse_builds_linked_tree (h h' : heap) (text source : string) (root : ptr)
    (Hlinked : linked h)
    (Hparse : OTMLDocument_parse h (Stream.open text) source = Ok (h', root)) :
  root = length h
  /\ (length h < length h')%nat
  /\ linked h'
  /\ (forall q, (q < length h)%nat -> deref h' q = deref h q)
  /\ Node.setChildren [] (deref h' root) = Node.setSource source OTMLNode_new
  /\ Node.tag h' root = "" /\ Node.source h' root = source /\ Node.parent h' root = None
  /\ Node.tag (fst (OTMLDocument_create h)) (snd (OTMLDocument_create h)) = "doc".
Proof.
  unfold OTMLDocument_parse, alloc, Parser.parse in Hparse.
  cbn [Parser.new in_ Stream.open Stream.good eofbit failbit negb andb unread mem doc]
    in Hparse.
  set (p0 := Parser.new (h ++ [Node.setSource source OTMLNode_new]) (length h)
               (Stream.open text)) in Hparse.
  destruct (Parser.parse_loop _ p0) as [p'| | |] eqn:Hloop; outcome_simpl in Hparse;
    try discriminate.
  injection Hparse as <- <-.
  assert (Hb0 : building h source p0).
  { unfold building, p0. cbn [Parser.new mem doc currentParent previousNode].
    split_and!.
    - apply linked_alloc; [reflexivity|reflexivity|exact Hlinked].
    - reflexivity.
    - rewrite length_app. cbn [length]. lia.
    - intros q Hq. apply deref_app_l. exact Hq.
    - rewrite deref_app_last. reflexivity.
    - intros c [= <-]. rewrite length_app. cbn [length]. lia.
    - discriminate. }
  destruct (building_parse_loop h source _ Hlinked p0 p' Hb0 Hloop)
    as (Hl & Hdoc & Hlen & Hold & Hroot & _).
  assert (Hfields : forall A (proj : OTMLNode -> A),
             (forall n, proj (Node.setChildren [] n) = proj n) ->
             proj (deref (mem p') (length h)) = proj (Node.setSource source OTMLNode_new)).
  { intros A proj Hproj. rewrite <- Hroot. symmetry. apply Hproj. }
  split_and!; try assumption.
  - reflexivity.
  - apply (Hfields _ m_tag). reflexivity.
  - apply (Hfields _ m_source). reflexivity.
  - apply (Hfields _ m_parent). reflexivity.
  - unfold OTMLDocument_create, alloc, Node.tag. cbn [fst snd]. rewrite deref_app_last.
    reflexivity.
Qed.

Lemma parse_builds_linked_tree_witness :
  match OTMLDocument_parse [] (Stream.open ("a: 1" ++ String Str.nl "  b: 2")) "doc" with
  | Ok (h', doc) => linked h' /\ Node.tag h' doc = ""
  | _ => False
  end.
Proof.
  destruct (OTMLDocument_parse [] (Stream.open ("a: 1" ++ String Str.nl "  b: 2")) "doc")
    as [[h' doc]| | |] eqn:Hparse; try (vm_compute in Hparse; discriminate).
  destruct (parse_builds_linked_tree [] h' _ "doc" doc linked_nil Hparse)
    as (_ & _ & Hl & _ & _ & Htag & _).
  split; assumption.
Defined.

(** ** [clone] and [merge] *)

(** The nodes of the heap that hold the tree [t] at [p]. *)
Fixpoint nodes (h : heap) (t : tree) (p : ptr) {struct t} : list ptr :=
  match t with
  | Tree _ _ _ _ children =>
      p :: (fix all (ts : list tree) (ps : list ptr) {struct ts} : list ptr :=
              match ts, ps with
              | t' :: ts', p' :: ps' => (nodes h t' p' ++ all ts' ps')%list
              | _, _ => []
              end) children (m_children (deref h p))
  end.

Fixpoint forest_nodes (h : heap) (ts : list tree) (ps : list ptr) : list ptr :=
  match ts, ps with
  | t :: ts', p :: ps' => (nodes h t p ++ forest_nodes h ts' ps')%list
  | _, _ => []
  end.

Lemma nodes_unfold (h : heap) (t : tree) (p : ptr) :
  nodes h t p = p :: forest_nodes h (t_children t) (m_children (deref h p)).
Proof.
  destruct t as [tag value unique null children]. cbn [nodes t_children]. f_equal.
  generalize (m_children (deref h p)).
  induction children as [|c cs IH]; intros ps; [reflexivity|].
  destruct ps as [|q qs]; [reflexivity|]. cbn [forest_nodes]. rewrite IH. reflexivity.
Qed.

(** A heap that agrees with [h] on the nodes of a tree, up to the parent
    references, holds the same tree in the same nodes. *)
Lemma repr_frame_nodes (t : tree) :
  forall (h h' : heap) (lo : nat) (p : ptr),
    repr h lo t p ->
    (length h <= length h')%nat ->
    (forall q, q ∈ nodes h t p ->
       Node.setParent None (deref h' q) = Node.setParent None (deref h q)) ->
    repr h' lo t p /\ nodes h' t p = nodes h t p.
Proof.
  induction t as [tag value unique null children IH] using tree_induction.
  intros h h' lo p Hrepr Hlen Hsame.
  set (t := Tree tag value unique null children) in *.
  apply repr_unfold in Hrepr. destruct Hrepr as (Hp & Htag & Hvalue & Hunique & Hnull & Hcs).
  rewrite nodes_unfold in Hsame.
  assert (Hroot : Node.setParent None (deref h' p) = Node.setParent None (deref h p)).
  { apply Hsame. left. }
  assert (Hfield : forall A (proj : OTMLNode -> A),
             (forall n, proj (Node.setParent None n) = proj n) ->
             proj (deref h' p) = proj (deref h p)).
  { intros A proj Hproj. rewrite <- (Hproj (deref h' p)), Hroot. apply Hproj. }
  assert (Hkids : forall cs qs,
             Forall (fun t => forall (h h' : heap) (lo : nat) (p : ptr),
                       repr h lo t p -> (length h <= length h')%nat ->
                       (forall q, q ∈ nodes h t p ->
                          Node.setParent None (deref h' q) = Node.setParent None (deref h q)) ->
                       repr h' lo t p /\ nodes h' t p = nodes h t p) cs ->
             Forall2 (repr h lo) cs qs ->
             (forall q, q ∈ forest_nodes h cs qs ->
                Node.setParent None (deref h' q) = Node.setParent None (deref h q)) ->
             Forall2 (repr h' lo) cs qs /\ forest_nodes h' cs qs = forest_nodes h cs qs).
  { clear - Hlen. intros cs qs IH Hcs. revert IH.
    induction Hcs as [|c q cs qs Hc _ IHcs]; intros IH Hsub;
      [split; [constructor|reflexivity]|].
    inversion IH as [|? ? IHc IHrest]; subst. cbn [forest_nodes] in Hsub |- *.
    destruct (IHc h h' lo q Hc Hlen) as [Hc' Hn'].
    { intros x Hx. apply Hsub. apply elem_of_app. left. exact Hx. }
    destruct (IHcs IHrest) as [Hcs' Hns'].
    { intros x Hx. apply Hsub. apply elem_of_app. right. exact Hx. }
    split; [constructor; assumption|]. rewrite Hn', Hns'. reflexivity. }
  specialize (Hkids (t_children t) (m_children (deref h p)) IH Hcs
                (fun q Hq => Hsame q ltac:(right; exact Hq))).
  destruct Hkids as [Hcs' Hns']. split.
  - apply repr_unfold.
    rewrite (Hfield _ m_tag (fun _ => eq_refl)), (Hfield _ m_value (fun _ => eq_refl)),
      (Hfield _ m_unique (fun _ => eq_refl)), (Hfield _ m_null (fun _ => eq_refl)),
      (Hfield _ m_children (fun _ => eq_refl)).
    split_and!; try assumption; lia.
  - rewrite !nodes_unfold, (Hfield _ m_children (fun _ => eq_refl)), Hns'. reflexivity.
Qed.

Lemma repr_nodes_bound (t : tree) :
  forall (h : heap) (lo : nat) (p q : ptr),
    repr h lo t p -> q ∈ nodes h t p -> (lo <= q < length h)%nat.
Proof.
  induction t as [tag value unique null children IH] using tree_induction.
  intros h lo p q Hrepr Hq.
  set (t := Tree tag value unique null children) in *.
  apply repr_unfold in Hrepr. destruct Hrepr as (Hp & _ & _ & _ & _ & Hcs).
  rewrite nodes_unfold in Hq. apply elem_of_cons in Hq as [->|Hq]; [exact Hp|].
  cbn [t_children t] in *. clear Hp. revert IH Hq.
  induction Hcs as [|c x cs xs Hc _ IHcs]; intros IH Hq; [inversion Hq|].
  inversion IH as [|? ? IHc IHrest]; subst. cbn [forest_nodes] in Hq.
  apply elem_of_app in Hq as [Hq|Hq].
  - apply (IHc h lo x q Hc Hq).
  - apply (IHcs IHrest Hq).
Qed.

(** The key [addChild] compares: the tag and the unique flag. *)
Definition sibling_key (t : tree) : string * bool := (t_tag t, t_unique t).

(** No node of the tree collides with an earlier sibling when the
    children are added one after the other. *)
Fixpoint distinct (t : tree) : bool :=
  match t with
  | Tree _ _ _ _ children =>
      keys_ok [] (List.map sibling_key children) && forallb distinct children
  end.

Lemma distinct_unfold (t : tree) :
  distinct t = keys_ok [] (List.map sibling_key (t_children t))
               && forallb distinct (t_children t).
Proof. destruct t. reflexivity. Qed.

(** The children of [target] are valid nodes other than [target], with
    the keys [seen]. *)
Definition kids (h : heap) (target : ptr) (seen : list (string * bool)) : Prop :=
  Forall2 (fun x k => (x < length h)%nat /\ x <> target
                      /\ (Node.tag h x, Node.isUnique h x) = k)
    (m_children (deref h target)) seen.

Lemma kids_no_clash (h : heap) (target newChild : ptr) (seen : list (string * bool)) :
  kids h target seen ->
  forallb (fun k0 => negb (clash k0 (Node.tag h newChild, Node.isUnique h newChild))) seen
  = true ->
  Node.hasTag h newChild = false
  \/ (forall x, x ∈ m_children (deref h target) -> collides h newChild x = false).
Proof.
  intros Hkids Hall. unfold Node.hasTag.
  destruct (String.eqb_spec (Node.tag h newChild) "") as [|Hne]; [left; reflexivity|right].
  unfold kids in Hkids. intros x Hx.
  induction Hkids as [|y k ys ks (_ & _ & Hk) _ IH]; [inversion Hx|].
  cbn [forallb] in Hall. apply andb_true_iff in Hall as [Hk0 Hall].
  apply elem_of_cons in Hx as [->|Hx]; [|apply IH; assumption].
  apply negb_true_iff in Hk0. rewrite <- Hk in Hk0. unfold clash in Hk0.
  cbn [fst snd] in Hk0. unfold collides.
  destruct (String.eqb_spec (Node.tag h newChild) "") as [|_]; [contradiction|].
  cbn [negb andb] in Hk0. exact Hk0.
Qed.

(** The appending [addChild] leaves every node but the two as it is. *)
Lemma addChild_appended_frame (h : heap) (self newChild : ptr) :
  (self < length h)%nat -> (newChild < length h)%nat -> self <> newChild ->
  Node.hasTag h newChild = false
  \/ (forall x, x ∈ m_children (deref h self) -> collides h newChild x = false) ->
  let h' := Node.addChild h self newChild in
  length h' = length h
  /\ (forall q, q <> self -> q <> newChild -> deref h' q = deref h q)
  /\ deref h' self = Node.setChildren (m_children (deref h self) ++ [newChild]) (deref h self)
  /\ deref h' newChild = Node.setParent (Some self) (deref h newChild).
Proof.
  intros Hself Hnew Hne Happ h'. unfold h'.
  rewrite (addChild_append_eq h self newChild Happ). split_and!.
  - rewrite !length_update. reflexivity.
  - intros q Hq1 Hq2. rewrite !deref_update_ne by congruence. reflexivity.
  - rewrite deref_update_ne by congruence. rewrite deref_update_eq by exact Hself. reflexivity.
  - rewrite deref_update_eq by (rewrite length_update; exact Hnew).
    rewrite deref_update_ne by congruence. reflexivity.
Qed.

Lemma forest_nodes_bound (h : heap) (lo : nat) (ts : list tree) (ps : list ptr) (q : ptr) :
  Forall2 (repr h lo) ts ps -> q ∈ forest_nodes h ts ps -> (lo <= q < length h)%nat.
Proof.
  induction 1 as [|t p ts ps Ht _ IH]; cbn [forest_nodes]; intros Hq; [inversion Hq|].
  apply elem_of_app in Hq as [Hq|Hq]; [apply (repr_nodes_bound t h lo p q Ht Hq)|apply IH, Hq].
Qed.

(** What [clone] does on a tree without collisions. *)
Definition clones (t : tree) : Prop :=
  forall (h : heap) (lo : nat) (self : ptr) (fuel : nat),
    repr h lo t self -> distinct t = true -> (height t <= fuel)%nat ->
    exists h',
      Node.clone fuel h self = Ok (h', length h)
      /\ (length h < length h')%nat
      /\ (forall q, (q < length h)%nat -> deref h' q = deref h q)
      /\ repr h' (length h) t (length h)
      /\ m_parent (deref h' (length h)) = None
      /\ m_source (deref h' (length h)) = m_source (deref h self)
      /\ (linked h -> linked h').

Lemma setChildren_twice (l l' : list ptr) (n : OTMLNode) :
  Node.setChildren l (Node.setChildren l' n) = Node.setChildren l n.
Proof. reflexivity. Qed.

Lemma clone_children_trees (fuel : nat) (ts : list tree) :
  Forall clones ts ->
  forall (cs : list ptr) (h0 : heap) (lo : nat) (h : heap) (target : ptr)
         (seen : list (string * bool)),
    Forall2 (repr h0 lo) ts cs ->
    (length h0 <= length h)%nat ->
    (forall q, q ∈ forest_nodes h0 ts cs -> deref h q = deref h0 q) ->
    (target < length h)%nat -> target ∉ forest_nodes h0 ts cs ->
    kids h target seen ->
    keys_ok seen (List.map sibling_key ts) = true ->
    forallb distinct ts = true ->
    (forall t, t ∈ ts -> (height t <= fuel)%nat) ->
    exists h' ns,
      Node.clone_children (Node.clone fuel) h target cs = Ok h'
      /\ (length h <= length h')%nat
      /\ (forall q, (q < length h)%nat -> q <> target -> deref h' q = deref h q)
      /\ deref h' target
         = Node.setChildren (m_children (deref h target) ++ ns) (deref h target)
      /\ Forall2 (repr h' (length h)) ts ns
      /\ (linked h -> linked h').
Proof.
  induction 1 as [|tc ts Hclones _ IH];
    intros cs h0 lo h target seen Hcs Hlen Hsrc Htarget Hout Hkids Hkeys Hdistinct Hfuel.
  - inversion Hcs; subst. exists h, []. cbn [Node.clone_children]. split_and!.
    + reflexivity.
    + lia.
    + reflexivity.
    + rewrite app_nil_r, setChildren_same. reflexivity.
    + constructor.
    + trivial.
  - inversion Hcs as [|? c ? cs' Hc Hcs']; subst. cbn [forest_nodes] in Hsrc, Hout.
    cbn [List.map keys_ok] in Hkeys. apply andb_true_iff in Hkeys as [Hkey Hkeys].
    cbn [forallb] in Hdistinct. apply andb_true_iff in Hdistinct as [Hdc Hdistinct].
    (* the clone of the first child *)
    assert (Hc_h : repr h lo tc c).
    { apply (repr_frame_nodes tc h0 h lo c Hc Hlen).
      intros q Hq. rewrite Hsrc; [reflexivity|]. apply elem_of_app. left. exact Hq. }
    destruct (Hclones h lo c fuel Hc_h Hdc (Hfuel tc ltac:(left)))
      as (h1 & Hclone & Hlen1 & Hold1 & Hrepr1 & Hpar1 & _ & Hl1).
    set (ck := length h) in *.
    apply repr_unfold in Hrepr1 as Hroot1.
    destruct Hroot1 as (_ & Htag1 & _ & Hunique1 & _).
    (* its attachment *)
    assert (Hkids1 : kids h1 target seen).
    { unfold kids in *. rewrite Hold1 by exact Htarget.
      eapply Forall2_impl; [exact Hkids|]. intros x k (Hx & Hxt & Hk).
      split_and!; [lia|exact Hxt|]. unfold Node.tag, Node.isUnique in *.
      rewrite Hold1 by exact Hx. exact Hk. }
    assert (Happ : Node.hasTag h1 ck = false
                   \/ (forall x, x ∈ m_children (deref h1 target) ->
                         collides h1 ck x = false)).
    { apply (kids_no_clash h1 target ck seen Hkids1).
      unfold Node.tag, Node.isUnique. rewrite Htag1, Hunique1. exact Hkey. }
    destruct (addChild_appended_frame h1 target ck ltac:(lia) ltac:(unfold ck; lia)
                ltac:(unfold ck; lia) Happ) as (Hlen2 & Hframe2 & Htarget2 & Hck2).
    set (h2 := Node.addChild h1 target ck) in *.
    (* the other children *)
    destruct (IH cs' h0 lo h2 target (seen ++ [sibling_key tc])%list Hcs')
      as (h' & ns & Hrest & Hlen' & Hframe' & Htarget' & Hrepr' & Hl').
    + lia.
    + intros q Hq.
      pose proof (forest_nodes_bound h0 lo ts cs' q Hcs' Hq) as Hb.
      rewrite Hframe2.
      * rewrite Hold1 by (unfold ck; lia). apply Hsrc. apply elem_of_app. right. exact Hq.
      * intros ->. apply Hout. apply elem_of_app. right. exact Hq.
      * unfold ck. lia.
    + lia.
    + intros Hin. apply Hout. apply elem_of_app. right. exact Hin.
    + unfold kids. rewrite Htarget2. cbn [Node.setChildren m_children].
      apply Forall2_app.
      * unfold kids in Hkids. rewrite Hold1 by exact Htarget.
        eapply Forall2_impl; [exact Hkids|].
        intros x k (Hx & Hxt & Hk). split_and!; [lia|exact Hxt|].
        unfold Node.tag, Node.isUnique in *.
        rewrite Hframe2 by (try exact Hxt; unfold ck; lia).
        rewrite Hold1 by exact Hx. exact Hk.
      * constructor; [|constructor]. split_and!; [unfold ck; lia|unfold ck; lia|].
        unfold Node.tag, Node.isUnique. rewrite Hck2.
        cbn [Node.setParent m_tag m_unique]. rewrite Htag1, Hunique1. reflexivity.
    + exact Hkeys.
    + exact Hdistinct.
    + intros t Ht. apply Hfuel. right. exact Ht.
    + exists h', (ck :: ns). split_and!.
      * cbn [Node.clone_children]. rewrite Hclone. outcome_simpl. exact Hrest.
      * lia.
      * intros q Hq Hqt. rewrite Hframe' by (try lia; exact Hqt).
        rewrite Hframe2 by (try exact Hqt; unfold ck; lia). apply Hold1. exact Hq.
      * rewrite Htarget', Htarget2, Hold1 by exact Htarget.
        cbn [Node.setChildren m_children]. rewrite <- app_assoc. reflexivity.
      * constructor.
        -- assert (Hrepr2 : repr h2 ck tc ck /\ nodes h2 tc ck = nodes h1 tc ck).
           { apply (repr_frame_nodes tc h1 h2 ck ck Hrepr1 ltac:(lia)).
             intros q Hq. pose proof (repr_nodes_bound tc h1 ck ck q Hrepr1 Hq) as Hb.
             destruct (decide (q = ck)) as [->|Hne].
             - rewrite Hck2. reflexivity.
             - rewrite Hframe2; [reflexivity| |exact Hne]. unfold ck in *. lia. }
           destruct Hrepr2 as [Hrepr2 Hnodes2].
           apply (repr_frame_nodes tc h2 h' ck ck Hrepr2 Hlen').
           intros q Hq. pose proof (repr_nodes_bound tc h2 ck ck q Hrepr2 Hq) as Hb.
           rewrite Hframe'; [reflexivity|lia|unfold ck in *; lia].
        -- eapply Forall2_impl; [exact Hrepr'|]. intros t n Ht.
           eapply repr_lower; [exact Ht|unfold ck; lia].
      * intros Hl. apply Hl'. apply linked_addChild; [apply Hl1; exact Hl|lia|unfold ck; lia|].
        exact Hpar1.
Qed.

Lemma clone_tree (t : tree) : clones t.
Proof.
  induction t as [tag value unique null children IH] using tree_induction.
  intros h lo self fuel Hrepr Hdistinct Hfuel.
  set (t := Tree tag value unique null children) in *.
  destruct fuel as [|fuel]; [cbn [height t] in Hfuel; lia|].
  pose proof Hrepr as Hrepr0.
  apply repr_unfold in Hrepr. destruct Hrepr as (Hself & Htag & Hvalue & Hunique & Hnull & Hcs).
  rewrite distinct_unfold in Hdistinct. apply andb_true_iff in Hdistinct as [Hkeys Hdistinct].
  set (n := Node.setSource (m_source (deref h self))
              (Node.setNull (m_null (deref h self))
                 (Node.setUnique (m_unique (deref h self))
                    (Node.setValue (m_value (deref h self))
                       (Node.setTag (m_tag (deref h self)) OTMLNode_new))))).
  assert (Hstart : Node.clone (S fuel) h self
                   = (h2 ← Node.clone_children (Node.clone fuel) (h ++ [n]) (length h)
                             (m_children (deref h self));
                      Ok (h2, length h))).
  { cbn [Node.clone]. unfold alloc.
    rewrite (deref_app_l h _ self) by lia. rewrite update_app_last.
    rewrite (deref_app_l h _ self) by lia. rewrite update_app_last.
    rewrite (deref_app_l h _ self) by lia. rewrite update_app_last.
    rewrite (deref_app_l h _ self) by lia. rewrite update_app_last.
    rewrite (deref_app_l h _ self) by lia. rewrite update_app_last.
    rewrite (deref_app_l h _ self) by lia. reflexivity. }
  set (h1 := (h ++ [n])%list) in *.
  assert (Hlen1 : length h1 = S (length h)).
  { unfold h1. rewrite length_app. cbn [length]. lia. }
  assert (Hnew : deref h1 (length h) = n) by apply deref_app_last.
  destruct (clone_children_trees fuel (t_children t) IH (m_children (deref h self))
              h lo h1 (length h) [] Hcs)
    as (h' & ns & Hloop & Hlen' & Hframe & Htarget & Hrepr' & Hl').
  - lia.
  - intros q Hq. apply deref_app_l.
    apply (forest_nodes_bound h lo _ _ q Hcs Hq).
  - lia.
  - intros Hin. pose proof (forest_nodes_bound h lo _ _ _ Hcs Hin). lia.
  - unfold kids. rewrite Hnew. constructor.
  - exact Hkeys.
  - exact Hdistinct.
  - intros c Hc. pose proof (height_children t c Hc). lia.
  - exists h'. rewrite Hnew in Htarget. cbn [n Node.setSource Node.setNull Node.setUnique
      Node.setValue Node.setTag Node.setChildren m_children OTMLNode_new app] in Htarget.
    split_and!.
    + rewrite Hstart, Hloop. reflexivity.
    + lia.
    + intros q Hq. rewrite Hframe by lia. apply deref_app_l. exact Hq.
    + apply repr_unfold. rewrite Htarget.
      cbn [m_tag m_value m_unique m_null m_children].
      split_and!; try assumption; try lia.
      eapply Forall2_impl; [exact Hrepr'|]. intros c q Hc.
      eapply repr_lower; [exact Hc|lia].
    + rewrite Htarget. reflexivity.
    + rewrite Htarget. reflexivity.
    + intros Hl. apply Hl'. apply linked_alloc; [reflexivity|reflexivity|exact Hl].
Qed.

(** X12. [clone] makes a deep copy of a tree in which no node collides with an
    earlier sibling: the copy is a new node that holds the same tree, tag
    for tag, value for value and flag for flag, in new nodes only; it has
    no parent and the source of the original, and the nodes that existed
    are untouched.  Parent references and child lists stay in agreement.
    When siblings collide the copy is not faithful: the clone of three
    children [a], [b], [a], the last one unique, has two children. *)
Theorem clone_deep_copy (h : heap) (lo : nat) (self : ptr) (t : tree) (fuel : nat)
    (Hrepr : repr h lo t self) (Hdistinct : distinct t = true)
    (Hfuel : (height t <= fuel)%nat) :
  (exists h',
      Node.clone fuel h self = Ok (h', length h)
      /\ (forall q, (q < length h)%nat -> deref h' q = deref h q)
      /\ repr h' (length h) t (length h)
      /\ Node.parent h' (length h) = None
      /\ Node.source h' (length h) = Node.source h self
      /\ (linked h -> linked h'))
  /\ match Node.clone 2 siblings_heap 0%nat with
     | Ok (h', copy) => Node.size siblings_heap 0%nat = 3 /\ Node.size h' copy = 2
     | _ => False
     end.
Proof.
  split; [|vm_compute; split; reflexivity].
  destruct (clone_tree t h lo self fuel Hrepr Hdistinct Hfuel)
    as (h' & Hclone & _ & Hold & Hcopy & Hparent & Hsource & Hl).
  exists h'. split_and!; assumption.
Qed.

Lemma clone_deep_copy_witness :
  exists h',
    Node.clone 2 null_child_heap 3%nat = Ok (h', 5%nat)
    /\ repr h' 5 (Tree "c" "" false false [Tree "d" "" false true []]) 5%nat
    /\ Node.parent h' 5%nat = None.
Proof.
  destruct (clone_deep_copy null_child_heap 0 3%nat
              (Tree "c" "" false false [Tree "d" "" false true []]) 2)
    as [(h' & Hclone & _ & Hcopy & Hparent & _) _].
  - cbv. repeat constructor.
  - vm_compute. reflexivity.
  - vm_compute. lia.
  - exists h'. split_and!; assumption.
Defined.

(** Two documents: node 0 with the unique child [a] of value 1, and node
    2, of source [theme], with the unique child [a] of value 2 and the
    child [b] of value 3. *)
Definition merge_heap : heap :=
  let '(h, d1) := OTMLDocument_create [] in
  let '(h, a1) := Node.create_value h "a" "1" in
  let h := Node.addChild h d1 a1 in
  let '(h, d2) := Node.create h "style" false in
  let h := update h d2 (Node.setSource "theme") in
  let '(h, a2) := Node.create_value h "a" "2" in
  let h := Node.addChild h d2 a2 in
  let '(h, b) := Node.create_value h "b" "3" in
  Node.addChild h d2 b.

(** X13. [merge] adds to the node a deep copy of every child of the merged
    node, in order, and then takes over its tag and its source; the value
    and the flags of the node and all other nodes stay as they are.  This
    holds when the node is outside the merged children, and no copy
    collides with a child of the node or with an earlier copy; a copy that
    collides replaces the child instead, as [a] does in the example.
    Merging a node that has children into itself is undefined: the loop
    runs over the vector it extends. *)
Theorem merge_spec (h : heap) (lo : nat) (self node : ptr) (ts : list tree)
    (seen : list (string * bool)) (fuel : nat)
    (Hself : (self < length h)%nat) (Hnode : (node < length h)%nat) (Hne : self <> node)
    (Hts : Forall2 (repr h lo) ts (m_children (deref h node)))
    (Hout : self ∉ forest_nodes h ts (m_children (deref h node)))
    (Hkids : kids h self seen)
    (Hkeys : keys_ok seen (List.map sibling_key ts) = true)
    (Hdistinct : forallb distinct ts = true)
    (Hfuel : forall t, t ∈ ts -> (height t <= fuel)%nat) :
  (exists h' ns,
      Node.merge fuel h self node = Ok h'
      /\ m_children (deref h' self) = (m_children (deref h self) ++ ns)%list
      /\ Forall2 (repr h' (length h)) ts ns
      /\ Node.tag h' self = Node.tag h node
      /\ Node.source h' self = Node.source h node
      /\ Node.setSource "" (Node.setTag "" (Node.setChildren [] (deref h' self)))
         = Node.setSource "" (Node.setTag "" (Node.setChildren [] (deref h self)))
      /\ (forall q, (q < length h)%nat -> q <> self -> deref h' q = deref h q)
      /\ (linked h -> linked h'))
  /\ (m_children (deref h self) <> [] -> Node.merge fuel h self self = Undefined OutOfRange)
  /\ match Node.merge 2 merge_heap 0%nat 2%nat with
     | Ok h' =>
         Node.valueAt (T := string) h' 0%nat "a" = Ok "2"
         /\ Node.valueAt (T := string) h' 0%nat "b" = Ok "3"
         /\ Node.size h' 0%nat = 2 /\ Node.source h' 0%nat = "theme"
     | _ => False
     end.
Proof.
  split_and!; [| |vm_compute; split_and!; reflexivity].
  - destruct (clone_children_trees fuel ts ltac:(apply List.Forall_forall; intros; apply clone_tree)
                (m_children (deref h node)) h lo h self seen Hts ltac:(lia)
                ltac:(reflexivity) Hself Hout Hkids Hkeys Hdistinct Hfuel)
      as (h1 & ns & Hloop & Hlen & Hframe & Htarget & Hrepr & Hl).
    set (h2 := update h1 self (Node.setTag (Node.tag h1 node))).
    set (h3 := update h2 self (Node.setSource (Node.source h2 node))).
    assert (Hmerge : Node.merge fuel h self node = Ok h3).
    { unfold Node.merge. cbv zeta.
      destruct (Nat.eqb_spec self node) as [?|_]; [contradiction|].
      destruct (m_children (deref h node)) as [|c cs] eqn:Hcs.
      - cbn [Node.clone_children] in Hloop. injection Hloop as <-. reflexivity.
      - rewrite Hloop. reflexivity. }
    assert (Hnode1 : deref h1 node = deref h node) by (apply Hframe; [exact Hnode|congruence]).
    assert (Hnode2 : deref h2 node = deref h1 node).
    { unfold h2. apply deref_update_ne. exact Hne. }
    assert (Hself3 : deref h3 self
                     = Node.setSource (m_source (deref h node))
                         (Node.setTag (m_tag (deref h node)) (deref h1 self))).
    { unfold h3, h2, Node.tag, Node.source.
      rewrite deref_update_eq by (rewrite length_update; lia).
      rewrite deref_update_eq by lia.
      rewrite deref_update_ne by exact Hne. rewrite Hnode1. reflexivity. }
    assert (Hother : forall q, q <> self -> deref h3 q = deref h1 q).
    { intros q Hq. unfold h3, h2. rewrite !deref_update_ne by congruence. reflexivity. }
    exists h3, ns. split_and!.
    + exact Hmerge.
    + rewrite Hself3, Htarget. reflexivity.
    + eapply Forall2_impl; [exact Hrepr|]. intros t n Ht.
      destruct (repr_frame_nodes t h1 h3 (length h) n Ht) as [Ht3 _]; [| |exact Ht3].
      * unfold h3, h2. rewrite !length_update. lia.
      * intros q Hq. pose proof (repr_nodes_bound t h1 (length h) n q Ht Hq).
        rewrite Hother by lia. reflexivity.
    + unfold Node.tag. rewrite Hself3. reflexivity.
    + unfold Node.source. rewrite Hself3. reflexivity.
    + rewrite Hself3, Htarget. reflexivity.
    + intros q Hq Hqs. rewrite Hother by exact Hqs. apply Hframe; assumption.
    + intros Hlinked. apply (linked_same h1 h3).
      * unfold h3, h2. rewrite !length_update. reflexivity.
      * intros q. unfold h3, h2. rewrite !(deref_update_field m_children) by reflexivity.
        reflexivity.
      * intros q. unfold h3, h2. rewrite !(deref_update_field m_parent) by reflexivity.
        reflexivity.
      * apply Hl. exact Hlinked.
  - intros Hcs. unfold Node.merge. cbv zeta.
    destruct (m_children (deref h self)); [contradiction|].
    rewrite Nat.eqb_refl. reflexivity.
Qed.

Lemma merge_spec_witness :
  exists h' ns,
    Node.merge 2 merge_heap 1%nat 2%nat = Ok h'
    /\ m_children (deref h' 1%nat) = ns
    /\ Forall2 (repr h' 5) [Tree "a" "2" true false []; Tree "b" "3" true false []] ns
    /\ Node.tag h' 1%nat = "style".
Proof.
  destruct (merge_spec merge_heap 0 1%nat 2%nat
              [Tree "a" "2" true false []; Tree "b" "3" true false []] [] 2)
    as [(h' & ns & Hmerge & Hchildren & Hcopies & Htag & _) _].
  - vm_compute. lia.
  - vm_compute. lia.
  - discriminate.
  - cbv. repeat constructor.
  - change (1%nat ∉ [3; 4]%nat). intros Hin.
    repeat (apply elem_of_cons in Hin as [Hin|Hin]; [discriminate Hin|]). inversion Hin.
  - unfold kids. vm_compute. constructor.
  - vm_compute. reflexivity.
  - vm_compute. reflexivity.
  - intros t Ht. elem_cases Ht; vm_compute; lia.
  - exists h', ns. split_and!; [exact Hmerge|exact Hchildren|exact Hcopies|].
    rewrite Htag. vm_compute. reflexivity.
Defined.

(** ** How a line is split into tag and value *)

(** X18. [parseNode] splits a line at its first colon, so the value may hold
    colons (a URL, say); the tag is the text before the colon, possibly
    empty.  A line that begins with a dash is an entry without tag: it is
    never split, but it is still marked unique when a colon occurs in it.
    A line without colon is a tag without value.  Tag and value are
    trimmed. *)
Theorem split_line (tag rest : string) :
  (first_is "-" tag = false -> contains ":" tag = false ->
   Parser.split_data (tag ++ ":" ++ rest) = (Str.trim tag, Str.trim rest, true))
  /\ Parser.split_data ("-" ++ rest) = ("", Str.trim rest, contains ":" rest)
  /\ (first_is "-" tag = false -> contains ":" tag = false ->
      Parser.split_data tag = (Str.trim tag, "", false)).
Proof.
  split_and!.
  - intros Hdash Hcolon. destruct (String.eqb_spec tag "") as [->|Hne].
    + change ("" ++ ":" ++ rest) with (String ":" rest).
      unfold Parser.split_data. cbn [Str.find Ascii.eqb Bool.eqb].
      change (Ascii.eqb ":" ":") with true. cbv iota.
      change (Ascii.eqb ":" "-") with false. cbv iota.
      change (Str.take 0 (String ":" rest)) with "".
      change (Str.drop 1 (String ":" rest)) with rest.
      unfold Str.len. cbn [String.length].
      destruct rest as [|x rest].
      * reflexivity.
      * destruct (Z.ltb_spec (Z.of_nat 0 + 1)
                    (Z.of_nat (S (String.length (String x rest)))))
          as [_|Hge]; [reflexivity|]. cbn [String.length] in Hge. lia.
    + apply (split_data_colon tag rest Hne Hdash Hcolon).
  - change ("-" ++ rest) with (String "-" rest). rewrite split_data_dash.
    rewrite trim_idempotent. reflexivity.
  - intros Hdash Hcolon. apply split_data_plain; assumption.
Qed.

Lemma split_line_witness :
  Parser.split_data "url: http://host:80/" = ("url", "http://host:80/", true)
  /\ Parser.split_data "- a: b" = ("", "a: b", true)
  /\ Parser.split_data "Panel" = ("Panel", "", false).
Proof.
  destruct (split_line "url" " http://host:80/") as (Hcolon & _ & _).
  destruct (split_line "Panel" " a: b") as (_ & Hdash & Hplain).
  split_and!.
  - apply (Hcolon ltac:(reflexivity) ltac:(reflexivity)).
  - exact Hdash.
  - apply (Hplain ltac:(reflexivity) ltac:(reflexivity)).
Defined.

(** ** Parsing lines of keys and values *)

(** The line [key: value]. *)
Definition kv_line (kv : string * string) : string := fst kv ++ ": " ++ snd kv.

Definition kv_tree (kv : string * string) : tree := Tree (fst kv) (snd kv) true false [].

Definition kv_ok (kv : string * string) : Prop :=
  tag_ok (fst kv) = true /\ fst kv <> ""
  /\ line_value_ok (snd kv) = true /\ snd kv <> "" /\ contains Str.nl (snd kv) = false.

Lemma kv_tree_lines (kv : string * string) :
  kv_ok kv -> tree_lines 0 (kv_tree kv) = [kv_line kv].
Proof.
  intros (_ & Hkey & _ & Hvalue & Hnl).
  unfold kv_tree, kv_line. cbn [tree_lines List.map List.concat app].
  unfold own_lines, header, head, colon, has_value.
  cbn [t_null t_value t_tag t_unique negb andb]. rewrite Hnl. cbn [andb].
  destruct (String.eqb_spec (snd kv) "") as [?|_]; [contradiction|].
  destruct (String.eqb_spec (fst kv) "") as [?|_]; [contradiction|].
  cbn [negb orb app]. change (indent 0) with "".
  change ("" ++ ?x) with x. rewrite append_assoc. reflexivity.
Qed.

Lemma kv_forest_lines (kvs : list (string * string)) :
  Forall kv_ok kvs -> forest_lines 0 (List.map kv_tree kvs) = List.map kv_line kvs.
Proof.
  unfold forest_lines. induction 1 as [|kv kvs Hkv _ IH]; [reflexivity|].
  cbn [List.map List.concat]. rewrite (kv_tree_lines kv Hkv), IH. reflexivity.
Qed.

Lemma kv_parsed (kv : string * string) :
  kv_ok kv -> parsed (kv_tree kv) = kv_tree kv.
Proof.
  intros (_ & Hkey & _ & Hvalue & Hnl). unfold kv_tree. cbn [parsed List.map]. f_equal.
  unfold parsed_unique, header, head, colon, has_value.
  cbn [t_null t_value t_tag t_unique]. rewrite Hnl.
  destruct (String.eqb_spec (snd kv) "") as [?|_]; [contradiction|].
  destruct (String.eqb_spec (fst kv) "") as [?|_]; [contradiction|].
  cbn [negb orb]. rewrite !append_assoc. rewrite contains_append.
  destruct (contains ":" (fst kv)); reflexivity.
Qed.

Lemma kv_keys_ok (kvs : list (string * string)) :
  forall seen : list (string * bool),
    Forall kv_ok kvs ->
    NoDup (List.map fst kvs) ->
    (forall k, k ∈ seen -> fst k ∉ List.map fst kvs) ->
    keys_ok seen (List.map key (List.map kv_tree kvs)) = true.
Proof.
  induction kvs as [|kv kvs IH]; intros seen Hok Hnd Hseen; [reflexivity|].
  inversion Hok as [|? ? Hkv Hrest]; subst.
  cbn [List.map] in Hnd. apply NoDup_cons in Hnd as [Hfresh Hnd].
  cbn [List.map keys_ok]. apply andb_true_iff. split.
  - apply forallb_forall. intros k Hk. apply list_elem_of_In in Hk.
    apply negb_true_iff. unfold clash, key, kv_tree. cbn [fst t_tag].
    destruct (String.eqb_spec (fst k) (fst kv)) as [Heq|_].
    + exfalso. apply (Hseen k Hk). rewrite Heq. cbn [List.map]. left.
    + rewrite andb_false_r. reflexivity.
  - apply IH; [exact Hrest|exact Hnd|].
    intros k Hk. apply elem_of_app in Hk as [Hk|Hk].
    + intros Hin. apply (Hseen k Hk). cbn [List.map]. right. exact Hin.
    + apply list_elem_of_singleton in Hk as ->. unfold key, kv_tree. cbn [fst t_tag].
      exact Hfresh.
Qed.

Lemma kv_wf (kvs : list (string * string)) :
  Forall kv_ok kvs -> NoDup (List.map fst kvs) ->
  wf_forest (List.map kv_tree kvs) = true.
Proof.
  intros Hok Hnd. unfold wf_forest. apply andb_true_iff. split.
  - apply kv_keys_ok; [exact Hok|exact Hnd|]. intros k Hk. inversion Hk.
  - apply forallb_forall. intros t Ht. apply List.in_map_iff in Ht as (kv & <- & Hin).
    rewrite List.Forall_forall in Hok. destruct (Hok kv Hin) as (Htag & _ & Hvalue & _ & Hnl).
    unfold kv_tree. cbn [wf List.map keys_ok forallb]. rewrite !andb_true_r.
    unfold node_ok. cbn [t_tag t_null t_value t_children]. rewrite Htag, Hnl. exact Hvalue.
Qed.

Lemma kv_tags (h : heap) (lo : nat) (kvs : list (string * string)) :
  forall (cs : list ptr) (x : ptr),
    Forall2 (repr h lo) (List.map kv_tree kvs) cs -> x ∈ cs ->
    Node.tag h x ∈ List.map fst kvs.
Proof.
  induction kvs as [|kv kvs IH]; intros cs x Hcs Hx; cbn [List.map] in Hcs.
  - inversion Hcs; subst. inversion Hx.
  - inversion Hcs as [|? c ? cs' Hc Hcs']; subst. cbn [List.map].
    apply elem_of_cons in Hx as [->|Hx].
    + apply repr_unfold in Hc. destruct Hc as (_ & Htag & _).
      unfold Node.tag. rewrite Htag. left.
    + right. apply (IH cs' x Hcs' Hx).
Qed.

(** X20. A text of lines [key: value] with distinct keys parses into a
    document with one child for each line, in order, and [valueAt] gives
    for every key the value of its line.  Keys are trimmed, without colon
    and not led by a dash or a comment mark; values are trimmed, on one
    line, and none of [~], [|], [|-], [|+]. *)
Theorem parse_key_values (kvs : list (string * string)) (h0 : heap) (source : string)
    (Hok : Forall kv_ok kvs) (Hdistinct : NoDup (List.map fst kvs)) :
  exists h',
    OTMLDocument_parse h0 (Stream.open (join_lines (List.map kv_line kvs))) source
    = Ok (h', length h0)
    /\ Node.size h' (length h0) = Z.of_nat (length kvs)
    /\ (forall k v, (k, v) ∈ kvs -> Node.valueAt (T := string) h' (length h0) k = Ok v).
Proof.
  destruct (parse_document (List.map kv_tree kvs) h0 source (kv_wf kvs Hok Hdistinct))
    as (h' & Hparse & Hchildren).
  rewrite (kv_forest_lines kvs Hok) in Hparse.
  assert (Hparsed : List.map parsed (List.map kv_tree kvs) = List.map kv_tree kvs).
  { clear - Hok. induction Hok as [|kv kvs Hkv _ IH]; [reflexivity|].
    cbn [List.map]. rewrite (kv_parsed kv Hkv), IH. reflexivity. }
  rewrite Hparsed in Hchildren. exists h'. split_and!.
  - exact Hparse.
  - unfold Node.size. apply Forall2_length in Hchildren.
    rewrite <- Hchildren, length_map. reflexivity.
  - intros k v Hin. apply list_elem_of_split in Hin as (pre & post & ->).
    rewrite List.map_app in Hchildren. cbn [List.map] in Hchildren.
    apply Forall2_app_inv_l in Hchildren as (cpre & crest & Hpre & Hrest & Hcs).
    apply Forall2_cons_inv_l in Hrest as (c & cpost & Hc & Hpost & ->).
    apply repr_unfold in Hc. destruct Hc as (_ & Htag & Hvalue & _ & Hnull & _).
    cbn [kv_tree t_tag t_value t_null fst snd] in Htag, Hvalue, Hnull.
    unfold Node.valueAt, Node.at_. rewrite Hcs.
    rewrite (get_loop_first h' k cpre cpost c).
    + outcome_simpl. unfold Node.value. rewrite Hvalue. reflexivity.
    + intros x Hx Hxt. exfalso.
      rewrite List.map_app in Hdistinct. cbn [List.map fst] in Hdistinct.
      apply NoDup_app in Hdistinct as (_ & Hdisj & _).
      apply (Hdisj k).
      * rewrite <- Hxt. apply (kv_tags h' 0 pre cpre x Hpre Hx).
      * left.
    + exact Htag.
    + exact Hnull.
Qed.

Lemma parse_key_values_witness :
  exists h',
    OTMLDocument_parse [] (Stream.open (join_lines ["width: 120"; "title: a: b"])) "ui"
    = Ok (h', 0%nat)
    /\ Node.valueAt (T := string) h' 0%nat "title" = Ok "a: b".
Proof.
  destruct (parse_key_values [("width", "120"); ("title", "a: b")] [] "ui")
    as (h' & Hparse & _ & Hread).
  - repeat constructor; try discriminate.
  - cbn [List.map fst]. repeat constructor.
    + intros Hin. apply list_elem_of_singleton in Hin. discriminate.
    + intros Hin. inversion Hin.
  - exists h'. split; [exact Hparse|]. apply Hread. right. left.
Defined.

(** ** Emitting below the top level *)

Lemma indent_add (d k : nat) : indent (d + k) = indent d ++ indent k.
Proof.
  induction d as [|d IH]; [reflexivity|].
  change (S d + k)%nat with (S (d + k)). rewrite !indent_S, IH. reflexivity.
Qed.

Lemma tree_lines_shift (t : tree) :
  forall d k : nat,
    tree_lines (d + k) t = List.map (String.append (indent d)) (tree_lines k t).
Proof.
  induction t as [tag value unique null children IH] using tree_induction.
  intros d k. set (t := Tree tag value unique null children) in *.
  rewrite !tree_lines_unfold, List.map_app. f_equal.
  - unfold own_lines. cbn [List.map]. rewrite indent_add, append_assoc. f_equal.
    destruct (negb (t_null t) && contains Str.nl (t_value t)); [|reflexivity].
    unfold block_lines. rewrite List.map_map. apply List.map_ext. intros piece.
    rewrite <- append_assoc. f_equal. rewrite <- indent_add, Nat.add_succ_r. reflexivity.
  - unfold forest_lines. cbn [t_children t]. rewrite List.concat_map, List.map_map.
    f_equal. induction IH as [|c cs Hc _ IHcs]; [reflexivity|].
    cbn [List.map]. rewrite <- (Hc d (S k)), Nat.add_succ_r, IHcs. reflexivity.
Qed.

(** No tag of the tree holds a newline. *)
Fixpoint one_line_tags (t : tree) : bool :=
  match t with
  | Tree tag _ _ _ children =>
      negb (contains Str.nl tag) && forallb one_line_tags children
  end.

Lemma header_one_line (t : tree) :
  contains Str.nl (t_tag t) = false -> contains Str.nl (header t) = false.
Proof.
  intros Htag.
  assert (Hhead : contains Str.nl (head t) = false).
  { unfold head. destruct (String.eqb (t_tag t) ""); [reflexivity|].
    rewrite contains_append, Htag. destruct (colon t); reflexivity. }
  unfold header. destruct (t_null t).
  - rewrite contains_append, Hhead. reflexivity.
  - destruct (has_value t); [|exact Hhead].
    rewrite !contains_append, Hhead. cbn [orb].
    change (contains Str.nl " ") with false. cbn [orb].
    destruct (contains Str.nl (t_value t)) eqn:Hv; [|exact Hv].
    destruct (style_cases (t_value t)) as [-> | [-> | ->]]; reflexivity.
Qed.

(** The lines the emitter writes are the lines of its text: none of them
    holds a newline, when no tag does. *)
Lemma tree_lines_one_line (t : tree) :
  one_line_tags t = true ->
  forall d, Forall (fun l => contains Str.nl l = false) (tree_lines d t).
Proof.
  induction t as [tag value unique null children IH] using tree_induction.
  set (t := Tree tag value unique null children).
  intros Htags d. cbn [one_line_tags] in Htags.
  apply andb_true_iff in Htags as [Htag Hrest]. apply negb_true_iff in Htag.
  rewrite tree_lines_unfold. apply Forall_app. split.
  - rewrite own_lines_unfold. constructor.
    + rewrite contains_append, contains_indent by reflexivity.
      apply header_one_line. exact Htag.
    + unfold more_lines. destruct (negb (t_null t) && contains Str.nl (t_value t));
        [|constructor].
      unfold block_lines, block_pieces. apply List.Forall_map.
      eapply Forall_impl; [apply Forall_drop_last_empty, lines_pieces_no_newline|].
      intros piece Hpiece. cbv beta in *.
      rewrite contains_append, Hpiece, contains_indent by reflexivity. reflexivity.
  - change (t_children t) with children. unfold forest_lines.
    clear - IH Hrest. induction IH as [|c cs Hc _ IHcs]; [constructor|].
    cbn [List.map List.concat]. cbn [forallb] in Hrest.
    apply andb_true_iff in Hrest as [Hc1 Hcs]. apply Forall_app. split.
    + apply Hc. exact Hc1.
    + apply IHcs. exact Hcs.
Qed.

(** X15. The text of a tree emitted [d] levels down has the lines of the
    text [emit()] gives for it at the top, each of them, the lines of
    block values included, behind [2 * d] more spaces; this for a tree
    none of whose tags holds a newline (the part of a tag behind a newline
    is written as it is, without spaces before it). *)
Theorem emit_indentation (h : heap) (lo : nat) (t : tree) (p : ptr) (d fuel : nat)
    (Hrepr : repr h lo t p) (Hlone : emittable_tree t)
    (Hfuel : (height t <= fuel)%nat) (Htags : one_line_tags t = true) :
  exists text shifted,
    OTMLNode_emit fuel h p = Ok text
    /\ OTMLEmitter.emitNode fuel h p (Z.of_nat d) = Ok shifted
    /\ Str.lines shifted
       = List.map (String.append (Str.repeat "  " d)) (Str.lines text).
Proof.
  exists (join_lines (tree_lines 0 t)), (join_lines (tree_lines d t)). split_and!.
  - apply (emitNode_tree_lines t h lo p 0 fuel Hrepr Hlone Hfuel).
  - apply (emitNode_tree_lines t h lo p d fuel Hrepr Hlone Hfuel).
  - rewrite !lines_join_lines
      by first [apply tree_lines_nonempty | apply tree_lines_one_line; exact Htags].
    rewrite <- (Nat.add_0_r d) at 1. rewrite tree_lines_shift. reflexivity.
Qed.

Lemma emit_indentation_witness :
  exists text shifted,
    OTMLNode_emit 2 null_child_heap 3%nat = Ok text
    /\ OTMLEmitter.emitNode 2 null_child_heap 3%nat 2 = Ok shifted
    /\ Str.lines shifted = List.map (String.append "    ") (Str.lines text).
Proof.
  apply (emit_indentation null_child_heap 0 (Tree "c" "" false false [Tree "d" "" false true []])
           3%nat 2 2).
  - cbv. repeat constructor.
  - cbv. repeat split; discriminate.
  - vm_compute. lia.
  - reflexivity.
Defined.

(** A tag that holds a newline: the text emitted two levels down is not
    the text of the top level with every line behind four spaces, since
    the second line of the tag stays as it is. *)
Lemma emit_tag_newline :
  let h := [Node.setTag ("a" ++ String Str.nl "b") OTMLNode_new] in
  OTMLNode_emit 1 h 0%nat = Ok ("a" ++ String Str.nl "b")
  /\ OTMLEmitter.emitNode 1 h 0%nat 2 = Ok ("    a" ++ String Str.nl "b")
  /\ Str.lines ("    a" ++ String Str.nl "b") = ["    a"; "b"].
Proof. vm_compute. split_and!; reflexivity. Qed.

(** ** Appending list entries *)

Lemma writeIn_eq {T : Type} `{Cast T string} (h : heap) (self : ptr) (v : T) (s : string) :
  cast v = Some s ->
  Node.writeIn h self v
  = Ok (Node.addChild
          (h ++ [Node.setValue s (Node.setUnique false (Node.setTag "" OTMLNode_new))])
          self (length h)).
Proof.
  intros Hs. unfold Node.writeIn, Node.create, alloc, Node.write, safeCast.
  rewrite Hs. outcome_simpl. rewrite update_app_last. reflexivity.
Qed.

(** X11. [writeIn] always appends: the node has one child more, the new entry
    is the last one and holds the value written, and the entries that were
    there keep their places and their values. *)
Theorem writeIn_appends {T : Type} `{Cast T string} `{Cast string T}
    (h : heap) (self : ptr) (v : T) (s : string)
    (Hself : (self < length h)%nat)
    (Hvalid : forall x, x ∈ m_children (deref h self) -> (x < length h)%nat)
    (Hs : cast v = Some s) (Hback : cast s = Some v) :
  exists h',
    Node.writeIn h self v = Ok h'
    /\ Node.size h' self = Node.size h self + 1
    /\ Node.valueAtIndex (T := T) h' self (Node.size h self) = Ok v
    /\ (forall i, 0 <= i < Node.size h self ->
          Node.valueAtIndex (T := T) h' self i = Node.valueAtIndex h self i)
    /\ (forall i, 0 <= i < Node.size h self ->
          Node.getIndex h' self i = Node.getIndex h self i).
Proof.
  set (n := Node.setValue s (Node.setUnique false (Node.setTag "" OTMLNode_new))).
  exists (Node.addChild (h ++ [n]) self (length h)).
  split; [apply writeIn_eq; exact Hs|].
  destruct (addChild_new_node h self n Hself Hvalid) as (Hlen & Hfields & Happ & _).
  cbv zeta in Hlen, Hfields, Happ.
  set (h' := Node.addChild (h ++ [n]) self (length h)) in *.
  specialize (Happ ltac:(left; reflexivity)).
  assert (Hsize : Node.size h' self = Node.size h self + 1).
  { unfold Node.size. rewrite Happ, length_app. cbn [length]. lia. }
  assert (Hsource : Node.source h' self = Node.source h self).
  { unfold Node.source. destruct (Hfields self) as (_ & _ & -> & _).
    rewrite deref_app_l by exact Hself. reflexivity. }
  assert (Hold : forall i, 0 <= i < Node.size h self ->
             exists c, m_children (deref h self) !! Z.to_nat i = Some c
                       /\ m_children (deref h' self) !! Z.to_nat i = Some c
                       /\ Node.value (T := T) h' c = Node.value h c).
  { intros i Hi. unfold Node.size in Hi.
    destruct (lookup_lt_is_Some_2 (m_children (deref h self)) (Z.to_nat i) ltac:(lia))
      as [c Hc].
    exists c. split_and!; [exact Hc|rewrite Happ; apply lookup_app_l_Some; exact Hc|].
    assert (Hcv : (c < length h)%nat).
    { apply Hvalid. apply (list_elem_of_lookup_2 _ (Z.to_nat i)). exact Hc. }
    destruct (Hfields c) as (_ & Hv & Hsrc & _). unfold Node.value, Node.source.
    rewrite Hv, Hsrc, deref_app_l by exact Hcv. reflexivity. }
  split_and!.
  - exact Hsize.
  - unfold Node.valueAtIndex, Node.atIndex. rewrite Hsize.
    destruct (Z.leb_spec (Node.size h self + 1) (Node.size h self)) as [?|_]; [lia|].
    destruct (Z.ltb_spec (Node.size h self) 0) as [Hneg|_];
      [unfold Node.size in Hneg; lia|].
    cbn [orb]. rewrite Happ. unfold Node.size. rewrite Nat2Z.id.
    rewrite lookup_app_r by lia. rewrite Nat.sub_diag. cbn [lookup list_lookup].
    outcome_simpl. unfold Node.value. destruct (Hfields (length h)) as (_ & -> & _).
    rewrite deref_app_last. cbn [n Node.setValue m_value]. rewrite Hback. reflexivity.
  - intros i Hi. destruct (Hold i Hi) as (c & Hc & Hc' & Hv).
    unfold Node.valueAtIndex, Node.atIndex. rewrite Hsize, Hsource.
    destruct (Z.leb_spec (Node.size h self + 1) i) as [?|_]; [lia|].
    destruct (Z.leb_spec (Node.size h self) i) as [?|_]; [lia|].
    destruct (Z.ltb_spec i 0) as [?|_]; [lia|].
    cbn [orb]. rewrite Hc, Hc'. outcome_simpl. exact Hv.
  - intros i Hi. destruct (Hold i Hi) as (c & Hc & Hc' & _).
    unfold Node.getIndex. rewrite Hsize.
    destruct (Z.ltb_spec i (Node.size h self + 1)) as [_|?]; [|lia].
    destruct (Z.ltb_spec i (Node.size h self)) as [_|?]; [|lia].
    destruct (Z.leb_spec 0 i) as [_|?]; [|lia].
    cbn [andb]. rewrite Hc, Hc'. reflexivity.
Qed.

Lemma writeIn_appends_witness :
  exists h',
    Node.writeIn null_child_heap 3%nat "entry" = Ok h'
    /\ Node.size h' 3%nat = 2
    /\ Node.valueAtIndex (T := string) h' 3%nat 1 = Ok "entry".
Proof.
  destruct (writeIn_appends null_child_heap 3%nat "entry" "entry")
    as (h' & Heq & Hsize & Hlast & _).
  - vm_compute. lia.
  - intros x Hx. vm_compute in Hx. elem_cases Hx. vm_compute. lia.
  - reflexivity.
  - reflexivity.
  - exists h'. split_and!; [exact Heq|rewrite Hsize; vm_compute; reflexivity|exact Hlast].
Defined.

(** ** Line numbers *)

(** The node was made from a line of the text and cites it: its source is
    the source of the document followed by the number of the line, and
    its tag is the tag of that line. *)
Definition cites (ls : list string) (source : string) (n : OTMLNode) : Prop :=
  exists (k : nat) (line : string),
    ls !! k = Some line
    /\ m_source n = source ++ ":" ++ Str.of_Z (Z.of_nat (S k))
    /\ m_tag n = fst (fst (Parser.split_data (Str.trim line))).

Definition sourced (ls : list string) (source : string) (h0 h : heap) : Prop :=
  forall q, (length h0 < q < length h)%nat -> cites ls source (deref h q).

(** The line counter is the number of lines read: what is left of the
    stream is the text behind that many lines. *)
Definition aligned (ls : list string) (p : OTMLParser) : Prop :=
  0 <= currentLine p
  /\ (eofbit (in_ p) = true
      \/ (Stream.good (in_ p) = true /\ unread (in_ p) <> []
          /\ unread (in_ p) = drop (Z.to_nat (currentLine p)) ls)).

(** The text of an exception of the document: the source and the line
    are named when the document has a source. *)
Definition error_text (source message : string) (line : nat) : string :=
  "OTML error"
  ++ (if String.eqb source "" then ""
      else " in '" ++ source ++ "' at line " ++ Str.of_Z (Z.of_nat line))
  ++ ": " ++ message.

(** The exception names a line of the text that has the defect it
    reports. *)
Definition reported (ls : list string) (source : string) (e : exn) : Prop :=
  exists (k : nat) (line message : string),
    ls !! k = Some line
    /\ e = OTMLException (error_text source message (S k))
    /\ ((message = "indentation with tabs are not allowed"
         /\ Str.at_ line (Z.of_nat (Str.leading_spaces line)) = Some Str.tab)
        \/ (message = "must indent every 2 spaces"
            /\ Z.of_nat (Str.leading_spaces line) mod 2 <> 0)
        \/ message = "invalid indentation depth, are you indenting correctly?").

Lemma drop_cons_lookup {A : Type} (l : list A) (n : nat) (x : A) (rest : list A) :
  drop n l = x :: rest -> l !! n = Some x /\ drop (S n) l = rest.
Proof.
  revert n. induction l as [|y l IH]; intros n Hdrop.
  - rewrite drop_nil in Hdrop. discriminate.
  - destruct n as [|n].
    + cbn in Hdrop. injection Hdrop as -> ->. split; reflexivity.
    + cbn in Hdrop. apply IH in Hdrop. exact Hdrop.
Qed.

Lemma doc_error_text (source message : string) (k : nat) :
  OTMLException_doc (Some source) message (Z.of_nat (S k))
  = OTMLException (error_text source message (S k)).
Proof.
  unfold OTMLException_doc, error_text. destruct (String.eqb source ""); [reflexivity|].
  replace (0 <=? Z.of_nat (S k)) with true by (symmetry; apply Z.leb_le; lia).
  reflexivity.
Qed.

Lemma getLineDepth_reported (ls : list string) (source : string) (p : OTMLParser)
    (line : string) (multilining : bool) (k : nat) (e : exn) :
  Parser.getLineDepth p line multilining = Throw e ->
  Node.source (mem p) (doc p) = source ->
  ls !! k = Some line -> currentLine p = Z.of_nat (S k) ->
  reported ls source e.
Proof.
  intros Hthrow Hsource Hline Hcount. unfold Parser.getLineDepth in Hthrow.
  destruct (negb multilining || _); [|discriminate].
  destruct (Str.at_ line (Z.of_nat (Str.leading_spaces line))) as [c|] eqn:Hat;
    [|discriminate].
  destruct (Ascii.eqb_spec c Str.tab) as [->|_].
  - injection Hthrow as <-. exists k, line, "indentation with tabs are not allowed".
    split_and!; [exact Hline| |left; split; [reflexivity|exact Hat]].
    unfold Parser.tabs_error. rewrite Hsource, Hcount. apply doc_error_text.
  - destruct (Z.eqb_spec (Z.of_nat (Str.leading_spaces line) mod 2) 0) as [|Hodd];
      cbn [negb] in Hthrow; [discriminate|].
    injection Hthrow as <-. exists k, line, "must indent every 2 spaces".
    split_and!; [exact Hline| |right; left; split; [reflexivity|exact Hodd]].
    unfold Parser.spaces_error. rewrite Hsource, Hcount. apply doc_error_text.
Qed.

Lemma aligned_next (ls : list string) (p : OTMLParser) (line : string) (rest : list string) :
  aligned ls p -> Stream.good (in_ p) = true -> unread (in_ p) = line :: rest ->
  let q := snd (Parser.getNextLine p) in
  ls !! Z.to_nat (currentLine p) = Some line
  /\ currentLine q = Z.of_nat (S (Z.to_nat (currentLine p)))
  /\ aligned ls q
  /\ mem q = mem p /\ doc q = doc p.
Proof.
  intros [Hpos Hal] Hgood Hline q.
  assert (Heof : eofbit (in_ p) = false).
  { unfold Stream.good in Hgood. apply andb_true_iff in Hgood as [He _].
    apply negb_true_iff in He. exact He. }
  destruct Hal as [Hal|(_ & _ & Hdrop)]; [congruence|].
  rewrite Hline in Hdrop. symmetry in Hdrop.
  apply drop_cons_lookup in Hdrop as [Hlook Hrest].
  unfold q. rewrite (getNextLine_good p line rest Hgood Hline). cbn [snd].
  cbn [Parser.set_in Parser.set_currentLine currentLine in_ mem doc].
  split_and!; try reflexivity.
  - exact Hlook.
  - lia.
  - unfold aligned. cbn [Parser.set_in Parser.set_currentLine currentLine in_].
    split; [lia|]. destruct rest as [|next rest]; [left; reflexivity|right].
    split_and!; [reflexivity|discriminate|].
    cbn [unread]. rewrite <- Hrest. f_equal. lia.
Qed.

Lemma block_loop_aligned (ls : list string) (source : string) (fuel : nat) :
  forall p acc,
    aligned ls p -> Node.source (mem p) (doc p) = source ->
    match Parser.block_loop fuel p acc with
    | Ok (_, p') => aligned ls p'
    | Throw e => reported ls source e
    | _ => True
    end.
Proof.
  induction fuel as [|fuel IH]; intros p acc Hal Hsource; [exact I|].
  destruct (Stream.good (in_ p)) eqn:Hgood.
  - destruct (unread (in_ p)) as [|line rest] eqn:Hline.
    { destruct Hal as [_ [Heof|(_ & Hne & _)]]; [|contradiction].
      unfold Stream.good in Hgood. rewrite Heof in Hgood. discriminate. }
    destruct (aligned_next ls p line rest Hal Hgood Hline)
      as (Hlook & Hcount & Hq & Hmem & Hdoc).
    destruct (Parser.getLineDepth (snd (Parser.getNextLine p)) line true)
      as [depth| | |] eqn:Hd.
    + rewrite (block_loop_step fuel p acc line rest depth Hgood Hline Hd).
      set (q := snd (Parser.getNextLine p)) in *.
      assert (Hcont : forall data,
                 match (if Stream.eof (in_ q) then Ok (data, q)
                        else Parser.block_loop fuel q data) with
                 | Ok (_, p') => aligned ls p'
                 | Throw e => reported ls source e
                 | _ => True
                 end).
      { intros data. destruct (Stream.eof (in_ q)); [exact Hq|].
        apply IH; [exact Hq|]. rewrite Hmem, Hdoc. exact Hsource. }
      destruct (currentDepth p <? depth); [apply Hcont|].
      destruct (String.eqb (Str.trim line) ""); [apply Hcont|exact Hal].
    + assert (Heq : Parser.block_loop (S fuel) p acc = Throw e).
      { pose proof Hd as Hd'.
        cbn [Parser.block_loop]. unfold Stream.tellg. rewrite Hgood, set_in_same.
        rewrite (getNextLine_good p line rest Hgood Hline).
        rewrite (getNextLine_good p line rest Hgood Hline) in Hd'. cbn [snd] in Hd'.
        rewrite Hd'. reflexivity. }
      rewrite Heq.
      apply (getLineDepth_reported ls source _ line true (Z.to_nat (currentLine p)) e Hd);
        [|exact Hlook|exact Hcount].
      rewrite Hmem, Hdoc. exact Hsource.
    + assert (Heq : Parser.block_loop (S fuel) p acc = Undefined u).
      { cbn [Parser.block_loop]. unfold Stream.tellg. rewrite Hgood, set_in_same.
        rewrite (getNextLine_good p line rest Hgood Hline).
        rewrite (getNextLine_good p line rest Hgood Hline) in Hd. cbn [snd] in Hd.
        rewrite Hd. reflexivity. }
      rewrite Heq. exact I.
    + assert (Heq : Parser.block_loop (S fuel) p acc = OutOfFuel).
      { cbn [Parser.block_loop]. unfold Stream.tellg. rewrite Hgood, set_in_same.
        rewrite (getNextLine_good p line rest Hgood Hline).
        rewrite (getNextLine_good p line rest Hgood Hline) in Hd. cbn [snd] in Hd.
        rewrite Hd. reflexivity. }
      rewrite Heq. exact I.
  - (* the stream is not good: the read fails and gives an empty line *)
    destruct Hal as [Hpos Hal].
    cbn [Parser.block_loop]. unfold Stream.tellg. rewrite Hgood.
    unfold Parser.getNextLine, Stream.getline.
    cbn [Parser.set_in Parser.set_currentLine in_ eofbit failbit unread currentLine].
    unfold Stream.good at 1. cbn [eofbit failbit]. rewrite andb_false_r.
    rewrite getLineDepth_blank. outcome_simpl.
    cbn [Parser.set_in Parser.set_currentLine in_ currentDepth Stream.eof eofbit unread].
    change (Str.trim "") with "". cbn [String.eqb negb].
    assert (Heof : eofbit (in_ p) = true).
    { destruct Hal as [Heof|(Hg & _)]; [exact Heof|congruence]. }
    rewrite Heof.
    destruct (currentDepth p <? 0);
      (split; [cbn [Parser.set_in Parser.set_currentLine currentLine]; lia|left; reflexivity]).
Qed.

Lemma build_node_source (h : heap) (doc : ptr) (tag value : string) (colon : bool)
    (line : string) :
  (doc < length h)%nat ->
  Parser.build_node h doc tag value colon line =
    ((h ++ [parsed_node tag value colon (Node.source h doc ++ ":" ++ line)])%list, length h).
Proof.
  intros Hdoc. unfold Parser.build_node, Node.create, alloc.
  rewrite !update_app_last. unfold Node.source. rewrite deref_app_l by exact Hdoc.
  destruct (String.eqb value "~") eqn:Hv;
    unfold parsed_node; rewrite ?update_app_last, Hv; reflexivity.
Qed.

Lemma block_policy_no_throw (value data : string) (e : exn) :
  Parser.block_policy value data <> Throw e.
Proof.
  assert (Hstrip : forall n s e', Parser.strip_loop n s <> Throw e').
  { induction n as [|n IH]; intros s e'; [discriminate|].
    cbn [Parser.strip_loop]. destruct (Str.at_ s (Z.of_nat n)) as [c|]; [|discriminate].
    destruct (Ascii.eqb c Str.nl); [apply IH|discriminate]. }
  unfold Parser.block_policy. destruct (_ || _); [|discriminate].
  destruct (Parser.strip_loop _ data) eqn:Hs; outcome_simpl; try discriminate.
  exfalso. exact (Hstrip _ _ _ Hs).
Qed.

Lemma ascend_no_throw (n : nat) (h : heap) (e : exn) :
  forall start, Parser.ascend n h start <> Throw e.
Proof.
  induction n as [|n IH]; intros start; [discriminate|].
  cbn [Parser.ascend]. destruct start; [apply IH|discriminate].
Qed.

Lemma building_source (h0 : heap) (source : string) (p : OTMLParser) :
  building h0 source p ->
  Node.source (mem p) (doc p) = source /\ (doc p < length (mem p))%nat.
Proof.
  intros (_ & Hdoc & Hlen & _ & Hroot & _). split; [|lia].
  unfold Node.source. rewrite Hdoc.
  change (m_source (Node.setChildren [] (deref (mem p) (length h0))) = source).
  rewrite Hroot. reflexivity.
Qed.

(** The parser state that [parseNode] finds: it has just read line [k] of
    the text. *)
Lemma read_value_aligned (ls : list string) (source : string) (fuel : nat)
    (p : OTMLParser) (value : string) :
  aligned ls p -> Node.source (mem p) (doc p) = source ->
  match Parser.read_value fuel p value with
  | Ok (_, q) =>
      aligned ls q /\ mem q = mem p /\ doc q = doc p /\ currentParent q = currentParent p
  | Throw e => reported ls source e
  | _ => True
  end.
Proof.
  intros Hal Hsource. unfold Parser.read_value.
  destruct (Parser.is_block_header value); [|split_and!; [exact Hal|reflexivity..]].
  pose proof (block_loop_aligned ls source fuel p "" Hal Hsource) as Hb.
  destruct (Parser.block_loop fuel p "") as [[m q]| | |] eqn:Hloop; outcome_simpl;
    try exact I; [|exact Hb].
  destruct (Parser.block_policy value m) eqn:Hpol; outcome_simpl; try exact I.
  - destruct (block_loop_frame fuel p "" m q Hloop) as (H1 & H2 & H3 & _).
    split_and!; assumption.
  - exfalso. exact (block_policy_no_throw _ _ _ Hpol).
Qed.

Lemma lines_parseNode (h0 : heap) (source : string) (ls : list string) (fuel : nat)
    (p : OTMLParser) (k : nat) (line : string) :
  linked h0 -> building h0 source p -> aligned ls p -> sourced ls source h0 (mem p) ->
  ls !! k = Some line -> currentLine p = Z.of_nat (S k) ->
  match Parser.parseNode fuel p (Str.trim line) with
  | Ok p' => aligned ls p' /\ sourced ls source h0 (mem p')
  | Throw e => reported ls source e
  | _ => True
  end.
Proof.
  intros Hl0 Hb Hal Hsrc Hlook Hcount.
  destruct (building_source h0 source p Hb) as [Hsource Hdocv].
  destruct Hb as (Hl & Hdoc & Hlen & Hold & Hroot & Hcur & Hprev).
  unfold Parser.parseNode.
  destruct (Parser.split_data (Str.trim line)) as [[tag value] colon] eqn:Hsplit.
  pose proof (read_value_aligned ls source fuel p value Hal Hsource) as Hread.
  destruct (Parser.read_value fuel p value) as [[v q]| | |]; outcome_simpl;
    try exact I; [|exact Hread].
  destruct Hread as (Halq & Hmem & Hdocq & Hcurq).
  unfold safeCast. cbn [cast cast_int_string]. outcome_simpl.
  rewrite build_node_source by (rewrite Hmem, Hdocq; exact Hdocv).
  rewrite Hmem, Hdocq, Hsource, Hcurq, Hcount.
  destruct (currentParent p) as [parent|] eqn:Hparent; [|exact I].
  set (n := parsed_node tag v colon _).
  set (h1 := (mem p ++ [n])%list).
  destruct (Hcur parent eq_refl) as [Hpb Hpv].
  assert (Hlen1 : length h1 = S (length (mem p))).
  { unfold h1. rewrite length_app. cbn [length]. lia. }
  assert (Hold1 : forall x, (x < length (mem p))%nat -> deref h1 x = deref (mem p) x).
  { intros x Hx. apply deref_app_l. exact Hx. }
  assert (Hnew : deref h1 (length (mem p)) = n) by apply deref_app_last.
  assert (Hchildren : forall x, x ∈ m_children (deref h1 parent) ->
                        (length h0 <= x < length (mem p))%nat).
  { intros x Hx. rewrite Hold1 in Hx by exact Hpv.
    apply (proj1 (built_above h0 (mem p) parent Hl0 Hl ltac:(lia) Hold ltac:(lia)) x Hx). }
  destruct (addChild_frame h1 parent (length (mem p)) ltac:(lia) ltac:(lia))
    as (Hlen' & _ & Hcontent & _).
  { intros x Hx. pose proof (Hchildren x Hx). lia. }
  split.
  - destruct Halq as [Hpos Hrest]. split; [exact Hpos|exact Hrest].
  - cbn [Parser.set_previousNode Parser.set_mem mem].
    intros x Hx. rewrite Hlen', Hlen1 in Hx.
    assert (Hfields : m_source (deref (Node.addChild h1 parent (length (mem p))) x)
                      = m_source (deref h1 x)
                      /\ m_tag (deref (Node.addChild h1 parent (length (mem p))) x)
                         = m_tag (deref h1 x)).
    { pose proof (Hcontent x) as Hc. split.
      - apply (f_equal m_source) in Hc. exact Hc.
      - apply (f_equal m_tag) in Hc. exact Hc. }
    destruct Hfields as [Hs Ht].
    destruct (decide (x = length (mem p))) as [->|Hne].
    + exists k, line. rewrite Hs, Ht, Hnew. split_and!.
      * exact Hlook.
      * reflexivity.
      * rewrite Hsplit. reflexivity.
    + destruct (Hsrc x ltac:(lia)) as (k' & line' & Hk' & Hs' & Ht').
      exists k', line'. rewrite Hs, Ht, Hold1 by lia. split_and!; assumption.
Qed.

Lemma lines_parseLine (h0 : heap) (source : string) (ls : list string) (fuel : nat)
    (p : OTMLParser) (k : nat) (line : string) :
  linked h0 -> building h0 source p -> aligned ls p -> sourced ls source h0 (mem p) ->
  ls !! k = Some line -> currentLine p = Z.of_nat (S k) ->
  match Parser.parseLine fuel p line with
  | Ok p' => aligned ls p' /\ sourced ls source h0 (mem p')
  | Throw e => reported ls source e
  | _ => True
  end.
Proof.
  intros Hl0 Hb Hal Hsrc Hlook Hcount.
  destruct (building_source h0 source p Hb) as [Hsource _].
  unfold Parser.parseLine.
  destruct (Parser.getLineDepth p line false) as [depth| | |] eqn:Hd; outcome_simpl;
    try exact I;
    [|exact (getLineDepth_reported ls source p line false k _ Hd Hsource Hlook Hcount)].
  destruct (depth =? -1); [split; assumption|].
  destruct (String.eqb (Str.trim line) ""); [split; assumption|].
  destruct (String.eqb (Str.take 2 (Str.trim line)) "//"); [split; assumption|].
  pose proof Hb as (Hl & Hdoc & Hlen & Hold & Hroot & Hcur & Hprev).
  assert (Hset : forall q : option ptr,
             (forall c, q = Some c -> (length h0 <= c < length (mem p))%nat) ->
             match Parser.parseNode fuel
                     (Parser.set_currentDepth depth (Parser.set_currentParent q p))
                     (Str.trim line) with
             | Ok p' => aligned ls p' /\ sourced ls source h0 (mem p')
             | Throw e => reported ls source e
             | _ => True
             end).
  { intros q Hq. apply (lines_parseNode h0 source ls fuel _ k line Hl0).
    - unfold building.
      cbn [Parser.set_currentDepth Parser.set_currentParent mem doc currentParent
           previousNode].
      split_and!; assumption.
    - exact Hal.
    - exact Hsrc.
    - exact Hlook.
    - exact Hcount. }
  destruct (depth =? currentDepth p + 1); outcome_simpl.
  - apply Hset, Hprev.
  - destruct (depth <? currentDepth p).
    + destruct (Parser.ascend _ (mem p) (currentParent p)) as [q| | |] eqn:Hasc;
        outcome_simpl; try exact I.
      * apply Hset.
        apply (building_ascend h0 (mem p) _ Hl0 Hl ltac:(lia) Hold _ _ Hcur Hasc).
      * exfalso. exact (ascend_no_throw _ _ _ _ Hasc).
    + destruct (negb (depth =? currentDepth p)); outcome_simpl.
      * exists k, line, "invalid indentation depth, are you indenting correctly?".
        split_and!; [exact Hlook| |right; right; reflexivity].
        unfold Parser.depth_error. rewrite Hsource, Hcount. apply doc_error_text.
      * assert (Hsame : Parser.set_currentDepth depth p
                        = Parser.set_currentDepth depth
                            (Parser.set_currentParent (currentParent p) p))
          by (destruct p; reflexivity).
        rewrite Hsame. apply Hset, Hcur.
Qed.

Lemma lines_parse_loop (h0 : heap) (source : string) (ls : list string) (fuel : nat) :
  linked h0 ->
  forall p, building h0 source p -> aligned ls p -> sourced ls source h0 (mem p) ->
    match Parser.parse_loop fuel p with
    | Ok p' => sourced ls source h0 (mem p')
    | Throw e => reported ls source e
    | _ => True
    end.
Proof.
  intros Hl0. induction fuel as [|fuel IH]; intros p Hb Hal Hsrc; [exact I|].
  cbn [Parser.parse_loop]. destruct (Stream.eof (in_ p)) eqn:Heof; [exact Hsrc|].
  pose proof Hal as [Hpos [Heof'|(Hgood & Hne & Hdrop)]];
    [unfold Stream.eof in Heof; congruence|].
  destruct (unread (in_ p)) as [|line rest] eqn:Hline; [contradiction|].
  destruct (aligned_next ls p line rest Hal Hgood Hline)
    as (Hlook & Hcount & Hq & Hmem & Hdoc).
  assert (Hbq : building h0 source (snd (Parser.getNextLine p))).
  { rewrite (getNextLine_good p line rest Hgood Hline). exact Hb. }
  assert (Hsq : sourced ls source h0 (mem (snd (Parser.getNextLine p)))).
  { rewrite Hmem. exact Hsrc. }
  rewrite (getNextLine_good p line rest Hgood Hline) in *. cbn [snd] in *.
  set (q := Parser.set_in _ _) in *.
  pose proof (lines_parseLine h0 source ls (S (length (unread (in_ q)))) q _ line
                Hl0 Hbq Hq Hsq Hlook Hcount) as HL.
  destruct (Parser.parseLine _ q line) as [q'| | |] eqn:Hpl; outcome_simpl;
    try exact I; [|exact HL].
  destruct HL as [Halq' Hsq'].
  apply IH; [|exact Halq'|exact Hsq'].
  apply (building_parseLine h0 source _ q q' line Hl0 Hbq Hpl).
Qed.

(** X21. Line numbers.  Every node the parser makes cites the line it
    came from: its source is the source of the document, a colon and the
    number of the line that holds its header, counted from 1, and its tag
    is the tag of that line; for a block scalar this is the line of the
    header, not a line of the block.  Every exception the parser throws
    has the text [OTML error in 'source' at line N: message], without
    source and line when the source is empty, where N is the number of a
    line of the text; for the two messages about indentation that line
    has the defect reported: a tab after its leading spaces, or an odd
    number of leading spaces. *)
Theorem parse_line_numbers (h : heap) (text source : string) (Hlinked : linked h) :
  match OTMLDocument_parse h (Stream.open text) source with
  | Ok (h', root) =>
      forall q, (root < q < length h')%nat -> cites (Str.lines text) source (deref h' q)
  | Throw e => reported (Str.lines text) source e
  | _ => True
  end.
Proof.
  unfold OTMLDocument_parse, alloc, Parser.parse.
  cbn [Parser.new in_ Stream.open Stream.good eofbit failbit negb andb unread mem doc].
  set (p0 := Parser.new (h ++ [Node.setSource source OTMLNode_new]) (length h)
               (Stream.open text)).
  assert (Hb0 : building h source p0).
  { unfold building, p0. cbn [Parser.new mem doc currentParent previousNode].
    split_and!.
    - apply linked_alloc; [reflexivity|reflexivity|exact Hlinked].
    - reflexivity.
    - rewrite length_app. cbn [length]. lia.
    - intros q Hq. apply deref_app_l. exact Hq.
    - rewrite deref_app_last. reflexivity.
    - intros c [= <-]. rewrite length_app. cbn [length]. lia.
    - discriminate. }
  assert (Hal0 : aligned (Str.lines text) p0).
  { unfold aligned, p0. cbn [Parser.new currentLine in_ Stream.open eofbit unread].
    split; [lia|right]. split_and!; [reflexivity|apply lines_nonempty|reflexivity]. }
  assert (Hs0 : sourced (Str.lines text) source h (mem p0)).
  { intros q Hq. unfold p0 in Hq. cbn [Parser.new mem] in Hq.
    rewrite length_app in Hq. cbn [length] in Hq. lia. }
  pose proof (lines_parse_loop h source (Str.lines text)
                (S (length (Str.lines text))) Hlinked p0 Hb0 Hal0 Hs0) as HL.
  destruct (Parser.parse_loop _ p0) as [p'| | |]; outcome_simpl; try exact I; exact HL.
Qed.

Lemma parse_line_numbers_witness :
  linked []
  /\ OTMLDocument_parse [] (Stream.open ("a: 1" ++ String Str.nl (String Str.tab "b: 2"))) "cfg"
     = Throw (OTMLException
                "OTML error in 'cfg' at line 2: indentation with tabs are not allowed")
  /\ reported (Str.lines ("a: 1" ++ String Str.nl (String Str.tab "b: 2"))) "cfg"
       (OTMLException
          "OTML error in 'cfg' at line 2: indentation with tabs are not allowed").
Proof.
  split; [exact linked_nil|].
  pose proof (parse_line_numbers [] ("a: 1" ++ String Str.nl (String Str.tab "b: 2")) "cfg"
                linked_nil) as Hreport.
  assert (Hthrow : OTMLDocument_parse []
                     (Stream.open ("a: 1" ++ String Str.nl (String Str.tab "b: 2"))) "cfg"
                   = Throw (OTMLException
                       "OTML error in 'cfg' at line 2: indentation with tabs are not allowed"))
    by (vm_compute; reflexivity).
  rewrite Hthrow in Hreport. split; [exact Hthrow|exact Hreport].
Defined.
